(* ===== verification/_CoqProject ===== *)
-Q . S2P
Prelude.v
Buffer.v
Header.v
Net.v
Question.v
Record.v
Packet.v
Wire.v
Cache.v
Text.v
Domains.v
Svcb.v
Ip.v
Acl.v
Policy.v
Rebind.v
Stats.v
Srtt.v
Overrides.v
Services.v
QueryLog.v
Pp2.v
Zones.v
Peers.v
Forward.v
Shape.v
Coalesce.v
Local.v
Async.v
Recursive.v
Canon.v
Denial.v
Dnssec.v
Resolve.v
Query.v
Secure.v
Health.v
Api.v
Admin.v
Mdns.v
Listeners.v
Serving.v
SystemDns.v
Bootstrap.v
Config.v
Startup.v
Odoh.v
Relay.v
