(* ===== verification/Prelude.v ===== *)
(** * Numa: a verification library

    Numa is a caching DNS resolver that blocks, overrides, forwards and recursively resolves
    names for the machines of a local network. This library models its core, the Rust sources
    under [src/src/], as Rocq functions, and proves what makes it correct.

    ** The program and its files here

    A datagram is parsed, resolved and answered as follows; each step names the source and the
    file of this directory that models it.

    - Messages: [buffer.rs] ([Buffer]), [header.rs] ([Header]), [question.rs] ([Question]),
      [record.rs] ([Record]), [packet.rs] ([Packet]): the buffer of 4096 bytes, the codec of
      names with compression and escapes, all record types, EDNS. [wire.rs] ([Wire]): scanning
      and patching TTLs in raw messages. [svcb.rs] ([Svcb]): editing SVCB and HTTPS data.
    - The gate: [pp2.rs], [pp2_udp.rs] ([Pp2]) and [acl.rs] ([Acl]).
    - The query pipeline of [ctx.rs]: [Local] (the state [ServerCtx], and the stages that
      answer without leaving the machine), [Resolve] (cache, forwarding, recursion, upstream,
      coalescing, background refresh, the alias chase, [resolve_query], [handle_query]),
      [Coalesce] (the in-flight map as a transition system over concurrent calls), [Shape]
      (shaping and serialising); [Query] proves the pipeline as a whole.
    - What the pipeline consults: [cache.rs] ([Cache]), [blocklist.rs] and [domain_list.rs]
      ([Domains]), [client_policy.rs] ([Policy]), [override_store.rs] ([Overrides]),
      [service_store.rs] ([Services]), the zones of [config.rs] and the forwarding rules of
      [system_dns.rs] ([Zones]), the peers of [lan.rs] ([Peers]), [rebind.rs] ([Rebind]),
      [stats.rs] ([Stats]), [query_log.rs] ([QueryLog]).
    - DNSSEC, [dnssec.rs]: [Canon] (signed data, key tags, key formats, signatures, delegations),
      [Denial] (NSEC and NSEC3), [Dnssec] (the chain of trust and the verdict on a response); it
      implements the interface [Validator] through which [Resolve] and [Query] see it, and
      [Secure] joins the two.
    - Upstream: [forward.rs] ([Forward]: addresses, pools, hedging, failover), [srtt.rs]
      ([Srtt]) and [recursive.rs] ([Recursive]).
    - The ways in: [Listeners] models the datagram loop of [serve.rs], the framed streams of
      [tcp.rs] and [dot.rs], DNS over HTTPS of [doh.rs] and the HTTP proxy of [proxy.rs];
      [Serving] proves what they promise.
    - Administration: [Api] models the handlers of [api.rs] over the same state (and the names of
      the certificate of [tls.rs]), [Health] the report of [health.rs]; [Admin] proves what
      requests do to queries.
    - The local network: [Mdns] models the announcements of [lan.rs], built, parsed and taken
      into [Peers].
    - Around the server: [SystemDns] models what [system_dns.rs] finds in the settings of macOS
      and Linux and how it installs and removes the server there, [Bootstrap] the resolver of
      [bootstrap_resolver.rs] for the server's own requests, [Config] the upstream, oblivious
      and forwarding settings of [config.rs] with the first pool of [serve.rs], [Startup] the rest
      of the start in [serve.rs] and its background tasks, with the downloads of [blocklist.rs],
      [Odoh] the oblivious client of [odoh.rs] and [Relay] the relay of [relay.rs], each over a
      state of its own.
    - Shared: this file (machine integers, [outcome], positions in byte strings), [Net] and
      [Ip] (addresses and their text), [Text] (string functions), [Async] (asynchronous code).

    ** How code becomes definitions

    A [u8], [u16], [u32], [u64] is a [Z] with its wrap-around ([as_u8], [as_u16], ...)
    written out; texts and byte vectors are [list Z]. A function that returns a [Result] or
    [Option], or can panic, returns an [outcome]: [Ok], [Err], [Panic] (slice and index
    errors, [expect], arithmetic on instants) or [OutOfFuel]. A structure is a [Record], an
    enum an [Inductive], a [HashMap] a [gmap], a set a [gset]; where the order of iteration of
    a hash map matters, the order is an argument ([iter] in [Cache], [keys] in [Srtt]), and
    the theorems hold for every order. Methods taking [&mut self] return the new state.
    Instants are nanoseconds. Code in [async fn]s is a resumption of [Async]: it reads and
    writes the shared state ([World]) between awaits, and awaits the network, a timer or a
    broadcast; a run is driven by an argument that says which pending operation ends, with what
    result, and what other tasks have made of the state meanwhile. The clock is read once per
    stretch without awaits. Futures that are raced ([tokio::select!]) are polled in order; a
    failover over a pool is one await whose loop is in [Forward]; how long anything takes,
    timeouts included, is part of the network argument.

    Code outside [src/] is an interface: Unicode case mapping ([Lowercase], [Uppercase]), the
    [ipnet] crate ([NetLib]), the [proxy_header] crate ([ProxyLib]), the [ring] crate's
    signatures and digests ([Crypto]), the system's calendar clock ([WallClock]), the making and
    loading of certificates ([TlsLib]), the [base64] crate ([Base64Lib]), URLs and registrable domains
    ([UrlLib]) and the [odoh_rs] crate ([OdohLib]). The parser of URIs
    and the text of IPv6 addresses are arguments of the proxy. Handlers of the HTTP API run at
    once: other tasks see the state before or after them.

    ** What is proved

    - Codec: parsing any bytes returns and never panics, what it yields can be written again
      and is then stable; written packets and names are read back; writing has the exact
      outcome its wire image says; reading a name ends whatever the pointers do.
    - Raw messages: scanned offsets are safe to patch, and patching equals re-encoding.
    - Stores: invariants of every reachable state, refinement of a flat map by the cache,
      persistence round trips, the decisions of blocklist, policies and allowlists against
      their configuration, expiry, and the panics that configurations can cause.
    - Network choice: hedging answers with the first success and always ends; failover tries
      the upstreams by estimate and reports each once.
    - Coalescing: in every interleaving one resolution per key, every follower gets the
      result of its leader, abandoned keys are released, and cooperating tasks all finish.
    - Pipeline: what leaves the machine and what local stages answer; recursion and the alias
      chase end; every datagram that parses is replied to, but for three exceptions that
      [Query.handled] names, whatever the network and other tasks do; rebinding protection holds of
      the message on the wire. The panics that are left are traced to their place in the run
      ([Async.run_to]): an alias of the chain followed so far that cannot be asked for
      ([Query.unwritable_alias]), or the validator.
    - Listeners: a connection is a conversation ([Serving.conversation]): each message read has its
      reply written next, under its length; datagrams pass the gates or
      vanish; requests over HTTPS are refused or answered with what their query resolves to and the
      age of its shortest TTL; the proxy sends requests to the place whose addresses DNS answers with.
    - Administration: every API request is replied to and leaves a state that queries can be
      answered from, so queries are answered whatever requests come between their steps
      ([Admin.administered_queries]); overrides and services take effect as requested.
    - The local network: announcements are read back as they were meant, any datagram can be
      read, and the services announced resolve on the servers that hear them.
    - Start and background: the server starts exactly when the whole configuration can be used, in
      a state that every query keeps; its background tasks keep it so; configured rules come before
      discovered ones; what is blocked after the lists were reloaded; its own lookups ask only
      literal servers, or nobody; oblivious set-ups separate relay and target, and
      oblivious queries tell the relay nothing but sealed messages, with bounded
      retries, which the relay passes on unread and which come back answered; what is discovered is not
      the server itself; what uninstalling gives back.
    - DNSSEC: signed data depends on the record set only; key tags and DER keys are what the
      standards say; the NSEC and NSEC3 records of a zone deny exactly what it does not have, and
      what the answers proved by them say of the zone; validation ends, and a secure verdict comes with a chain
      of signatures from a pinned root key. Strict validation holds of the messages sent.
    - What does not hold: the error theorems of [Dnssec], [Denial] and [Secure], the theorems of
      [Query] under "What the pipeline does not protect from", the end of [Serving.doh_gate],
      [Mdns.long_announcement_misheard], [Startup.fallback_downgraded], the ends of
      [Startup.reloaded_lists] and [Startup.background_keeps_serving], [SystemDns.linux_uninstall_restores],
      [SystemDns.mac_install_reversible], [SystemDns.search_domains_misrouted], [Recursive.referral_outside_the_zone], [Cache.insert_panics_iff],
      [Domains.pause_spec] and [Overrides.override_duration_panic] state behaviours of the code
      that its comments or its purpose do not expect.

    ** Fuel

    Loops that are not structural take fuel: [qname_fuel] is seven passes over the buffer,
    since a name jumps at most six times and otherwise moves forward; [RESOLVE_FUEL] (108) is
    nine levels of aliases of twelve referral levels each, the limits of [recursive.rs];
    [CHASE_FUEL] (9) is one more than the aliases a chase follows; [CHAIN_FUEL] (12) is one turn
    for each depth of delegation from 0 to one beyond the limit of [dnssec.rs]; the others are lengths of
    what is walked. That the fuel suffices is part of the theorems ([read_qname_total],
    [from_buffer_total], [resolve_recursive_total], [chase_settles], [validation_sound]): no result is
    [OutOfFuel].

    ** Not modelled

    Socket, TLS and HTTP exchanges, the piping of bodies through the proxy, static pages and the
    profiles for phones are I/O around what is modelled; log text, [heap_bytes] and memory probes
    are left out; the structures that serde fills from files are taken as given. Of
    [system_dns.rs] Windows, the service managers, the copying of the binary and the trust stores
    are left out: they run commands of the operating system in a fixed order. *)
From Stdlib Require Export ZArith Lia.
From Stdlib Require Import Ascii.
From Stdlib Require Export Sorted.
From stdpp Require Export base gmap sets list strings numbers.
Export list_basics.list list_relations.list list_monad.list list_misc.list list_tactics.list list_numbers.list.

Global Open Scope Z_scope.

(** * Bytes, strings and machine integers *)

(** A [Vec<u8>], a [&[u8]] and the UTF-8 bytes of a [String] or [&str] are all
    lists of integers; [is_byte] is the range of a [u8]. *)
Abbreviation bytes := (list Z).

Definition is_byte (z : Z) : Prop := 0 <= z < 256.
Definition is_u16 (z : Z) : Prop := 0 <= z < 2 ^ 16.
Definition is_u32 (z : Z) : Prop := 0 <= z < 2 ^ 32.

Abbreviation all_bytes := (Forall is_byte).

#[export] Instance is_byte_dec z : Decision (is_byte z).
Proof. unfold is_byte. apply _. Defined.
#[export] Instance is_u16_dec z : Decision (is_u16 z).
Proof. unfold is_u16. apply _. Defined.
#[export] Instance is_u32_dec z : Decision (is_u32 z).
Proof. unfold is_u32. apply _. Defined.

(** [x as u8], [x as u16], [x as u32], [x as u64]: truncating casts, and the wrapping
    arithmetic of the release build. *)
Definition as_u8 (z : Z) : Z := z mod 2 ^ 8.
Definition as_u16 (z : Z) : Z := z mod 2 ^ 16.
Definition as_u32 (z : Z) : Z := z mod 2 ^ 32.
Definition as_u64 (z : Z) : Z := z mod 2 ^ 64.

(** The bytes of an ASCII literal of the source. *)
Fixpoint str (s : string) : bytes :=
  match s with
  | EmptyString => []
  | String c s' => Z.of_N (N_of_ascii c) :: str s'
  end.

(** The length of a slice, as the [usize] the code computes with. *)
Definition len {A} (l : list A) : Z := Z.of_nat (length l).

(** [u8::to_ascii_lowercase], [u8::is_ascii_digit]. *)
Definition to_ascii_lowercase (b : Z) : Z :=
  if (65 <=? b) && (b <=? 90) then b + 32 else b.
Definition to_ascii_uppercase (b : Z) : Z :=
  if (97 <=? b) && (b <=? 122) then b - 32 else b.
Definition is_ascii_digit (b : Z) : bool := (48 <=? b) && (b <=? 57).

(** [str::to_ascii_lowercase] and [str::eq_ignore_ascii_case]. *)
Definition ascii_lower (s : bytes) : bytes := map to_ascii_lowercase s.
Definition ascii_upper (s : bytes) : bytes := map to_ascii_uppercase s.
Definition eq_ignore_ascii_case (a b : bytes) : bool :=
  bool_decide (ascii_lower a = ascii_lower b).

(** [str::to_lowercase] follows the Unicode tables of the standard library; the
    development takes it as an interface, whose law is its behaviour on ASCII text. *)
Class Lowercase := to_lowercase : bytes → bytes.
Class LowercaseLaws `{Lowercase} : Prop :=
  to_lowercase_ascii s : Forall (λ b, 0 <= b < 128) s → to_lowercase s = ascii_lower s.

(** Big-endian encodings: [u16::to_be_bytes], [u32::to_be_bytes] and back. *)
Definition be16 (v : Z) : bytes := [as_u8 (Z.shiftr v 8); Z.land v 255].
Definition be32 (v : Z) : bytes :=
  [Z.land (Z.shiftr v 24) 255; Z.land (Z.shiftr v 16) 255;
   Z.land (Z.shiftr v 8) 255; Z.land v 255].
Definition from_be16 (a b : Z) : Z := Z.lor (Z.shiftl a 8) b.
Definition from_be32 (a b c d : Z) : Z :=
  Z.lor (Z.lor (Z.lor (Z.shiftl a 24) (Z.shiftl b 16)) (Z.shiftl c 8)) d.

(** A lower-casing function that follows the law; witnesses use it. *)
Definition lowercase_ascii : Lowercase := ascii_lower.
Lemma lowercase_ascii_laws : @LowercaseLaws lowercase_ascii.
Proof. done. Qed.

(** * Outcomes of a Rust call

    A [Result<T>] is [Ok] or [Err]; [Panic] is a panic (an index out of range, an
    [expect] on an error, ...), and [OutOfFuel] marks a loop whose fuel ran out.
    The panic-freedom theorems exclude both of the last two, so that they also
    state termination. *)
Inductive error :=
  | EndOfBuffer
  | JumpLimitExceeded (limit : Z)
  | ReservedLabelBits (length_byte : Z)
  | TrailingBackslash
  | InvalidDecimalEscape
  | EscapeOutOfRange (value : Z)
  | LabelTooLong
  | RdataTooShort (what : string)
  | WireTooShort
  | WireTruncated (where_ : string)
  | NoneValue
  | Message (what : string).

Inductive outcome (A : Type) :=
  | Ok (a : A)
  | Err (e : error)
  | Panic
  | OutOfFuel.
Arguments Ok {A} a.
Arguments Err {A} e.
Arguments Panic {A}.
Arguments OutOfFuel {A}.

#[export] Instance Ok_inj A : Inj (=) (=) (@Ok A).
Proof. by intros ?? [= ->]. Qed.

#[export] Instance error_eq_dec : EqDecision error.
Proof. solve_decision. Defined.

Definition obind {A B} (o : outcome A) (k : A → outcome B) : outcome B :=
  match o with
  | Ok a => k a
  | Err e => Err e
  | Panic => Panic
  | OutOfFuel => OutOfFuel
  end.

Definition is_ok {A} (o : outcome A) : bool := match o with Ok _ => true | _ => false end.
Definition is_err {A} (o : outcome A) : bool := match o with Err _ => true | _ => false end.

(** A function returning [Option] that can also panic is an [outcome] whose [None] is
    the error [NoneValue]; its [?] is then the same as for results. *)
Definition none {A} : outcome A := Err NoneValue.

(** The call returned to its caller: no panic, no exhausted fuel. *)
Definition returns {A} (o : outcome A) : Prop :=
  match o with Ok _ | Err _ => True | Panic | OutOfFuel => False end.

(** [o.ok_or(e)?] on an option. *)
Definition ok_or {A} (o : option A) (e : error) : outcome A :=
  match o with Some a => Ok a | None => Err e end.

(** [Instant + Duration::from_secs(s)], instants being nanoseconds: the addition panics
    when the result does not fit the 64-bit signed seconds of the platform's clock. *)
Definition instant_limit : Z := 2 ^ 63 * 1000000000.
Definition instant_add (now secs : Z) : outcome Z :=
  let t := now + secs * 1000000000 in if t <? instant_limit then Ok t else Panic.

Declare Scope outcome_scope.
Delimit Scope outcome_scope with outcome.
Notation "'let?' x ':=' m 'in' k" := (obind m (fun x => k))
  (at level 10, x pattern, m at level 100, k at level 200) : outcome_scope.

(** * Slices *)

(** [s[i]] for an index the code has bounds-checked; [None] is a panic. *)
Definition index {A} (l : list A) (i : Z) : option A :=
  if i <? 0 then None else l !! Z.to_nat i.

(** [&s[a..b]]: panics unless [a <= b <= s.len()]. *)
Definition slice {A} (l : list A) (a b : Z) : option (list A) :=
  if (0 <=? a) && (a <=? b) && (b <=? len l)
  then Some (take (Z.to_nat (b - a)) (drop (Z.to_nat a) l))
  else None.

(** [s[i] = v] on a mutable slice; out of range is a panic. *)
Definition store {A} (l : list A) (i : Z) (v : A) : option (list A) :=
  if (0 <=? i) && (i <? len l) then Some (<[Z.to_nat i := v]> l) else None.

(** * Generic lemmas *)

Create HintDb numa.
Create Rewrite HintDb numa.

Section lists.
  Context {A : Type}.
  Implicit Types l k : list A.

Lemma len_nil : len (@nil A) = 0.
  Proof. done. Qed.
Lemma len_cons x l : len (x :: l) = 1 + len l.
  Proof. unfold len. cbn [length]. lia. Qed.
Lemma len_app l k : len (l ++ k) = len l + len k.
  Proof. unfold len. rewrite length_app. lia. Qed.
Lemma len_nonneg l : 0 <= len l.
  Proof. unfold len. lia. Qed.
Lemma len_take n l : 0 <= n <= len l → len (take (Z.to_nat n) l) = n.
  Proof. unfold len. rewrite length_take. lia. Qed.
Lemma len_drop n l : 0 <= n <= len l → len (drop (Z.to_nat n) l) = len l - n.
  Proof. unfold len. rewrite length_drop. lia. Qed.
Lemma len_zero l : len l = 0 → l = [].
  Proof. destruct l; [done|]. rewrite len_cons. pose proof (len_nonneg l). lia. Qed.
Lemma len_map {B} (f : A → B) l : len (map f l) = len l.
  Proof. unfold len. by rewrite length_map. Qed.
Lemma to_nat_len l : Z.to_nat (len l) = length l.
  Proof. unfold len. lia. Qed.

Lemma index_nonneg l i x : index l i = Some x → 0 <= i < len l.
  Proof.
    unfold index, len. destruct (Z.ltb_spec i 0); [done|].
    intros Hi%lookup_lt_Some. lia.
  Qed.
Lemma index_lookup l i : 0 <= i → index l i = l !! Z.to_nat i.
  Proof. intros. unfold index. destruct (Z.ltb_spec i 0); [lia|done]. Qed.
Lemma index_is_Some l i : 0 <= i < len l → ∃ x, index l i = Some x.
  Proof.
    intros. rewrite index_lookup by lia.
    destruct (lookup_lt_is_Some_2 l (Z.to_nat i)) as [x Hx]; eauto.
    unfold len in *. lia.
  Qed.
Lemma index_drop l i x k : 0 <= i → drop (Z.to_nat i) l = x :: k → index l i = Some x.
  Proof.
    intros Hi Hd. rewrite index_lookup by done.
    replace (Z.to_nat i) with (Z.to_nat i + 0)%nat by lia.
    rewrite <- lookup_drop, Hd. done.
  Qed.
Lemma drop_index l i x :
    index l i = Some x → drop (Z.to_nat i) l = x :: drop (Z.to_nat (i + 1)) l.
  Proof.
    intros Hi. pose proof (index_nonneg _ _ _ Hi).
    rewrite index_lookup in Hi by lia.
    rewrite (drop_S l x (Z.to_nat i)) by done. do 2 f_equal. lia.
  Qed.

Lemma slice_Some l a b : 0 <= a → a <= b → b <= len l →
    slice l a b = Some (take (Z.to_nat (b - a)) (drop (Z.to_nat a) l)).
  Proof.
    intros. unfold slice.
    destruct (Z.leb_spec 0 a), (Z.leb_spec a b), (Z.leb_spec b (len l)); by try lia.
  Qed.
End lists.

#[export] Hint Rewrite @len_nil @len_cons @len_app @len_map : numa.

(** [zify_len] puts every [len] of a structured list in linear form, with the
    non-negativity of the remaining ones, and calls [lia]. *)
Ltac len_facts :=
  repeat match goal with
  | |- context [len ?l] => lazymatch goal with
      | _ : 0 <= len l |- _ => fail
      | _ => pose proof (len_nonneg l) end
  | _ : context [len ?l] |- _ => lazymatch goal with
      | _ : 0 <= len l |- _ => fail
      | _ => pose proof (len_nonneg l) end
  end.
(** [lia] with quotients and remainders by constants. *)
Ltac div_lia := Z.div_mod_to_equations; lia.
Ltac len_lia := autorewrite with numa in *; len_facts; lia.

(** Case analysis on the first boolean test of the goal or of a hypothesis. *)
Ltac case_if :=
  match goal with
  | |- context [if ?b then _ else _] => let H := fresh "Hif" in destruct b eqn:H
  | _ : context [if ?b then _ else _] |- _ => let H := fresh "Hif" in destruct b eqn:H
  end.
Ltac bool_prop :=
  repeat match goal with
  | H : (_ && _) = true |- _ => apply andb_prop in H as [? ?]
  | H : (_ && _) = false |- _ => apply andb_false_iff in H
  | H : (_ || _) = true |- _ => apply orb_true_iff in H
  | H : (_ || _) = false |- _ => apply orb_false_elim in H as [? ?]
  | H : negb _ = true |- _ => apply negb_true_iff in H
  | H : negb _ = false |- _ => apply negb_false_iff in H
  | H : (_ =? _) = true |- _ => apply Z.eqb_eq in H
  | H : (_ =? _) = false |- _ => apply Z.eqb_neq in H
  | H : (_ <=? _) = true |- _ => apply Z.leb_le in H
  | H : (_ <=? _) = false |- _ => apply Z.leb_gt in H
  | H : (_ <? _) = true |- _ => apply Z.ltb_lt in H
  | H : (_ <? _) = false |- _ => apply Z.ltb_ge in H
  | H : bool_decide _ = true |- _ => apply bool_decide_eq_true_1 in H
  | H : bool_decide _ = false |- _ => apply bool_decide_eq_false_1 in H
  end.

(** * Byte arithmetic *)

Lemma land_255 v : Z.land v 255 = v mod 256.
Proof. change 255 with (Z.ones 8). rewrite Z.land_ones by lia. done. Qed.

Lemma as_u8_byte v : is_byte (as_u8 v).
Proof. unfold as_u8, is_byte. apply Z.mod_pos_bound. lia. Qed.
Lemma as_u16_u16 v : is_u16 (as_u16 v).
Proof. unfold as_u16, is_u16. apply Z.mod_pos_bound. lia. Qed.
Lemma land_255_byte v : is_byte (Z.land v 255).
Proof. rewrite land_255. unfold is_byte. apply Z.mod_pos_bound. lia. Qed.
#[export] Hint Resolve as_u8_byte as_u16_u16 land_255_byte : numa.

Lemma as_u8_small v : is_byte v → as_u8 v = v.
Proof. unfold is_byte, as_u8. intros. apply Z.mod_small. lia. Qed.
Lemma as_u16_small v : is_u16 v → as_u16 v = v.
Proof. unfold is_u16, as_u16. intros. apply Z.mod_small. lia. Qed.

Lemma testbit_small b n i : 0 <= b < 2 ^ n → 0 <= n <= i → Z.testbit b i = false.
Proof.
  intros Hb Hi. rewrite <- (Z.mod_small b (2 ^ n)) by done.
  apply Z.mod_pow2_bits_high. lia.
Qed.

(** Disjoint bit fields: [|] of a shifted high part and a small low part is [+]. *)
Lemma lor_shiftl_add a b n : 0 <= n → 0 <= b < 2 ^ n →
  Z.lor (Z.shiftl a n) b = a * 2 ^ n + b.
Proof.
  intros Hn Hb. rewrite <- (Z.shiftl_mul_pow2 a n) by done.
  assert (Hlow : ∀ i, n <= i → Z.testbit b i = false)
    by (intros; apply testbit_small with n; lia).
  symmetry. rewrite Z.add_nocarry_lxor; apply Z.bits_inj'; intros i Hi;
    rewrite ?Z.lxor_spec, ?Z.lor_spec, ?Z.land_spec, ?Z.bits_0;
    destruct (Z.lt_ge_cases i n);
    rewrite ?Z.shiftl_spec_low, ?Hlow, ?andb_false_r, ?xorb_false_r, ?orb_false_r by done;
    by destruct (Z.testbit b i).
Qed.

(** * Sorting by a key

    [slice::sort_by_key] is a stable sort: equal keys keep their order. *)
Section sort_by_key.
Context {A : Type} (f : A → Z).

Fixpoint insert_by_key (x : A) (l : list A) : list A :=
  match l with
  | [] => [x]
  | y :: l' => if f x <=? f y then x :: l else y :: insert_by_key x l'
  end.
Definition sort_by_key (l : list A) : list A := foldr insert_by_key [] l.

Lemma insert_by_key_perm x l : insert_by_key x l ≡ₚ x :: l.
Proof.
  induction l as [|y l IH]; [done|]. cbn. destruct (f x <=? f y); [done|].
  rewrite IH. apply Permutation_swap.
Qed.
Lemma sort_by_key_perm l : sort_by_key l ≡ₚ l.
Proof. induction l as [|x l IH]; [done|]. cbn. by rewrite insert_by_key_perm, IH. Qed.

Lemma insert_by_key_sorted x l : StronglySorted (λ a b, f a <= f b) l →
  StronglySorted (λ a b, f a <= f b) (insert_by_key x l).
Proof.
  induction 1 as [|y l Hl IH Hy]; cbn; [repeat constructor|].
  destruct (Z.leb_spec (f x) (f y)).
  - constructor; [by constructor|]. constructor; [done|].
    eapply Forall_impl; [exact Hy|]. intros z ?. cbn in *. lia.
  - constructor; [done|]. rewrite insert_by_key_perm. constructor; [lia|done].
Qed.
Lemma sort_by_key_sorted l : StronglySorted (λ a b, f a <= f b) (sort_by_key l).
Proof. induction l as [|x l IH]; cbn; [constructor|]. by apply insert_by_key_sorted. Qed.

Lemma insert_by_key_stable k x l :
  List.filter (λ y, f y =? k) (insert_by_key x l) = List.filter (λ y, f y =? k) (x :: l).
Proof.
  induction l as [|y l IH]; [done|]. cbn [insert_by_key]. destruct (Z.leb_spec (f x) (f y)); [done|].
  cbn [List.filter] in *. rewrite IH.
  destruct (Z.eqb_spec (f y) k), (Z.eqb_spec (f x) k); try done. lia.
Qed.
Lemma sort_by_key_stable k l :
  List.filter (λ y, f y =? k) (sort_by_key l) = List.filter (λ y, f y =? k) l.
Proof.
  induction l as [|x l IH]; [done|]. cbn [sort_by_key foldr].
  change (foldr insert_by_key [] l) with (sort_by_key l).
  rewrite insert_by_key_stable. cbn [List.filter]. by rewrite IH.
Qed.
End sort_by_key.
