(* ===== verification/Buffer.v ===== *)
(** [src/src/buffer.rs]: the fixed-size packet buffer and the domain-name codec.

    [BytePacketBuffer] is the record of the source; a method taking [&mut self]
    is a computation of [M], which threads the buffer and keeps its state when it
    fails (the callers look at [overflowed()] after an error). *)
From S2P Require Import Prelude.

Definition BUF_SIZE : Z := 4096.

Record BytePacketBuffer := MkBuffer {
  buf : bytes;
  pos : Z;
  overflow : bool;
}.

(** * The buffer monad *)

Definition M (A : Type) : Type := BytePacketBuffer → outcome A * BytePacketBuffer.

Definition ret {A} (a : A) : M A := λ b, (Ok a, b).
Definition fail {A} (e : error) : M A := λ b, (Err e, b).
Definition bind {A B} (m : M A) (k : A → M B) : M B := λ b,
  match m b with
  | (Ok a, b') => k a b'
  | (Err e, b') => (Err e, b')
  | (Panic, b') => (Panic, b')
  | (OutOfFuel, b') => (OutOfFuel, b')
  end.
(** A pure [Result] used with [?]. *)
Definition lift {A} (o : outcome A) : M A := λ b, (o, b).

Declare Scope buffer_scope.
Delimit Scope buffer_scope with buffer.
Notation "'let!' x ':=' m 'in' k" := (bind m (fun x => k))
  (at level 10, x pattern, m at level 100, k at level 200) : buffer_scope.
Open Scope buffer_scope.

(** * Construction and cursor *)

Definition new : BytePacketBuffer :=
  {| buf := replicate (Z.to_nat BUF_SIZE) 0; pos := 0; overflow := false |}.

Definition from_bytes (data : bytes) : BytePacketBuffer :=
  let n := Z.min (len data) BUF_SIZE in
  {| buf := take (Z.to_nat n) data ++ drop (Z.to_nat n) (buf new);
     pos := 0; overflow := false |}.

Definition get_pos : M Z := λ b, (Ok (pos b), b).

(** [&self.buf[..self.pos]]: panics when a [seek] left the cursor past the end. *)
Definition filled (b : BytePacketBuffer) : outcome bytes :=
  match slice (buf b) 0 (pos b) with Some s => Ok s | None => Panic end.

Definition overflowed (b : BytePacketBuffer) : bool := overflow b.

Definition seek (p : Z) : M unit := λ b,
  (Ok tt, {| buf := buf b; pos := p; overflow := overflow b |}).
Definition step (steps : Z) : M unit := λ b,
  (Ok tt, {| buf := buf b; pos := pos b + steps; overflow := overflow b |}).

(** * Reading *)

Definition get (p : Z) : M Z := λ b,
  if BUF_SIZE <=? p then (Err EndOfBuffer, b)
  else match index (buf b) p with Some v => (Ok v, b) | None => (Panic, b) end.

Definition read : M Z := λ b,
  if BUF_SIZE <=? pos b then (Err EndOfBuffer, b)
  else match index (buf b) (pos b) with
       | Some v => (Ok v, {| buf := buf b; pos := pos b + 1; overflow := overflow b |})
       | None => (Panic, b)
       end.

(** [start.checked_add(len)] on a 64-bit [usize]. *)
Definition checked_add (a b : Z) : option Z :=
  if a + b <? 2 ^ 64 then Some (a + b) else None.

Definition get_range (start n : Z) : M bytes := λ b,
  match checked_add start n with
  | None => (Err EndOfBuffer, b)
  | Some end_ =>
      if BUF_SIZE <? end_ then (Err EndOfBuffer, b)
      else match slice (buf b) start end_ with
           | Some s => (Ok s, b)
           | None => (Panic, b)
           end
  end.

Definition read_u16 : M Z :=
  let! a := read in
  let! b := read in
  ret (from_be16 a b).

Definition read_u32 : M Z :=
  let! a := read in
  let! b := read in
  let! c := read in
  let! d := read in
  ret (from_be32 a b c d).

(** ** Domain names *)

Definition max_jumps : Z := 5.

(** The text of one label byte ([b'.'] is 46, [b'\\'] is 92, [b'0'] is 48). *)
Definition escape_byte (b : Z) : bytes :=
  let c := to_ascii_lowercase b in
  if c =? 46 then [92; 46]
  else if c =? 92 then [92; 92]
  else if (0x21 <=? c) && (c <=? 0x7E) then [c]
  else [92; 48 + c / 100; 48 + (c / 10) mod 10; 48 + c mod 10].

Definition escape_label (label : bytes) : bytes := flat_map escape_byte label.

(** The loop of [read_qname]: [p] is its local cursor, [jumped] whether a
    compression pointer was followed, [delim] the pending separator. *)
Fixpoint read_qname_loop (fuel : nat) (p : Z) (jumped : bool) (jumps : Z)
    (delim outstr : bytes) : M bytes :=
  match fuel with
  | O => lift OutOfFuel
  | S fuel =>
      if max_jumps <? jumps then fail (JumpLimitExceeded max_jumps)
      else
      let! l := get p in
      if Z.land l 0xC0 =? 0xC0 then
        let! _ := (if jumped then ret tt else seek (p + 2)) in
        let! b2 := get (p + 1) in
        let offset := Z.lor (Z.shiftl (Z.lxor l 0xC0) 8) b2 in
        read_qname_loop fuel offset true (jumps + 1) delim outstr
      else if negb (Z.land l 0xC0 =? 0) then fail (ReservedLabelBits l)
      else
        let p := p + 1 in
        if l =? 0 then
          let! _ := (if jumped then ret tt else seek p) in
          ret outstr
        else
          let! label := get_range p l in
          read_qname_loop fuel (p + l) jumped jumps [46]
            (outstr ++ delim ++ escape_label label)
  end.

(** Every turn either jumps (at most six times) or moves the cursor forward
    inside the buffer. *)
Definition qname_fuel : nat := 7 * 4097.

Definition read_qname (outstr : bytes) : M bytes :=
  let! p := get_pos in
  read_qname_loop qname_fuel p false 0 [] outstr.

(** * Writing *)

Definition write (val : Z) : M unit := λ b,
  if BUF_SIZE <=? pos b then
    (Err EndOfBuffer, {| buf := buf b; pos := pos b; overflow := true |})
  else match store (buf b) (pos b) val with
       | Some d => (Ok tt, {| buf := d; pos := pos b + 1; overflow := overflow b |})
       | None => (Panic, b)
       end.

Definition write_u8 (val : Z) : M unit := write val.

Definition write_u16 (val : Z) : M unit :=
  let! _ := write (as_u8 (Z.shiftr val 8)) in
  let! _ := write (Z.land val 255) in
  ret tt.

Definition write_u32 (val : Z) : M unit :=
  let! _ := write (Z.land (Z.shiftr val 24) 255) in
  let! _ := write (Z.land (Z.shiftr val 16) 255) in
  let! _ := write (Z.land (Z.shiftr val 8) 255) in
  let! _ := write (Z.land val 255) in
  ret tt.

Definition write_bytes (data : bytes) : M unit := λ b,
  let end_ := pos b + len data in
  if BUF_SIZE <? end_ then
    (Err EndOfBuffer, {| buf := buf b; pos := pos b; overflow := true |})
  else (Ok tt, {| buf := take (Z.to_nat (pos b)) (buf b) ++ data
                           ++ drop (Z.to_nat end_) (buf b);
                  pos := end_; overflow := overflow b |}).

Definition set (p val : Z) : M unit := λ b,
  if BUF_SIZE <=? p then (Err EndOfBuffer, b)
  else match store (buf b) p val with
       | Some d => (Ok tt, {| buf := d; pos := pos b; overflow := overflow b |})
       | None => (Panic, b)
       end.

Definition set_u16 (p val : Z) : M unit :=
  let! _ := set p (as_u8 (Z.shiftr val 8)) in
  let! _ := set (p + 1) (Z.land val 255) in
  ret tt.

(** The tail of the inner loop's body: write one label byte, then check the
    length of the label so far. *)
Definition put_label_byte (body_start val : Z) : M unit :=
  let! _ := write_u8 val in
  let! p := get_pos in
  if 0x3f <? p - body_start then fail LabelTooLong else ret tt.

(** The inner loop of [write_qname], over the suffix of the name at index [i]:
    writes label bytes until a dot or the end, and returns the suffix there. *)
Fixpoint write_label (body_start : Z) (s : bytes) {struct s} : M bytes :=
  match s with
  | [] => ret []
  | b :: rest =>
      if b =? 46 then ret s
      else if b =? 92 then
        match rest with
        | [] => fail TrailingBackslash
        | c1 :: rest1 =>
            if is_ascii_digit c1 then
              match rest1 with
              | c2 :: c3 :: rest3 =>
                  if negb (is_ascii_digit c2) || negb (is_ascii_digit c3)
                  then fail InvalidDecimalEscape
                  else
                    let val := (c1 - 48) * 100 + (c2 - 48) * 10 + (c3 - 48) in
                    if 255 <? val then fail (EscapeOutOfRange val)
                    else
                      let! _ := put_label_byte body_start val in
                      write_label body_start rest3
              | _ => fail InvalidDecimalEscape
              end
            else
              let! _ := put_label_byte body_start c1 in
              write_label body_start rest1
        end
      else
        let! _ := put_label_byte body_start b in
        write_label body_start rest
  end.

(** The outer loop of [write_qname]; every turn consumes at least one byte. *)
Fixpoint write_qname_loop (fuel : nat) (s : bytes) : M unit :=
  match s with
  | [] => write_u8 0
  | _ =>
      match fuel with
      | O => lift OutOfFuel
      | S fuel =>
          let! len_pos := get_pos in
          let! _ := write_u8 0 in
          let! body_start := get_pos in
          let! rest := write_label body_start s in
          let! p := get_pos in
          let label_len := p - body_start in
          let! _ := (if (label_len =? 0) && (0 <? len rest) then seek len_pos
                     else set len_pos (as_u8 label_len)) in
          write_qname_loop fuel
            (match rest with b :: r => if b =? 46 then r else rest | [] => [] end)
      end
  end.

Definition write_qname (qname : bytes) : M unit :=
  if bool_decide (qname = []) || bool_decide (qname = [46]) then write_u8 0
  else write_qname_loop (length qname) qname.

(** * Specification of the writing side *)

(** A buffer as [new], [from_bytes] and every operation leave it. *)
Definition wf (b : BytePacketBuffer) : Prop := len (buf b) = BUF_SIZE ∧ 0 ≤ pos b.
Definition in_bounds (b : BytePacketBuffer) : Prop := wf b ∧ pos b ≤ BUF_SIZE.

(** The buffer after [w] was appended at the cursor. *)
Definition push (w : bytes) (b : BytePacketBuffer) : BytePacketBuffer :=
  {| buf := take (Z.to_nat (pos b)) (buf b) ++ w ++ drop (Z.to_nat (pos b + len w)) (buf b);
     pos := pos b + len w; overflow := overflow b |}.

(** [appends m w a]: [m] appends exactly the bytes [w] and returns [a] when they
    fit, and otherwise fails with the overflow flag set. *)
Definition appends {A} (m : M A) (w : bytes) (a : A) : Prop :=
  ∀ b, in_bounds b →
    (pos b + len w ≤ BUF_SIZE → m b = (Ok a, push w b)) ∧
    (BUF_SIZE < pos b + len w →
       ∃ b', m b = (Err EndOfBuffer, b') ∧ overflow b' = true).

(** [rejects m]: [m] fails, whatever the buffer. *)
Definition rejects {A} (m : M A) : Prop :=
  ∀ b, in_bounds b → ∃ e b', m b = (Err e, b').

Lemma len_push w b : in_bounds b → pos b + len w ≤ BUF_SIZE → len (buf (push w b)) = BUF_SIZE.
Proof.
  intros [[Hl Hp] Hb] Hw. pose proof (len_nonneg w). cbn [push buf].
  rewrite !len_app, len_take, len_drop by lia. lia.
Qed.

Lemma push_in_bounds w b :
  in_bounds b → pos b + len w ≤ BUF_SIZE → in_bounds (push w b).
Proof.
  intros Hb Hw. pose proof (len_push _ _ Hb Hw). destruct Hb as [[? ?] ?].
  pose proof (len_nonneg w). repeat split; cbn [push pos] in *; try done; lia.
Qed.

Lemma push_nil b : push [] b = b.
Proof.
  destruct b as [d p o]. unfold push. cbn [buf pos overflow].
  rewrite len_nil, Z.add_0_r. simpl. by rewrite take_drop.
Qed.

Lemma take_push w b : in_bounds b → pos b + len w ≤ BUF_SIZE →
  take (Z.to_nat (pos (push w b))) (buf (push w b)) = take (Z.to_nat (pos b)) (buf b) ++ w.
Proof.
  intros [[Hl Hp] Hb] Hw. pose proof (len_nonneg w). cbn [push buf pos].
  rewrite app_assoc. apply take_app_length'.
  rewrite length_app, length_take. unfold len in *. lia.
Qed.

Lemma push_push w1 w2 b : in_bounds b → pos b + len w1 ≤ BUF_SIZE →
  push w2 (push w1 b) = push (w1 ++ w2) b.
Proof.
  intros Hb Hw. pose proof (take_push w1 b Hb Hw) as Ht.
  destruct Hb as [[Hl Hp] Hb]. pose proof (len_nonneg w1). pose proof (len_nonneg w2).
  unfold push at 1. rewrite Ht. unfold push. cbn [buf pos overflow].
  f_equal; [|len_lia].
  rewrite <- !app_assoc. do 3 f_equal.
  rewrite len_app, app_assoc, drop_app.
  rewrite drop_ge by (rewrite length_app, length_take; unfold len in *; lia).
  rewrite length_app, length_take, drop_drop. simpl. f_equal. unfold len in *. lia.
Qed.

Lemma appends_ret {A} (a : A) : appends (ret a) [] a.
Proof. intros b Hb. rewrite len_nil, push_nil. destruct Hb. split; [done|lia]. Qed.

Lemma appends_bind {A B} (m : M A) (k : A → M B) w1 w2 a c :
  appends m w1 a → appends (k a) w2 c → appends (bind m k) (w1 ++ w2) c.
Proof.
  intros Hm Hk b Hb. destruct (Hm b Hb) as [Hok Hfull].
  rewrite len_app. pose proof (len_nonneg w1). pose proof (len_nonneg w2). unfold bind.
  destruct (Z.le_gt_cases (pos b + len w1) BUF_SIZE) as [Hf|Hf].
  - rewrite (Hok Hf). destruct (Hk (push w1 b)) as [Hok2 Hfull2];
      [by apply push_in_bounds|]. cbn [push pos] in Hok2, Hfull2. split; intros.
    + rewrite Hok2 by lia. by rewrite push_push.
    + apply Hfull2. lia.
  - destruct (Hfull Hf) as (b' & -> & Ho). split; [lia|eauto].
Qed.

(** The form used by proofs: the bytes are named up to equality. *)
Lemma appends_bind_eq {A B} (m : M A) (k : A → M B) w1 w2 w a c :
  appends m w1 a → appends (k a) w2 c → w = w1 ++ w2 → appends (bind m k) w c.
Proof. intros ? ? ->. by eapply appends_bind. Qed.

Lemma appends_end {A B} (m : M A) (k : A → M B) w a c :
  appends m w a → appends (k a) [] c → appends (bind m k) w c.
Proof. intros. eapply appends_bind_eq; [done..|]. by rewrite app_nil_r. Qed.

Lemma rejects_bind_l {A B} (m : M A) (k : A → M B) : rejects m → rejects (bind m k).
Proof.
  intros Hm b Hb. destruct (Hm b Hb) as (e & b' & Heq). unfold bind. rewrite Heq. eauto.
Qed.

Lemma rejects_bind_r {A B} (m : M A) (k : A → M B) w a :
  appends m w a → rejects (k a) → rejects (bind m k).
Proof.
  intros Hm Hk b Hb. destruct (Hm b Hb) as [Hok Hfull]. unfold bind.
  destruct (Z.le_gt_cases (pos b + len w) BUF_SIZE) as [Hf|Hf].
  - rewrite (Hok Hf). apply Hk. by apply push_in_bounds.
  - destruct (Hfull Hf) as (b' & -> & _). eauto.
Qed.

Lemma store_push b v : in_bounds b → pos b < BUF_SIZE →
  store (buf b) (pos b) v = Some (buf (push [v] b)).
Proof.
  intros [[Hl Hp] Hb] Hlt. unfold store.
  destruct (Z.leb_spec 0 (pos b)), (Z.ltb_spec (pos b) (len (buf b))); try lia. simpl.
  f_equal. rewrite insert_take_drop by (unfold len in *; lia).
  do 3 f_equal. change (len [v]) with 1. lia.
Qed.

Lemma appends_write v : appends (write v) [v] tt.
Proof.
  intros b Hb. change (len [v]) with 1. unfold write.
  destruct (Z.leb_spec BUF_SIZE (pos b)).
  - split; [lia|]. intros. eexists. by split.
  - rewrite store_push by done. split; [done|lia].
Qed.

Lemma appends_write_u8 v : appends (write_u8 v) [v] tt.
Proof. apply appends_write. Qed.

Lemma appends_write_u16 v : appends (write_u16 v) (be16 v) tt.
Proof.
  eapply appends_bind_eq; [apply appends_write| |reflexivity].
  eapply appends_end; [apply appends_write|apply appends_ret].
Qed.

Lemma appends_write_u32 v : appends (write_u32 v) (be32 v) tt.
Proof.
  do 3 (eapply appends_bind_eq; [apply appends_write| |reflexivity]).
  eapply appends_end; [apply appends_write|apply appends_ret].
Qed.

Lemma appends_write_bytes d : appends (write_bytes d) d tt.
Proof.
  intros b Hb. unfold write_bytes. destruct (Z.ltb_spec BUF_SIZE (pos b + len d)).
  - split; [lia|]. intros. eexists. by split.
  - split; [done|lia].
Qed.

#[export] Hint Resolve appends_ret appends_write appends_write_u8 appends_write_u16
  appends_write_u32 appends_write_bytes : numa.

(** Writing a placeholder of [n] bytes, a body, and then patching the
    placeholder: what [RDLENGTH] and the label lengths do. *)
Lemma store_at_pushed b w v body p : in_bounds b → pos b + len w + 1 + len body ≤ BUF_SIZE →
  p = pos b + len w → ∀ x,
  store (buf (push (w ++ x :: body) b)) p v = Some (buf (push (w ++ v :: body) b)).
Proof.
  intros Hb Hf -> x. pose proof (len_nonneg w). pose proof (len_nonneg body).
  assert (Hl : len (buf (push (w ++ x :: body) b)) = BUF_SIZE)
    by (apply len_push; [done|len_lia]).
  unfold store. rewrite Hl.
  destruct Hb as [[Hl' Hp] Hb]. unfold BUF_SIZE in *.
  destruct (Z.leb_spec 0 (pos b + len w)), (Z.ltb_spec (pos b + len w) 4096); try lia.
  simpl. f_equal. cbn [push buf].
  replace (len (w ++ v :: body)) with (len (w ++ x :: body)) by len_lia.
  rewrite insert_app_r_alt by (rewrite length_take; unfold len in *; lia).
  f_equal. rewrite <- !app_assoc. rewrite length_take.
  replace (Z.to_nat (pos b + len w) - Z.to_nat (pos b) `min` length (buf b))%nat
    with (length w + 0)%nat by (unfold len in *; lia).
  by rewrite insert_app_r.
Qed.

Lemma set_pushed b w v body x : in_bounds b → pos b + len w + 1 + len body ≤ BUF_SIZE →
  set (pos b + len w) v (push (w ++ x :: body) b) = (Ok tt, push (w ++ v :: body) b).
Proof.
  intros Hb Hf. pose proof (len_nonneg body). unfold set.
  destruct (Z.leb_spec BUF_SIZE (pos b + len w)); [lia|].
  rewrite (store_at_pushed b w v body) by done. f_equal. unfold push.
  cbn [buf pos overflow]. f_equal. len_lia.
Qed.

Lemma set_u16_pushed b v body x y : in_bounds b → pos b + 2 + len body ≤ BUF_SIZE →
  set_u16 (pos b) v (push (x :: y :: body) b) = (Ok tt, push (be16 v ++ body) b).
Proof.
  intros Hb Hf. unfold set_u16, bind.
  pose proof (set_pushed b [] (as_u8 (Z.shiftr v 8)) (y :: body) x Hb) as H1.
  rewrite len_nil, Z.add_0_r in H1. simpl app in H1.
  rewrite H1 by len_lia.
  pose proof (set_pushed b [as_u8 (Z.shiftr v 8)] (Z.land v 255) body y Hb) as H2.
  change (len [as_u8 (Z.shiftr v 8)]) with 1 in H2. cbn [app] in H2.
  rewrite H2 by lia. done.
Qed.

(** ** The text of a domain name

    [lex] is one step of the escape grammar of RFC 1035 5.1: the end of the text, a
    separating dot, one byte of a label, or a malformed escape. *)
Inductive lexeme :=
  | LexEnd
  | LexDot (rest : bytes)
  | LexByte (v : Z) (rest : bytes)
  | LexBad (e : error).

Definition lex (s : bytes) : lexeme :=
  match s with
  | [] => LexEnd
  | b :: rest =>
      if b =? 46 then LexDot rest
      else if b =? 92 then
        match rest with
        | [] => LexBad TrailingBackslash
        | c1 :: rest1 =>
            if is_ascii_digit c1 then
              match rest1 with
              | c2 :: c3 :: rest3 =>
                  if negb (is_ascii_digit c2) || negb (is_ascii_digit c3)
                  then LexBad InvalidDecimalEscape
                  else
                    let v := (c1 - 48) * 100 + (c2 - 48) * 10 + (c3 - 48) in
                    if 255 <? v then LexBad (EscapeOutOfRange v) else LexByte v rest3
              | _ => LexBad InvalidDecimalEscape
              end
            else LexByte c1 rest1
        end
      else LexByte b rest
  end.

(** The whole text as label bytes ([Some v]) and separators ([None]). *)
Fixpoint tokens_go (fuel : nat) (s : bytes) : option (list (option Z)) :=
  match fuel with
  | O => Some []
  | S fuel =>
      match lex s with
      | LexEnd => Some []
      | LexDot r => cons None <$> tokens_go fuel r
      | LexByte v r => cons (Some v) <$> tokens_go fuel r
      | LexBad _ => None
      end
  end.
Definition tokens (s : bytes) : option (list (option Z)) := tokens_go (length s) s.

(** Its labels: the maximal runs of bytes between separators, empty runs dropped. *)
Definition flush (cur : bytes) : list bytes :=
  match cur with [] => [] | _ => [cur] end.
Fixpoint labels_of (cur : bytes) (ts : list (option Z)) : list bytes :=
  match ts with
  | [] => flush cur
  | Some b :: ts => labels_of (cur ++ [b]) ts
  | None :: ts => flush cur ++ labels_of [] ts
  end.

Definition short_label (l : bytes) : Prop := len l ≤ 63.
#[export] Instance short_label_dec l : Decision (short_label l).
Proof. unfold short_label. apply _. Defined.

(** The labels a text denotes, if it is well formed and every label is short. *)
Definition name_labels (s : bytes) : option (list bytes) :=
  ts ← tokens s;
  let ls := labels_of [] ts in
  if decide (Forall short_label ls) then Some ls else None.

(** Uncompressed wire form. *)
Definition wire_label (l : bytes) : bytes := len l :: l.
Definition wire_name (ls : list bytes) : bytes := flat_map wire_label ls ++ [0].

Lemma lex_shorter s : match lex s with
  | LexDot r | LexByte _ r => (length r < length s)%nat
  | _ => True end.
Proof.
  unfold lex. destruct s as [|b [|c1 [|c2 [|c3 r]]]]; repeat case_match; simpl; auto;
    simplify_eq; simpl; lia.
Qed.

Lemma tokens_go_enough n m s : (length s ≤ n)%nat → (length s ≤ m)%nat →
  tokens_go n s = tokens_go m s.
Proof.
  revert m s. induction n as [|n IH]; intros m s Hn Hm.
  - destruct s; [|simpl in *; lia]. by destruct m.
  - destruct m as [|m]; [destruct s; [done|simpl in *; lia]|].
    simpl. pose proof (lex_shorter s). destruct (lex s); try done; f_equal; apply IH; lia.
Qed.

Lemma tokens_unfold s : tokens s =
  match lex s with
  | LexEnd => Some []
  | LexDot r => cons None <$> tokens r
  | LexByte v r => cons (Some v) <$> tokens r
  | LexBad _ => None
  end.
Proof.
  unfold tokens. destruct s as [|b s]; [done|]. cbn [length tokens_go].
  pose proof (lex_shorter (b :: s)). cbn [length] in *.
  destruct (lex (b :: s)); try done; f_equal; apply tokens_go_enough; lia.
Qed.

Lemma write_label_unfold bs s : write_label bs s =
  match lex s with
  | LexEnd => ret []
  | LexDot _ => ret s
  | LexByte v r => let! _ := put_label_byte bs v in write_label bs r
  | LexBad e => fail e
  end.
Proof.
  unfold lex. repeat case_match; simplify_eq; simpl; repeat (case_match; try congruence);
    congruence.
Qed.

Lemma labels_of_bytes cur lab ts :
  labels_of cur (map Some lab ++ ts) = labels_of (cur ++ lab) ts.
Proof.
  revert cur. induction lab as [|x lab IH]; intros cur; simpl; [by rewrite app_nil_r|].
  by rewrite IH, <- app_assoc.
Qed.

(** What the inner loop leaves: nothing, or a suffix that starts with a dot. *)
Definition boundary (rest : bytes) : Prop := rest = [] ∨ ∃ r, rest = 46 :: r.

(** How the inner loop behaves on a label that is [used] bytes long already. *)
Definition label_outcome (s lab rest : bytes) : Prop :=
  ∀ bs b, in_bounds b → 0 ≤ pos b - bs ≤ 63 →
    (pos b - bs + len lab ≤ 63 →
       (pos b + len lab ≤ BUF_SIZE → write_label bs s b = (Ok rest, push lab b)) ∧
       (BUF_SIZE < pos b + len lab →
          ∃ b', write_label bs s b = (Err EndOfBuffer, b') ∧ overflow b' = true)) ∧
    (63 < pos b - bs + len lab → ∃ e b', write_label bs s b = (Err e, b')).

Lemma put_label_byte_spec bs v b : in_bounds b → 0 ≤ pos b - bs ≤ 63 →
  put_label_byte bs v b =
    if decide (BUF_SIZE ≤ pos b) then (Err EndOfBuffer, snd (write v b))
    else if decide (pos b - bs = 63) then (Err LabelTooLong, push [v] b)
    else (Ok tt, push [v] b).
Proof.
  intros Hb Hbs. unfold put_label_byte, bind, get_pos, write_u8.
  destruct (appends_write v b Hb) as [Hok Hfull]. change (len [v]) with 1 in *.
  destruct (decide (BUF_SIZE ≤ pos b)).
  - destruct Hfull as (b' & -> & _); [lia|done].
  - rewrite Hok by lia. cbn [push pos]. change (len [v]) with 1.
    destruct (Z.ltb_spec 63 (pos b + 1 - bs)); destruct (decide (pos b - bs = 63)); by try lia.
Qed.

Lemma label_outcome_byte s v r lab rest :
  lex s = LexByte v r → label_outcome r lab rest → label_outcome s (v :: lab) rest.
Proof.
  intros Hlex Hr bs b Hb Hbs. rewrite write_label_unfold, Hlex, len_cons.
  pose proof (len_nonneg lab). unfold bind at 1 2 3. rewrite put_label_byte_spec by done.
  destruct (decide (BUF_SIZE ≤ pos b)) as [Hfull|Hroom].
  { split; [split; [lia|]|]; intros; [|by eauto].
    destruct (appends_write v b Hb) as [_ (b' & -> & ?)]; [change (len [v]) with 1; lia|eauto]. }
  destruct (decide (pos b - bs = 63)); [split; [lia|by eauto]|].
  destruct (Hr bs (push [v] b)) as [Hshort Hlong];
    [apply push_in_bounds; [done|change (len [v]) with 1; lia]
    |cbn [push pos]; change (len [v]) with 1; lia|].
  cbn [push pos] in Hshort, Hlong. change (len [v]) with 1 in Hshort, Hlong.
  split; [|intros; apply Hlong; lia].
  intros Hle. destruct Hshort as [Hok Hov]; [lia|]. split; intros.
  - rewrite Hok by lia. f_equal. apply (push_push [v]); [done|change (len [v]) with 1; lia].
  - apply Hov. lia.
Qed.

Lemma lex_end s : lex s = LexEnd → s = [].
Proof. unfold lex. intros. repeat case_match; by simplify_eq. Qed.
Lemma lex_dot s r : lex s = LexDot r → s = 46 :: r.
Proof. unfold lex. intros. repeat case_match; simplify_eq. by bool_prop; subst. Qed.

Lemma label_outcome_nil s :
  lex s = LexEnd ∨ (∃ r, lex s = LexDot r) → label_outcome s [] s.
Proof.
  intros Hs bs b Hb Hbs. rewrite write_label_unfold, len_nil, push_nil.
  destruct Hb as [? ?]. split; [split|]; intros; try lia.
  destruct Hs as [Hs|[r Hs]]; rewrite Hs; [|done]. by rewrite (lex_end s).
Qed.

(** The inner loop reads one label, or rejects the text. *)
Lemma write_label_spec s :
  (∃ lab rest, boundary rest ∧ tokens s = (λ ts, map Some lab ++ ts) <$> tokens rest ∧
     (length lab + length rest ≤ length s)%nat ∧ (lab = [] → rest = s) ∧
     label_outcome s lab rest) ∨
  (tokens s = None ∧ ∀ bs b, in_bounds b → 0 ≤ pos b - bs ≤ 63 →
     ∃ e b', write_label bs s b = (Err e, b')).
Proof.
  induction s as [s IH] using (Wf_nat.induction_ltof1 _ (@length Z)).
  unfold Wf_nat.ltof in IH. pose proof (lex_shorter s) as Hlen.
  destruct (lex s) as [|r|v r|e] eqn:Hlex.
  - left. exists [], s. split_and!; [left; by apply lex_end| |done|done|].
    + simpl. by destruct (tokens s).
    + apply label_outcome_nil; eauto.
  - left. exists [], s. split_and!; [right; eexists; by apply lex_dot| |done|done|].
    + simpl. by destruct (tokens s).
    + apply label_outcome_nil; eauto.
  - rewrite tokens_unfold, Hlex.
    destruct (IH r Hlen) as [(lab & rest & Hbd & Ht & Hl & _ & Ho)|[Ht Hrej]].
    + left. exists (v :: lab), rest. rewrite Ht.
      split_and!; [done|by destruct (tokens rest)|simpl; lia|done|by eapply label_outcome_byte].
    + right. rewrite Ht. split; [done|]. intros bs b Hb Hbs.
      rewrite write_label_unfold, Hlex. unfold bind. rewrite put_label_byte_spec by done.
      repeat case_decide; [by eauto..|]. change (len [v]) with 1 in *.
      apply Hrej; [apply push_in_bounds; [done|change (len [v]) with 1; lia]|].
      cbn [push pos]. change (len [v]) with 1. lia.
  - right. rewrite tokens_unfold, Hlex. split; [done|]. intros.
    rewrite write_label_unfold, Hlex. by eexists _, _.
Qed.

(** ** The outer loop *)

Definition after_label (rest : bytes) : bytes :=
  match rest with b :: r => if b =? 46 then r else rest | [] => [] end.

(** The placeholder written for an empty label is overwritten by what follows. *)
Lemma push_rollback w b x : in_bounds b → pos b < BUF_SIZE → 0 < len w →
  push w {| buf := buf (push [x] b); pos := pos b; overflow := overflow b |} = push w b.
Proof.
  intros [[Hl Hp] Hb] Hlt Hw. unfold push. cbn [buf pos overflow]. f_equal.
  change (len [x]) with 1. f_equal.
  - rewrite take_app_length'; [done|]. rewrite length_take. unfold len in *. lia.
  - f_equal. rewrite drop_app, drop_ge by (rewrite length_take; unfold len in *; lia).
    rewrite length_take.
    replace (Z.to_nat (pos b + len w) - Z.to_nat (pos b) `min` length (buf b))%nat
      with (S (Z.to_nat (len w - 1))) by (unfold len in *; lia).
    simpl. rewrite drop_drop. f_equal. lia.
Qed.

(** The outer loop on well-formed text, and on text it must reject. *)
Definition name_outcome (m : M unit) (o : option (list bytes)) : Prop :=
  match o with Some ls => appends m (wire_name ls) tt | None => rejects m end.

Definition tokens_labels (o : option (list (option Z))) : option (list bytes) :=
  ts ← o;
  let ls := labels_of [] ts in
  if decide (Forall short_label ls) then Some ls else None.

Lemma tokens_after rest : boundary rest →
  tokens rest = match rest with [] => Some [] | _ => cons None <$> tokens (after_label rest) end.
Proof.
  intros [->|[r ->]]; [done|]. rewrite tokens_unfold. simpl. done.
Qed.

(** The labels after the first one, in terms of the text after it. *)
Lemma tokens_labels_cons lab rest : boundary rest →
  tokens_labels ((λ ts, map Some lab ++ ts) <$> tokens rest) =
    match tokens_labels (tokens (after_label rest)) with
    | Some ls => if decide (short_label lab) then Some (flush lab ++ ls) else None
    | None => None
    end.
Proof.
  intros Hb. rewrite tokens_after by done. unfold tokens_labels.
  assert (Hfl : Forall short_label (flush lab) ↔ short_label lab).
  { destruct lab; simpl; [|by rewrite Forall_singleton].
    split; [done|]. intros; constructor. }
  destruct Hb as [->|[r ->]]; simpl.
  - rewrite labels_of_bytes. simpl. rewrite app_nil_r.
    repeat case_decide; try done; tauto.
  - destruct (tokens r) as [ts|]; simpl; [|done].
    rewrite labels_of_bytes. simpl.
    repeat case_decide; try done; rewrite Forall_app in *; tauto.
Qed.

Lemma name_labels_tokens s : name_labels s = tokens_labels (tokens s).
Proof. done. Qed.

Lemma after_label_length rest : boundary rest →
  (length (after_label rest) ≤ length rest)%nat ∧
  (rest ≠ [] → length (after_label rest) < length rest)%nat.
Proof. intros [->|[r ->]]; simpl; split; try done; lia. Qed.

Lemma wire_name_pos ls : 0 < len (wire_name ls).
Proof.
  unfold wire_name. rewrite len_app. change (len [0]) with 1.
  pose proof (len_nonneg (flat_map wire_label ls)). lia.
Qed.

(** Where one turn of the outer loop leaves the buffer. *)
Definition after_turn (lab : bytes) (b : BytePacketBuffer) : BytePacketBuffer :=
  match lab with
  | [] => {| buf := buf (push [0] b); pos := pos b; overflow := overflow b |}
  | _ => push (wire_label lab) b
  end.

Ltac len1 := repeat match goal with
  | |- context [len [?x]] => change (len [x]) with 1
  | H : context [len [?x]] |- _ => change (len [x]) with 1 in H
  end.

Section turn.
  Context (fuel : nat) (s lab rest : bytes).
  Hypothesis s_nonempty : s ≠ [].
  Hypothesis empty_label : lab = [] → rest = s.
  Hypothesis label_read : label_outcome s lab rest.

  (** The placeholder and the label fit, and the label is short. *)
Lemma turn_ok b : in_bounds b → pos b + 1 + len lab ≤ BUF_SIZE → short_label lab →
    write_qname_loop (S fuel) s b = write_qname_loop fuel (after_label rest) (after_turn lab b).
  Proof.
    intros Hb Hf Hsh. pose proof (len_nonneg lab).
    destruct s as [|c s']; [done|]. cbn [write_qname_loop].
    unfold bind, get_pos. destruct (appends_write_u8 0 b Hb) as [-> _]; [|len1; lia].
    destruct (label_read (pos b + 1) (push [0] b)) as [[Hok _] _];
      [apply push_in_bounds; [done|len1; lia]|cbn [push pos]; len1; lia
      |cbn [push pos]; len1; unfold short_label in Hsh; lia|].
    cbn [push pos] in *. len1. rewrite Hok by done. cbn [push pos]. len1.
    replace (pos b + 1 + len lab - (pos b + 1)) with (len lab) by lia.
    destruct lab as [|v lab']; cbn [after_turn].
    - rewrite empty_label by done. rewrite push_nil.
      destruct (Z.ltb_spec 0 (len (c :: s'))); [done|]. rewrite len_cons in *. len_lia.
    - destruct (Z.eqb_spec (len (v :: lab')) 0); [rewrite len_cons in *; len_lia|].
      cbn [andb]. rewrite (push_push [0]) by (try done; len1; lia).
      pose proof (set_pushed b [] (as_u8 (len (v :: lab'))) (v :: lab') 0 Hb) as Hset.
      rewrite len_nil, Z.add_0_r in Hset. cbn [app] in *. rewrite Hset by lia.
      rewrite as_u8_small; [done|]. unfold short_label, is_byte in *. lia.
  Qed.

  (** They do not fit. *)
Lemma turn_full b : in_bounds b → BUF_SIZE < pos b + 1 + len lab → short_label lab →
    ∃ b', write_qname_loop (S fuel) s b = (Err EndOfBuffer, b') ∧ overflow b' = true.
  Proof.
    intros Hb Hf Hsh. destruct s as [|c s']; [done|]. cbn [write_qname_loop].
    unfold bind, get_pos. destruct (appends_write_u8 0 b Hb) as [Hw Hfull]. len1.
    destruct (Z.le_gt_cases (pos b + 1) BUF_SIZE);
      [|destruct Hfull as (? & -> & ?); [lia|eauto]].
    rewrite Hw by done. cbn [push pos]. len1.
    destruct (label_read (pos b + 1) (push [0] b)) as [[_ Hov] _];
      [apply push_in_bounds; [done|len1; lia]|cbn [push pos]; len1; lia
      |cbn [push pos]; len1; unfold short_label in Hsh; lia|].
    cbn [push pos] in *. len1. destruct Hov as (b' & -> & ?); [lia|eauto].
  Qed.

  (** The label is too long. *)
Lemma turn_long : ¬ short_label lab → rejects (write_qname_loop (S fuel) s).
  Proof.
    intros Hsh b Hb. destruct s as [|c s']; [done|]. cbn [write_qname_loop].
    unfold bind, get_pos. destruct (appends_write_u8 0 b Hb) as [Hw Hfull]. len1.
    destruct (Z.le_gt_cases (pos b + 1) BUF_SIZE);
      [|destruct Hfull as (? & -> & _); [lia|eauto]].
    rewrite Hw by done. cbn [push pos]. len1.
    destruct (label_read (pos b + 1) (push [0] b)) as [_ Hrej];
      [apply push_in_bounds; [done|len1; lia]|cbn [push pos]; len1; lia|].
    destruct Hrej as (e & b' & ->); [|eauto].
    cbn [push pos]. len1. unfold short_label in Hsh. lia.
  Qed.

Lemma after_turn_in_bounds b : in_bounds b → pos b + 1 + len lab ≤ BUF_SIZE →
    in_bounds (after_turn lab b).
  Proof.
    intros Hb Hf. pose proof (len_nonneg lab). unfold after_turn. destruct lab as [|v l].
    - destruct (push_in_bounds [0] b Hb) as [[Hl _] _]; [len1; rewrite len_nil in *; lia|].
      destruct Hb as [[? ?] ?]. done.
    - apply push_in_bounds; [done|]. unfold wire_label. rewrite (len_cons (len _)). lia.
  Qed.

Lemma push_after_turn w b : in_bounds b → pos b + 1 + len lab ≤ BUF_SIZE → 0 < len w →
    push w (after_turn lab b) = push (flat_map wire_label (flush lab) ++ w) b ∧
    pos (after_turn lab b) = pos b + len (flat_map wire_label (flush lab)).
  Proof.
    intros Hb Hf Hw. unfold after_turn. destruct lab as [|v l]; simpl flush.
    - split; [|simpl; rewrite len_nil; lia].
      apply push_rollback; [done|rewrite len_nil in *; lia|done].
    - simpl flat_map. rewrite app_nil_r. split; [|done]. apply push_push; [done|].
      unfold wire_label. rewrite (len_cons (len _)). lia.
  Qed.

  (** One turn of the outer loop. *)
Lemma write_qname_turn o :
    name_outcome (write_qname_loop fuel (after_label rest)) o →
    name_outcome (write_qname_loop (S fuel) s)
      (match o with
       | Some ls => if decide (short_label lab) then Some (flush lab ++ ls) else None
       | None => None
       end).
  Proof.
    intros Ho. destruct (decide (short_label lab)) as [Hsh|Hsh];
      [|destruct o; by apply turn_long].
    destruct o as [ls|]; cbn [name_outcome] in *; intros b Hb; pose proof (len_nonneg lab);
      (destruct (Z.le_gt_cases (pos b + 1 + len lab) BUF_SIZE) as [Hf|Hf];
       [rewrite turn_ok by done
       |destruct (turn_full b Hb Hf Hsh) as (b' & Heq & Hov); rewrite Heq]).
    - destruct (push_after_turn (wire_name ls) b Hb Hf (wire_name_pos ls)) as [Hpush Hpos].
      destruct (Ho _ (after_turn_in_bounds b Hb Hf)) as [Hok Hfull].
      unfold wire_name in *. rewrite flat_map_app, <- app_assoc, len_app, <- Hpush.
      rewrite Hpos in Hok, Hfull. split; intros; [apply Hok|apply Hfull]; lia.
    - split; [|eauto]. intros. exfalso. revert H0. unfold wire_name.
      rewrite flat_map_app, !len_app. destruct lab; simpl; rewrite ?app_nil_r; len1;
        unfold wire_label; rewrite ?len_cons in *; len_lia.
    - apply Ho. by apply after_turn_in_bounds.
    - eauto.
  Qed.
End turn.

Lemma write_qname_loop_spec fuel s : (length s ≤ fuel)%nat →
  name_outcome (write_qname_loop fuel s) (name_labels s).
Proof.
  revert s. induction fuel as [|fuel IH]; intros s Hf.
  { destruct s; [|simpl in *; lia]. apply appends_write_u8. }
  destruct s as [|c s']; [apply appends_write_u8|]. rewrite name_labels_tokens.
  destruct (write_label_spec (c :: s')) as [(lab & rest & Hbd & Ht & Hl & Hnil & Ho)|[Ht Hrej]].
  - rewrite Ht, tokens_labels_cons by done. apply write_qname_turn with rest; [done..|].
    apply IH. destruct (after_label_length rest Hbd) as [Hle Hlt]. destruct lab as [|v lab].
    + rewrite Hnil in Hlt |- * by done. specialize (Hlt ltac:(done)). simpl in *. lia.
    + simpl in *. lia.
  - rewrite Ht. change (rejects (write_qname_loop (S fuel) (c :: s'))).
    intros b Hb. cbn [write_qname_loop]. unfold bind, get_pos.
    destruct (appends_write_u8 0 b Hb) as [Hw Hfull]. len1.
    destruct (Z.le_gt_cases (pos b + 1) BUF_SIZE);
      [|destruct Hfull as (? & -> & _); [lia|eauto]].
    rewrite Hw by done. cbn [push pos]. len1.
    destruct (Hrej (pos b + 1) (push [0] b)) as (e & b' & Heq);
      [apply push_in_bounds; [done|len1; lia]|cbn [push pos]; len1; lia|].
    rewrite Heq. eauto.
Qed.

(** [write_qname] writes exactly the wire form of the labels the text denotes, and
    rejects every other text. *)
Lemma write_qname_outcome s : name_outcome (write_qname s) (name_labels s).
Proof.
  unfold write_qname. case_bool_decide as H1; [subst; apply appends_write_u8|].
  case_bool_decide as H2; [subst; apply appends_write_u8|].
  by apply write_qname_loop_spec.
Qed.

Lemma appends_write_qname s ls :
  name_labels s = Some ls → appends (write_qname s) (wire_name ls) tt.
Proof. intros H. pose proof (write_qname_outcome s) as Ho. by rewrite H in Ho. Qed.
Lemma rejects_write_qname s : name_labels s = None → rejects (write_qname s).
Proof. intros H. pose proof (write_qname_outcome s) as Ho. by rewrite H in Ho. Qed.
#[export] Hint Resolve appends_write_qname : numa.

(** ** Writers as partial wire images

    [emits m o]: [o] is the bytes [m] appends, or [None] when it always fails (a
    name that cannot be encoded). It composes along the code. *)
Definition cat (o1 o2 : option bytes) : option bytes :=
  w1 ← o1; w2 ← o2; Some (w1 ++ w2).
Infix "⊕" := cat (at level 60, right associativity) : buffer_scope.

Definition emits {A} (m : M A) (o : option bytes) : Prop :=
  match o with Some w => ∃ a, appends m w a | None => rejects m end.

Lemma cat_Some o1 o2 w : o1 ⊕ o2 = Some w ↔
  ∃ w1 w2, o1 = Some w1 ∧ o2 = Some w2 ∧ w = w1 ++ w2.
Proof.
  unfold cat. rewrite bind_Some. split.
  - intros (w1 & -> & (w2 & -> & <-%(inj Some))%bind_Some). eauto.
  - intros (w1 & w2 & -> & -> & ->). eauto.
Qed.

Lemma emits_appends {A} (m : M A) w a : appends m w a → emits m (Some w).
Proof. intros. by exists a. Qed.

Lemma emits_unit (m : M unit) w : emits m (Some w) → appends m w tt.
Proof. by intros [[] ?]. Qed.

Lemma emits_bind {A B} (m : M A) (k : A → M B) o1 o2 :
  emits m o1 → (∀ a, emits (k a) o2) → emits (bind m k) (o1 ⊕ o2).
Proof.
  intros Hm Hk. destruct o1 as [w1|]; simpl; [|by apply rejects_bind_l].
  destruct Hm as [a Hm]. specialize (Hk a). destruct o2 as [w2|]; simpl.
  - destruct Hk as [c Hk]. exists c. by eapply appends_bind.
  - by eapply rejects_bind_r.
Qed.

Lemma emits_bind_eq {A B} (m : M A) (k : A → M B) o1 o2 o :
  emits m o1 → (∀ a, emits (k a) o2) → o = o1 ⊕ o2 → emits (bind m k) o.
Proof. intros ? ? ->. by apply emits_bind. Qed.

Lemma cat_nil_r o : o ⊕ Some [] = o.
Proof. destruct o; [|done]. unfold cat. simpl. by rewrite app_nil_r. Qed.
Lemma cat_assoc o1 o2 o3 : (o1 ⊕ o2) ⊕ o3 = o1 ⊕ o2 ⊕ o3.
Proof. destruct o1, o2, o3; try done. unfold cat. simpl. by rewrite app_assoc. Qed.

Definition name_wire (s : bytes) : option bytes := wire_name <$> name_labels s.

Lemma emits_qname s : emits (write_qname s) (name_wire s).
Proof.
  unfold name_wire. pose proof (write_qname_outcome s) as H.
  destruct (name_labels s); [by exists tt|done].
Qed.
Lemma emits_u8 v : emits (write_u8 v) (Some [v]).
Proof. eapply emits_appends; auto with numa. Qed.
Lemma emits_u16 v : emits (write_u16 v) (Some (be16 v)).
Proof. eapply emits_appends; auto with numa. Qed.
Lemma emits_u32 v : emits (write_u32 v) (Some (be32 v)).
Proof. eapply emits_appends; auto with numa. Qed.
Lemma emits_bytes d : emits (write_bytes d) (Some d).
Proof. eapply emits_appends; auto with numa. Qed.
Lemma emits_ret {A} (a : A) : emits (ret a) (Some []).
Proof. eapply emits_appends; auto with numa. Qed.
#[export] Hint Resolve emits_qname emits_u8 emits_u16 emits_u32 emits_bytes emits_ret : numa.

(** Splits a sequence of writes against its image. *)
Ltac emits :=
  repeat first [ solve [eauto with numa]
               | apply emits_bind; [solve [eauto with numa]|intros ?] ].

(** A loop writing every element of a vector. *)
Fixpoint write_all {A B} (f : A → M B) (l : list A) : M unit :=
  match l with
  | [] => ret tt
  | x :: l => let! _ := f x in write_all f l
  end.
Fixpoint cat_all {A} (g : A → option bytes) (l : list A) : option bytes :=
  match l with [] => Some [] | x :: l => g x ⊕ cat_all g l end.

Lemma emits_write_all {A B} (f : A → M B) g l :
  (∀ x, emits (f x) (g x)) → emits (write_all f l) (cat_all g l).
Proof. intros Hf. induction l as [|x l IH]; simpl; emits. Qed.

(** ** Length prefixes and lengths written

    The source writes a zero [RDLENGTH], the body, and patches the length in. *)
Definition with_rdlength (body : M unit) : M unit :=
  let! p := get_pos in
  let! _ := write_u16 0 in
  let! _ := body in
  let! q := get_pos in
  set_u16 p (as_u16 (q - (p + 2))).

Definition prefixed (o : option bytes) : option bytes :=
  w ← o; Some (be16 (as_u16 (len w)) ++ w).

Lemma appends_with_rdlength (body : M unit) w :
  appends body w tt → appends (with_rdlength body) (be16 (as_u16 (len w)) ++ w) tt.
Proof.
  intros Hb b Hin. pose proof (len_nonneg w).
  assert (Hw : appends (let! _ := write_u16 0 in body) (be16 0 ++ w) tt)
    by (eapply appends_bind; [auto with numa|done]).
  destruct (Hw b Hin) as [Hok Hfull]. unfold with_rdlength, bind, get_pos in *.
  rewrite len_app in *. change (len (be16 _)) with 2 in *. split; intros Hf.
  - specialize (Hok Hf). destruct (write_u16 0 b) as [[[]| | |] b1]; try done.
    rewrite Hok. cbn [push pos]. rewrite len_app. change (len (be16 0)) with 2.
    replace (pos b + (2 + len w) - (pos b + 2)) with (len w) by lia.
    apply (set_u16_pushed b (as_u16 (len w)) w 0 0); [done|lia].
  - destruct (Hfull Hf) as (b' & Heq & Ho). exists b'. split; [|done].
    destruct (write_u16 0 b) as [[[]| | |] b1]; try done. by rewrite Heq.
Qed.

Lemma rejects_with_rdlength (body : M unit) : rejects body → rejects (with_rdlength body).
Proof.
  intros Hb. unfold with_rdlength. intros b Hin. unfold bind at 1, get_pos at 1.
  eapply rejects_bind_r; [apply appends_write_u16| |done]. by apply rejects_bind_l.
Qed.

Lemma emits_with_rdlength (body : M unit) o : emits body o → emits (with_rdlength body) (prefixed o).
Proof.
  intros H. destruct o as [w|]; [|by apply rejects_with_rdlength].
  exists tt. by apply appends_with_rdlength, emits_unit.
Qed.

Lemma cat_is_Some o1 o2 : is_Some o1 → is_Some o2 → is_Some (o1 ⊕ o2).
Proof. intros [w1 ->] [w2 ->]. by eexists. Qed.
Lemma prefixed_is_Some o : is_Some o → is_Some (prefixed o).
Proof. intros [w ->]. by eexists. Qed.

(** The number of bytes a writer appended, as [buffer.pos() - start_pos]. *)
Definition measured (body : M unit) : M Z :=
  let! start_pos := get_pos in
  let! _ := body in
  let! p := get_pos in
  ret (p - start_pos).

Lemma appends_measured (body : M unit) w :
  appends body w tt → appends (measured body) w (len w).
Proof.
  intros Hb b Hin. destruct (Hb b Hin) as [Hok Hfull]. unfold measured, bind, get_pos, ret.
  split; intros Hf.
  - rewrite (Hok Hf). cbn [push pos]. do 2 f_equal. lia.
  - destruct (Hfull Hf) as (b' & -> & Ho). eauto.
Qed.

Lemma emits_measured (body : M unit) o : emits body o → emits (measured body) o.
Proof.
  intros H. destruct o as [w|]; [exists (len w); by apply appends_measured, emits_unit|].
  intros b Hin. destruct (H b Hin) as (e & b' & Heq). unfold measured, bind, get_pos.
  rewrite Heq. eauto.
Qed.
#[export] Hint Resolve emits_with_rdlength emits_measured : numa.

(** * Specification of the reading side *)

(** The bytes from the cursor on. *)
Definition rest (b : BytePacketBuffer) : bytes := drop (Z.to_nat (pos b)) (buf b).
Definition advance (n : Z) (b : BytePacketBuffer) : BytePacketBuffer :=
  {| buf := buf b; pos := pos b + n; overflow := overflow b |}.

(** [reads m w a]: at the bytes [w], [m] consumes them all and returns [a]. *)
Definition reads {A} (m : M A) (w : bytes) (a : A) : Prop :=
  ∀ b post, in_bounds b → rest b = w ++ post → m b = (Ok a, advance (len w) b).

Lemma rest_room w post b : in_bounds b → rest b = w ++ post → pos b + len w ≤ BUF_SIZE.
Proof.
  intros [[Hl Hp] Hb] Hr. apply (f_equal length) in Hr. revert Hr. unfold rest.
  rewrite length_drop, length_app. unfold len in *. lia.
Qed.

Lemma advance_in_bounds w post b : in_bounds b → rest b = w ++ post →
  in_bounds (advance (len w) b) ∧ rest (advance (len w) b) = post.
Proof.
  intros Hb Hr. pose proof (rest_room _ _ _ Hb Hr). destruct Hb as [[Hl Hp] Hb].
  pose proof (len_nonneg w). split; [repeat split; cbn; try done; lia|].
  unfold rest in *. cbn [buf pos advance].
  replace (Z.to_nat (pos b + len w)) with (Z.to_nat (pos b) + length w)%nat
    by (unfold len; lia).
  by rewrite <- drop_drop, Hr, drop_app_length.
Qed.

Lemma reads_ret {A} (a : A) : reads (ret a) [] a.
Proof.
  intros b post Hb Hr. rewrite len_nil. unfold ret, advance. rewrite Z.add_0_r. by destruct b.
Qed.

Lemma reads_bind {A B} (m : M A) (k : A → M B) w1 w2 a c :
  reads m w1 a → reads (k a) w2 c → reads (bind m k) (w1 ++ w2) c.
Proof.
  intros Hm Hk b post Hb Hr. rewrite <- app_assoc in Hr. unfold bind.
  rewrite (Hm b _ Hb Hr). destruct (advance_in_bounds _ _ _ Hb Hr) as [Hb' Hr'].
  rewrite (Hk _ _ Hb' Hr'). unfold advance. cbn. do 2 f_equal. rewrite len_app. lia.
Qed.

Lemma reads_bind_eq {A B} (m : M A) (k : A → M B) w1 w2 w a c :
  reads m w1 a → reads (k a) w2 c → w = w1 ++ w2 → reads (bind m k) w c.
Proof. intros ? ? ->. by eapply reads_bind. Qed.

Lemma reads_end {A B} (m : M A) (k : A → M B) w a c :
  reads m w a → k a = ret c → reads (bind m k) w c.
Proof.
  intros Hm Hk. eapply reads_bind_eq; [done|rewrite Hk; apply reads_ret|].
  by rewrite app_nil_r.
Qed.

Lemma reads_read v : reads read [v] v.
Proof.
  intros b post Hb Hr. pose proof (rest_room _ _ _ Hb Hr) as Hlt. len1.
  unfold read. destruct (Z.leb_spec BUF_SIZE (pos b)); [lia|].
  by rewrite (index_drop _ _ v post) by (apply Hb || apply Hr).
Qed.

Lemma from_be16_be16 v : is_u16 v → from_be16 (as_u8 (Z.shiftr v 8)) (Z.land v 255) = v.
Proof.
  unfold is_u16, from_be16, as_u8. intros Hv. rewrite land_255.
  rewrite lor_shiftl_add by (try lia; apply Z.mod_pos_bound; lia).
  rewrite Z.shiftr_div_pow2, (Z.mod_small (v / 2 ^ 8)) by
    (try split; try apply Z.div_lt_upper_bound; try apply Z.div_pos; lia).
  change (2 ^ 8) with 256. pose proof (Z.div_mod v 256). lia.
Qed.

Lemma from_be32_sum a b c d : is_byte a → is_byte b → is_byte c → is_byte d →
  from_be32 a b c d = a * 2 ^ 24 + b * 2 ^ 16 + c * 2 ^ 8 + d.
Proof.
  unfold is_byte, from_be32. intros.
  rewrite <- !Z.lor_assoc. rewrite (lor_shiftl_add c d 8) by lia.
  rewrite (lor_shiftl_add b _ 16) by lia. rewrite lor_shiftl_add by lia. lia.
Qed.

Lemma from_be32_be32 v : is_u32 v →
  from_be32 (Z.land (Z.shiftr v 24) 255) (Z.land (Z.shiftr v 16) 255)
    (Z.land (Z.shiftr v 8) 255) (Z.land v 255) = v.
Proof.
  intros Hv. rewrite from_be32_sum by apply land_255_byte.
  unfold is_u32 in Hv. rewrite !land_255, !Z.shiftr_div_pow2 by lia.
  change (2 ^ 24) with (256 * (256 * 256)). change (2 ^ 16) with (256 * 256).
  change (2 ^ 8) with 256. rewrite <- !Z.div_div by lia.
  pose proof (Z.div_mod v 256). pose proof (Z.div_mod (v / 256) 256).
  pose proof (Z.div_mod (v / 256 / 256) 256).
  rewrite (Z.mod_small (v / 256 / 256 / 256)) by
    (split; [apply Z.div_pos; [apply Z.div_pos; [apply Z.div_pos|]|]; lia|
     do 3 (apply Z.div_lt_upper_bound; [lia|]); lia]).
  lia.
Qed.

Lemma reads_u16 v : is_u16 v → reads read_u16 (be16 v) v.
Proof.
  intros Hv. eapply reads_bind_eq; [apply reads_read| |reflexivity].
  eapply reads_end; [apply reads_read|]. by rewrite from_be16_be16.
Qed.

Lemma reads_u32 v : is_u32 v → reads read_u32 (be32 v) v.
Proof.
  intros Hv. do 3 (eapply reads_bind_eq; [apply reads_read| |reflexivity]).
  eapply reads_end; [apply reads_read|]. by rewrite from_be32_be32.
Qed.

Lemma len_be16 v : len (be16 v) = 2.
Proof. done. Qed.
Lemma len_be32 v : len (be32 v) = 4.
Proof. done. Qed.
#[export] Hint Rewrite len_be16 len_be32 : numa.

(** [buffer.get_range(buffer.pos(), n)?.to_vec()] followed by [buffer.step(n)?]. *)
Definition take_bytes (n : Z) : M bytes :=
  let! p := get_pos in
  let! d := get_range p n in
  let! _ := step n in
  ret d.

Lemma get_range_drop b p w post : len (buf b) = BUF_SIZE → 0 ≤ p ≤ BUF_SIZE →
  drop (Z.to_nat p) (buf b) = w ++ post → get_range p (len w) b = (Ok w, b).
Proof.
  intros Hl Hp Hd. pose proof (len_nonneg w).
  assert (p + len w ≤ BUF_SIZE).
  { apply (f_equal length) in Hd. rewrite length_drop, length_app in Hd.
    unfold len, BUF_SIZE in *. lia. }
  unfold BUF_SIZE in *. unfold get_range, checked_add.
  destruct (Z.ltb_spec (p + len w) (2 ^ 64)); [|lia]. unfold BUF_SIZE.
  destruct (Z.ltb_spec 4096 (p + len w)); [lia|].
  rewrite slice_Some by lia. rewrite Hd. do 2 f_equal.
  replace (p + len w - p) with (len w) by lia. by rewrite to_nat_len, take_app_length.
Qed.

Lemma reads_take_bytes w : reads (take_bytes (len w)) w w.
Proof.
  intros b post Hb Hr. unfold take_bytes, bind, get_pos.
  destruct Hb as [[Hl Hp] Hb]. by rewrite (get_range_drop b (pos b) w post).
Qed.
#[export] Hint Resolve reads_ret reads_read reads_u16 reads_u32 reads_take_bytes : numa.

(** ** Reading an uncompressed name *)

(** The presentation text of a list of labels. *)
Definition name_text (ls : list bytes) : bytes :=
  match ls with
  | [] => []
  | l :: ls => escape_label l ++ flat_map (λ l, 46 :: escape_label l) ls
  end.

Definition label_ok (l : bytes) : Prop := 1 ≤ len l ≤ 63.
#[export] Instance label_ok_dec l : Decision (label_ok l).
Proof. unfold label_ok. apply _. Defined.

Lemma land_c0_small x : 0 ≤ x < 64 → Z.land x 0xC0 = 0.
Proof.
  intros Hx. apply Z.bits_inj'. intros i Hi. rewrite Z.land_spec, Z.bits_0.
  destruct (Z.lt_ge_cases i 6); [|rewrite (testbit_small x 6) by lia; done].
  rewrite (andb_comm). assert (i = 0 ∨ i = 1 ∨ i = 2 ∨ i = 3 ∨ i = 4 ∨ i = 5) as Hc by lia.
  by destruct Hc as [->|[->|[->|[->|[->| ->]]]]].
Qed.

Lemma get_drop b p v post : len (buf b) = BUF_SIZE → 0 ≤ p →
  drop (Z.to_nat p) (buf b) = v :: post → get p b = (Ok v, b).
Proof.
  intros Hl Hp Hd. unfold get. pose proof (index_drop _ _ _ _ Hp Hd) as Hi.
  pose proof (index_nonneg _ _ _ Hi). rewrite Hi.
  destruct (Z.leb_spec BUF_SIZE p); [lia|done].
Qed.

Definition joined (delim : bytes) (ls : list bytes) : bytes :=
  match ls with [] => [] | _ => delim ++ name_text ls end.

Lemma drop_shift {A} (l w k : list A) p : 0 ≤ p → drop (Z.to_nat p) l = w ++ k →
  drop (Z.to_nat (p + len w)) l = k.
Proof.
  intros Hp Hd. pose proof (len_nonneg w).
  replace (Z.to_nat (p + len w)) with (Z.to_nat p + length w)%nat by (unfold len; lia).
  by rewrite <- drop_drop, Hd, drop_app_length.
Qed.

Lemma wire_name_cons l ls : wire_name (l :: ls) = len l :: l ++ wire_name ls.
Proof. unfold wire_name. simpl. by rewrite <- app_assoc. Qed.

Lemma read_qname_loop_plain ls : ∀ fuel p delim out b post,
  Forall label_ok ls → (length ls < fuel)%nat → len (buf b) = BUF_SIZE → 0 ≤ p ≤ BUF_SIZE →
  drop (Z.to_nat p) (buf b) = wire_name ls ++ post →
  read_qname_loop fuel p false 0 delim out b =
    (Ok (out ++ joined delim ls),
     {| buf := buf b; pos := p + len (wire_name ls); overflow := overflow b |}).
Proof.
  induction ls as [|l ls IH]; intros fuel p delim out b post Hls Hf Hl Hp Hd;
    (destruct fuel as [|fuel]; [simpl in *; lia|]).
  - simpl in Hd. cbn [read_qname_loop]. change (max_jumps <? 0) with false. unfold bind.
    rewrite (get_drop _ _ _ _ Hl (proj1 Hp) Hd).
    simpl. by rewrite app_nil_r.
  - apply Forall_cons in Hls as [[Hl1 Hl63] Hls].
    rewrite wire_name_cons in Hd |- *. rewrite len_cons, len_app.
    cbn [app] in Hd. rewrite <- app_assoc in Hd.
    cbn [read_qname_loop]. change (max_jumps <? 0) with false. unfold bind.
    rewrite (get_drop _ _ _ _ Hl (proj1 Hp) Hd), land_c0_small by lia.
    change (0 =? 192) with false. change (negb (0 =? 0)) with false.
    destruct (Z.eqb_spec (len l) 0); [lia|]. cbn iota.
    pose proof (drop_shift (buf b) [len l] _ p (proj1 Hp) Hd) as Hd1. len1.
    assert (Hp1 : p + 1 ≤ BUF_SIZE).
    { apply (f_equal length) in Hd1. rewrite length_drop, !length_app in Hd1.
      pose proof (wire_name_pos ls). unfold len in *. lia. }
    rewrite (get_range_drop b (p + 1) l _ Hl ltac:(lia) Hd1).
    pose proof (drop_shift (buf b) l _ (p + 1) ltac:(lia) Hd1) as Hd2.
    assert (p + 1 + len l ≤ BUF_SIZE).
    { apply (f_equal length) in Hd2. rewrite length_drop, !length_app in Hd2.
      pose proof (wire_name_pos ls). unfold len in *. lia. }
    rewrite (IH fuel (p + 1 + len l) [46] _ b post Hls); [|simpl in *; lia|done|lia|done].
    f_equal; [|f_equal; lia]. f_equal. unfold joined, name_text.
    rewrite <- !app_assoc. do 3 f_equal. by destruct ls.
Qed.

Lemma wire_name_count ls : Z.of_nat (length ls) < len (wire_name ls).
Proof.
  induction ls as [|l ls IH]; [done|]. rewrite wire_name_cons, len_cons, len_app.
  pose proof (len_nonneg l). simpl length. lia.
Qed.

Lemma reads_qname out ls : Forall label_ok ls →
  reads (read_qname out) (wire_name ls) (out ++ name_text ls).
Proof.
  intros Hls b post Hb Hr. pose proof (rest_room _ _ _ Hb Hr). destruct Hb as [[Hl Hp] Hb].
  pose proof (wire_name_count ls). unfold read_qname, bind, get_pos.
  rewrite (read_qname_loop_plain ls _ _ _ _ b post) by
    (try done; try lia; unfold qname_fuel, BUF_SIZE in *; lia).
  unfold joined. by destruct ls.
Qed.

(** ** The text of a name that was read *)

Lemma lex_escape_byte v s : is_byte v →
  lex (escape_byte v ++ s) = LexByte (to_ascii_lowercase v) s.
Proof.
  intros Hv. unfold escape_byte. set (c := to_ascii_lowercase v).
  assert (Hc : is_byte c).
  { subst c. unfold to_ascii_lowercase, is_byte in *.
    destruct (Z.leb_spec 65 v), (Z.leb_spec v 90); simpl; lia. }
  clearbody c. unfold is_byte in Hc.
  destruct (Z.eqb_spec c 46); [by subst|]. destruct (Z.eqb_spec c 92); [by subst|].
  destruct ((0x21 <=? c) && (c <=? 0x7E)) eqn:Hpr.
  - cbn [app lex]. destruct (Z.eqb_spec c 46); [done|]. by destruct (Z.eqb_spec c 92).
  - assert (Hd : ∀ x, 0 ≤ x ≤ 9 → is_ascii_digit (48 + x) = true).
    { intros x Hx. unfold is_ascii_digit.
      destruct (Z.leb_spec 48 (48 + x)), (Z.leb_spec (48 + x) 57); by try lia. }
    cbn [app lex]. cbn -[Z.add Z.div Z.modulo Z.mul].
    rewrite !Hd by div_lia. cbn [negb orb].
    replace ((48 + c / 100 - 48) * 100 + (48 + (c / 10) mod 10 - 48) * 10
             + (48 + c mod 10 - 48)) with c by div_lia.
    destruct (Z.ltb_spec 255 c); [lia|done].
Qed.

Lemma tokens_escape_label l s : all_bytes l →
  tokens (escape_label l ++ s) = (λ ts, map Some (ascii_lower l) ++ ts) <$> tokens s.
Proof.
  induction 1 as [|v l Hv Hl IH]; simpl; [by destruct (tokens s)|].
  rewrite <- app_assoc, tokens_unfold, lex_escape_byte, IH by done.
  by destruct (tokens s).
Qed.

Lemma tokens_escape_labels ls : Forall all_bytes ls →
  tokens (flat_map (λ l, 46 :: escape_label l) ls) =
    Some (flat_map (λ l, None :: map Some (ascii_lower l)) ls).
Proof.
  induction 1 as [|l ls Hl Hls IH]; [done|].
  cbn [flat_map]. rewrite tokens_unfold. cbn [app lex].
  change (46 =? 46) with true. cbn iota. by rewrite tokens_escape_label, IH.
Qed.

Lemma labels_of_flat cur ls : Forall (λ l, l ≠ []) ls →
  labels_of cur (flat_map (λ l, None :: map Some l) ls) = flush cur ++ ls.
Proof.
  intros Hls. revert cur. induction Hls as [|l ls Hl Hls IH]; intros cur; simpl;
    [by rewrite app_nil_r|].
  rewrite labels_of_bytes. simpl. rewrite IH. by destruct l.
Qed.

Lemma label_ok_nonempty l : label_ok l → l ≠ [].
Proof. intros [? ?] ->. rewrite len_nil in *. lia. Qed.
Lemma label_ok_lower l : label_ok (ascii_lower l) ↔ label_ok l.
Proof. unfold label_ok, ascii_lower. by rewrite len_map. Qed.
Lemma label_ok_short l : label_ok l ↔ l ≠ [] ∧ short_label l.
Proof.
  unfold label_ok, short_label. destruct l as [|v l].
  - rewrite len_nil. split; [lia|]. intros [Hn _]. by destruct Hn.
  - rewrite len_cons. pose proof (len_nonneg l). split; [intros; split; [done|lia]|lia].
Qed.

(** Parsing the text of a name that was read gives its labels, in lower case. *)
Lemma name_labels_text ls : Forall label_ok ls → Forall all_bytes ls →
  name_labels (name_text ls) = Some (map ascii_lower ls).
Proof.
  intros Hok Hby. unfold name_labels.
  assert (Hne : Forall (λ l, l ≠ []) (map ascii_lower ls)).
  { apply Forall_map. eapply Forall_impl; [exact Hok|]. intros l Hl.
    apply label_ok_nonempty. by apply label_ok_lower. }
  assert (Hsh : Forall short_label (map ascii_lower ls)).
  { apply Forall_map. eapply Forall_impl; [exact Hok|]. intros l Hl.
    by destruct (proj1 (label_ok_short _) (proj2 (label_ok_lower l) Hl)). }
  destruct ls as [|l ls]; [done|]. cbn [name_text].
  apply Forall_cons in Hby as [Hl Hls]. cbn [map] in Hne.
  apply Forall_cons in Hne as [Hnl Hne].
  rewrite tokens_escape_label, tokens_escape_labels by done. cbn [fmap option_fmap option_map mbind option_bind].
  rewrite labels_of_bytes. cbn [app].
  replace (flat_map (λ l, None :: map Some (ascii_lower l)) ls)
    with (flat_map (λ l, None :: map (@Some Z) l) (map ascii_lower ls))
    by (clear; induction ls; simpl; congruence).
  rewrite labels_of_flat by done.
  replace (flush (ascii_lower l) ++ map ascii_lower ls) with (map ascii_lower (l :: ls))
    by (destruct l; done).
  by rewrite decide_True.
Qed.

Lemma to_ascii_lowercase_idem v : to_ascii_lowercase (to_ascii_lowercase v) = to_ascii_lowercase v.
Proof.
  unfold to_ascii_lowercase. destruct ((65 <=? v) && (v <=? 90)) eqn:Hv; [|by rewrite Hv].
  bool_prop. destruct (Z.leb_spec 65 (v + 32)), (Z.leb_spec (v + 32) 90); by try lia.
Qed.

Lemma escape_byte_lower v : escape_byte (to_ascii_lowercase v) = escape_byte v.
Proof. unfold escape_byte. by rewrite to_ascii_lowercase_idem. Qed.

Lemma escape_label_lower l : escape_label (ascii_lower l) = escape_label l.
Proof. induction l as [|v l IH]; simpl; [done|]. by rewrite escape_byte_lower, <- IH. Qed.

Lemma name_text_lower ls : name_text (map ascii_lower ls) = name_text ls.
Proof.
  destruct ls as [|l ls]; [done|]. cbn [map name_text]. rewrite escape_label_lower. f_equal.
  induction ls as [|l' ls IH]; simpl; [done|]. by rewrite escape_label_lower, IH.
Qed.

(** The normal form of a name: what reading back its wire form gives. *)
Definition canon_name (s : bytes) : bytes :=
  match name_labels s with Some ls => name_text ls | None => s end.

Lemma canon_name_text ls : Forall label_ok ls → Forall all_bytes ls →
  canon_name (name_text ls) = name_text ls.
Proof. intros. unfold canon_name. rewrite name_labels_text by done. apply name_text_lower. Qed.

(** The labels of a text are never empty, and never long. *)
Lemma labels_of_nonempty cur ts : Forall (λ l, l ≠ []) (labels_of cur ts).
Proof.
  assert (Hf : ∀ c, Forall (λ l, l ≠ []) (flush c)) by (intros [|]; repeat constructor; done).
  revert cur. induction ts as [|[v|] ts IH]; intros cur; simpl; auto.
  apply Forall_app. auto.
Qed.

Lemma name_labels_ok s ls : name_labels s = Some ls → Forall label_ok ls.
Proof.
  unfold name_labels. intros H. destruct (tokens s) as [ts|]; [|done]. cbn in H.
  case_decide as Hs; [|done]. injection H as <-.
  pose proof (labels_of_nonempty [] ts) as Hn.
  rewrite Forall_forall in *. intros l Hl. apply label_ok_short. auto.
Qed.

Lemma lex_bytes s : all_bytes s → match lex s with
  | LexDot r => all_bytes r
  | LexByte v r => is_byte v ∧ all_bytes r
  | _ => True end.
Proof.
  intros Hs. unfold lex, is_ascii_digit. repeat case_match; simplify_eq; try done;
    rewrite ?Forall_cons in Hs; destruct_and?; bool_prop; split_and?; try done.
  unfold is_byte in *. lia.
Qed.

Lemma tokens_bytes s ts : all_bytes s → tokens s = Some ts →
  Forall (λ o, from_option is_byte True o) ts.
Proof.
  revert ts. induction s as [s IH] using (Wf_nat.induction_ltof1 _ (@length Z)).
  unfold Wf_nat.ltof in IH. intros ts Hs. rewrite tokens_unfold.
  pose proof (lex_shorter s) as Hlen. pose proof (lex_bytes s Hs) as Hby.
  destruct (lex s) as [|r|v r|e] eqn:Hlex; intros Ht; simplify_eq; [by constructor|..].
  - destruct (tokens r) as [ts'|] eqn:Hr; simplify_eq/=. constructor; [done|by eapply IH].
  - destruct Hby. destruct (tokens r) as [ts'|] eqn:Hr; simplify_eq/=.
    constructor; [done|by eapply IH].
Qed.

Lemma labels_of_bytes_ok cur ts : all_bytes cur →
  Forall (λ o, from_option is_byte True o) ts → Forall all_bytes (labels_of cur ts).
Proof.
  assert (Hf : ∀ c, all_bytes c → Forall all_bytes (flush c))
    by (intros [|v c] ?; simpl; [constructor|by apply Forall_singleton]).
  intros Hcur Hts. revert cur Hcur.
  induction Hts as [|[v|] ts Hv Hts IH]; intros cur Hcur; simpl in *; auto.
  - apply IH. apply Forall_app. split; [done|by apply Forall_singleton].
  - apply Forall_app. auto.
Qed.

Lemma name_labels_bytes s ls : all_bytes s → name_labels s = Some ls → Forall all_bytes ls.
Proof.
  unfold name_labels. intros Hs H. destruct (tokens s) as [ts|] eqn:Ht; [|done]. cbn in H.
  case_decide; [|done]. injection H as <-. apply labels_of_bytes_ok; [done|].
  by eapply tokens_bytes.
Qed.

Lemma canon_name_idem s : all_bytes s → canon_name (canon_name s) = canon_name s.
Proof.
  intros Hs. unfold canon_name at 2 3. destruct (name_labels s) as [ls|] eqn:Hn.
  - apply canon_name_text; [by eapply name_labels_ok|by eapply name_labels_bytes].
  - unfold canon_name. by rewrite Hn.
Qed.

(** The name a writer encoded is read back in canonical text. *)
Lemma reads_name s w : name_wire s = Some w → reads (read_qname []) w (canon_name s).
Proof.
  unfold name_wire. intros (ls & Hn & ->)%fmap_Some. unfold canon_name. rewrite Hn.
  by apply (reads_qname []), name_labels_ok with s.
Qed.

(** ** Reading at a known position *)
Definition reads_at {A} (p : Z) (m : M A) (w : bytes) (a : A) : Prop :=
  ∀ b post, in_bounds b → pos b = p → rest b = w ++ post → m b = (Ok a, advance (len w) b).

Lemma reads_reads_at {A} p (m : M A) w a : reads m w a → reads_at p m w a.
Proof. intros Hm b post Hb _. by apply Hm. Qed.
Lemma reads_at_reads {A} (m : M A) w a : (∀ p, reads_at p m w a) → reads m w a.
Proof. intros Hm b post Hb. by eapply Hm. Qed.

Lemma reads_at_bind {A B} p (m : M A) (k : A → M B) w1 w2 a c :
  reads_at p m w1 a → reads_at (p + len w1) (k a) w2 c → reads_at p (bind m k) (w1 ++ w2) c.
Proof.
  intros Hm Hk b post Hb Hp Hr. rewrite <- app_assoc in Hr. unfold bind.
  rewrite (Hm b _ Hb Hp Hr). destruct (advance_in_bounds _ _ _ Hb Hr) as [Hb' Hr'].
  rewrite (Hk _ post) by (try done; cbn; lia). f_equal. unfold advance; cbn. f_equal. len_lia.
Qed.
Lemma reads_at_bind_eq {A B} p (m : M A) (k : A → M B) w1 w2 w a c :
  reads_at p m w1 a → reads_at (p + len w1) (k a) w2 c → w = w1 ++ w2 →
  reads_at p (bind m k) w c.
Proof. intros ? ? ->. by eapply reads_at_bind. Qed.
Lemma reads_at_get_pos {B} p (k : Z → M B) w c :
  reads_at p (k p) w c → reads_at p (bind get_pos k) w c.
Proof. intros Hk b post Hb Hp Hr. unfold bind, get_pos. rewrite Hp. by eapply Hk. Qed.
Lemma reads_at_ret {A} p (a : A) : reads_at p (ret a) [] a.
Proof. apply reads_reads_at, reads_ret. Qed.
Lemma reads_at_end {A B} p (m : M A) (k : A → M B) w a c :
  reads_at p m w a → k a = ret c → reads_at p (bind m k) w c.
Proof.
  intros Hm Hk. eapply reads_at_bind_eq; [done|rewrite Hk; apply reads_at_ret|].
  by rewrite app_nil_r.
Qed.
(** Whatever is read fits the buffer. *)
Lemma reads_at_room {A} p (m : M A) w a :
  (0 ≤ p → p + len w ≤ BUF_SIZE → reads_at p m w a) → reads_at p m w a.
Proof.
  intros H b post Hb Hp Hr. pose proof (rest_room _ _ _ Hb Hr). destruct Hb as [[? ?] ?].
  apply (H ltac:(lia) ltac:(lia) b post); [|done..]. repeat split; done.
Qed.

(** ** Reading arbitrary bytes

    [safe m Q]: on a buffer of arbitrary contents [m] returns (no panic, fuel
    enough), leaves the contents and the overflow flag alone, keeps the cursor at
    most one past the end, and its result satisfies [Q]. *)
Definition readable (b : BytePacketBuffer) : Prop :=
  wf b ∧ all_bytes (buf b) ∧ pos b ≤ BUF_SIZE + 1.
Definition same_contents (b b' : BytePacketBuffer) : Prop :=
  buf b' = buf b ∧ overflow b' = overflow b ∧ 0 ≤ pos b' ≤ BUF_SIZE + 1.

Definition safe {A} (m : M A) (Q : A → Prop) : Prop :=
  ∀ b, readable b →
    match m b with
    | (Ok a, b') => Q a ∧ same_contents b b'
    | (Err _, b') => same_contents b b'
    | (Panic, _) | (OutOfFuel, _) => False
    end.

Lemma same_contents_refl b : readable b → same_contents b b.
Proof. intros ((?&?)&?&?). done. Qed.
Lemma same_contents_readable b b' : readable b → same_contents b b' → readable b'.
Proof. intros ((?&?)&?&?) (Hb&?&?&?). repeat split; rewrite ?Hb; done. Qed.
Lemma same_contents_trans b1 b2 b3 :
  same_contents b1 b2 → same_contents b2 b3 → same_contents b1 b3.
Proof. intros (?&?&?) (?&?&?). repeat split; try congruence; lia. Qed.

Lemma safe_ret {A} (a : A) (Q : A → Prop) : Q a → safe (ret a) Q.
Proof. intros Ha b Hb. split; [done|by apply same_contents_refl]. Qed.
Lemma safe_fail {A} e (Q : A → Prop) : safe (fail e) Q.
Proof. intros b Hb. by apply same_contents_refl. Qed.
Lemma safe_bind {A B} (m : M A) (k : A → M B) P Q :
  safe m P → (∀ a, P a → safe (k a) Q) → safe (bind m k) Q.
Proof.
  intros Hm Hk b Hb. specialize (Hm b Hb). unfold bind.
  destruct (m b) as [[a|e| |] b']; try done. destruct Hm as [Ha Hs].
  specialize (Hk a Ha b' (same_contents_readable _ _ Hb Hs)).
  destruct (k a b') as [[c|e| |] b'']; try done.
  - destruct Hk as [Hc Hs']. split; [done|]. by eapply same_contents_trans.
  - by eapply same_contents_trans.
Qed.
Lemma safe_mono {A} (m : M A) (P Q : A → Prop) :
  safe m P → (∀ a, P a → Q a) → safe m Q.
Proof.
  intros Hm HPQ b Hb. specialize (Hm b Hb). destruct (m b) as [[a|e| |] b']; try done.
  destruct Hm. auto.
Qed.
Lemma safe_lift {A} (o : outcome A) (Q : A → Prop) :
  match o with Ok a => Q a | Err _ => True | _ => False end → safe (lift o) Q.
Proof.
  intros Ho b Hb. unfold lift. pose proof (same_contents_refl b Hb). by destruct o.
Qed.

Lemma safe_get_pos : safe get_pos (λ p, 0 ≤ p ≤ BUF_SIZE + 1).
Proof. intros b Hb. pose proof (same_contents_refl b Hb). destruct Hb as ((?&?)&?&?). done. Qed.

Lemma readable_index b p : readable b → 0 ≤ p < BUF_SIZE →
  ∃ v, index (buf b) p = Some v ∧ is_byte v.
Proof.
  intros ((Hl&?)&Hby&?) Hp. destruct (index_is_Some (buf b) p) as [v Hv]; [lia|].
  exists v. split; [done|]. rewrite index_lookup in Hv by lia.
  by eapply (Forall_lookup_1 is_byte).
Qed.

Lemma safe_get p : 0 ≤ p → safe (get p) (λ v, is_byte v ∧ p < BUF_SIZE).
Proof.
  intros Hp b Hb. pose proof (same_contents_refl b Hb). unfold get.
  destruct (Z.leb_spec BUF_SIZE p); [done|].
  destruct (readable_index b p Hb) as (v & -> & Hv); [lia|done].
Qed.

Lemma safe_read : safe read is_byte.
Proof.
  intros b Hb. pose proof (same_contents_refl b Hb) as Hs. unfold read.
  destruct (Z.leb_spec BUF_SIZE (pos b)); [done|]. destruct Hb as ((Hl&Hp)&Hby&Hm) eqn:Hb'.
  destruct (readable_index b (pos b)) as (v & -> & Hv); [done|lia|].
  split; [done|]. repeat split; cbn; lia.
Qed.

Lemma slice_bytes l a b s : all_bytes l → slice l a b = Some s → all_bytes s ∧ len s = b - a.
Proof.
  unfold slice. intros Hl H. case_if; [|done]. bool_prop. injection H as <-.
  split; [by apply Forall_take, Forall_drop|].
  rewrite len_take; [done|]. rewrite len_drop by lia. lia.
Qed.

Lemma safe_get_range p n : 0 ≤ p → 0 ≤ n →
  safe (get_range p n) (λ d, all_bytes d ∧ len d = n ∧ p + n ≤ BUF_SIZE).
Proof.
  intros Hp Hn b Hb. pose proof (same_contents_refl b Hb). unfold get_range, checked_add.
  case_if; [|done]. destruct (Z.ltb_spec BUF_SIZE (p + n)); [done|].
  destruct Hb as ((Hl&?)&Hby&?).
  destruct (slice (buf b) p (p + n)) as [s|] eqn:Hsl.
  - apply slice_bytes in Hsl as [? ?]; [|done]. split; [split_and!; [done|lia|done]|done].
  - rewrite slice_Some in Hsl by lia. done.
Qed.

Lemma safe_take_bytes n : 0 ≤ n → safe (take_bytes n) (λ d, all_bytes d ∧ len d = n).
Proof.
  intros Hn b Hb. pose proof Hb as ((Hl&Hp)&Hby&Hm).
  pose proof (safe_get_range (pos b) n Hp Hn b Hb) as Hg.
  assert (Hsame : snd (get_range (pos b) n b) = b).
  { unfold get_range. by repeat case_match. }
  unfold take_bytes, bind, get_pos. destruct (get_range (pos b) n b) as [[d|e| |] b'];
    simpl in Hsame; subst b'; try done.
  destruct Hg as [(?&?&?) _]. split; [done|]. repeat split; cbn; lia.
Qed.

Lemma is_u16_from_be16 a b : is_byte a → is_byte b → is_u16 (from_be16 a b).
Proof.
  unfold is_byte, is_u16, from_be16. intros. rewrite lor_shiftl_add by lia. lia.
Qed.
Lemma is_u32_from_be32 a b c d :
  is_byte a → is_byte b → is_byte c → is_byte d → is_u32 (from_be32 a b c d).
Proof. intros. rewrite from_be32_sum by done. unfold is_byte, is_u32 in *. lia. Qed.

Lemma safe_read_u16 : safe read_u16 is_u16.
Proof.
  eapply safe_bind; [apply safe_read|]. intros a Ha.
  eapply safe_bind; [apply safe_read|]. intros b Hb.
  apply safe_ret. by apply is_u16_from_be16.
Qed.
Lemma safe_read_u32 : safe read_u32 is_u32.
Proof.
  do 4 (eapply safe_bind; [apply safe_read|]; intros ? ?).
  apply safe_ret. by apply is_u32_from_be32.
Qed.

(** The text of a name that came off the wire. *)
Definition read_name (s : bytes) : Prop :=
  ∃ ls, Forall label_ok ls ∧ Forall all_bytes ls ∧ s = name_text ls.

Lemma joined_cons out delim l ls :
  (out ++ delim ++ escape_label l) ++ joined [46] ls = out ++ joined delim (l :: ls).
Proof. unfold joined, name_text. rewrite <- !app_assoc. do 3 f_equal. by destruct ls. Qed.

Lemma land_c0_zero l : is_byte l → Z.land l 0xC0 = 0 → l < 64.
Proof.
  intros Hl H. destruct (Z.lt_ge_cases l 64) as [|Hge]; [done|exfalso].
  assert (Hdiv : Z.land (Z.shiftr l 6) 3 = 0).
  { change 3 with (Z.shiftr 0xC0 6). rewrite <- Z.shiftr_land, H. done. }
  change 3 with (Z.ones 2) in Hdiv. rewrite Z.land_ones, Z.shiftr_div_pow2 in Hdiv by lia.
  unfold is_byte in Hl. change (2 ^ 6) with 64 in Hdiv. change (2 ^ 2) with 4 in Hdiv. div_lia.
Qed.

Lemma offset_nonneg l b2 : 0 ≤ l → 0 ≤ b2 → 0 ≤ Z.lor (Z.shiftl (Z.lxor l 0xC0) 8) b2.
Proof.
  intros. apply Z.lor_nonneg. split; [|done]. apply Z.shiftl_nonneg, Z.lxor_nonneg. lia.
Qed.

Lemma safe_seek p : 0 ≤ p ≤ BUF_SIZE + 1 → safe (seek p) (λ _, True).
Proof. intros Hp b Hb. split; [done|]. repeat split; cbn; lia. Qed.

Lemma read_qname_loop_safe fuel : ∀ p jumped jumps delim out,
  0 ≤ p → 0 ≤ jumps ≤ 6 →
  (6 - jumps) * 4097 + Z.max 0 (4096 - p) < Z.of_nat fuel →
  safe (read_qname_loop fuel p jumped jumps delim out)
    (λ s, ∃ ls, Forall label_ok ls ∧ Forall all_bytes ls ∧ s = out ++ joined delim ls).
Proof.
  induction fuel as [|fuel IH]; intros p jumped jumps delim out Hp Hj Hf; [lia|].
  cbn [read_qname_loop]. destruct (Z.ltb_spec max_jumps jumps); [apply safe_fail|].
  unfold max_jumps in *. eapply safe_bind; [by apply safe_get|]. intros l [Hl Hlt].
  unfold BUF_SIZE in Hlt. destruct (Z.eqb_spec (Z.land l 0xC0) 0xC0) as [Hc|Hc].
  { eapply (safe_bind _ _ (λ _, True)).
    { destruct jumped; [by apply safe_ret|apply safe_seek; unfold BUF_SIZE; lia]. }
    intros _ _. eapply safe_bind; [apply safe_get; lia|]. intros b2 [Hb2 _].
    assert (Hoff : 0 ≤ Z.lor (Z.shiftl (Z.lxor l 0xC0) 8) b2)
      by (apply offset_nonneg; unfold is_byte in *; lia).
    revert Hoff. generalize (Z.lor (Z.shiftl (Z.lxor l 0xC0) 8) b2). intros off Hoff.
    apply IH; lia. }
  destruct (Z.eqb_spec (Z.land l 0xC0) 0) as [H0|H0]; cbn [negb]; [|apply safe_fail].
  apply land_c0_zero in H0; [|done]. destruct (Z.eqb_spec l 0) as [Hz|Hz].
  - eapply (safe_bind _ _ (λ _, True)).
    { destruct jumped; [by apply safe_ret|apply safe_seek; unfold BUF_SIZE; lia]. }
    intros _ _. apply safe_ret. exists []. by rewrite app_nil_r.
  - eapply safe_bind; [apply safe_get_range; unfold is_byte in *; lia|].
    intros label (Hby & Hlen & Hle). unfold is_byte in Hl.
    eapply safe_mono; [apply IH; unfold BUF_SIZE in *; lia|].
    intros s (ls & Hok & Hbs & ->). exists (label :: ls). rewrite joined_cons.
    split_and!; [constructor; [unfold label_ok; lia|done]|by constructor|done].
Qed.

Lemma safe_read_qname : safe (read_qname []) read_name.
Proof.
  eapply safe_bind; [apply safe_get_pos|]. intros p Hp. cbv beta in Hp.
  eapply safe_mono; [apply read_qname_loop_safe|].
  - lia.
  - lia.
  - assert (Z.of_nat qname_fuel = 28679) as -> by (by vm_compute). lia.
  - intros s (ls & ? & ? & ->). exists ls. split_and!; [done..|]. by destruct ls.
Qed.

(** A name off the wire is a byte string and can be written again. *)
Lemma escape_byte_bytes v : is_byte v → all_bytes (escape_byte v).
Proof.
  intros Hv. unfold escape_byte. set (c := to_ascii_lowercase v).
  assert (Hc : is_byte c).
  { unfold c, to_ascii_lowercase, is_byte in *. case_if; bool_prop; lia. }
  clearbody c. repeat case_if; repeat constructor; try done; unfold is_byte in *; div_lia.
Qed.

Lemma escape_label_bytes l : all_bytes l → all_bytes (escape_label l).
Proof.
  intros Hl. unfold escape_label. induction Hl; simpl; [constructor|].
  apply Forall_app. split; [by apply escape_byte_bytes|done].
Qed.

Lemma name_text_bytes ls : Forall all_bytes ls → all_bytes (name_text ls).
Proof.
  intros Hls. destruct Hls as [|l ls Hl Hls]; [constructor|]. simpl.
  apply Forall_app. split; [by apply escape_label_bytes|].
  induction Hls; simpl; constructor; [by compute|].
  apply Forall_app. split; [by apply escape_label_bytes|done].
Qed.

Definition canonical (s : bytes) : Prop :=
  all_bytes s ∧ is_Some (name_wire s) ∧ canon_name s = s.

Lemma read_name_ok s : read_name s → canonical s.
Proof.
  intros (ls & Hok & Hb & ->). split; [by apply name_text_bytes|].
  split; [|by apply canon_name_text].
  unfold name_wire. rewrite name_labels_text by done. eauto.
Qed.

Lemma safe_name : safe (read_qname []) canonical.
Proof. eapply safe_mono; [apply safe_read_qname|apply read_name_ok]. Qed.

(** ** A write read back *)

Definition rewind (p : Z) (b : BytePacketBuffer) : BytePacketBuffer :=
  {| buf := buf b; pos := p; overflow := overflow b |}.

Lemma reads_pushed {A} (m : M A) w a b : reads m w a → in_bounds b →
  pos b + len w ≤ BUF_SIZE → m (rewind (pos b) (push w b)) = (Ok a, push w b).
Proof.
  intros Hm Hb Hf. pose proof (push_in_bounds w b Hb Hf) as Hpb.
  assert (Hr : rest (rewind (pos b) (push w b)) = w ++ drop (Z.to_nat (pos b + len w)) (buf b)).
  { unfold rest, rewind. cbn [buf pos push]. destruct Hb as [[Hl Hp] Hb].
    rewrite drop_app_length'; [done|]. rewrite length_take. unfold len in *. lia. }
  assert (Hib : in_bounds (rewind (pos b) (push w b))).
  { destruct Hb as [[? ?] ?], Hpb as [[? ?] ?]. by repeat split. }
  by rewrite (Hm _ _ Hib Hr).
Qed.

Lemma from_bytes_readable d : all_bytes d → readable (from_bytes d).
Proof.
  intros Hd. unfold from_bytes, readable, wf. cbn [buf pos].
  assert (Hn : len (buf new) = BUF_SIZE) by (by vm_compute).
  assert (Hz : all_bytes (buf new)) by (apply (bool_decide_unpack _); by vm_compute).
  pose proof (len_nonneg d). unfold BUF_SIZE in *. split_and!; try lia.
  - rewrite len_app, len_take, len_drop by lia. lia.
  - apply Forall_app. split; [by apply Forall_take|by apply Forall_drop].
Qed.

Lemma new_in_bounds : in_bounds new.
Proof. repeat split; by vm_compute. Qed.

(** * Correctness *)

(** Writing a domain name never panics and always terminates: a name of the escape
    grammar whose labels have at most 63 bytes is appended as its wire encoding, or
    fails with [EndOfBuffer] and the overflow flag set when the encoding does not fit;
    any other text is rejected with an error. *)
Theorem write_qname_spec (s : bytes) (b : BytePacketBuffer) : in_bounds b →
  match name_labels s with
  | Some ls =>
      if decide (pos b + len (wire_name ls) ≤ BUF_SIZE)
      then write_qname s b = (Ok tt, push (wire_name ls) b)
      else ∃ b', write_qname s b = (Err EndOfBuffer, b') ∧ overflowed b' = true
  | None => ∃ e b', write_qname s b = (Err e, b')
  end.
Proof.
  intros Hb. pose proof (write_qname_outcome s) as H.
  destruct (name_labels s) as [ls|]; [|by apply H].
  destruct (H b Hb) as [Hok Hfull]. case_decide; [auto|]. apply Hfull. lia.
Qed.

Lemma write_qname_spec_witness :
  in_bounds new ∧ name_labels (str "a\.B..c") = Some [str "a.B"; str "c"] ∧
  write_qname (str "a\.B..c") new = (Ok tt, push (3 :: str "a.B" ++ 1 :: str "c" ++ [0]) new).
Proof.
  split; [exact new_in_bounds|]. split; [by vm_compute|].
  exact (write_qname_spec (str "a\.B..c") new new_in_bounds).
Defined.

(** A domain name survives the wire: reading at the place it was written returns the
    canonical text of the name (lower case, labels escaped, no empty labels), leaves the
    cursor where the writer left it, and the canonical text is a fixed point. *)
Theorem qname_roundtrip (s : bytes) (ls : list bytes) (b : BytePacketBuffer) :
  all_bytes s → name_labels s = Some ls → in_bounds b →
  pos b + len (wire_name ls) ≤ BUF_SIZE →
  ∃ b', write_qname s b = (Ok tt, b') ∧
    read_qname [] (rewind (pos b) b') = (Ok (canon_name s), b') ∧
    canon_name (canon_name s) = canon_name s.
Proof.
  intros Hs Hls Hb Hf. exists (push (wire_name ls) b). split_and!.
  - by apply (appends_write_qname s ls Hls b Hb).
  - apply reads_pushed; [|done..]. apply reads_name. unfold name_wire. by rewrite Hls.
  - by apply canon_name_idem.
Qed.

Lemma qname_roundtrip_witness : ∃ b',
  write_qname (str "WWW.Example\.x.") new = (Ok tt, b') ∧
  read_qname [] (rewind (pos new) b') = (Ok (str "www.example\.x"), b').
Proof.
  destruct (qname_roundtrip (str "WWW.Example\.x.") [str "WWW"; str "Example.x"] new)
    as (b' & Hw & Hr & _).
  - apply (bool_decide_unpack _). by vm_compute.
  - by vm_compute.
  - exact new_in_bounds.
  - by vm_compute.
  - exists b'. split; [exact Hw|exact Hr].
Defined.

(** Reading a domain name from arbitrary bytes, compression pointers and loops of
    pointers included, always returns: it fails with an error, or yields a well-formed
    name that can be written again; the buffer's contents do not change. *)
Theorem read_qname_total (d : bytes) (p : Z) : all_bytes d → 0 ≤ p ≤ BUF_SIZE →
  match read_qname [] (rewind p (from_bytes d)) with
  | (Ok s, b') => canonical s ∧ buf b' = buf (from_bytes d)
  | (Err _, b') => buf b' = buf (from_bytes d)
  | (Panic, _) | (OutOfFuel, _) => False
  end.
Proof.
  intros Hd Hp. destruct (from_bytes_readable d Hd) as ((Hl & _) & Hby & _).
  assert (Hb : readable (rewind p (from_bytes d))) by (repeat split; cbn; try done; lia).
  pose proof (safe_name _ Hb) as H.
  destruct (read_qname [] (rewind p (from_bytes d))) as [[s|e| |] b']; try done;
    unfold same_contents in H; tauto.
Qed.

Lemma read_qname_total_witness :
  match read_qname [] (rewind 0 (from_bytes [0xC0; 0])) with
  | (Ok s, b') => canonical s ∧ buf b' = buf (from_bytes [0xC0; 0])
  | (Err _, b') => buf b' = buf (from_bytes [0xC0; 0])
  | (Panic, _) | (OutOfFuel, _) => False
  end.
Proof.
  apply (read_qname_total [0xC0; 0] 0).
  - apply (bool_decide_unpack _). by vm_compute.
  - unfold BUF_SIZE. lia.
Defined.
