(* ===== verification/Header.v ===== *)
(** [src/src/header.rs]: response codes and the 12-byte message header, with the
    exact wire image of [write] and the round trip through [read]. *)
From S2P Require Import Prelude Buffer.

Inductive ResultCode := NOERROR | FORMERR | SERVFAIL | NXDOMAIN | NOTIMP | REFUSED.
#[export] Instance ResultCode_eq_dec : EqDecision ResultCode.
Proof. solve_decision. Defined.

Definition from_num (num : Z) : ResultCode :=
  match num with
  | 1 => FORMERR
  | 2 => SERVFAIL
  | 3 => NXDOMAIN
  | 4 => NOTIMP
  | 5 => REFUSED
  | _ => NOERROR
  end.

(** [rescode as u8]: the discriminants of the enum. *)
Definition as_num (r : ResultCode) : Z :=
  match r with
  | NOERROR => 0 | FORMERR => 1 | SERVFAIL => 2
  | NXDOMAIN => 3 | NOTIMP => 4 | REFUSED => 5
  end.

Definition as_str (r : ResultCode) : bytes :=
  match r with
  | NOERROR => str "NOERROR"
  | FORMERR => str "FORMERR"
  | SERVFAIL => str "SERVFAIL"
  | NXDOMAIN => str "NXDOMAIN"
  | NOTIMP => str "NOTIMP"
  | REFUSED => str "REFUSED"
  end.

Record DnsHeader := MkHeader {
  id : Z;
  recursion_desired : bool;
  truncated_message : bool;
  authoritative_answer : bool;
  opcode : Z;
  response : bool;
  rescode : ResultCode;
  checking_disabled : bool;
  authed_data : bool;
  z : bool;
  recursion_available : bool;
  questions : Z;
  answers : Z;
  authoritative_entries : Z;
  resource_entries : Z;
}.

#[export] Instance DnsHeader_eq_dec : EqDecision DnsHeader.
Proof. solve_decision. Defined.

Definition new : DnsHeader := {|
  id := 0; recursion_desired := false; truncated_message := false;
  authoritative_answer := false; opcode := 0; response := false;
  rescode := NOERROR; checking_disabled := false; authed_data := false;
  z := false; recursion_available := false;
  questions := 0; answers := 0; authoritative_entries := 0; resource_entries := 0 |}.

(** [(x & (1 << i)) > 0]. *)
Definition bit (x i : Z) : bool := 0 <? Z.land x (Z.shiftl 1 i).

(** Every field of [self] is overwritten, so the method is a pure reader. *)
Definition read : M DnsHeader :=
  let! id := read_u16 in
  let! flags := read_u16 in
  let a := as_u8 (Z.shiftr flags 8) in
  let b := as_u8 (Z.land flags 0xFF) in
  let! questions := read_u16 in
  let! answers := read_u16 in
  let! authoritative_entries := read_u16 in
  let! resource_entries := read_u16 in
  ret {| id := id;
         recursion_desired := bit a 0;
         truncated_message := bit a 1;
         authoritative_answer := bit a 2;
         opcode := Z.land (Z.shiftr a 3) 0x0F;
         response := bit a 7;
         rescode := from_num (Z.land b 0x0F);
         checking_disabled := bit b 4;
         authed_data := bit b 5;
         z := bit b 6;
         recursion_available := bit b 7;
         questions := questions;
         answers := answers;
         authoritative_entries := authoritative_entries;
         resource_entries := resource_entries |}.

(** [(x as u8) << i] of a flag, on a [u8]. *)
Definition flag (x : bool) (i : Z) : Z := Z.shiftl (Z.b2z x) i.

Definition flags_high (h : DnsHeader) : Z :=
  Z.lor (Z.lor (Z.lor (Z.lor (flag (recursion_desired h) 0) (flag (truncated_message h) 1))
    (flag (authoritative_answer h) 2)) (as_u8 (Z.shiftl (opcode h) 3)))
    (flag (response h) 7).
Definition flags_low (h : DnsHeader) : Z :=
  Z.lor (Z.lor (Z.lor (Z.lor (as_num (rescode h)) (flag (checking_disabled h) 4))
    (flag (authed_data h) 5)) (flag (z h) 6)) (flag (recursion_available h) 7).

Definition write (h : DnsHeader) : M unit :=
  let! _ := write_u16 (id h) in
  let! _ := write_u8 (flags_high h) in
  let! _ := write_u8 (flags_low h) in
  let! _ := write_u16 (questions h) in
  let! _ := write_u16 (answers h) in
  let! _ := write_u16 (authoritative_entries h) in
  let! _ := write_u16 (resource_entries h) in
  ret tt.

(** * Specification *)

Definition header_wire (h : DnsHeader) : bytes :=
  be16 (id h) ++ [flags_high h; flags_low h] ++ be16 (questions h) ++ be16 (answers h)
  ++ be16 (authoritative_entries h) ++ be16 (resource_entries h).

(** The ranges of the header's integers; the opcode is four bits on the wire. *)
Definition header_ok (h : DnsHeader) : Prop :=
  is_u16 (id h) ∧ 0 ≤ opcode h < 16 ∧ is_u16 (questions h) ∧ is_u16 (answers h) ∧
  is_u16 (authoritative_entries h) ∧ is_u16 (resource_entries h).

#[export] Instance header_ok_dec h : Decision (header_ok h).
Proof. unfold header_ok. apply _. Defined.

Lemma len_header_wire h : len (header_wire h) = 12.
Proof. done. Qed.
#[export] Hint Rewrite len_header_wire : numa.

Lemma appends_header_write h : appends (write h) (header_wire h) tt.
Proof.
  unfold write, header_wire.
  eapply appends_bind; [auto with numa|].
  eapply (appends_bind_eq _ _ [_] (_ :: _)); [auto with numa| |reflexivity].
  eapply (appends_bind_eq _ _ [_]); [auto with numa| |reflexivity].
  do 3 (eapply appends_bind; [auto with numa|]).
  eapply appends_end; auto with numa.
Qed.
#[export] Hint Resolve appends_header_write : numa.

Lemma as_num_from_num r : from_num (as_num r) = r.
Proof. by destruct r. Qed.

(** The two flag bytes decode to the fields they were built from; checked on every
    combination of the flags, opcodes and response codes. *)
Lemma flags_high_decode rd tc aa op qr : 0 ≤ op < 16 →
  let a := Z.lor (Z.lor (Z.lor (Z.lor (flag rd 0) (flag tc 1)) (flag aa 2))
             (as_u8 (Z.shiftl op 3))) (flag qr 7) in
  is_byte a ∧ bit a 0 = rd ∧ bit a 1 = tc ∧ bit a 2 = aa ∧
  Z.land (Z.shiftr a 3) 0x0F = op ∧ bit a 7 = qr.
Proof.
  intros Hop. assert (Hin : op ∈ seqZ 0 16) by (apply elem_of_seqZ; lia).
  clear Hop. revert op Hin. apply Forall_forall.
  destruct rd, tc, aa, qr; apply (bool_decide_unpack _); by vm_compute.
Qed.

Lemma flags_low_decode rc cd ad zb ra :
  let b := Z.lor (Z.lor (Z.lor (Z.lor (as_num rc) (flag cd 4)) (flag ad 5)) (flag zb 6))
             (flag ra 7) in
  is_byte b ∧ from_num (Z.land b 0x0F) = rc ∧ bit b 4 = cd ∧ bit b 5 = ad ∧
  bit b 6 = zb ∧ bit b 7 = ra.
Proof. cbv zeta. destruct rc, cd, ad, zb, ra; apply (bool_decide_unpack _); by vm_compute. Qed.

Lemma from_be16_high a b : is_byte a → is_byte b → as_u8 (Z.shiftr (from_be16 a b) 8) = a.
Proof.
  unfold is_byte, from_be16. intros Ha Hb. rewrite lor_shiftl_add by lia.
  rewrite Z.shiftr_div_pow2 by lia. change (2 ^ 8) with 256.
  rewrite as_u8_small; unfold is_byte; div_lia.
Qed.
Lemma from_be16_low a b : is_byte a → is_byte b → as_u8 (Z.land (from_be16 a b) 0xFF) = b.
Proof.
  unfold is_byte, from_be16. intros Ha Hb. rewrite lor_shiftl_add, land_255 by lia.
  change (2 ^ 8) with 256. rewrite as_u8_small; unfold is_byte; div_lia.
Qed.

Lemma reads_two_bytes a b : reads read_u16 [a; b] (from_be16 a b).
Proof.
  eapply (reads_bind_eq _ _ [a]); [apply reads_read| |reflexivity].
  eapply reads_end; [apply reads_read|done].
Qed.

Lemma reads_header h : header_ok h → reads read (header_wire h) h.
Proof.
  intros (Hid & Hop & Hq & Ha & Hn & Hr). unfold read, header_wire.
  pose proof (flags_high_decode (recursion_desired h) (truncated_message h)
    (authoritative_answer h) (opcode h) (response h) Hop) as (Hb1 & ? & ? & ? & ? & ?).
  pose proof (flags_low_decode (rescode h) (checking_disabled h) (authed_data h) (z h)
    (recursion_available h)) as (Hb2 & ? & ? & ? & ? & ?).
  eapply reads_bind; [by apply reads_u16|].
  eapply reads_bind; [apply reads_two_bytes|]. cbv zeta.
  rewrite from_be16_high, from_be16_low by done.
  do 3 (eapply reads_bind; [by apply reads_u16|]).
  eapply reads_end; [by apply reads_u16|].
  unfold flags_high, flags_low. destruct h; cbn in *. do 2 f_equal; assumption.
Qed.

Lemma safe_header_read : safe read header_ok.
Proof.
  unfold read. do 6 (eapply safe_bind; [apply safe_read_u16|]; intros ? ?).
  apply safe_ret. unfold header_ok; cbn. split_and!; try done.
  - apply Z.land_nonneg. lia.
  - change 15 with (Z.ones 4). rewrite Z.land_ones by lia. by apply Z.mod_pos_bound.
Qed.
