(* ===== verification/Net.v ===== *)
(** The standard library's address types, as the code uses them: [Ipv4Addr] by its
    octets, [Ipv6Addr] by its segments. *)
From S2P Require Import Prelude.

Inductive Ipv4Addr := Ipv4 (a b c d : Z).
Inductive Ipv6Addr := Ipv6 (s0 s1 s2 s3 s4 s5 s6 s7 : Z).
Inductive IpAddr := V4 (a : Ipv4Addr) | V6 (a : Ipv6Addr).

#[export] Instance Ipv4Addr_eq_dec : EqDecision Ipv4Addr.
Proof. solve_decision. Defined.
#[export] Instance Ipv6Addr_eq_dec : EqDecision Ipv6Addr.
Proof. solve_decision. Defined.
#[export] Instance IpAddr_eq_dec : EqDecision IpAddr.
Proof. solve_decision. Defined.

Definition octets (x : Ipv4Addr) : bytes := let 'Ipv4 a b c d := x in [a; b; c; d].
Definition segments (x : Ipv6Addr) : list Z :=
  let 'Ipv6 s0 s1 s2 s3 s4 s5 s6 s7 := x in [s0; s1; s2; s3; s4; s5; s6; s7].

#[export] Instance Ipv4Addr_countable : Countable Ipv4Addr.
Proof.
  apply (inj_countable' octets
    (λ l, match l with [a; b; c; d] => Ipv4 a b c d | _ => Ipv4 0 0 0 0 end)).
  by intros [].
Defined.
#[export] Instance Ipv6Addr_countable : Countable Ipv6Addr.
Proof.
  apply (inj_countable' segments
    (λ l, match l with
          | [a; b; c; d; e; f; g; h] => Ipv6 a b c d e f g h
          | _ => Ipv6 0 0 0 0 0 0 0 0 end)).
  by intros [].
Defined.
#[export] Instance IpAddr_countable : Countable IpAddr.
Proof.
  apply (inj_countable' (λ x, match x with V4 a => inl a | V6 a => inr a end)
    (λ s, match s with inl a => V4 a | inr a => V6 a end)).
  by intros [].
Defined.

Definition ipv4_ok (x : Ipv4Addr) : Prop := Forall is_byte (octets x).
Definition ipv6_ok (x : Ipv6Addr) : Prop := Forall is_u16 (segments x).
#[export] Instance ipv4_ok_dec x : Decision (ipv4_ok x).
Proof. unfold ipv4_ok. apply _. Defined.
#[export] Instance ipv6_ok_dec x : Decision (ipv6_ok x).
Proof. unfold ipv6_ok. apply _. Defined.
