(* ===== verification/Question.v ===== *)
(** [src/src/question.rs]: query types and the question section entry. *)
From S2P Require Import Prelude Buffer.

(** The table of [define_qtypes!]; the constructors live in their own name space,
    as the variants of the source do. *)
Module QueryType.
Inductive t :=
    | UNKNOWN (x : Z)
    | A | NS | CNAME | SOA | PTR | MX | TXT | AAAA | LOC | SRV | NAPTR
    | OPT | DS | RRSIG | NSEC | DNSKEY | NSEC3 | SVCB | HTTPS.
End QueryType.

#[export] Instance QueryType_eq_dec : EqDecision QueryType.t.
Proof. solve_decision. Defined.

Definition to_num (q : QueryType.t) : Z :=
  match q with
  | QueryType.UNKNOWN x => x
  | QueryType.A => 1
  | QueryType.NS => 2
  | QueryType.CNAME => 5
  | QueryType.SOA => 6
  | QueryType.PTR => 12
  | QueryType.MX => 15
  | QueryType.TXT => 16
  | QueryType.AAAA => 28
  | QueryType.LOC => 29
  | QueryType.SRV => 33
  | QueryType.NAPTR => 35
  | QueryType.OPT => 41
  | QueryType.DS => 43
  | QueryType.RRSIG => 46
  | QueryType.NSEC => 47
  | QueryType.DNSKEY => 48
  | QueryType.NSEC3 => 50
  | QueryType.SVCB => 64
  | QueryType.HTTPS => 65
  end.

Definition from_num (num : Z) : QueryType.t :=
  match num with
  | 1 => QueryType.A
  | 2 => QueryType.NS
  | 5 => QueryType.CNAME
  | 6 => QueryType.SOA
  | 12 => QueryType.PTR
  | 15 => QueryType.MX
  | 16 => QueryType.TXT
  | 28 => QueryType.AAAA
  | 29 => QueryType.LOC
  | 33 => QueryType.SRV
  | 35 => QueryType.NAPTR
  | 41 => QueryType.OPT
  | 43 => QueryType.DS
  | 46 => QueryType.RRSIG
  | 47 => QueryType.NSEC
  | 48 => QueryType.DNSKEY
  | 50 => QueryType.NSEC3
  | 64 => QueryType.SVCB
  | 65 => QueryType.HTTPS
  | _ => QueryType.UNKNOWN num
  end.

Definition as_str (q : QueryType.t) : bytes :=
  match q with
  | QueryType.UNKNOWN _ => str "UNKNOWN"
  | QueryType.A => str "A"
  | QueryType.NS => str "NS"
  | QueryType.CNAME => str "CNAME"
  | QueryType.SOA => str "SOA"
  | QueryType.PTR => str "PTR"
  | QueryType.MX => str "MX"
  | QueryType.TXT => str "TXT"
  | QueryType.AAAA => str "AAAA"
  | QueryType.LOC => str "LOC"
  | QueryType.SRV => str "SRV"
  | QueryType.NAPTR => str "NAPTR"
  | QueryType.OPT => str "OPT"
  | QueryType.DS => str "DS"
  | QueryType.RRSIG => str "RRSIG"
  | QueryType.NSEC => str "NSEC"
  | QueryType.DNSKEY => str "DNSKEY"
  | QueryType.NSEC3 => str "NSEC3"
  | QueryType.SVCB => str "SVCB"
  | QueryType.HTTPS => str "HTTPS"
  end.

(** The named variants, in the order of the macro's arms. *)
Definition named : list QueryType.t :=
  [QueryType.A; QueryType.NS; QueryType.CNAME; QueryType.SOA; QueryType.PTR;
   QueryType.MX; QueryType.TXT; QueryType.AAAA; QueryType.LOC; QueryType.SRV;
   QueryType.NAPTR; QueryType.OPT; QueryType.DS; QueryType.RRSIG; QueryType.NSEC;
   QueryType.DNSKEY; QueryType.NSEC3; QueryType.SVCB; QueryType.HTTPS].

(** [match s.to_ascii_uppercase().as_str()]: the first arm whose literal is equal. *)
Definition parse_str (s : bytes) : option QueryType.t :=
  let upper := ascii_upper s in
  snd <$> list_find (λ q, upper = as_str q) named.

Record DnsQuestion := MkQuestion { name : bytes; qtype : QueryType.t }.

#[export] Instance DnsQuestion_eq_dec : EqDecision DnsQuestion.
Proof. solve_decision. Defined.

(** [read_qname] appends to the name the question holds. *)
Definition read (self : DnsQuestion) : M DnsQuestion :=
  let! name := read_qname (name self) in
  let! num := read_u16 in
  let! _ := read_u16 in
  ret {| name := name; qtype := from_num num |}.

Definition write (self : DnsQuestion) : M unit :=
  let! _ := write_qname (name self) in
  let! _ := write_u16 (to_num (qtype self)) in
  let! _ := write_u16 1 in
  ret tt.

(** * Query types *)

(** A query type as the parser produces it: no [UNKNOWN] with a named code. *)
Definition qtype_ok (q : QueryType.t) : Prop :=
  is_u16 (to_num q) ∧ from_num (to_num q) = q.
#[export] Instance qtype_ok_dec q : Decision (qtype_ok q).
Proof. unfold qtype_ok. apply _. Defined.

Lemma to_num_from_num n : to_num (from_num n) = n.
Proof.
  unfold from_num. repeat (case_match; try reflexivity).
Qed.

Lemma from_num_ok n : is_u16 n → qtype_ok (from_num n).
Proof. intros Hn. unfold qtype_ok. rewrite to_num_from_num. done. Qed.

#[export] Instance QueryType_countable : Countable QueryType.t.
Proof.
  apply (inj_countable'
    (λ q, match q with QueryType.UNKNOWN x => inl x | q => inr (to_num q) end)
    (λ s, match s with inl x => QueryType.UNKNOWN x | inr n => from_num n end)).
  by intros [].
Defined.

(** * Wire image *)

Definition question_wire (q : DnsQuestion) : option bytes :=
  name_wire (name q) ⊕ Some (be16 (to_num (qtype q))) ⊕ Some (be16 1) ⊕ Some [].

Definition canon_question (q : DnsQuestion) : DnsQuestion :=
  {| name := canon_name (name q); qtype := qtype q |}.

Definition question_ok (q : DnsQuestion) : Prop :=
  all_bytes (name q) ∧ qtype_ok (qtype q).
#[export] Instance question_ok_dec q : Decision (question_ok q).
Proof. unfold question_ok. apply _. Defined.

Lemma emits_question q : emits (write q) (question_wire q).
Proof. unfold write, question_wire. emits. Qed.
#[export] Hint Resolve emits_question : numa.

Lemma reads_question n0 q w : qtype_ok (qtype q) → question_wire q = Some w →
  reads (read {| name := []; qtype := n0 |}) w (canon_question q).
Proof.
  unfold question_wire. intros (Hu & Hq) (w1 & w2 & Hn & <-%(inj Some) & ->)%cat_Some.
  eapply reads_bind; [by apply reads_name|].
  eapply reads_bind; [by apply reads_u16|].
  eapply reads_end; [by apply reads_u16|]. unfold canon_question. by rewrite Hq.
Qed.

(** What the parser yields. *)
Definition parsed_question (q : DnsQuestion) : Prop :=
  question_ok q ∧ is_Some (question_wire q) ∧ canon_question q = q.

Lemma safe_question_read n0 : safe (read {| name := []; qtype := n0 |}) parsed_question.
Proof.
  unfold read. eapply safe_bind; [apply safe_name|]. intros s (Hb & Hw & Hc).
  eapply safe_bind; [apply safe_read_u16|]. intros n Hn.
  eapply safe_bind; [apply safe_read_u16|]. intros _ _.
  apply safe_ret. split; [|split].
  - split; [done|]. by apply from_num_ok.
  - unfold question_wire. apply cat_is_Some; [done|by eexists].
  - unfold canon_question. cbn. by rewrite Hc.
Qed.

(** * Correctness *)

(** The query-type tables agree: numbering is injective on parsed types, every code
    decodes and encodes back to itself, every mnemonic parses to its type in any letter
    case, and nothing else parses. *)
Theorem qtype_tables (n : Z) (s : bytes) (q : QueryType.t) :
  to_num (from_num n) = n ∧
  (q ∈ named → from_num (to_num q) = q) ∧
  (parse_str s = Some q ↔ q ∈ named ∧ ascii_upper s = as_str q).
Proof.
  split_and!.
  - apply to_num_from_num.
  - revert q. apply Forall_forall. apply (bool_decide_unpack _). by vm_compute.
  - unfold parse_str. rewrite fmap_Some. split.
    + intros ((i & q') & (Hi & Hq & _)%list_find_Some & ->).
      split; [by eapply list_elem_of_lookup_2|done].
    + intros [Hin Hs]. apply list_elem_of_lookup_1 in Hin as [i Hi].
      assert (Hinj : ∀ j q', named !! j = Some q' → as_str q' = as_str q → j = i ∧ q' = q).
      { assert (Hall : Forall (λ x, Forall (λ y, as_str (snd y) = as_str (snd x) → y = x)
          (zip (seq 0 19) named)) (zip (seq 0 19) named))
          by (apply (bool_decide_unpack _); by vm_compute).
        intros j q' Hj He. rewrite Forall_lookup in Hall.
        assert (Hz : ∀ k x, named !! k = Some x → zip (seq 0 19) named !! k = Some (k, x)).
        { intros k x Hk. apply lookup_zip_Some. split; [|done].
          apply lookup_lt_Some in Hk. apply lookup_seq. cbn in Hk. lia. }
        specialize (Hall i (i, q) (Hz _ _ Hi)). rewrite Forall_lookup in Hall.
        specialize (Hall j (j, q') (Hz _ _ Hj) He). by simplify_eq. }
      exists (i, q). split; [|done]. apply list_find_Some. split_and!; [done..|].
      intros j y Hj Hlt He. destruct (Hinj j y Hj) as [-> _]; [congruence|lia].
Qed.
