(* ===== verification/Record.v ===== *)
(** [src/src/record.rs]: resource records, their accessors, parser and writer, with
    the wire image of every record type, the round trip, and the safety of parsing
    arbitrary bytes. *)
From S2P Require Import Prelude Buffer Net Question.

Module DnsRecord.
Inductive t :=
    | UNKNOWN (domain : bytes) (qtype : Z) (data : bytes) (ttl : Z)
    | A (domain : bytes) (addr : Ipv4Addr) (ttl : Z)
    | NS (domain : bytes) (host : bytes) (ttl : Z)
    | SOA (domain mname rname : bytes) (serial refresh retry expire minimum : Z) (ttl : Z)
    | CNAME (domain : bytes) (host : bytes) (ttl : Z)
    | PTR (domain : bytes) (host : bytes) (ttl : Z)
    | MX (domain : bytes) (priority : Z) (host : bytes) (ttl : Z)
    | AAAA (domain : bytes) (addr : Ipv6Addr) (ttl : Z)
    | DNSKEY (domain : bytes) (flags protocol algorithm : Z) (public_key : bytes) (ttl : Z)
    | DS (domain : bytes) (key_tag algorithm digest_type : Z) (digest : bytes) (ttl : Z)
    | RRSIG (domain : bytes)
        (type_covered algorithm labels original_ttl expiration inception key_tag : Z)
        (signer_name signature : bytes) (ttl : Z)
    | NSEC (domain next_domain type_bitmap : bytes) (ttl : Z)
    | NSEC3 (domain : bytes) (hash_algorithm flags iterations : Z)
        (salt next_hashed_owner type_bitmap : bytes) (ttl : Z).
End DnsRecord.

#[export] Instance DnsRecord_eq_dec : EqDecision DnsRecord.t.
Proof. solve_decision. Defined.

(** * Accessors *)

Definition domain (r : DnsRecord.t) : bytes :=
  match r with
  | DnsRecord.A domain _ _ | DnsRecord.NS domain _ _ | DnsRecord.CNAME domain _ _
  | DnsRecord.PTR domain _ _ | DnsRecord.MX domain _ _ _ | DnsRecord.AAAA domain _ _
  | DnsRecord.DNSKEY domain _ _ _ _ _ | DnsRecord.DS domain _ _ _ _ _
  | DnsRecord.RRSIG domain _ _ _ _ _ _ _ _ _ _ | DnsRecord.NSEC domain _ _ _
  | DnsRecord.NSEC3 domain _ _ _ _ _ _ _ | DnsRecord.SOA domain _ _ _ _ _ _ _ _
  | DnsRecord.UNKNOWN domain _ _ _ => domain
  end.

Definition query_type (r : DnsRecord.t) : QueryType.t :=
  match r with
  | DnsRecord.A _ _ _ => QueryType.A
  | DnsRecord.AAAA _ _ _ => QueryType.AAAA
  | DnsRecord.NS _ _ _ => QueryType.NS
  | DnsRecord.CNAME _ _ _ => QueryType.CNAME
  | DnsRecord.PTR _ _ _ => QueryType.PTR
  | DnsRecord.MX _ _ _ _ => QueryType.MX
  | DnsRecord.SOA _ _ _ _ _ _ _ _ _ => QueryType.SOA
  | DnsRecord.DNSKEY _ _ _ _ _ _ => QueryType.DNSKEY
  | DnsRecord.DS _ _ _ _ _ _ => QueryType.DS
  | DnsRecord.RRSIG _ _ _ _ _ _ _ _ _ _ _ => QueryType.RRSIG
  | DnsRecord.NSEC _ _ _ _ => QueryType.NSEC
  | DnsRecord.NSEC3 _ _ _ _ _ _ _ _ => QueryType.NSEC3
  | DnsRecord.UNKNOWN _ qtype _ _ => QueryType.UNKNOWN qtype
  end.

Definition ttl (r : DnsRecord.t) : Z :=
  match r with
  | DnsRecord.A _ _ ttl | DnsRecord.NS _ _ ttl | DnsRecord.CNAME _ _ ttl
  | DnsRecord.PTR _ _ ttl | DnsRecord.MX _ _ _ ttl | DnsRecord.AAAA _ _ ttl
  | DnsRecord.DNSKEY _ _ _ _ _ ttl | DnsRecord.DS _ _ _ _ _ ttl
  | DnsRecord.RRSIG _ _ _ _ _ _ _ _ _ _ ttl | DnsRecord.NSEC _ _ _ ttl
  | DnsRecord.NSEC3 _ _ _ _ _ _ _ ttl | DnsRecord.SOA _ _ _ _ _ _ _ _ ttl
  | DnsRecord.UNKNOWN _ _ _ ttl => ttl
  end.

Definition set_ttl (new_ttl : Z) (r : DnsRecord.t) : DnsRecord.t :=
  match r with
  | DnsRecord.A d a _ => DnsRecord.A d a new_ttl
  | DnsRecord.NS d h _ => DnsRecord.NS d h new_ttl
  | DnsRecord.CNAME d h _ => DnsRecord.CNAME d h new_ttl
  | DnsRecord.PTR d h _ => DnsRecord.PTR d h new_ttl
  | DnsRecord.MX d p h _ => DnsRecord.MX d p h new_ttl
  | DnsRecord.AAAA d a _ => DnsRecord.AAAA d a new_ttl
  | DnsRecord.DNSKEY d f p a k _ => DnsRecord.DNSKEY d f p a k new_ttl
  | DnsRecord.DS d k a t g _ => DnsRecord.DS d k a t g new_ttl
  | DnsRecord.RRSIG d c a l o e i k n s _ => DnsRecord.RRSIG d c a l o e i k n s new_ttl
  | DnsRecord.NSEC d n b _ => DnsRecord.NSEC d n b new_ttl
  | DnsRecord.NSEC3 d h f i s n b _ => DnsRecord.NSEC3 d h f i s n b new_ttl
  | DnsRecord.SOA d m n s f r e u _ => DnsRecord.SOA d m n s f r e u new_ttl
  | DnsRecord.UNKNOWN d q b _ => DnsRecord.UNKNOWN d q b new_ttl
  end.

Definition set_domain (new_domain : bytes) (r : DnsRecord.t) : DnsRecord.t :=
  match r with
  | DnsRecord.A _ a t => DnsRecord.A new_domain a t
  | DnsRecord.NS _ h t => DnsRecord.NS new_domain h t
  | DnsRecord.CNAME _ h t => DnsRecord.CNAME new_domain h t
  | DnsRecord.PTR _ h t => DnsRecord.PTR new_domain h t
  | DnsRecord.MX _ p h t => DnsRecord.MX new_domain p h t
  | DnsRecord.AAAA _ a t => DnsRecord.AAAA new_domain a t
  | DnsRecord.DNSKEY _ f p a k t => DnsRecord.DNSKEY new_domain f p a k t
  | DnsRecord.DS _ k a y g t => DnsRecord.DS new_domain k a y g t
  | DnsRecord.RRSIG _ c a l o e i k n s t => DnsRecord.RRSIG new_domain c a l o e i k n s t
  | DnsRecord.NSEC _ n b t => DnsRecord.NSEC new_domain n b t
  | DnsRecord.NSEC3 _ h f i s n b t => DnsRecord.NSEC3 new_domain h f i s n b t
  | DnsRecord.SOA _ m n s f r e u t => DnsRecord.SOA new_domain m n s f r e u t
  | DnsRecord.UNKNOWN _ q b t => DnsRecord.UNKNOWN new_domain q b t
  end.

(** * Parsing *)

(** The bytes from the cursor to [rdata_start + data_len]; the subtraction is the
    [checked_sub] whose failure is the [what] error. *)
Definition rdata_tail (rdata_start data_len : Z) (what : string) : M bytes :=
  let rdata_end := rdata_start + data_len in
  let! p := get_pos in
  let! n := (if p <=? rdata_end then ret (rdata_end - p) else fail (RdataTooShort what)) in
  take_bytes n.

Definition ipv4_of_u32 (raw_addr : Z) : Ipv4Addr :=
  Ipv4 (as_u8 (Z.land (Z.shiftr raw_addr 24) 0xFF)) (as_u8 (Z.land (Z.shiftr raw_addr 16) 0xFF))
       (as_u8 (Z.land (Z.shiftr raw_addr 8) 0xFF)) (as_u8 (Z.land raw_addr 0xFF)).

Definition high16 (x : Z) : Z := as_u16 (Z.land (Z.shiftr x 16) 0xFFFF).
Definition low16 (x : Z) : Z := as_u16 (Z.land x 0xFFFF).

(** The [match qtype] of [read]. *)
Definition read_rdata (domain : bytes) (qtype_num ttl data_len : Z) : M DnsRecord.t :=
  let! rdata_start := get_pos in
  match from_num qtype_num with
  | QueryType.A =>
      let! raw_addr := read_u32 in
      ret (DnsRecord.A domain (ipv4_of_u32 raw_addr) ttl)
  | QueryType.AAAA =>
      let! raw_addr1 := read_u32 in
      let! raw_addr2 := read_u32 in
      let! raw_addr3 := read_u32 in
      let! raw_addr4 := read_u32 in
      ret (DnsRecord.AAAA domain
        (Ipv6 (high16 raw_addr1) (low16 raw_addr1) (high16 raw_addr2) (low16 raw_addr2)
              (high16 raw_addr3) (low16 raw_addr3) (high16 raw_addr4) (low16 raw_addr4)) ttl)
  | QueryType.NS =>
      let! ns := read_qname [] in
      ret (DnsRecord.NS domain ns ttl)
  | QueryType.CNAME =>
      let! cname := read_qname [] in
      ret (DnsRecord.CNAME domain cname ttl)
  | QueryType.PTR =>
      let! ptr := read_qname [] in
      ret (DnsRecord.PTR domain ptr ttl)
  | QueryType.MX =>
      let! priority := read_u16 in
      let! mx := read_qname [] in
      ret (DnsRecord.MX domain priority mx ttl)
  | QueryType.DNSKEY =>
      let! flags := read_u16 in
      let! protocol := Buffer.read in
      let! algorithm := Buffer.read in
      let! public_key := rdata_tail rdata_start data_len "DNSKEY" in
      ret (DnsRecord.DNSKEY domain flags protocol algorithm public_key ttl)
  | QueryType.DS =>
      let! key_tag := read_u16 in
      let! algorithm := Buffer.read in
      let! digest_type := Buffer.read in
      let! digest := rdata_tail rdata_start data_len "DS" in
      ret (DnsRecord.DS domain key_tag algorithm digest_type digest ttl)
  | QueryType.RRSIG =>
      let! type_covered := read_u16 in
      let! algorithm := Buffer.read in
      let! labels := Buffer.read in
      let! original_ttl := read_u32 in
      let! expiration := read_u32 in
      let! inception := read_u32 in
      let! key_tag := read_u16 in
      let! signer_name := read_qname [] in
      let! signature := rdata_tail rdata_start data_len "RRSIG" in
      ret (DnsRecord.RRSIG domain type_covered algorithm labels original_ttl expiration
             inception key_tag signer_name signature ttl)
  | QueryType.NSEC =>
      let! next_domain := read_qname [] in
      let! type_bitmap := rdata_tail rdata_start data_len "NSEC" in
      ret (DnsRecord.NSEC domain next_domain type_bitmap ttl)
  | QueryType.NSEC3 =>
      let! hash_algorithm := Buffer.read in
      let! flags := Buffer.read in
      let! iterations := read_u16 in
      let! salt_length := Buffer.read in
      let! salt := take_bytes salt_length in
      let! hash_length := Buffer.read in
      let! next_hashed_owner := take_bytes hash_length in
      let! type_bitmap := rdata_tail rdata_start data_len "NSEC3" in
      ret (DnsRecord.NSEC3 domain hash_algorithm flags iterations salt next_hashed_owner
             type_bitmap ttl)
  | QueryType.SOA =>
      let! mname := read_qname [] in
      let! rname := read_qname [] in
      let! serial := read_u32 in
      let! refresh := read_u32 in
      let! retry := read_u32 in
      let! expire := read_u32 in
      let! minimum := read_u32 in
      ret (DnsRecord.SOA domain mname rname serial refresh retry expire minimum ttl)
  | _ =>
      let! data := take_bytes data_len in
      ret (DnsRecord.UNKNOWN domain qtype_num data ttl)
  end.

Definition read : M DnsRecord.t :=
  let! domain := read_qname [] in
  let! qtype_num := read_u16 in
  let! _ := read_u16 in
  let! ttl := read_u32 in
  let! data_len := read_u16 in
  read_rdata domain qtype_num ttl data_len.

(** * Writing *)

Definition write_header (domain : bytes) (qtype ttl : Z) : M unit :=
  let! _ := write_qname domain in
  let! _ := write_u16 qtype in
  let! _ := write_u16 1 in
  let! _ := write_u32 ttl in
  ret tt.

(** The [match *self] of [write]. *)
Definition write_body (r : DnsRecord.t) : M unit :=
  match r with
  | DnsRecord.A domain addr ttl =>
      let! _ := write_header domain (to_num QueryType.A) ttl in
      let! _ := write_u16 4 in
      write_bytes (octets addr)
  | DnsRecord.NS domain host ttl =>
      let! _ := write_header domain (to_num QueryType.NS) ttl in
      with_rdlength (write_qname host)
  | DnsRecord.CNAME domain host ttl =>
      let! _ := write_header domain (to_num QueryType.CNAME) ttl in
      with_rdlength (write_qname host)
  | DnsRecord.PTR domain host ttl =>
      let! _ := write_header domain (to_num QueryType.PTR) ttl in
      with_rdlength (write_qname host)
  | DnsRecord.MX domain priority host ttl =>
      let! _ := write_header domain (to_num QueryType.MX) ttl in
      with_rdlength (
        let! _ := write_u16 priority in
        write_qname host)
  | DnsRecord.SOA domain mname rname serial refresh retry expire minimum ttl =>
      let! _ := write_header domain (to_num QueryType.SOA) ttl in
      with_rdlength (
        let! _ := write_qname mname in
        let! _ := write_qname rname in
        let! _ := write_u32 serial in
        let! _ := write_u32 refresh in
        let! _ := write_u32 retry in
        let! _ := write_u32 expire in
        write_u32 minimum)
  | DnsRecord.AAAA domain addr ttl =>
      let! _ := write_header domain (to_num QueryType.AAAA) ttl in
      let! _ := write_u16 16 in
      write_all write_u16 (segments addr)
  | DnsRecord.DNSKEY domain flags protocol algorithm public_key ttl =>
      let! _ := write_header domain (to_num QueryType.DNSKEY) ttl in
      let! _ := write_u16 (as_u16 (4 + len public_key)) in
      let! _ := write_u16 flags in
      let! _ := write_u8 protocol in
      let! _ := write_u8 algorithm in
      write_bytes public_key
  | DnsRecord.DS domain key_tag algorithm digest_type digest ttl =>
      let! _ := write_header domain (to_num QueryType.DS) ttl in
      let! _ := write_u16 (as_u16 (4 + len digest)) in
      let! _ := write_u16 key_tag in
      let! _ := write_u8 algorithm in
      let! _ := write_u8 digest_type in
      write_bytes digest
  | DnsRecord.RRSIG domain type_covered algorithm labels original_ttl expiration inception
        key_tag signer_name signature ttl =>
      let! _ := write_header domain (to_num QueryType.RRSIG) ttl in
      with_rdlength (
        let! _ := write_u16 type_covered in
        let! _ := write_u8 algorithm in
        let! _ := write_u8 labels in
        let! _ := write_u32 original_ttl in
        let! _ := write_u32 expiration in
        let! _ := write_u32 inception in
        let! _ := write_u16 key_tag in
        let! _ := write_qname signer_name in
        write_bytes signature)
  | DnsRecord.NSEC domain next_domain type_bitmap ttl =>
      let! _ := write_header domain (to_num QueryType.NSEC) ttl in
      with_rdlength (
        let! _ := write_qname next_domain in
        write_bytes type_bitmap)
  | DnsRecord.NSEC3 domain hash_algorithm flags iterations salt next_hashed_owner
        type_bitmap ttl =>
      let! _ := write_header domain (to_num QueryType.NSEC3) ttl in
      let rdlen := 1 + 1 + 2 + 1 + len salt + 1 + len next_hashed_owner + len type_bitmap in
      let! _ := write_u16 (as_u16 rdlen) in
      let! _ := write_u8 hash_algorithm in
      let! _ := write_u8 flags in
      let! _ := write_u16 iterations in
      let! _ := write_u8 (as_u8 (len salt)) in
      let! _ := write_bytes salt in
      let! _ := write_u8 (as_u8 (len next_hashed_owner)) in
      let! _ := write_bytes next_hashed_owner in
      write_bytes type_bitmap
  | DnsRecord.UNKNOWN domain qtype data ttl =>
      let! _ := write_header domain qtype ttl in
      let! _ := write_u16 (as_u16 (len data)) in
      write_bytes data
  end.

Definition write (r : DnsRecord.t) : M Z := measured (write_body r).

(** * Wire image *)

Definition type_num (r : DnsRecord.t) : Z := to_num (query_type r).

Definition rdata_wire (r : DnsRecord.t) : option bytes :=
  match r with
  | DnsRecord.A _ addr _ => Some (octets addr)
  | DnsRecord.NS _ host _ | DnsRecord.CNAME _ host _ | DnsRecord.PTR _ host _ =>
      name_wire host
  | DnsRecord.MX _ priority host _ => Some (be16 priority) ⊕ name_wire host
  | DnsRecord.SOA _ mname rname serial refresh retry expire minimum _ =>
      name_wire mname ⊕ name_wire rname ⊕ Some (be32 serial) ⊕ Some (be32 refresh)
      ⊕ Some (be32 retry) ⊕ Some (be32 expire) ⊕ Some (be32 minimum)
  | DnsRecord.AAAA _ addr _ => Some (flat_map be16 (segments addr))
  | DnsRecord.DNSKEY _ flags protocol algorithm public_key _ =>
      Some (be16 flags ++ [protocol] ++ [algorithm] ++ public_key)
  | DnsRecord.DS _ key_tag algorithm digest_type digest _ =>
      Some (be16 key_tag ++ [algorithm] ++ [digest_type] ++ digest)
  | DnsRecord.RRSIG _ type_covered algorithm labels original_ttl expiration inception
        key_tag signer_name signature _ =>
      Some (be16 type_covered) ⊕ Some [algorithm] ⊕ Some [labels] ⊕ Some (be32 original_ttl)
      ⊕ Some (be32 expiration) ⊕ Some (be32 inception) ⊕ Some (be16 key_tag)
      ⊕ name_wire signer_name ⊕ Some signature
  | DnsRecord.NSEC _ next_domain type_bitmap _ => name_wire next_domain ⊕ Some type_bitmap
  | DnsRecord.NSEC3 _ hash_algorithm flags iterations salt next_hashed_owner type_bitmap _ =>
      Some ([hash_algorithm] ++ [flags] ++ be16 iterations ++ [as_u8 (len salt)] ++ salt
            ++ [as_u8 (len next_hashed_owner)] ++ next_hashed_owner ++ type_bitmap)
  | DnsRecord.UNKNOWN _ _ data _ => Some data
  end.

Definition rr_header_wire (r : DnsRecord.t) : option bytes :=
  name_wire (domain r) ⊕ Some (be16 (type_num r)) ⊕ Some (be16 1) ⊕ Some (be32 (ttl r))
  ⊕ Some [].

(** Owner, type, class IN, TTL, RDLENGTH and RDATA. *)
Definition record_wire (r : DnsRecord.t) : option bytes :=
  rr_header_wire r ⊕ prefixed (rdata_wire r).

Lemma emits_write_header d q t :
  emits (write_header d q t)
    (name_wire d ⊕ Some (be16 q) ⊕ Some (be16 1) ⊕ Some (be32 t) ⊕ Some []).
Proof. unfold write_header. emits. Qed.

(** A length computed in advance and the body it announces. *)
Lemma emits_fixed n (body : M unit) w :
  emits body (Some w) → n = len w →
  emits (let! _ := write_u16 (as_u16 n) in body) (prefixed (Some w)).
Proof.
  intros Hb ->. eapply emits_bind_eq; [apply emits_u16|intros _; exact Hb|]. done.
Qed.

Lemma emits_segments addr : emits (write_all write_u16 (segments addr))
  (Some (flat_map be16 (segments addr))).
Proof.
  destruct addr.
  exact (emits_write_all write_u16 (λ v, Some (be16 v)) _ emits_u16).
Qed.

Lemma emits_write_body r : emits (write_body r) (record_wire r).
Proof.
  unfold record_wire, rr_header_wire, type_num.
  destruct r; (apply emits_bind; [apply emits_write_header|intros _]);
    cbn [rdata_wire]; try (apply emits_with_rdlength; emits).
  - apply emits_fixed; auto with numa.
  - destruct addr. by apply (emits_fixed 4); [apply emits_bytes|].
  - apply (emits_fixed 16); [apply emits_segments|by destruct addr].
  - apply emits_fixed; [|len_lia].
    change (Some (?a ++ ?b ++ ?c ++ ?d)) with (Some a ⊕ Some b ⊕ Some c ⊕ Some d). emits.
  - apply emits_fixed; [|len_lia].
    change (Some (?a ++ ?b ++ ?c ++ ?d)) with (Some a ⊕ Some b ⊕ Some c ⊕ Some d). emits.
  - apply emits_fixed; [|len_lia].
    change (Some (?a ++ ?b ++ ?c ++ ?d ++ ?e ++ ?f ++ ?g ++ ?h)) with
      (Some a ⊕ Some b ⊕ Some c ⊕ Some d ⊕ Some e ⊕ Some f ⊕ Some g ⊕ Some h). emits.
Qed.

Lemma emits_record r : emits (write r) (record_wire r).
Proof. apply emits_measured, emits_write_body. Qed.
#[export] Hint Resolve emits_record : numa.

(** [write] appends the wire image and returns its length, or rejects the record
    exactly when one of its names has no encoding. *)
Lemma write_outcome r :
  match record_wire r with
  | Some w => appends (write r) w (len w)
  | None => rejects (write r)
  end.
Proof.
  pose proof (emits_record r) as He. pose proof (emits_write_body r) as Hb.
  destruct (record_wire r); [|done]. by apply appends_measured, emits_unit.
Qed.

(** * Round trip *)

(** A record with the field ranges of the Rust types; an [UNKNOWN] record does not
    carry a type the parser decodes natively, and the length bytes of NSEC3 are
    exact. *)
Definition opaque_type (n : Z) : bool :=
  match from_num n with
  | QueryType.A | QueryType.AAAA | QueryType.NS | QueryType.CNAME | QueryType.PTR
  | QueryType.MX | QueryType.DNSKEY | QueryType.DS | QueryType.RRSIG | QueryType.NSEC
  | QueryType.NSEC3 | QueryType.SOA => false
  | _ => true
  end.

Definition rdata_ok (r : DnsRecord.t) : Prop :=
  match r with
  | DnsRecord.UNKNOWN _ qtype data _ => is_u16 qtype ∧ opaque_type qtype = true ∧ all_bytes data
  | DnsRecord.A _ addr _ => ipv4_ok addr
  | DnsRecord.NS _ host _ | DnsRecord.CNAME _ host _ | DnsRecord.PTR _ host _ => all_bytes host
  | DnsRecord.SOA _ mname rname serial refresh retry expire minimum _ =>
      all_bytes mname ∧ all_bytes rname ∧ is_u32 serial ∧ is_u32 refresh ∧ is_u32 retry ∧
      is_u32 expire ∧ is_u32 minimum
  | DnsRecord.MX _ priority host _ => is_u16 priority ∧ all_bytes host
  | DnsRecord.AAAA _ addr _ => ipv6_ok addr
  | DnsRecord.DNSKEY _ flags protocol algorithm public_key _ =>
      is_u16 flags ∧ is_byte protocol ∧ is_byte algorithm ∧ all_bytes public_key
  | DnsRecord.DS _ key_tag algorithm digest_type digest _ =>
      is_u16 key_tag ∧ is_byte algorithm ∧ is_byte digest_type ∧ all_bytes digest
  | DnsRecord.RRSIG _ type_covered algorithm labels original_ttl expiration inception
        key_tag signer_name signature _ =>
      is_u16 type_covered ∧ is_byte algorithm ∧ is_byte labels ∧ is_u32 original_ttl ∧
      is_u32 expiration ∧ is_u32 inception ∧ is_u16 key_tag ∧ all_bytes signer_name ∧
      all_bytes signature
  | DnsRecord.NSEC _ next_domain type_bitmap _ => all_bytes next_domain ∧ all_bytes type_bitmap
  | DnsRecord.NSEC3 _ hash_algorithm flags iterations salt next_hashed_owner type_bitmap _ =>
      is_byte hash_algorithm ∧ is_byte flags ∧ is_u16 iterations ∧ len salt < 256 ∧
      len next_hashed_owner < 256 ∧ all_bytes salt ∧ all_bytes next_hashed_owner ∧
      all_bytes type_bitmap
  end.

Definition record_ok (r : DnsRecord.t) : Prop :=
  all_bytes (domain r) ∧ is_u32 (ttl r) ∧ rdata_ok r.
#[export] Instance record_ok_dec r : Decision (record_ok r).
Proof. unfold record_ok, rdata_ok. destruct r; apply _. Defined.

Definition canon_record (r : DnsRecord.t) : DnsRecord.t :=
  match r with
  | DnsRecord.A d a t => DnsRecord.A (canon_name d) a t
  | DnsRecord.NS d h t => DnsRecord.NS (canon_name d) (canon_name h) t
  | DnsRecord.CNAME d h t => DnsRecord.CNAME (canon_name d) (canon_name h) t
  | DnsRecord.PTR d h t => DnsRecord.PTR (canon_name d) (canon_name h) t
  | DnsRecord.MX d p h t => DnsRecord.MX (canon_name d) p (canon_name h) t
  | DnsRecord.AAAA d a t => DnsRecord.AAAA (canon_name d) a t
  | DnsRecord.DNSKEY d f p a k t => DnsRecord.DNSKEY (canon_name d) f p a k t
  | DnsRecord.DS d k a y g t => DnsRecord.DS (canon_name d) k a y g t
  | DnsRecord.RRSIG d c a l o e i k n s t =>
      DnsRecord.RRSIG (canon_name d) c a l o e i k (canon_name n) s t
  | DnsRecord.NSEC d n b t => DnsRecord.NSEC (canon_name d) (canon_name n) b t
  | DnsRecord.NSEC3 d h f i s n b t => DnsRecord.NSEC3 (canon_name d) h f i s n b t
  | DnsRecord.SOA d m n s f r e u t =>
      DnsRecord.SOA (canon_name d) (canon_name m) (canon_name n) s f r e u t
  | DnsRecord.UNKNOWN d q b t => DnsRecord.UNKNOWN (canon_name d) q b t
  end.

Lemma reads_at_tail p start n what d :
  start + n = p + len d → reads_at p (rdata_tail start n what) d d.
Proof.
  intros Hn. apply reads_at_get_pos. pose proof (len_nonneg d).
  destruct (Z.leb_spec p (start + n)); [|lia].
  replace (start + n - p) with (len d) by lia.
  eapply (reads_at_bind_eq _ _ _ [] d); [apply reads_at_ret| |done].
  apply reads_reads_at, reads_take_bytes.
Qed.

Lemma reads_at_take p d n : n = len d → reads_at p (take_bytes n) d d.
Proof. intros ->. apply reads_reads_at, reads_take_bytes. Qed.
Lemma reads_at_u16 p v : is_u16 v → reads_at p read_u16 (be16 v) v.
Proof. intros. by apply reads_reads_at, reads_u16. Qed.
Lemma reads_at_u32 p v : is_u32 v → reads_at p read_u32 (be32 v) v.
Proof. intros. by apply reads_reads_at, reads_u32. Qed.
Lemma reads_at_byte p v : reads_at p Buffer.read [v] v.
Proof. apply reads_reads_at, reads_read. Qed.
Lemma reads_at_name p s w : name_wire s = Some w → reads_at p (read_qname []) w (canon_name s).
Proof. intros. by apply reads_reads_at, reads_name. Qed.
#[export] Hint Resolve reads_at_take reads_at_u16 reads_at_u32 reads_at_byte reads_at_name
  reads_at_ret : numa.

(** The four octets and the eight segments come back from the words read. *)
Lemma ipv4_of_be32 addr : ipv4_ok addr →
  reads read_u32 (octets addr) (let 'Ipv4 a b c d := addr in from_be32 a b c d) ∧
  ipv4_of_u32 (let 'Ipv4 a b c d := addr in from_be32 a b c d) = addr.
Proof.
  destruct addr as [a b c d]. unfold ipv4_ok, octets. rewrite !Forall_cons.
  intros (Ha & Hb & Hc & Hd & _). split.
  - do 3 (eapply (reads_bind_eq _ _ [_]); [apply reads_read| |reflexivity]).
    by eapply reads_end; [apply reads_read|].
  - unfold ipv4_of_u32. rewrite !land_255, from_be32_sum by done.
    rewrite !Z.shiftr_div_pow2 by lia. unfold is_byte in *.
    rewrite !as_u8_small by (unfold is_byte; apply Z.mod_pos_bound; lia).
    f_equal; div_lia.
Qed.

Lemma words_of_be16 x y : is_u16 x → is_u16 y →
  ∃ v, reads read_u32 (be16 x ++ be16 y) v ∧ high16 v = x ∧ low16 v = y.
Proof.
  intros Hx Hy. eexists. split; [|split].
  - do 3 (eapply (reads_bind_eq _ _ [_]); [apply reads_read| |reflexivity]).
    by eapply reads_end; [apply reads_read|].
  - unfold high16. rewrite from_be32_sum by auto with numa.
    change 0xFFFF with (Z.ones 16). rewrite Z.land_ones, Z.shiftr_div_pow2, !land_255 by lia.
    unfold is_u16, as_u8, as_u16 in *. rewrite !Z.shiftr_div_pow2 by lia.
    rewrite (Z.mod_small (x / 2 ^ 8)) by div_lia. div_lia.
  - unfold low16. rewrite from_be32_sum by auto with numa.
    change 0xFFFF with (Z.ones 16). rewrite Z.land_ones, !land_255 by lia.
    unfold is_u16, as_u8, as_u16 in *. rewrite !Z.shiftr_div_pow2 by lia.
    rewrite (Z.mod_small (y / 2 ^ 8)) by div_lia. div_lia.
Qed.

(** Splits [rdata_wire r = Some w] into the pieces of [w]. *)
Ltac inv_wire :=
  repeat match goal with
  | H : _ ⊕ _ = Some _ |- _ => apply cat_Some in H as (? & ? & ? & ? & ->)
  | H : Some ?x = Some ?w |- _ => is_var w; apply (inj Some) in H; subst w
  end.
(** Reads the fields of a record one after the other. *)
Ltac reads_fields :=
  repeat (eapply reads_at_bind; [solve [eauto with numa]|]);
  eapply reads_at_end; [|reflexivity].

Lemma reads_rdata p r w : record_ok r → rdata_wire r = Some w →
  reads_at p (read_rdata (canon_name (domain r)) (type_num r) (ttl r) (len w)) w
    (canon_record r).
Proof.
  intros (_ & _ & Hr) Hw. unfold read_rdata. apply reads_at_get_pos.
  destruct r; cbn [rdata_wire rdata_ok domain ttl canon_record type_num query_type] in *;
    unfold type_num; cbn [query_type to_num from_num]; destruct_and?; inv_wire;
    try solve [reads_fields; eauto with numa].
  - unfold opaque_type in *. destruct (from_num qtype); try done;
      (eapply reads_at_end; [by apply reads_at_take|done]).
  - destruct (ipv4_of_be32 addr Hr) as [H1 H2].
    eapply reads_at_end; [by apply reads_reads_at, H1|]. by rewrite H2.
  - destruct addr as [s0 s1 s2 s3 s4 s5 s6 s7]. unfold ipv6_ok in Hr. cbn [segments] in *.
    rewrite !Forall_cons in Hr. destruct_and!.
    destruct (words_of_be16 s0 s1) as (v0 & ? & ? & ?); [done..|].
    destruct (words_of_be16 s2 s3) as (v1 & ? & ? & ?); [done..|].
    destruct (words_of_be16 s4 s5) as (v2 & ? & ? & ?); [done..|].
    destruct (words_of_be16 s6 s7) as (v3 & ? & ? & ?); [done..|].
    change (flat_map be16 _) with ((be16 s0 ++ be16 s1) ++ (be16 s2 ++ be16 s3) ++
      (be16 s4 ++ be16 s5) ++ (be16 s6 ++ be16 s7)).
    do 3 (eapply reads_at_bind; [by apply reads_reads_at|]).
    eapply reads_at_end; [by apply reads_reads_at|congruence].
  - reads_fields. apply reads_at_tail. len_lia.
  - reads_fields. apply reads_at_tail. len_lia.
  - reads_fields. apply reads_at_tail. len_lia.
  - reads_fields. apply reads_at_tail. len_lia.
  - rewrite !as_u8_small in * by (unfold is_byte; len_lia).
    reads_fields. apply reads_at_tail. len_lia.
Qed.

Lemma type_num_u16 r : record_ok r → is_u16 (type_num r).
Proof.
  intros (_ & _ & Hr). destruct r; unfold type_num; cbn [query_type to_num];
    try (unfold is_u16; lia). by destruct Hr.
Qed.

Lemma reads_record r w : record_ok r → record_wire r = Some w →
  reads read w (canon_record r).
Proof.
  intros Hr Hw. apply reads_at_reads. intros p. apply reads_at_room. intros Hp Hroom.
  unfold record_wire in Hw. apply cat_Some in Hw as (wh & wp & Hh & Hb & ->).
  unfold prefixed in Hb. apply bind_Some in Hb as (wr & Hwr & <-%(inj Some)).
  unfold rr_header_wire in Hh. inv_wire. rewrite app_nil_r, <- !app_assoc in *.
  pose proof (λ p, reads_rdata p r wr Hr Hwr) as Hrd. pose proof (type_num_u16 r Hr).
  destruct Hr as (Hd & Httl & Hrok).
  assert (is_u16 (len wr)).
  { unfold is_u16, BUF_SIZE in *. pose proof (len_nonneg wr). len_lia. }
  rewrite as_u16_small in * by done. unfold read.
  do 5 (eapply reads_at_bind; [solve [eauto with numa|by apply reads_at_u16]|]).
  apply Hrd.
Qed.

(** * Parsing arbitrary bytes *)

(** What the parser yields: fields in range, every name encodable again and in
    canonical text. *)
Definition parsed (r : DnsRecord.t) : Prop :=
  record_ok r ∧ is_Some (record_wire r) ∧ canon_record r = r.

Lemma safe_rdata_tail start n what : safe (rdata_tail start n what) all_bytes.
Proof.
  eapply safe_bind; [apply safe_get_pos|]. intros p _.
  destruct (Z.leb_spec p (start + n)).
  - eapply safe_bind; [apply (safe_ret _ (λ m, 0 ≤ m)); lia|]. intros m Hm.
    eapply safe_mono; [by apply safe_take_bytes|]. by intros d [? _].
  - eapply (safe_bind _ _ (λ _, False)); [apply safe_fail|done].
Qed.

Lemma safe_take_byte n : is_byte n → safe (take_bytes n) (λ d, all_bytes d ∧ len d = n).
Proof. unfold is_byte. intros. apply safe_take_bytes. lia. Qed.
Lemma safe_take_u16 n : is_u16 n → safe (take_bytes n) (λ d, all_bytes d ∧ len d = n).
Proof. unfold is_u16. intros. apply safe_take_bytes. lia. Qed.

#[export] Hint Resolve safe_name safe_read safe_read_u16 safe_read_u32 safe_take_byte
  safe_take_u16 safe_rdata_tail : numa.

Lemma record_wire_is_Some r :
  is_Some (name_wire (domain r)) → is_Some (rdata_wire r) → is_Some (record_wire r).
Proof.
  intros. unfold record_wire, rr_header_wire. apply cat_is_Some; [|by apply prefixed_is_Some].
  repeat apply cat_is_Some; by eauto.
Qed.

Lemma ipv4_of_u32_ok v : ipv4_ok (ipv4_of_u32 v).
Proof. unfold ipv4_ok. repeat constructor; apply as_u8_byte. Qed.

Lemma ipv6_of_words_ok a b c d : ipv6_ok (Ipv6 (high16 a) (low16 a) (high16 b) (low16 b)
  (high16 c) (low16 c) (high16 d) (low16 d)).
Proof. unfold ipv6_ok. repeat constructor; apply as_u16_u16. Qed.
Lemma is_byte_upper v : is_byte v → v < 256.
Proof. unfold is_byte. lia. Qed.

Lemma safe_read_rdata d n t dl :
  canonical d → is_u16 n → is_u32 t → is_u16 dl → safe (read_rdata d n t dl) parsed.
Proof.
  intros (Hd & Hw & Hcd) Hn Ht Hl.
  assert (Hdone : ∀ r, domain r = d → ttl r = t →
    rdata_ok r ∧ is_Some (rdata_wire r) ∧ canon_record r = r → safe (ret r) parsed).
  { intros r <- <- (Hok & Hrw & Hc). apply safe_ret. split; [done|]. split; [|done].
    by apply record_wire_is_Some. }
  eapply safe_bind; [apply safe_get_pos|]. intros start _.
  assert (Hop : ∀ q, from_num n = q → opaque_type n = match q with
    | QueryType.A | QueryType.AAAA | QueryType.NS | QueryType.CNAME | QueryType.PTR
    | QueryType.MX | QueryType.DNSKEY | QueryType.DS | QueryType.RRSIG | QueryType.NSEC
    | QueryType.NSEC3 | QueryType.SOA => false | _ => true end)
    by (intros q <-; done).
  destruct (from_num n) eqn:Hq; specialize (Hop _ eq_refl);
    repeat (eapply safe_bind; [solve [eauto with numa]|intros ? ?]);
    apply Hdone; try done; cbn [rdata_ok rdata_wire canon_record]; unfold canonical in *;
    cbv beta in *; destruct_and?; subst; split_and!;
    auto using ipv4_of_u32_ok, ipv6_of_words_ok, is_byte_upper;
    solve [repeat apply cat_is_Some; eauto|congruence].
Qed.

Lemma safe_record_read : safe read parsed.
Proof.
  eapply safe_bind; [apply safe_name|]. intros d ?.
  do 4 (eapply safe_bind; [eauto with numa|]; intros ? ?).
  by apply safe_read_rdata.
Qed.
