(* ===== verification/Packet.v ===== *)
(** [src/src/packet.rs]: the message, EDNS(0), the packet parser and writer, with the
    wire image of a packet, the round trip, and the safety of parsing. *)
From S2P Require Import Prelude Buffer Net Header Question Record.

Definition DEFAULT_EDNS_PAYLOAD : Z := 1232.

Record EdnsOpt := MkEdns {
  udp_payload_size : Z;
  extended_rcode : Z;
  version : Z;
  do_bit : bool;
  options : bytes;
}.
#[export] Instance EdnsOpt_eq_dec : EqDecision EdnsOpt.
Proof. solve_decision. Defined.

Definition default_edns : EdnsOpt :=
  {| udp_payload_size := DEFAULT_EDNS_PAYLOAD; extended_rcode := 0; version := 0;
     do_bit := false; options := [] |}.

Record DnsPacket := MkPacket {
  header : DnsHeader;
  questions : list DnsQuestion;
  answers : list DnsRecord.t;
  authorities : list DnsRecord.t;
  resources : list DnsRecord.t;
  edns : option EdnsOpt;
}.
#[export] Instance DnsPacket_eq_dec : EqDecision DnsPacket.
Proof. solve_decision. Defined.

Definition new : DnsPacket :=
  {| header := Header.new; questions := []; answers := []; authorities := [];
     resources := []; edns := None |}.

(** Field updates of the header that the crate performs. *)
Definition with_id (v : Z) (h : DnsHeader) : DnsHeader :=
  MkHeader v (recursion_desired h) (truncated_message h) (authoritative_answer h) (opcode h)
    (response h) (rescode h) (checking_disabled h) (authed_data h) (Header.z h)
    (recursion_available h) (Header.questions h) (Header.answers h)
    (authoritative_entries h) (resource_entries h).
Definition with_rd (v : bool) (h : DnsHeader) : DnsHeader :=
  MkHeader (id h) v (truncated_message h) (authoritative_answer h) (opcode h)
    (response h) (rescode h) (checking_disabled h) (authed_data h) (Header.z h)
    (recursion_available h) (Header.questions h) (Header.answers h)
    (authoritative_entries h) (resource_entries h).
Definition with_counts (q a n r : Z) (h : DnsHeader) : DnsHeader :=
  MkHeader (id h) (recursion_desired h) (truncated_message h) (authoritative_answer h)
    (opcode h) (response h) (rescode h) (checking_disabled h) (authed_data h) (Header.z h)
    (recursion_available h) q a n r.

Definition query (id : Z) (domain : bytes) (qtype : QueryType.t) : DnsPacket :=
  {| header := with_rd true (with_id id Header.new);
     questions := [{| name := domain; qtype := qtype |}];
     answers := []; authorities := []; resources := []; edns := None |}.

Definition response_from (q : DnsPacket) (rescode : ResultCode) : DnsPacket :=
  let h := header q in
  {| header := {| id := id h; recursion_desired := recursion_desired h;
       truncated_message := false; authoritative_answer := false; opcode := 0;
       response := true; Header.rescode := rescode; checking_disabled := false;
       authed_data := false; Header.z := false; recursion_available := true;
       Header.questions := 0; Header.answers := 0; authoritative_entries := 0;
       resource_entries := 0 |};
     questions := questions q; answers := []; authorities := []; resources := [];
     edns := None |}.

Definition for_each_record_mut (f : DnsRecord.t → DnsRecord.t) (p : DnsPacket) : DnsPacket :=
  {| header := header p; questions := questions p;
     answers := map f (answers p); authorities := map f (authorities p);
     resources := map f (resources p); edns := edns p |}.

(** * Parsing *)

(** [for _ in 0..n { v.push(m(buffer)?) }] *)
Fixpoint read_n {A} (n : nat) (m : M A) : M (list A) :=
  match n with
  | O => ret []
  | S n => let! x := m in let! xs := read_n n m in ret (x :: xs)
  end.

(** [u16::from_be_bytes([hi, lo]) == 41] behind a root name. *)
Definition peek_opt : M bool :=
  let! peek_pos := get_pos in
  let! name_byte := get peek_pos in
  if name_byte =? 0 then
    let! type_hi := get (peek_pos + 1) in
    let! type_lo := get (peek_pos + 2) in
    ret (from_be16 type_hi type_lo =? 41)
  else ret false.

Definition read_opt : M EdnsOpt :=
  let! _ := step 1 in
  let! _ := read_u16 in
  let! udp_payload_size := read_u16 in
  let! ttl_field := read_u32 in
  let! rdlength := read_u16 in
  let! options := take_bytes rdlength in
  ret {| udp_payload_size := udp_payload_size;
         extended_rcode := as_u8 (Z.land (Z.shiftr ttl_field 24) 0xFF);
         version := as_u8 (Z.land (Z.shiftr ttl_field 16) 0xFF);
         do_bit := Z.land (Z.shiftr ttl_field 15) 1 =? 1;
         options := options |}.

(** The loop over the additional section; a later OPT record replaces [edns]. *)
Fixpoint read_resources (n : nat) (edns : option EdnsOpt)
    : M (list DnsRecord.t * option EdnsOpt) :=
  match n with
  | O => ret ([], edns)
  | S n =>
      let! is_opt := peek_opt in
      if is_opt then
        let! o := read_opt in
        read_resources n (Some o)
      else
        let! r := Record.read in
        let! (rs, e) := read_resources n edns in
        ret (r :: rs, e)
  end.

Definition from_buffer : M DnsPacket :=
  let! h := Header.read in
  let! qs := read_n (Z.to_nat (Header.questions h))
               (Question.read {| name := []; qtype := QueryType.UNKNOWN 0 |}) in
  let! ans := read_n (Z.to_nat (Header.answers h)) Record.read in
  let! auth := read_n (Z.to_nat (authoritative_entries h)) Record.read in
  let! (res, e) := read_resources (Z.to_nat (resource_entries h)) None in
  ret {| header := h; questions := qs; answers := ans; authorities := auth;
         resources := res; edns := e |}.

(** * Writing *)

Definition ttl_field (e : EdnsOpt) : Z :=
  Z.lor (Z.lor (Z.shiftl (extended_rcode e) 24) (Z.shiftl (version e) 16))
    (if do_bit e then Z.shiftl 1 15 else 0).

Definition write_edns (o : option EdnsOpt) : M unit :=
  match o with
  | None => ret tt
  | Some e =>
      let! _ := write_u8 0 in
      let! _ := write_u16 (to_num QueryType.OPT) in
      let! _ := write_u16 (udp_payload_size e) in
      let! _ := write_u32 (ttl_field e) in
      let! _ := write_u16 (as_u16 (len (options e))) in
      write_bytes (options e)
  end.

(** The header [write] emits: a clone whose counts are the vector lengths. The
    addition on [u16] wraps, as in a release build. *)
Definition counted_header (p : DnsPacket) : DnsHeader :=
  let edns_count := match edns p with Some _ => 1 | None => 0 end in
  with_counts (as_u16 (len (questions p))) (as_u16 (len (answers p)))
    (as_u16 (len (authorities p))) (as_u16 (as_u16 (len (resources p)) + edns_count))
    (header p).

Definition write (p : DnsPacket) : M unit :=
  let! _ := Header.write (counted_header p) in
  let! _ := write_all Question.write (questions p) in
  let! _ := write_all Record.write (answers p) in
  let! _ := write_all Record.write (authorities p) in
  let! _ := write_all Record.write (resources p) in
  write_edns (edns p).

(** * Wire image *)

Definition edns_wire (o : option EdnsOpt) : bytes :=
  match o with
  | None => []
  | Some e => [0] ++ be16 41 ++ be16 (udp_payload_size e) ++ be32 (ttl_field e)
              ++ be16 (as_u16 (len (options e))) ++ options e
  end.

Definition packet_wire (p : DnsPacket) : option bytes :=
  Some (header_wire (counted_header p)) ⊕ cat_all question_wire (questions p)
  ⊕ cat_all record_wire (answers p) ⊕ cat_all record_wire (authorities p)
  ⊕ cat_all record_wire (resources p) ⊕ Some (edns_wire (edns p)).

Lemma emits_edns o : emits (write_edns o) (Some (edns_wire o)).
Proof.
  destruct o as [e|]; [|apply emits_ret]. cbn [write_edns edns_wire].
  change (Some (?a ++ ?b ++ ?c ++ ?d ++ ?f ++ ?g)) with
    (Some a ⊕ Some b ⊕ Some c ⊕ Some d ⊕ Some f ⊕ Some g). emits.
Qed.

Lemma emits_header h : emits (Header.write h) (Some (header_wire h)).
Proof. eapply emits_appends, appends_header_write. Qed.

Lemma emits_questions l : emits (write_all Question.write l) (cat_all question_wire l).
Proof. apply emits_write_all, emits_question. Qed.
Lemma emits_records l : emits (write_all Record.write l) (cat_all record_wire l).
Proof. apply emits_write_all, emits_record. Qed.
#[export] Hint Resolve emits_edns emits_header emits_questions emits_records : numa.

Lemma emits_packet p : emits (write p) (packet_wire p).
Proof. unfold write, packet_wire. emits. Qed.

(** * Round trip *)

Definition edns_ok (o : option EdnsOpt) : Prop :=
  match o with
  | None => True
  | Some e => is_u16 (udp_payload_size e) ∧ is_byte (extended_rcode e) ∧ is_byte (version e)
              ∧ all_bytes (options e)
  end.
#[export] Instance edns_ok_dec o : Decision (edns_ok o).
Proof. destruct o; apply _. Defined.

(** A record of the additional section that the parser would take for an OPT
    pseudo-record once written: the root name and type 41. *)
Definition opt_lookalike (r : DnsRecord.t) : Prop :=
  name_labels (domain r) = Some [] ∧ type_num r = 41.
#[export] Instance opt_lookalike_dec r : Decision (opt_lookalike r).
Proof. unfold opt_lookalike. apply _. Defined.

Definition packet_ok (p : DnsPacket) : Prop :=
  header_ok (header p) ∧ Forall question_ok (questions p) ∧ Forall record_ok (answers p) ∧
  Forall record_ok (authorities p) ∧ Forall record_ok (resources p) ∧ edns_ok (edns p) ∧
  Forall (λ r, ¬ opt_lookalike r) (resources p).
#[export] Instance packet_ok_dec p : Decision (packet_ok p).
Proof. unfold packet_ok. apply _. Defined.

(** The fields of a packet are in their ranges. *)
Definition packet_fields (p : DnsPacket) : Prop :=
  header_ok (header p) ∧ Forall question_ok (questions p) ∧ Forall record_ok (answers p) ∧
  Forall record_ok (authorities p) ∧ Forall record_ok (resources p) ∧ edns_ok (edns p).
Lemma packet_ok_fields p : packet_ok p → packet_fields p.
Proof. intros (? & ? & ? & ? & ? & ? & _). by split_and!. Qed.

(** The packet a reader gets back: the counts filled in, the names canonical. *)
Definition canon_packet (p : DnsPacket) : DnsPacket :=
  {| header := counted_header p;
     questions := map canon_question (questions p);
     answers := map canon_record (answers p);
     authorities := map canon_record (authorities p);
     resources := map canon_record (resources p);
     edns := edns p |}.

Lemma reads_read_n {A} (P : A → Prop) (m : M A) g c l w :
  (∀ x w, P x → g x = Some w → reads m w (c x)) →
  Forall P l → cat_all g l = Some w → reads (read_n (length l) m) w (map c l).
Proof.
  intros Hm Hl. revert w. induction Hl as [|x l Hx Hl IH]; intros w Hw; cbn in Hw |- *.
  - apply (inj Some) in Hw as <-. apply reads_ret.
  - apply cat_Some in Hw as (w1 & w2 & H1 & H2 & ->).
    eapply reads_bind; [by apply Hm|]. eapply reads_end; [by apply IH|done].
Qed.

Lemma reads_peek {A B} (m : M A) (k : A → M B) x w c :
  (∀ b post, in_bounds b → rest b = w ++ post → m b = (Ok x, b)) →
  reads (k x) w c → reads (bind m k) w c.
Proof. intros Hm Hk b post Hb Hr. unfold bind. rewrite (Hm b post) by done. by eapply Hk. Qed.

(** What [peek_opt] sees in the first bytes at the cursor. *)
Lemma peek_opt_head b x y z post : in_bounds b → rest b = x :: y :: z :: post →
  peek_opt b = (Ok ((x =? 0) && (from_be16 y z =? 41)), b).
Proof.
  intros [[Hl Hp] Hb] Hr. unfold rest in Hr. unfold peek_opt, get_pos, bind.
  rewrite (get_drop b (pos b) x (y :: z :: post)) by done.
  destruct (Z.eqb_spec x 0); [|done].
  rewrite (get_drop b (pos b + 1) y (z :: post)); [|done|lia|].
  2: { by apply (drop_shift _ [x] (y :: z :: post) (pos b)). }
  rewrite (get_drop b (pos b + 2) z post); [done|done|lia|].
  by apply (drop_shift _ [x; y] (z :: post) (pos b)).
Qed.

Lemma peek_opt_name b x post : in_bounds b → x ≠ 0 → rest b = x :: post →
  peek_opt b = (Ok false, b).
Proof.
  intros [[Hl Hp] Hb] Hx Hr. unfold rest in Hr. unfold peek_opt, get_pos, bind.
  rewrite (get_drop b (pos b) x post) by done. by destruct (Z.eqb_spec x 0).
Qed.

Lemma peek_opt_record r w b post : record_ok r → ¬ opt_lookalike r →
  record_wire r = Some w → in_bounds b → rest b = w ++ post → peek_opt b = (Ok false, b).
Proof.
  intros Hr Hopt Hw Hb Hrest. unfold record_wire, rr_header_wire in Hw.
  unfold packet_wire in Hw. apply cat_Some in Hw as (wh & wp & Hh & _ & ->). inv_wire.
  unfold name_wire in *. destruct (name_labels (domain r)) as [ls|] eqn:Hls; [|done].
  match goal with H : _ <$> _ = Some _ |- _ => apply (inj Some) in H as <- end.
  pose proof (type_num_u16 r Hr) as Ht.
  destruct ls as [|[|v l] ls].
  - unfold be16 at 1 in Hrest. cbn [wire_name flat_map app] in Hrest.
    rewrite (peek_opt_head _ _ _ _ _ Hb Hrest). rewrite from_be16_be16 by done.
    destruct (Z.eqb_spec (type_num r) 41); [|done]. by destruct Hopt.
  - pose proof (name_labels_ok _ _ Hls) as Hok. rewrite Forall_cons in Hok.
    destruct Hok as [[Hok _] _]. by rewrite len_nil in Hok.
  - rewrite wire_name_cons, len_cons, <- !app_assoc in Hrest. cbn [app] in Hrest.
    pose proof (len_nonneg l). by eapply peek_opt_name; [..|exact Hrest]; [|lia].
Qed.

Lemma reads_step w : reads (step (len w)) w tt.
Proof. intros b post Hb Hr. done. Qed.

(** The packed flags of the OPT record. *)
Lemma ttl_field_sum e : is_byte (extended_rcode e) → is_byte (version e) →
  ttl_field e = extended_rcode e * 2 ^ 24 + version e * 2 ^ 16
                + (if do_bit e then 2 ^ 15 else 0).
Proof.
  unfold is_byte, ttl_field. intros.
  rewrite (lor_shiftl_add (extended_rcode e) (Z.shiftl (version e) 16) 24)
    by (try rewrite Z.shiftl_mul_pow2 by lia; lia).
  rewrite (Z.shiftl_mul_pow2 (version e)) by lia.
  replace (extended_rcode e * 2 ^ 24 + version e * 2 ^ 16) with
    (Z.shiftl (extended_rcode e * 2 ^ 8 + version e) 16)
    by (rewrite Z.shiftl_mul_pow2 by lia; lia).
  change (Z.shiftl 1 15) with (2 ^ 15).
  rewrite lor_shiftl_add by (destruct (do_bit e); lia).
  rewrite Z.shiftl_mul_pow2 by lia. lia.
Qed.

Lemma reads_opt e : edns_ok (Some e) → len (options e) < 2 ^ 16 →
  reads read_opt (edns_wire (Some e)) e.
Proof.
  intros (Hsz & Hrc & Hv & Ho) Hlen. pose proof (len_nonneg (options e)).
  pose proof (ttl_field_sum e Hrc Hv) as Ht. unfold read_opt, edns_wire.
  unfold is_byte in *.
  assert (Hu : is_u32 (ttl_field e)) by (rewrite Ht; unfold is_u32; destruct (do_bit e); lia).
  eapply (reads_bind _ _ [0]); [apply (reads_step [0])|].
  eapply reads_bind; [apply (reads_u16 41); unfold is_u16; lia|].
  do 2 (eapply reads_bind; [by auto with numa|]).
  rewrite as_u16_small by (unfold is_u16; lia).
  eapply reads_bind; [apply reads_u16; unfold is_u16; lia|].
  eapply reads_end; [apply reads_take_bytes|]. f_equal.
  rewrite !land_255. change 1 with (Z.ones 1) at 1. rewrite Z.land_ones by lia.
  rewrite !Z.shiftr_div_pow2, Ht by lia.
  destruct e as [sz rc v d o]; cbn in *. f_equal.
  - rewrite as_u8_small by (unfold is_byte; div_lia). destruct d; div_lia.
  - rewrite as_u8_small by (unfold is_byte; div_lia). destruct d; div_lia.
  - destruct d; [apply Z.eqb_eq|apply Z.eqb_neq]; div_lia.
Qed.

Lemma reads_resources e l w e0 :
  edns_ok e → match e with Some o => len (options o) < 2 ^ 16 | None => True end →
  Forall record_ok l → Forall (λ r, ¬ opt_lookalike r) l → cat_all record_wire l = Some w →
  reads (read_resources (length l + match e with Some _ => 1 | None => 0 end)%nat e0)
    (w ++ edns_wire e) (map canon_record l, match e with Some _ => e | None => e0 end).
Proof.
  intros He Hlen Hl. revert w. induction Hl as [|r l Hr Hl IH]; intros w Hopt Hw; cbn in Hw.
  - apply (inj Some) in Hw as <-. destruct e as [o|]; [|apply reads_ret].
    cbn [length plus app map read_resources]. eapply (reads_peek _ _ true).
    + intros b post Hb Hrest. unfold edns_wire, be16 at 1 in Hrest. cbn [app] in Hrest.
      by rewrite (peek_opt_head _ _ _ _ _ Hb Hrest).
    + cbn iota. eapply reads_end; [by apply reads_opt|done].
  - apply cat_Some in Hw as (w1 & w2 & H1 & H2 & ->). apply Forall_cons in Hopt as [Ho Hopt].
    cbn [length plus map read_resources]. rewrite <- app_assoc. eapply (reads_peek _ _ false).
    + intros b post Hb Hrest. rewrite <- app_assoc in Hrest. by eapply (peek_opt_record r w1).
    + cbn iota. eapply reads_bind; [by apply reads_record|].
      eapply reads_end; [by apply IH|done].
Qed.

Lemma cat_all_length {A} (g : A → option bytes) l w :
  (∀ x w, g x = Some w → 1 ≤ len w) → cat_all g l = Some w → len l ≤ len w.
Proof.
  intros Hg. revert w. induction l as [|x l IH]; intros w Hw; cbn in Hw.
  - apply (inj Some) in Hw as <-. done.
  - apply cat_Some in Hw as (w1 & w2 & H1 & H2 & ->). specialize (IH _ H2).
    specialize (Hg _ _ H1). len_lia.
Qed.

Lemma name_wire_nonempty s w : name_wire s = Some w → 1 ≤ len w.
Proof. intros (ls & _ & ->)%fmap_Some. pose proof (wire_name_pos ls). lia. Qed.
Lemma question_wire_nonempty q w : question_wire q = Some w → 1 ≤ len w.
Proof.
  unfold question_wire. intros (w1 & w2 & H%name_wire_nonempty & _ & ->)%cat_Some. len_lia.
Qed.
Lemma record_wire_nonempty r w : record_wire r = Some w → 1 ≤ len w.
Proof.
  unfold record_wire, rr_header_wire. rewrite cat_assoc.
  intros (w1 & w2 & H%name_wire_nonempty & _ & ->)%cat_Some. len_lia.
Qed.

Lemma counted_header_ok p : header_ok (header p) → header_ok (counted_header p).
Proof.
  intros (? & ? & ?). unfold header_ok. cbn. split_and!; auto with numa; lia.
Qed.

Lemma packet_wire_parts p w : packet_wire p = Some w → ∃ wq wa wn wr,
  cat_all question_wire (questions p) = Some wq ∧
  cat_all record_wire (answers p) = Some wa ∧
  cat_all record_wire (authorities p) = Some wn ∧
  cat_all record_wire (resources p) = Some wr ∧
  w = header_wire (counted_header p) ++ wq ++ wa ++ wn ++ wr ++ edns_wire (edns p).
Proof.
  unfold packet_wire. intros (wh & ? & <-%(inj Some) & (wq & ? & Hwq & (wa & ? & Hwa &
    (wn & ? & Hwn & (wr & ? & Hwr & <-%(inj Some) & ->)%cat_Some & ->)%cat_Some
    & ->)%cat_Some & ->)%cat_Some & ->)%cat_Some.
  exists wq, wa, wn, wr. done.
Qed.

Lemma reads_packet_wire p w : packet_ok p → packet_wire p = Some w →
  reads from_buffer w (canon_packet p).
Proof.
  intros (Hh & Hq & Ha & Hn & Hr & He & Hopt) Hw.
  apply packet_wire_parts in Hw as (wq & wa & wn & wr & Hwq & Hwa & Hwn & Hwr & ->).
  apply reads_at_reads. intros pos0. apply reads_at_room. intros Hp Hroom.
  apply reads_reads_at. rewrite !len_app in Hroom. unfold BUF_SIZE in Hroom.
  pose proof (cat_all_length _ _ _ question_wire_nonempty Hwq).
  pose proof (cat_all_length _ _ _ record_wire_nonempty Hwa).
  pose proof (cat_all_length _ _ _ record_wire_nonempty Hwn).
  pose proof (cat_all_length _ _ _ record_wire_nonempty Hwr).
  unfold from_buffer, canon_packet.
  eapply reads_bind; [by apply reads_header, counted_header_ok|].
  cbn [counted_header with_counts Header.questions Header.answers authoritative_entries
    resource_entries].
  rewrite (as_u16_small (len (questions p))), (as_u16_small (len (answers p))),
    (as_u16_small (len (authorities p))), (as_u16_small (len (resources p))), !to_nat_len
    by (unfold is_u16; len_lia).
  eapply reads_bind.
  { eapply (reads_read_n question_ok); [|done..]. intros q w [_ ?] ?. by apply reads_question. }
  do 2 (eapply reads_bind; [by eapply (reads_read_n record_ok); [apply reads_record|..]|]).
  eapply reads_end.
  { rewrite as_u16_small by (unfold is_u16; destruct (edns p); len_lia).
    replace (Z.to_nat _) with
      (length (resources p) + match edns p with Some _ => 1 | None => 0 end)%nat
      by (destruct (edns p); unfold len; lia).
    apply reads_resources; try done. destruct (edns p) as [e|]; [|done].
    unfold edns_wire in Hroom. len_lia. }
  cbn beta iota. by destruct (edns p).
Qed.

(** * Parsing arbitrary bytes *)

Lemma safe_read_n {A} n (m : M A) Q :
  safe m Q → safe (read_n n m) (λ l, Forall Q l ∧ length l = n).
Proof.
  intros Hm. induction n as [|n IH]; cbn [read_n]; [by apply safe_ret|].
  eapply safe_bind; [exact Hm|]. intros x Hx. eapply safe_bind; [exact IH|].
  intros xs [Hxs <-]. apply safe_ret. split; [by constructor|done].
Qed.

(** [peek_opt] leaves the buffer alone, and sees an OPT record only inside it. *)
Lemma peek_opt_safe b : readable b →
  match peek_opt b with
  | (Ok o, b') => b' = b ∧ (o = true → pos b < BUF_SIZE)
  | (Err _, b') => b' = b
  | _ => False
  end.
Proof.
  intros Hb. unfold peek_opt, bind, get_pos. destruct Hb as ((Hl & Hp) & Hby & Hm) eqn:Hb'.
  assert (Hget : ∀ p, 0 ≤ p → match get p b with
    | (Ok _, b') => b' = b ∧ p < BUF_SIZE | (Err _, b') => b' = b | _ => False end).
  { intros p Hp'. pose proof (safe_get p Hp' b Hb) as Hg. unfold get in *.
    destruct (Z.leb_spec BUF_SIZE p); [done|]. by destruct (index (buf b) p). }
  pose proof (Hget (pos b) Hp) as H0.
  destruct (get (pos b) b) as [[x| | |] b0]; try done. destruct H0 as [-> H0].
  destruct (x =? 0); [|done].
  pose proof (Hget (pos b + 1) ltac:(lia)) as H1.
  destruct (get (pos b + 1) b) as [[y| | |] b1]; try done. destruct H1 as [-> H1].
  pose proof (Hget (pos b + 2) ltac:(lia)) as H2.
  destruct (get (pos b + 2) b) as [[z| | |] b2]; try done. by destruct H2 as [-> _].
Qed.

Definition read_opt_tail : M EdnsOpt :=
  let! _ := read_u16 in
  let! udp_payload_size := read_u16 in
  let! ttl_field := read_u32 in
  let! rdlength := read_u16 in
  let! options := take_bytes rdlength in
  ret {| udp_payload_size := udp_payload_size;
         extended_rcode := as_u8 (Z.land (Z.shiftr ttl_field 24) 0xFF);
         version := as_u8 (Z.land (Z.shiftr ttl_field 16) 0xFF);
         do_bit := Z.land (Z.shiftr ttl_field 15) 1 =? 1;
         options := options |}.

(** What the parser yields for the OPT record. *)
Definition parsed_edns (o : option EdnsOpt) : Prop :=
  edns_ok o ∧ match o with Some e => len (options e) < 2 ^ 16 | None => True end.

Lemma safe_read_opt_tail : safe read_opt_tail (λ e, parsed_edns (Some e)).
Proof.
  unfold read_opt_tail.
  do 4 (eapply safe_bind; [eauto with numa|]; intros ? ?).
  eapply safe_bind; [by apply safe_take_u16|]. intros d [Hd Hlen].
  apply safe_ret. unfold parsed_edns, is_u16 in *. cbn. split_and!; auto with numa; lia.
Qed.

Lemma safe_resources n : ∀ e, parsed_edns e →
  safe (read_resources n e) (λ x, Forall parsed (fst x) ∧ parsed_edns (snd x)).
Proof.
  induction n as [|n IH]; intros e He; cbn [read_resources]; [by apply safe_ret|].
  intros b Hb. pose proof (peek_opt_safe b Hb) as Hpeek. unfold bind at 1.
  destruct (peek_opt b) as [[o|err| |] b']; try done; [destruct Hpeek as [-> Hpeek]|].
  2: { subst b'. by apply same_contents_refl. }
  destruct o.
  - specialize (Hpeek eq_refl).
    set (b1 := {| buf := buf b; pos := pos b + 1; overflow := overflow b |}).
    assert (Hb1 : same_contents b b1).
    { destruct Hb as ((?&?)&?&?). repeat split; cbn; lia. }
    assert (Hs : safe (let! o := read_opt_tail in read_resources n (Some o))
      (λ x, Forall parsed (fst x) ∧ parsed_edns (snd x))).
    { eapply safe_bind; [apply safe_read_opt_tail|]. intros o Ho. by apply IH. }
    specialize (Hs b1 (same_contents_readable _ _ Hb Hb1)).
    change ((let! o := read_opt in read_resources n (Some o)) b)
      with ((let! o := read_opt_tail in read_resources n (Some o)) b1).
    destruct ((let! o := read_opt_tail in read_resources n (Some o)) b1)
      as [[x|err| |] b2]; done.
  - clear Hpeek. revert b Hb.
    change (safe (let! r := Record.read in let! (rs, e) := read_resources n e in ret (r :: rs, e))
      (λ x, Forall parsed (fst x) ∧ parsed_edns (snd x))).
    eapply safe_bind; [apply safe_record_read|]. intros r Hr.
    eapply safe_bind; [by apply IH|]. intros [rs e'] [Hrs He'].
    apply safe_ret. split; [by constructor|done].
Qed.

(** What the parser yields: fields in range, names canonical, and the sections as long
    as the header says (the OPT records apart). *)
Definition parsed_packet (p : DnsPacket) : Prop :=
  header_ok (header p) ∧ Forall parsed_question (questions p) ∧ Forall parsed (answers p) ∧
  Forall parsed (authorities p) ∧ Forall parsed (resources p) ∧ parsed_edns (edns p) ∧
  len (questions p) = Header.questions (header p) ∧
  len (answers p) = Header.answers (header p) ∧
  len (authorities p) = authoritative_entries (header p).

Lemma safe_from_buffer : safe from_buffer parsed_packet.
Proof.
  eapply safe_bind; [apply safe_header_read|]. intros h Hh.
  pose proof Hh as (_ & _ & Hq & Ha & Hn & _). unfold is_u16 in *.
  eapply safe_bind; [apply safe_read_n, safe_question_read|]. intros qs [Hqs Hlq].
  eapply safe_bind; [apply safe_read_n, safe_record_read|]. intros an [Han Hla].
  eapply safe_bind; [apply safe_read_n, safe_record_read|]. intros ns [Hns Hln].
  eapply safe_bind; [by apply safe_resources|]. intros [rs e] [Hrs He].
  apply safe_ret. unfold parsed_packet, len. cbn in *. split_and!; try done; lia.
Qed.

(** A parsed packet has a wire image: writing it again can only fail for space. *)
Lemma cat_all_is_Some {A} (g : A → option bytes) l :
  Forall (λ x, is_Some (g x)) l → is_Some (cat_all g l).
Proof. induction 1; cbn; [by eexists|by apply cat_is_Some]. Qed.

Lemma parsed_packet_wire p : parsed_packet p → is_Some (packet_wire p).
Proof.
  intros (_ & Hq & Ha & Hn & Hr & _). unfold packet_wire.
  repeat apply cat_is_Some; try (by eexists); apply cat_all_is_Some;
    (eapply Forall_impl; [eassumption|]); intros ? (? & ? & ?); done.
Qed.

Lemma parsed_packet_ok p : parsed_packet p →
  Forall (λ r, ¬ opt_lookalike r) (resources p) → packet_ok p.
Proof.
  intros (Hh & Hq & Ha & Hn & Hr & [He _] & _) Hopt. unfold packet_ok.
  split_and!; try done; clear Hopt; (eapply Forall_impl; [eassumption|]); by intros ? (? & ?).
Qed.

Lemma parsed_packet_fields p : parsed_packet p → packet_fields p.
Proof.
  intros (Hh & Hq & Ha & Hn & Hr & [He _] & _). unfold packet_fields.
  split_and!; try done; (eapply Forall_impl; [eassumption|]); by intros ? (? & ?).
Qed.

Lemma map_id_Forall {A} (f : A → A) l : Forall (λ x, f x = x) l → map f l = l.
Proof. induction 1; cbn; congruence. Qed.

Lemma parsed_packet_canon p : parsed_packet p →
  canon_packet p = {| header := counted_header p; questions := questions p;
    answers := answers p; authorities := authorities p; resources := resources p;
    edns := edns p |}.
Proof.
  intros (_ & Hq & Ha & Hn & Hr & _). unfold canon_packet.
  rewrite !map_id_Forall; try done; (eapply Forall_impl; [eassumption|]);
    by intros ? (? & ? & ?).
Qed.

(** ** Wire images are byte strings *)

Definition image_bytes (o : option bytes) : Prop :=
  match o with Some w => all_bytes w | None => True end.

Lemma image_cat o1 o2 : image_bytes o1 → image_bytes o2 → image_bytes (o1 ⊕ o2).
Proof. destruct o1, o2; try done. intros. by apply Forall_app. Qed.
Lemma be16_bytes v : all_bytes (be16 v).
Proof. constructor; [apply as_u8_byte|]. by constructor; [apply land_255_byte|]. Qed.
Lemma be32_bytes v : all_bytes (be32 v).
Proof. repeat (constructor; [apply land_255_byte|]). constructor. Qed.
Lemma image_name s : all_bytes s → image_bytes (name_wire s).
Proof.
  intros Hs. unfold name_wire. destruct (name_labels s) as [ls|] eqn:Hls; [|done]. cbn.
  pose proof (name_labels_ok _ _ Hls) as Hok. pose proof (name_labels_bytes _ _ Hs Hls) as Hb.
  clear Hls. unfold wire_name. apply Forall_app. split; [|by repeat constructor].
  induction ls as [|l ls IH]; [constructor|]. apply Forall_cons in Hok as [Hl Hok].
  apply Forall_cons in Hb as [Hlb Hb]. cbn. constructor.
  - unfold label_ok, is_byte in *. lia.
  - apply Forall_app. auto.
Qed.
Lemma image_prefixed o : image_bytes o → image_bytes (prefixed o).
Proof. destruct o; [|done]. intros. apply Forall_app. split; [apply be16_bytes|done]. Qed.
#[local] Hint Resolve be16_bytes be32_bytes image_name image_prefixed : core.

Lemma byte_singleton v : is_byte v → all_bytes [v].
Proof. intros. by apply Forall_singleton. Qed.
#[local] Hint Resolve byte_singleton : core.

Lemma image_record r : record_ok r → image_bytes (record_wire r).
Proof.
  intros (Hd & Ht & Hr). unfold record_wire, rr_header_wire.
  apply image_cat; [repeat apply image_cat; cbn [image_bytes]; auto|apply image_prefixed].
  destruct r; cbn [rdata_ok rdata_wire] in *; destruct_and?; repeat apply image_cat;
    cbn [image_bytes]; auto; rewrite ?Forall_app; split_and?; auto using as_u8_byte.
  destruct addr. repeat (constructor; [first [apply as_u8_byte|apply land_255_byte]|]).
  constructor.
Qed.

Lemma image_all {A} (g : A → option bytes) (P : A → Prop) l :
  (∀ x, P x → image_bytes (g x)) → Forall P l → image_bytes (cat_all g l).
Proof. induction 2; cbn [cat_all]; [constructor|]. apply image_cat; auto. Qed.

Lemma packet_fields_bytes p w : packet_fields p → packet_wire p = Some w → all_bytes w.
Proof.
  intros (Hh & Hq & Ha & Hn & Hr & He) Hw.
  assert (Hi : image_bytes (packet_wire p)); [|by rewrite Hw in Hi].
  unfold packet_wire. repeat apply image_cat.
  - destruct (flags_high_decode (recursion_desired (header p)) (truncated_message (header p))
      (authoritative_answer (header p)) (opcode (header p)) (response (header p))) as [Hb1 _].
    { by destruct Hh as (_ & ? & _). }
    destruct (flags_low_decode (rescode (header p)) (checking_disabled (header p))
      (authed_data (header p)) (Header.z (header p)) (recursion_available (header p)))
      as [Hb2 _].
    cbn [image_bytes]. unfold header_wire. rewrite !Forall_app. split_and!; auto.
  - eapply image_all; [|exact Hq]. intros q [? ?]. unfold question_wire.
    repeat apply image_cat; cbn [image_bytes]; auto.
  - eapply image_all; [apply image_record|exact Ha].
  - eapply image_all; [apply image_record|exact Hn].
  - eapply image_all; [apply image_record|exact Hr].
  - destruct (edns p) as [e|]; [|constructor]. destruct He as (? & ? & ? & ?).
    cbn [image_bytes edns_wire]. rewrite !Forall_app. split_and!; auto.
    by apply byte_singleton.
Qed.
Lemma packet_wire_bytes p w : packet_ok p → packet_wire p = Some w → all_bytes w.
Proof. intros Hp. by apply packet_fields_bytes, packet_ok_fields. Qed.

(** * Correctness *)

(** Writing a packet never panics and always terminates: the packet's wire image is
    appended exactly when it fits, otherwise the writer fails with [EndOfBuffer] and the
    overflow flag set (the caller's cue to set TC); a packet holding a name that has no
    encoding is rejected with an error. *)
Theorem write_packet_spec (p : DnsPacket) (b : BytePacketBuffer) : in_bounds b →
  match packet_wire p with
  | Some w =>
      if decide (pos b + len w ≤ BUF_SIZE)
      then write p b = (Ok tt, push w b)
      else ∃ b', write p b = (Err EndOfBuffer, b') ∧ overflowed b' = true
  | None => ∃ e b', write p b = (Err e, b')
  end.
Proof.
  intros Hb. pose proof (emits_packet p) as H.
  destruct (packet_wire p) as [w|]; [|by apply H].
  apply emits_unit in H. destruct (H b Hb) as [Hok Hfull].
  case_decide; [auto|]. apply Hfull. lia.
Qed.

Lemma write_packet_spec_witness : in_bounds Buffer.new ∧
  ∃ w, packet_wire (query 7 (str "a.b") QueryType.TXT) = Some w ∧ len w = 21 ∧
  write (query 7 (str "a.b") QueryType.TXT) Buffer.new = (Ok tt, push w Buffer.new).
Proof.
  split; [exact new_in_bounds|]. eexists. split; [by vm_compute|]. split; [by vm_compute|].
  exact (write_packet_spec (query 7 (str "a.b") QueryType.TXT) Buffer.new new_in_bounds).
Defined.

(** C14: a packet with fields in range survives the wire: parsing what was written returns
    the same header with the section counts filled in, and the same questions, records
    and EDNS data with names in canonical text, consuming exactly the bytes written. *)
Theorem packet_roundtrip (p : DnsPacket) (w : bytes) (b : BytePacketBuffer) :
  packet_ok p → packet_wire p = Some w → in_bounds b → pos b + len w ≤ BUF_SIZE →
  ∃ b', write p b = (Ok tt, b') ∧
    from_buffer (rewind (pos b) b') = (Ok (canon_packet p), b').
Proof.
  intros Hp Hw Hb Hf. exists (push w b). split.
  - pose proof (emits_packet p) as H. rewrite Hw in H. apply emits_unit in H.
    by apply (H b Hb).
  - apply reads_pushed; [by apply reads_packet_wire|done..].
Qed.

Definition sample_packet : DnsPacket :=
  {| header := Header.new;
     questions := [{| name := str "Example.com"; qtype := QueryType.MX |}];
     answers := [DnsRecord.MX (str "example.com") 10 (str "Mx.example.com") 300;
                 DnsRecord.UNKNOWN (str "t") 16 [1; 65] 5];
     authorities := [DnsRecord.NSEC (str "a") (str "b") [0; 1; 64] 60];
     resources := [DnsRecord.A (str "mx.example.com") (Ipv4 192 0 2 1) 300];
     edns := Some default_edns |}.

Lemma packet_roundtrip_witness : ∃ b',
  write sample_packet Buffer.new = (Ok tt, b') ∧
  from_buffer (rewind 0 b') = (Ok (canon_packet sample_packet), b').
Proof.
  eapply (packet_roundtrip sample_packet _ Buffer.new).
  - apply (bool_decide_unpack _). by vm_compute.
  - vm_compute. reflexivity.
  - exact new_in_bounds.
  - by vm_compute.
Defined.

(** C15: parsing any bytes as a packet returns (no panic, no endless loop): an error, or a
    well-formed packet whose sections have the lengths the header announces and which has
    a wire image, so that writing it again can only fail for lack of space. *)
Theorem from_buffer_total (d : bytes) : all_bytes d →
  match from_buffer (from_bytes d) with
  | (Ok p, b') => parsed_packet p ∧ is_Some (packet_wire p) ∧ buf b' = buf (from_bytes d)
  | (Err _, b') => buf b' = buf (from_bytes d)
  | (Panic, _) | (OutOfFuel, _) => False
  end.
Proof.
  intros Hd. pose proof (safe_from_buffer _ (from_bytes_readable d Hd)) as H.
  destruct (from_buffer (from_bytes d)) as [[p|e| |] b']; unfold same_contents in *; try tauto.
  destruct H as [Hp ?]. split; [done|]. split; [by apply parsed_packet_wire|tauto].
Qed.

Lemma from_buffer_total_witness :
  match from_buffer (from_bytes [1; 2; 3]) with
  | (Ok p, b') => parsed_packet p ∧ is_Some (packet_wire p) ∧ buf b' = buf (from_bytes [1; 2; 3])
  | (Err _, b') => buf b' = buf (from_bytes [1; 2; 3])
  | (Panic, _) | (OutOfFuel, _) => False
  end.
Proof.
  apply (from_buffer_total [1; 2; 3]). apply (bool_decide_unpack _). by vm_compute.
Defined.

(** Parsing is stable under re-encoding: a packet that was parsed (with no additional
    record that would look like an OPT record once its name is decompressed) is, when
    written and parsed again, the same packet with the counts of its sections. *)
Theorem reparse_stable (d w : bytes) (p : DnsPacket) (b : BytePacketBuffer) :
  all_bytes d → from_buffer (from_bytes d) = (Ok p, b) →
  Forall (λ r, ¬ opt_lookalike r) (resources p) →
  packet_wire p = Some w → len w ≤ BUF_SIZE →
  ∃ b', write p Buffer.new = (Ok tt, b') ∧
    from_buffer (rewind 0 b') =
      (Ok {| header := counted_header p; questions := questions p; answers := answers p;
             authorities := authorities p; resources := resources p; edns := edns p |}, b').
Proof.
  intros Hd Hp Hopt Hw Hf. pose proof (safe_from_buffer _ (from_bytes_readable d Hd)) as H.
  rewrite Hp in H. destruct H as [Hpp _]. exists (push w Buffer.new).
  pose proof new_in_bounds as Hb. split.
  - pose proof (emits_packet p) as He. rewrite Hw in He. apply emits_unit in He.
    by apply (He _ Hb).
  - rewrite <- parsed_packet_canon by done. change 0 with (pos Buffer.new).
    apply reads_pushed; [|done..]. apply reads_packet_wire; [by apply parsed_packet_ok|done].
Qed.

(** A reply with a compressed owner name. *)
Definition sample_message : bytes :=
  [0; 1; 0x81; 0x80; 0; 1; 0; 1; 0; 0; 0; 0] ++ [1; 65; 0; 0; 1; 0; 1]
  ++ [0xC0; 12; 0; 1; 0; 1; 0; 0; 0; 60; 0; 4; 192; 0; 2; 1].

Lemma reparse_stable_witness : ∃ p b b',
  from_buffer (from_bytes sample_message) = (Ok p, b) ∧
  write p Buffer.new = (Ok tt, b') ∧ len (answers p) = 1 ∧
  from_buffer (rewind 0 b') =
      (Ok {| header := counted_header p; questions := questions p; answers := answers p;
             authorities := authorities p; resources := resources p; edns := edns p |}, b').
Proof.
  eexists _, _.
  edestruct (reparse_stable sample_message) as (b' & Hw & Hr).
  - apply (bool_decide_unpack _). by vm_compute.
  - vm_compute. reflexivity.
  - constructor.
  - vm_compute. reflexivity.
  - by vm_compute.
  - exists b'. split; [vm_compute; reflexivity|]. split; [exact Hw|].
    split; [reflexivity|exact Hr].
Defined.
