(* ===== verification/Wire.v ===== *)
(** [src/src/wire.rs]: TTL scanning and patching on raw messages. The scan of a
    message written from a packet finds exactly its TTL fields, so that patching the
    bytes is the same as rewriting the TTLs and encoding again. *)
From S2P Require Import Prelude Buffer Net Header Question Record Packet.
Open Scope outcome_scope.

Record WireMeta := MkMeta { ttl_offsets : list Z; answer_count : Z }.

(** [wire[i]]. *)
Definition at_ (wire : bytes) (i : Z) : outcome Z :=
  match index wire i with Some v => Ok v | None => Panic end.

(** [u16::from_be_bytes([wire[i], wire[i + 1]])]. *)
Definition u16_at (wire : bytes) (i : Z) : outcome Z :=
  let? a := at_ wire i in
  let? b := at_ wire (i + 1) in
  Ok (from_be16 a b).

Fixpoint skip_name_loop (fuel : nat) (wire : bytes) (pos : Z) : outcome Z :=
  match fuel with
  | O => OutOfFuel
  | S fuel =>
      if len wire <=? pos then Err (WireTruncated "name")
      else
        let? l := at_ wire pos in
        if Z.land l 0xC0 =? 0xC0 then Ok (pos + 2)
        else if l =? 0 then Ok (pos + 1)
        else skip_name_loop fuel wire (pos + (1 + l))
  end.
(** Every turn moves forward in the message. *)
Definition skip_wire_name (wire : bytes) (pos : Z) : outcome Z :=
  skip_name_loop (S (length wire)) wire pos.

Definition skip_question (wire : bytes) (pos : Z) : outcome Z :=
  let? pos := skip_wire_name wire pos in
  if len wire <? pos + 4 then Err (WireTruncated "question section") else Ok (pos + 4).

(** [pos < len && wire[pos] == 0 && pos + 3 <= len && type == 41], short-circuiting. *)
Definition is_opt_at (wire : bytes) (pos : Z) : outcome bool :=
  if pos <? len wire then
    let? v := at_ wire pos in
    if (v =? 0) && (pos + 3 <=? len wire) then
      let? t := u16_at wire (pos + 1) in
      Ok (t =? 41)
    else Ok false
  else Ok false.

(** The locals of the loop over the three sections. *)
Record scan_state := MkScan { s_pos : Z; s_offsets : list Z; s_answers : Z }.

Definition scan_record (wire : bytes) (section_idx : Z) (st : scan_state)
    : outcome scan_state :=
  let? is_opt := is_opt_at wire (s_pos st) in
  let? pos := skip_wire_name wire (s_pos st) in
  if len wire <? pos + 10 then Err (WireTruncated "resource record")
  else
    let ttl_offset := pos + 4 in
    let? rdlength := u16_at wire (pos + 8) in
    let pos := pos + (10 + rdlength) in
    if len wire <? pos then Err (WireTruncated "RDATA")
    else Ok (if is_opt then MkScan pos (s_offsets st) (s_answers st)
             else MkScan pos (s_offsets st ++ [ttl_offset])
                    (if section_idx =? 0 then s_answers st + 1 else s_answers st)).

Fixpoint iter_n {S} (n : nat) (f : S → outcome S) (s : S) : outcome S :=
  match n with
  | O => Ok s
  | Datatypes.S n => let? s := f s in iter_n n f s
  end.

Definition scan_ttl_offsets (wire : bytes) : outcome WireMeta :=
  if len wire <? 12 then Err WireTooShort
  else
    let? qdcount := u16_at wire 4 in
    let? ancount := u16_at wire 6 in
    let? nscount := u16_at wire 8 in
    let? arcount := u16_at wire 10 in
    let? pos := iter_n (Z.to_nat qdcount) (skip_question wire) 12 in
    let? st := iter_n (Z.to_nat ancount) (scan_record wire 0) (MkScan pos [] 0) in
    let? st := iter_n (Z.to_nat nscount) (scan_record wire 1) st in
    let? st := iter_n (Z.to_nat arcount) (scan_record wire 2) st in
    Ok {| ttl_offsets := s_offsets st; answer_count := s_answers st |}.

(** [u32::from_be_bytes] of the four bytes at an offset, behind the bounds filter. *)
Definition ttl_at (wire : bytes) (off : Z) : outcome (option Z) :=
  if off + 4 <=? len wire then
    let? a := at_ wire off in
    let? b := at_ wire (off + 1) in
    let? c := at_ wire (off + 2) in
    let? d := at_ wire (off + 3) in
    Ok (Some (from_be32 a b c d))
  else Ok None.

(** [filter_map(..).min()]. *)
Fixpoint min_ttls (wire : bytes) (offs : list Z) : outcome (option Z) :=
  match offs with
  | [] => Ok None
  | off :: offs =>
      let? t := ttl_at wire off in
      let? m := min_ttls wire offs in
      Ok (match t, m with
          | Some t, Some m => Some (Z.min t m)
          | Some t, None => Some t
          | None, m => m
          end)
  end.
Definition min_ttl_from_wire (wire : bytes) (meta : WireMeta) : outcome (option Z) :=
  min_ttls wire (take (Z.to_nat (answer_count meta)) (ttl_offsets meta)).

(** [wire[i] = v]. *)
Definition put (wire : bytes) (i v : Z) : outcome bytes :=
  match store wire i v with Some w => Ok w | None => Panic end.

Definition patch_id (wire : bytes) (new_id : Z) : outcome bytes :=
  let? wire := put wire 0 (as_u8 (Z.shiftr new_id 8)) in
  put wire 1 (Z.land new_id 255).

(** Four stores, one per byte of the big-endian word. *)
Definition put_u32 (wire : bytes) (off v : Z) : outcome bytes :=
  let? wire := put wire off (Z.land (Z.shiftr v 24) 255) in
  let? wire := put wire (off + 1) (Z.land (Z.shiftr v 16) 255) in
  let? wire := put wire (off + 2) (Z.land (Z.shiftr v 8) 255) in
  put wire (off + 3) (Z.land v 255).

Fixpoint patch_ttls (wire : bytes) (offsets : list Z) (new_ttl : Z) : outcome bytes :=
  match offsets with
  | [] => Ok wire
  | off :: offsets =>
      let? wire := put_u32 wire off new_ttl in
      patch_ttls wire offsets new_ttl
  end.

(** * Safety on arbitrary bytes *)

Lemma at_in_range wire i : 0 ≤ i < len wire → ∃ v, at_ wire i = Ok v ∧ index wire i = Some v.
Proof. intros Hi. destruct (index_is_Some wire i Hi) as [v Hv]. unfold at_. rewrite Hv. eauto. Qed.

Lemma at_byte wire i : all_bytes wire → 0 ≤ i < len wire →
  ∃ v, at_ wire i = Ok v ∧ is_byte v.
Proof.
  intros Hb Hi. destruct (at_in_range wire i Hi) as (v & Hat & Hv). exists v.
  split; [done|]. rewrite index_lookup in Hv by lia. by eapply (Forall_lookup_1 is_byte).
Qed.

Lemma u16_at_range wire i : all_bytes wire → 0 ≤ i → i + 1 < len wire →
  ∃ v, u16_at wire i = Ok v ∧ is_u16 v.
Proof.
  intros Hb Hi Hl. destruct (at_byte wire i Hb) as (a & Ha & ?); [lia|].
  destruct (at_byte wire (i + 1) Hb) as (b & Hb' & ?); [lia|].
  exists (from_be16 a b). unfold u16_at. rewrite Ha, Hb'. cbn. split; [done|].
  by apply is_u16_from_be16.
Qed.

(** [o] is an error, or a value that satisfies [Q]: it returns. *)
Definition yields {A} (o : outcome A) (Q : A → Prop) : Prop :=
  match o with Ok a => Q a | Err _ => True | _ => False end.

Lemma yields_bind {A B} (o : outcome A) (k : A → outcome B) P Q :
  yields o P → (∀ a, P a → yields (k a) Q) → yields (obind o k) Q.
Proof. destruct o; cbn; auto. Qed.
Lemma yields_mono {A} (o : outcome A) (P Q : A → Prop) :
  yields o P → (∀ a, P a → Q a) → yields o Q.
Proof. destruct o; cbn; auto. Qed.

Lemma yields_iter {S} n (f : S → outcome S) (I : S → Prop) s :
  (∀ s, I s → yields (f s) I) → I s → yields (iter_n n f s) I.
Proof.
  intros Hf. revert s. induction n as [|n IH]; intros s Hs; cbn; [done|].
  eapply yields_bind; [by apply Hf|done].
Qed.

Lemma skip_name_safe fuel wire pos : all_bytes wire → 0 ≤ pos →
  len wire - pos < Z.of_nat fuel → (0 < fuel)%nat →
  yields (skip_name_loop fuel wire pos) (λ p, pos < p).
Proof.
  intros Hb. revert pos. induction fuel as [|fuel IH]; intros pos Hp Hf H0; [lia|].
  cbn [skip_name_loop]. destruct (Z.leb_spec (len wire) pos); [done|].
  destruct (at_byte wire pos Hb) as (l & -> & Hl); [lia|]. unfold is_byte in Hl. cbn [obind].
  repeat case_if; cbn; try lia.
  eapply yields_mono; [apply IH; bool_prop; lia|]. intros p ?; cbv beta in *; lia.
Qed.

Lemma skip_wire_name_safe wire pos : all_bytes wire → 0 ≤ pos →
  yields (skip_wire_name wire pos) (λ p, pos < p).
Proof. intros. apply skip_name_safe; try done; unfold len; lia. Qed.

Definition offset_ok (wire : bytes) (o : Z) : Prop := 0 ≤ o ∧ o + 4 ≤ len wire.
Definition scan_ok (wire : bytes) (st : scan_state) : Prop :=
  0 ≤ s_pos st ∧ Forall (offset_ok wire) (s_offsets st) ∧
  0 ≤ s_answers st ≤ len (s_offsets st).

Lemma is_opt_at_safe wire pos : all_bytes wire → 0 ≤ pos →
  yields (is_opt_at wire pos) (λ _, True).
Proof.
  intros Hb Hp. unfold is_opt_at. destruct (Z.ltb_spec pos (len wire)); [|done].
  destruct (at_byte wire pos Hb) as (v & -> & _); [lia|]. cbn [obind].
  case_if; [|done]. bool_prop.
  destruct (u16_at_range wire (pos + 1) Hb) as (t & -> & _); [lia..|done].
Qed.

Lemma scan_record_safe wire idx st : all_bytes wire → scan_ok wire st →
  yields (scan_record wire idx st) (scan_ok wire).
Proof.
  intros Hb (Hp & Ho & Ha). unfold scan_record.
  eapply yields_bind; [by apply is_opt_at_safe|]. intros is_opt _.
  eapply yields_bind; [by apply skip_wire_name_safe|]. intros pos Hpos. cbv beta in Hpos.
  destruct (Z.ltb_spec (len wire) (pos + 10)); [done|].
  destruct (u16_at_range wire (pos + 8) Hb) as (rd & -> & Hrd); [lia..|]. unfold is_u16 in Hrd.
  cbn [obind]. case_if; [done|]. bool_prop. destruct is_opt; cbn.
  - split_and!; cbn; try done; lia.
  - unfold scan_ok; cbn. rewrite len_app, Forall_app, Forall_singleton. unfold offset_ok.
    change (len [pos + 4]) with 1. split_and!; try done; try lia; destruct (idx =? 0); lia.
Qed.

Lemma skip_question_safe wire pos : all_bytes wire → 0 ≤ pos →
  yields (skip_question wire pos) (λ p, 0 ≤ p).
Proof.
  intros Hb Hp. unfold skip_question. eapply yields_bind; [by apply skip_wire_name_safe|].
  intros p Hpp. cbv beta in *. case_if; cbn; [done|lia].
Qed.

Definition meta_ok (wire : bytes) (m : WireMeta) : Prop :=
  Forall (offset_ok wire) (ttl_offsets m) ∧ 0 ≤ answer_count m ≤ len (ttl_offsets m).

Lemma scan_ttl_offsets_yields wire : all_bytes wire →
  yields (scan_ttl_offsets wire) (meta_ok wire).
Proof.
  intros Hb. unfold scan_ttl_offsets. destruct (Z.ltb_spec (len wire) 12); [done|].
  destruct (u16_at_range wire 4 Hb) as (qd & -> & _); [lia..|].
  destruct (u16_at_range wire 6 Hb) as (an & -> & _); [lia..|].
  destruct (u16_at_range wire 8 Hb) as (ns & -> & _); [lia..|].
  destruct (u16_at_range wire 10 Hb) as (ar & -> & _); [lia..|]. cbn [obind].
  eapply yields_bind.
  { apply (yields_iter _ _ (λ p, 0 ≤ p)); [|lia]. intros. by apply skip_question_safe. }
  intros pos Hpos. cbv beta in Hpos.
  do 3 (eapply yields_bind; [apply (yields_iter _ _ (scan_ok wire));
    [intros; by apply scan_record_safe|first [done|repeat split; cbn; auto; lia]]|];
    intros ? ?).
  destruct a1; unfold scan_ok, meta_ok in *; cbn in *; tauto.
Qed.

(** * Patching *)

Lemma put_app a x c i v : i = len a → put (a ++ x :: c) i v = Ok (a ++ v :: c).
Proof.
  intros ->. unfold put, store. rewrite len_app, len_cons. pose proof (len_nonneg a).
  pose proof (len_nonneg c). destruct (Z.leb_spec 0 (len a)); [|lia].
  destruct (Z.ltb_spec (len a) (len a + (1 + len c))); [|lia]. cbn [andb].
  rewrite to_nat_len. f_equal. replace (length a) with (length a + 0)%nat by lia.
  by rewrite insert_app_r.
Qed.

Lemma put_u32_app a x0 x1 x2 x3 c off v : off = len a →
  put_u32 (a ++ x0 :: x1 :: x2 :: x3 :: c) off v = Ok (a ++ be32 v ++ c).
Proof.
  intros ->. unfold put_u32. rewrite put_app by done. cbn [obind].
  set (b0 := Z.land (Z.shiftr v 24) 255). set (b1 := Z.land (Z.shiftr v 16) 255).
  set (b2 := Z.land (Z.shiftr v 8) 255).
  change (a ++ b0 :: x1 :: x2 :: x3 :: c) with (a ++ [b0] ++ x1 :: x2 :: x3 :: c).
  rewrite app_assoc, put_app by len_lia. cbn [obind]. rewrite <- app_assoc.
  change (a ++ [b0] ++ b1 :: x2 :: x3 :: c) with (a ++ [b0; b1] ++ x2 :: x3 :: c).
  rewrite app_assoc, put_app by len_lia. cbn [obind]. rewrite <- app_assoc.
  change (a ++ [b0; b1] ++ b2 :: x3 :: c) with (a ++ [b0; b1; b2] ++ x3 :: c).
  rewrite app_assoc, put_app by len_lia. rewrite <- app_assoc. done.
Qed.

(** A message around a field of four bytes. *)
Lemma split_at4 (wire : bytes) off : offset_ok wire off →
  ∃ a x0 x1 x2 x3 c, wire = a ++ x0 :: x1 :: x2 :: x3 :: c ∧ len a = off.
Proof.
  intros [Ho Hl]. exists (take (Z.to_nat off) wire).
  destruct (index_is_Some wire off) as [x0 H0]; [lia|].
  destruct (index_is_Some wire (off + 1)) as [x1 H1]; [lia|].
  destruct (index_is_Some wire (off + 2)) as [x2 H2]; [lia|].
  destruct (index_is_Some wire (off + 3)) as [x3 H3]; [lia|].
  exists x0, x1, x2, x3, (drop (Z.to_nat (off + 4)) wire). split.
  - rewrite <- (take_drop (Z.to_nat off) wire) at 1. f_equal.
    rewrite (drop_index _ _ _ H0), (drop_index _ _ _ H1).
    replace (off + 1 + 1) with (off + 2) by lia. rewrite (drop_index _ _ _ H2).
    replace (off + 2 + 1) with (off + 3) by lia. rewrite (drop_index _ _ _ H3).
    by replace (off + 3 + 1) with (off + 4) by lia.
  - apply len_take. lia.
Qed.

Lemma put_u32_spec wire off v : offset_ok wire off →
  put_u32 wire off v = Ok (take (Z.to_nat off) wire ++ be32 v ++ drop (Z.to_nat (off + 4)) wire).
Proof.
  intros (a & x0 & x1 & x2 & x3 & c & -> & Ha)%split_at4.
  rewrite put_u32_app by done. rewrite take_app_length' by (unfold len in Ha; lia).
  do 3 f_equal. replace (Z.to_nat (off + 4)) with (length a + 4)%nat by (unfold len in Ha; lia).
  by rewrite drop_app_add.
Qed.

Lemma len_put_u32 wire off v w' : put_u32 wire off v = Ok w' → offset_ok wire off →
  len w' = len wire.
Proof.
  intros Hw Ho. rewrite put_u32_spec in Hw by done. apply (inj Ok) in Hw as <-.
  destruct Ho. rewrite !len_app, len_take, len_drop by lia. change (len (be32 v)) with 4. lia.
Qed.

(** The bytes outside the patched field stay. *)
Lemma put_u32_outside wire off v w' i : put_u32 wire off v = Ok w' → offset_ok wire off →
  ¬ (off ≤ Z.of_nat i < off + 4) → w' !! i = wire !! i.
Proof.
  intros Hw Ho Hi. rewrite put_u32_spec in Hw by done. apply (inj Ok) in Hw as <-. destruct Ho as [Ho Hl].
  destruct (decide (Z.of_nat i < off)).
  - rewrite lookup_app_l by (rewrite length_take; unfold len in *; lia).
    by rewrite lookup_take_lt by lia.
  - assert (Hlt : length (take (Z.to_nat off) wire) = Z.to_nat off)
      by (rewrite length_take; unfold len in *; lia).
    rewrite lookup_app_r, Hlt by lia.
    rewrite lookup_app_r by (cbn; lia). rewrite lookup_drop. cbn [length be32]. f_equal. lia.
Qed.

(** Patching keeps a message a string of bytes. *)
Lemma put_bytes w i v w' : all_bytes w → is_byte v → put w i v = Ok w' → all_bytes w'.
Proof.
  intros Hw Hv. unfold put, store. destruct (_ && _); [|done]. intros [= <-].
  by apply Forall_insert.
Qed.
Lemma patch_id_bytes w id w' : all_bytes w → patch_id w id = Ok w' → all_bytes w'.
Proof.
  intros Hw. unfold patch_id. destruct (put w 0 _) as [w1| | |] eqn:H1; [|done..]. cbn [obind].
  apply put_bytes; [|apply land_255_byte]. eapply put_bytes; [exact Hw|apply as_u8_byte|exact H1].
Qed.
Lemma patch_ttls_bytes offs t : ∀ w w', all_bytes w → patch_ttls w offs t = Ok w' → all_bytes w'.
Proof.
  induction offs as [|o offs IH]; intros w w' Hw; cbn [patch_ttls]; [by intros [= <-]|].
  destruct (put_u32 w o t) as [w1| | |] eqn:H1; [|done..]. cbn [obind]. apply IH. revert H1.
  unfold put_u32. destruct (put w o _) as [a| | |] eqn:Ha; [|done..]. cbn [obind].
  destruct (put a (o + 1) _) as [b| | |] eqn:Hb; [|done..]. cbn [obind].
  destruct (put b (o + 2) _) as [c| | |] eqn:Hc; [|done..]. cbn [obind].
  pose proof (put_bytes _ _ _ _ Hw (land_255_byte _) Ha) as Ba.
  pose proof (put_bytes _ _ _ _ Ba (land_255_byte _) Hb) as Bb.
  pose proof (put_bytes _ _ _ _ Bb (land_255_byte _) Hc) as Bc.
  by apply put_bytes; [|apply land_255_byte].
Qed.

Lemma patch_ttls_returns wire offs t : Forall (offset_ok wire) offs →
  ∃ w', patch_ttls wire offs t = Ok w' ∧ len w' = len wire ∧
    ∀ i, Forall (λ o, ¬ (o ≤ Z.of_nat i < o + 4)) offs → w' !! i = wire !! i.
Proof.
  revert wire. induction offs as [|off offs IH]; intros wire Hok; cbn [patch_ttls].
  { by exists wire. }
  apply Forall_cons in Hok as [Ho Hok]. pose proof (put_u32_spec wire off t Ho) as Hput.
  set (w1 := take (Z.to_nat off) wire ++ be32 t ++ drop (Z.to_nat (off + 4)) wire) in *.
  pose proof (len_put_u32 _ _ _ _ Hput Ho) as Hl1.
  destruct (IH w1) as (w' & Hw' & Hlen & Hsame).
  { eapply Forall_impl; [exact Hok|]. unfold offset_ok. intros. lia. }
  exists w'. rewrite Hput. cbn [obind]. split_and!; [done|lia|].
  intros i Hi. apply Forall_cons in Hi as [Hi His]. rewrite Hsame by done.
  by eapply put_u32_outside.
Qed.

Lemma ttl_at_ok wire off : offset_ok wire off → ∃ t, ttl_at wire off = Ok (Some t).
Proof.
  intros [Ho Hl]. unfold ttl_at. destruct (Z.leb_spec (off + 4) (len wire)); [|lia].
  destruct (at_in_range wire off) as (a & -> & _); [lia|].
  destruct (at_in_range wire (off + 1)) as (b & -> & _); [lia|].
  destruct (at_in_range wire (off + 2)) as (c & -> & _); [lia|].
  destruct (at_in_range wire (off + 3)) as (d & -> & _); [lia|]. cbn. eauto.
Qed.

(** On scanned offsets the filter of [min_ttl_from_wire] drops nothing: the result is
    the minimum over all of them. *)
Lemma min_ttls_ok wire offs : Forall (offset_ok wire) offs →
  ∃ ts, Forall2 (λ o t, ttl_at wire o = Ok (Some t)) offs ts ∧
    min_ttls wire offs = Ok (match ts with [] => None | t :: ts => Some (foldr Z.min t ts) end).
Proof.
  induction 1 as [|off offs Ho Hok (ts & Hts & IH)]; [by exists []|].
  destruct (ttl_at_ok wire off Ho) as [t Ht]. exists (t :: ts). split; [by constructor|].
  cbn [min_ttls]. rewrite Ht, IH. cbn [obind]. destruct ts as [|u ts]; [done|].
  do 2 f_equal. cbn [foldr]. clear. revert u t. induction ts as [|v ts IH]; intros; cbn; [lia|].
  specialize (IH u t). lia.
Qed.

(** * Scanning a message written from a packet *)

Lemma index_app (a : bytes) x c i : i = len a → index (a ++ x :: c) i = Some x.
Proof.
  intros ->. rewrite index_lookup by apply len_nonneg. rewrite to_nat_len.
  replace (length a) with (length a + 0)%nat by lia. by rewrite lookup_app_r, Nat.add_0_r,
    Nat.sub_diag by lia.
Qed.

Lemma at_app a x c i : i = len a → at_ (a ++ x :: c) i = Ok x.
Proof. intros. unfold at_. by rewrite index_app. Qed.

Lemma u16_at_app a v c i : is_u16 v → i = len a → u16_at (a ++ be16 v ++ c) i = Ok v.
Proof.
  intros Hv ->. unfold u16_at. unfold be16. cbn [app]. rewrite at_app by done. cbn [obind].
  change (?x :: ?y :: c) with ([x] ++ y :: c). rewrite app_assoc, at_app by len_lia.
  cbn. by rewrite from_be16_be16.
Qed.

(** [segs_at wire pos w]: the bytes [w] are in the message at [pos]. *)
Definition seg (wire : bytes) (pos : Z) (w : bytes) : Prop :=
  ∃ a c, wire = a ++ w ++ c ∧ len a = pos.

Lemma seg_app wire pos w1 w2 :
  seg wire pos (w1 ++ w2) → seg wire pos w1 ∧ seg wire (pos + len w1) w2.
Proof.
  intros (a & c & -> & <-). split.
  - exists a, (w2 ++ c). by rewrite <- app_assoc.
  - exists (a ++ w1), c. rewrite <- !app_assoc, len_app. done.
Qed.
Lemma seg_join wire pos w1 w2 :
  seg wire pos w1 → seg wire (pos + len w1) w2 → seg wire pos (w1 ++ w2).
Proof.
  intros (a & c & -> & <-) (b & d & Heq & Hl). exists a, d. split; [|done].
  rewrite app_assoc in Heq. apply app_inj_1 in Heq as [Hb ->].
  - by rewrite <- app_assoc.
  - rewrite length_app. unfold len in Hl. lia.
Qed.
Lemma seg_room wire pos w : seg wire pos w → 0 ≤ pos ∧ pos + len w ≤ len wire.
Proof. intros (a & c & -> & <-). len_lia. Qed.
Lemma seg_at wire pos x w : seg wire pos (x :: w) → at_ wire pos = Ok x.
Proof. intros (a & c & -> & <-). by apply at_app. Qed.
Lemma seg_u16 wire pos v : is_u16 v → seg wire pos (be16 v) → u16_at wire pos = Ok v.
Proof. intros ? (a & c & -> & <-). by apply u16_at_app. Qed.

Lemma skip_name_seg ls : ∀ fuel wire pos, Forall label_ok ls → (length ls < fuel)%nat →
  seg wire pos (wire_name ls) →
  skip_name_loop fuel wire pos = Ok (pos + len (wire_name ls)).
Proof.
  induction ls as [|l ls IH]; intros fuel wire pos Hok Hf Hs; (destruct fuel; [cbn in Hf; lia|]);
    pose proof (seg_room _ _ _ Hs) as [? Hroom]; cbn [skip_name_loop].
  - change (wire_name []) with [0] in *. change (len [0]) with 1 in *.
    destruct (Z.leb_spec (len wire) pos); [lia|]. by rewrite (seg_at _ _ _ _ Hs).
  - apply Forall_cons in Hok as [Hl Hok]. rewrite wire_name_cons in *.
    pose proof Hl as Hl'. unfold label_ok in Hl'. rewrite len_cons, len_app in Hroom.
    pose proof (len_nonneg (wire_name ls)).
    destruct (Z.leb_spec (len wire) pos); [lia|]. rewrite (seg_at _ _ _ _ Hs). cbn [obind].
    rewrite land_c0_small by lia. destruct (Z.eqb_spec (len l) 0); [lia|]. cbn [Z.eqb].
    change (len l :: l ++ wire_name ls) with (([len l] ++ l) ++ wire_name ls) in Hs.
    apply seg_app in Hs as [_ Hs]. rewrite len_app in Hs. change (len [len l]) with 1 in Hs.
    rewrite IH; [|done|cbn in Hf; lia|done]. f_equal. len_lia.
Qed.

Lemma skip_wire_name_seg s n wire pos : name_wire s = Some n → seg wire pos n →
  skip_wire_name wire pos = Ok (pos + len n).
Proof.
  unfold name_wire. intros (ls & Hls & ->)%fmap_Some Hs.
  pose proof (seg_room _ _ _ Hs). pose proof (wire_name_count ls).
  apply skip_name_seg; [by eapply name_labels_ok| |done]. unfold len in *. lia.
Qed.

Lemma skip_question_seg q w wire pos : question_wire q = Some w → seg wire pos w →
  skip_question wire pos = Ok (pos + len w).
Proof.
  unfold question_wire. intros (n & w2 & Hn & <-%(inj Some) & ->)%cat_Some Hs.
  pose proof (seg_room _ _ _ Hs) as [? Hroom]. apply seg_app in Hs as [Hs _].
  unfold skip_question. rewrite (skip_wire_name_seg _ _ _ _ Hn Hs). cbn [obind].
  rewrite len_app in *. change (len (be16 _ ++ _)) with 4 in *.
  destruct (Z.ltb_spec (len wire) (pos + len n + 4)); [lia|]. f_equal. lia.
Qed.

(** Where the TTL of a record lies in its wire image, and the image's length. *)
Definition ttl_pos (r : DnsRecord.t) : Z := from_option len 0 (name_wire (domain r)) + 4.
Definition record_len (r : DnsRecord.t) : Z := from_option len 0 (record_wire r).
Fixpoint record_offsets (pos : Z) (l : list DnsRecord.t) : list Z :=
  match l with
  | [] => []
  | r :: l => pos + ttl_pos r :: record_offsets (pos + record_len r) l
  end.

(** A record's image around its TTL. *)
Lemma record_wire_split r w : record_wire r = Some w → ∃ n rd,
  name_wire (domain r) = Some n ∧ rdata_wire r = Some rd ∧
  w = n ++ be16 (type_num r) ++ be16 1 ++ be32 (ttl r) ++ be16 (as_u16 (len rd)) ++ rd.
Proof.
  unfold record_wire, rr_header_wire, prefixed.
  intros (? & ? & (n & ? & Hn & <-%(inj Some) & ->)%cat_Some &
    (rd & Hrd & <-%(inj Some))%bind_Some & ->)%cat_Some.
  exists n, rd. split_and!; [done..|]. by rewrite <- !app_assoc.
Qed.

Lemma is_opt_at_name s n t wire pos post : name_wire s = Some n → is_u16 t →
  seg wire pos (n ++ be16 t ++ post) →
  is_opt_at wire pos = Ok (bool_decide (name_labels s = Some [] ∧ t = 41)).
Proof.
  unfold name_wire. intros (ls & Hls & ->)%fmap_Some Ht Hs. rewrite Hls.
  pose proof (name_labels_ok _ _ Hls) as Hok. pose proof (seg_room _ _ _ Hs) as [? Hroom].
  unfold is_opt_at. rewrite !len_app in Hroom. change (len (be16 t)) with 2 in Hroom.
  pose proof (wire_name_pos ls). pose proof (len_nonneg post).
  destruct (Z.ltb_spec pos (len wire)); [|lia]. destruct ls as [|l ls].
  - change (wire_name []) with [0] in *. rewrite (seg_at wire pos 0 (be16 t ++ post)) by done.
    change (len [0]) with 1 in *. cbn [obind].
    destruct (Z.leb_spec (pos + 3) (len wire)); [|lia]. cbn [Z.eqb andb].
    apply seg_app in Hs as [_ Hs]. apply seg_app in Hs as [Hs _].
    change (len [0]) with 1 in *. rewrite (seg_u16 _ _ t) by done. cbn [obind].
    destruct (Z.eqb_spec t 41); case_bool_decide as Hd; try done; [by destruct Hd|by destruct Hd].
  - apply Forall_cons in Hok as [Hl _]. unfold label_ok in Hl. rewrite wire_name_cons in Hs.
    rewrite (seg_at _ _ _ _ Hs). cbn [obind]. destruct (Z.eqb_spec (len l) 0); [lia|].
    cbn [andb]. case_bool_decide as Hd; [by destruct Hd|done].
Qed.

Lemma scan_record_seg r w wire idx pos offs n : record_ok r → record_wire r = Some w →
  seg wire pos w → len wire ≤ 65535 →
  scan_record wire idx (MkScan pos offs n) =
    Ok (if bool_decide (opt_lookalike r) then MkScan (pos + len w) offs n
        else MkScan (pos + len w) (offs ++ [pos + ttl_pos r])
               (if idx =? 0 then n + 1 else n)).
Proof.
  intros Hr Hw Hs Hlen. pose proof (seg_room _ _ _ Hs) as [? Hroom].
  destruct (record_wire_split _ _ Hw) as (nw & rd & Hn & Hrd & ->).
  assert (Hrl : is_u16 (len rd)).
  { unfold is_u16. rewrite !len_app in Hroom. len_lia. }
  rewrite as_u16_small in * by done. unfold scan_record. cbn [s_pos s_offsets s_answers].
  rewrite (is_opt_at_name _ _ _ _ _ _ Hn (type_num_u16 r Hr) Hs). cbn [obind].
  pose proof Hs as [Hs1 Hs2]%seg_app. rewrite (skip_wire_name_seg _ _ _ _ Hn Hs1).
  cbn [obind].
  apply seg_app in Hs2 as [_ Hs2]. apply seg_app in Hs2 as [_ Hs2].
  apply seg_app in Hs2 as [_ Hs2]. apply seg_app in Hs2 as [Hs2 _].
  change (len (be16 _)) with 2 in *. change (len (be32 _)) with 4 in *.
  replace (pos + len nw + 2 + 2 + 4) with (pos + len nw + 8) in Hs2 by lia.
  rewrite (seg_u16 _ _ _ Hrl Hs2). cbn [obind]. rewrite !len_app in Hroom |- *.
  change (len (be16 _)) with 2 in *. change (len (be32 _)) with 4 in *.
  pose proof (len_nonneg rd).
  destruct (Z.ltb_spec (len wire) (pos + len nw + 10)); [lia|].
  destruct (Z.ltb_spec (len wire) (pos + len nw + (10 + len rd))); [lia|].
  unfold ttl_pos, opt_lookalike. rewrite Hn. cbn [from_option].
  replace (pos + len nw + (10 + len rd)) with (pos + (len nw + (2 + (2 + (4 + (2 + len rd))))))
    by lia. by replace (pos + len nw + 4) with (pos + (len nw + 4)) by lia.
Qed.

Lemma scan_records_seg l : ∀ w wire idx pos offs n, Forall record_ok l →
  Forall (λ r, ¬ opt_lookalike r) l → cat_all record_wire l = Some w →
  seg wire pos w → len wire ≤ 65535 →
  iter_n (length l) (scan_record wire idx) (MkScan pos offs n) =
    Ok (MkScan (pos + len w) (offs ++ record_offsets pos l)
          (if idx =? 0 then n + len l else n)).
Proof.
  induction l as [|r l IH]; intros w wire idx pos offs n Hr Ho Hw Hs Hlen; cbn in Hw.
  - apply (inj Some) in Hw as <-. cbn [length iter_n record_offsets].
    rewrite !len_nil, app_nil_r, !Z.add_0_r. by destruct (idx =? 0).
  - apply cat_Some in Hw as (w1 & w2 & H1 & H2 & ->). apply Forall_cons in Hr as [Hr Hrs].
    apply Forall_cons in Ho as [Ho Hos]. apply seg_app in Hs as [Hs1 Hs2].
    cbn [length iter_n]. rewrite (scan_record_seg r w1) by done.
    rewrite bool_decide_eq_false_2 by done. cbn [obind].
    rewrite (IH w2) by done. cbn [record_offsets]. unfold record_len. rewrite H1.
    cbn [from_option]. rewrite <- app_assoc, len_app, len_cons. cbn [app].
    f_equal. f_equal; [lia|]. destruct (idx =? 0); lia.
Qed.

Lemma scan_edns_seg e wire idx pos offs n : edns_ok (Some e) → len (options e) < 2 ^ 16 →
  seg wire pos (edns_wire (Some e)) →
  scan_record wire idx (MkScan pos offs n) =
    Ok (MkScan (pos + len (edns_wire (Some e))) offs n).
Proof.
  intros He Hlen Hs. pose proof (seg_room _ _ _ Hs) as [? Hroom].
  pose proof (len_nonneg (options e)).
  assert (Hn : name_wire [] = Some [0]) by done.
  assert (H41 : is_u16 41) by (unfold is_u16; lia).
  unfold edns_wire in *. rewrite as_u16_small in * by (unfold is_u16; lia).
  unfold scan_record. cbn [s_pos s_offsets s_answers].
  rewrite (is_opt_at_name _ _ _ _ _ _ Hn H41 Hs). rewrite bool_decide_eq_true_2 by done.
  cbn [obind]. pose proof Hs as [Hs1 Hs2]%seg_app. rewrite (skip_wire_name_seg _ _ _ _ Hn Hs1).
  cbn [obind]. do 3 (apply seg_app in Hs2 as [_ Hs2]). apply seg_app in Hs2 as [Hs2 _].
  rewrite !len_app in Hroom |- *. change (len (be16 _)) with 2 in *.
  change (len (be32 _)) with 4 in *. change (len [0]) with 1 in *.
  replace (pos + 1 + 2 + 2 + 4) with (pos + 1 + 8) in Hs2 by lia.
  rewrite (seg_u16 _ _ (len (options e))) by (done || unfold is_u16; lia). cbn [obind].
  destruct (Z.ltb_spec (len wire) (pos + 1 + 10)); [lia|].
  destruct (Z.ltb_spec (len wire) (pos + 1 + (10 + len (options e)))); [lia|].
  f_equal. f_equal. lia.
Qed.

Lemma skip_questions_seg l : ∀ w wire pos, cat_all question_wire l = Some w →
  seg wire pos w → iter_n (length l) (skip_question wire) pos = Ok (pos + len w).
Proof.
  induction l as [|q l IH]; intros w wire pos Hw Hs; cbn in Hw.
  - apply (inj Some) in Hw as <-. cbn. by rewrite Z.add_0_r.
  - apply cat_Some in Hw as (w1 & w2 & H1 & H2 & ->). apply seg_app in Hs as [Hs1 Hs2].
    cbn [length iter_n]. rewrite (skip_question_seg q w1) by done. cbn [obind].
    rewrite (IH w2) by done. f_equal. len_lia.
Qed.

Definition questions_len (p : DnsPacket) : Z :=
  from_option len 0 (cat_all question_wire (Packet.questions p)).
Definition section_len (l : list DnsRecord.t) : Z := from_option len 0 (cat_all record_wire l).

(** The TTL fields of a written packet, section by section. *)
Definition packet_offsets (p : DnsPacket) : list Z :=
  let a := 12 + questions_len p in
  let n := a + section_len (Packet.answers p) in
  let r := n + section_len (authorities p) in
  record_offsets a (Packet.answers p) ++ record_offsets n (authorities p)
  ++ record_offsets r (resources p).

(** No record anywhere is mistaken for an OPT pseudo-record. *)
Definition no_lookalike (p : DnsPacket) : Prop :=
  Forall (λ r, ¬ opt_lookalike r) (Packet.answers p ++ authorities p ++ resources p).
#[export] Instance no_lookalike_dec p : Decision (no_lookalike p).
Proof. unfold no_lookalike. apply _. Defined.

Lemma iter_n_add {S} n m (f : S → outcome S) s :
  iter_n (n + m)%nat f s = obind (iter_n n f s) (iter_n m f).
Proof.
  revert s. induction n as [|n IH]; intros s; [done|]. cbn [Nat.add iter_n].
  destruct (f s); cbn; auto.
Qed.

Lemma header_counts_seg w h : header_ok h → seg w 0 (header_wire h) →
  u16_at w 4 = Ok (Header.questions h) ∧ u16_at w 6 = Ok (Header.answers h) ∧
  u16_at w 8 = Ok (authoritative_entries h) ∧ u16_at w 10 = Ok (resource_entries h).
Proof.
  intros (_ & _ & ? & ? & ? & ?) Hs. unfold header_wire in Hs.
  do 2 (apply seg_app in Hs as [_ Hs]). apply seg_app in Hs as [Hs1 Hs].
  apply seg_app in Hs as [Hs2 Hs]. apply seg_app in Hs as [Hs3 Hs4].
  by split_and!; apply seg_u16.
Qed.

Lemma scan_packet p w : packet_ok p → no_lookalike p → packet_wire p = Some w →
  len w ≤ 65535 →
  scan_ttl_offsets w =
    Ok {| ttl_offsets := packet_offsets p; answer_count := len (Packet.answers p) |}.
Proof.
  intros (Hh & Hq & Ha & Hn & Hr & He & _) Hopt Hw Hlen.
  unfold no_lookalike in Hopt. rewrite !Forall_app in Hopt. destruct Hopt as (Hoa & Hon & Hor).
  apply packet_wire_parts in Hw as (wq & wa & wn & wr & Hwq & Hwa & Hwn & Hwr & Hw).
  assert (Hs : seg w 0 w) by (exists [], []; by rewrite app_nil_r).
  rewrite Hw in Hs at 2. pose proof (seg_room _ _ _ Hs) as [_ Hroom].
  rewrite !len_app, len_header_wire in Hroom.
  pose proof (cat_all_length _ _ _ question_wire_nonempty Hwq).
  pose proof (cat_all_length _ _ _ record_wire_nonempty Hwa).
  pose proof (cat_all_length _ _ _ record_wire_nonempty Hwn).
  pose proof (cat_all_length _ _ _ record_wire_nonempty Hwr).
  apply seg_app in Hs as [Hhead Hs]. rewrite len_header_wire in Hs. cbn [Z.add] in Hs.
  apply seg_app in Hs as [Hsq Hs]. apply seg_app in Hs as [Hsa Hs].
  apply seg_app in Hs as [Hsn Hs]. apply seg_app in Hs as [Hsr Hse].
  pose proof (header_counts_seg _ _ (counted_header_ok p Hh) Hhead) as (Hc1 & Hc2 & Hc3 & Hc4).
  assert (Hl12 : 12 ≤ len w) by (rewrite Hw, !len_app, len_header_wire; len_lia).
  unfold scan_ttl_offsets. destruct (Z.ltb_spec (len w) 12); [lia|].
  rewrite Hc1, Hc2, Hc3, Hc4.
  cbn [obind counted_header with_counts Header.questions Header.answers
    authoritative_entries resource_entries].
  rewrite (as_u16_small (len (Packet.questions p))), (as_u16_small (len (Packet.answers p))),
    (as_u16_small (len (authorities p))), (as_u16_small (len (resources p))), !to_nat_len
    by (unfold is_u16; len_lia).
  rewrite (skip_questions_seg _ wq) by done. cbn [obind].
  rewrite (scan_records_seg _ wa) by done. cbn [obind Z.eqb].
  rewrite (scan_records_seg _ wn) by done. cbn [obind Z.eqb].
  rewrite as_u16_small by (unfold is_u16; destruct (edns p); len_lia).
  replace (Z.to_nat _) with
    (length (resources p) + match edns p with Some _ => 1 | None => 0 end)%nat
    by (destruct (edns p); unfold len; lia).
  rewrite iter_n_add, (scan_records_seg _ wr) by done. cbn [obind Z.eqb].
  unfold packet_offsets, questions_len, section_len. rewrite Hwq, Hwa, Hwn.
  cbn [from_option app]. rewrite <- !app_assoc.
  destruct (edns p) as [e|]; [|done]. cbn [iter_n].
  rewrite (scan_edns_seg e); [done|done| |done]. unfold edns_wire in Hroom. len_lia.
Qed.

Lemma patch_ttls_app wire o1 o2 t :
  patch_ttls wire (o1 ++ o2) t = obind (patch_ttls wire o1 t) (λ w, patch_ttls w o2 t).
Proof.
  revert wire. induction o1 as [|off o1 IH]; intros wire; [done|]. cbn [patch_ttls app].
  destruct (put_u32 wire off t); cbn; auto.
Qed.

(** ** Patching is re-encoding *)

Lemma set_ttl_wire t r w : record_wire r = Some w → ∃ a c,
  w = a ++ be32 (ttl r) ++ c ∧ record_wire (set_ttl t r) = Some (a ++ be32 t ++ c) ∧
  len a = ttl_pos r.
Proof.
  intros Hw. destruct (record_wire_split _ _ Hw) as (n & rd & Hn & Hrd & ->).
  exists (n ++ be16 (type_num r) ++ be16 1), (be16 (as_u16 (len rd)) ++ rd).
  rewrite <- !app_assoc. split_and!; [done| |].
  - unfold record_wire, rr_header_wire.
    assert (domain (set_ttl t r) = domain r ∧ type_num (set_ttl t r) = type_num r ∧
      rdata_wire (set_ttl t r) = rdata_wire r ∧ ttl (set_ttl t r) = t) as (-> & -> & -> & ->)
      by (by destruct r).
    rewrite Hn, Hrd. cbn [cat mbind option_bind prefixed]. f_equal. rewrite <- !app_assoc.
    done.
  - unfold ttl_pos. rewrite Hn, !len_app. cbn [from_option]. change (len (be16 _)) with 2. lia.
Qed.

Lemma record_len_set_ttl t r : record_len (set_ttl t r) = record_len r.
Proof.
  unfold record_len. destruct (record_wire r) as [w|] eqn:Hw.
  - destruct (set_ttl_wire t r w Hw) as (a & c & -> & -> & _). cbn. len_lia.
  - unfold record_wire, rr_header_wire in *.
    assert (domain (set_ttl t r) = domain r ∧ rdata_wire (set_ttl t r) = rdata_wire r) as (-> & ->)
      by (by destruct r).
    by destruct (name_wire (domain r)), (rdata_wire r).
Qed.

Lemma patch_records t l : ∀ a w c, cat_all record_wire l = Some w →
  ∃ w', cat_all record_wire (map (set_ttl t) l) = Some w' ∧ len w' = len w ∧
    patch_ttls (a ++ w ++ c) (record_offsets (len a) l) t = Ok (a ++ w' ++ c).
Proof.
  induction l as [|r l IH]; intros a w c Hw; cbn in Hw.
  - apply (inj Some) in Hw as <-. by exists [].
  - apply cat_Some in Hw as (w1 & w2 & H1 & H2 & ->).
    destruct (set_ttl_wire t r w1 H1) as (b & d & -> & H1' & Hb).
    destruct (IH (a ++ b ++ be32 t ++ d) w2 c H2) as (w2' & Hw2' & Hl2 & Hpatch).
    exists ((b ++ be32 t ++ d) ++ w2'). split_and!.
    + cbn [map cat_all]. by rewrite H1', Hw2'.
    + rewrite !len_app. change (len (be32 _)) with 4. lia.
    + cbn [record_offsets patch_ttls]. rewrite <- !app_assoc. rewrite (app_assoc a b).
      unfold be32 at 1. cbn [app].
      rewrite put_u32_app by (rewrite len_app; lia). cbn [obind].
      replace (len a + record_len r) with (len (a ++ b ++ be32 t ++ d)).
      2: { unfold record_len. rewrite H1. cbn. len_lia. }
      rewrite <- !app_assoc in Hpatch. rewrite <- !app_assoc.
      exact Hpatch.
Qed.

Lemma patch_packet t p w : packet_wire p = Some w →
  ∃ w', packet_wire (for_each_record_mut (set_ttl t) p) = Some w' ∧
    patch_ttls w (packet_offsets p) t = Ok w'.
Proof.
  intros (wq & wa & wn & wr & Hwq & Hwa & Hwn & Hwr & ->)%packet_wire_parts.
  set (h := header_wire (counted_header p)). set (e := edns_wire (edns p)).
  destruct (patch_records t _ (h ++ wq) wa (wn ++ wr ++ e) Hwa) as (wa' & Ha & Hla & Hpa).
  destruct (patch_records t _ (h ++ wq ++ wa') wn (wr ++ e) Hwn) as (wn' & Hn & Hln & Hpn).
  destruct (patch_records t _ (h ++ wq ++ wa' ++ wn') wr e Hwr) as (wr' & Hr & _ & Hpr).
  exists (h ++ wq ++ wa' ++ wn' ++ wr' ++ e). split.
  - unfold packet_wire, for_each_record_mut. cbn [Packet.questions Packet.answers authorities
      resources edns]. rewrite Hwq, Ha, Hn, Hr. unfold h, counted_header.
    cbn [Packet.questions Packet.answers authorities resources edns header].
    rewrite !len_map. done.
  - unfold packet_offsets, questions_len, section_len. rewrite Hwq, Hwa, Hwn.
    cbn [from_option]. assert (Hh : len h = 12) by done.
    replace (12 + len wq) with (len (h ++ wq)) by len_lia.
    replace (len (h ++ wq) + len wa) with (len (h ++ wq ++ wa')) by len_lia.
    replace (len (h ++ wq ++ wa') + len wn) with (len (h ++ wq ++ wa' ++ wn')) by len_lia.
    rewrite <- !app_assoc in Hpa. rewrite <- !app_assoc in Hpn. rewrite <- !app_assoc in Hpr.
    rewrite patch_ttls_app, Hpa. cbn [obind]. rewrite patch_ttls_app, Hpn. exact Hpr.
Qed.

(** The minimum of the answers' TTLs, as the bytes give it. *)
Lemma seg_ttl wire pos v : is_u32 v → seg wire pos (be32 v) → ttl_at wire pos = Ok (Some v).
Proof.
  intros Hv Hs. pose proof (seg_room _ _ _ Hs) as [? Hroom].
  change (len (be32 v)) with 4 in Hroom. unfold ttl_at.
  destruct (Z.leb_spec (pos + 4) (len wire)); [|lia]. unfold be32 in Hs.
  change [?a; ?b; ?c; ?d] with ([a] ++ [b] ++ [c] ++ [d]) in Hs.
  apply seg_app in Hs as [Ha Hs]. apply seg_app in Hs as [Hb Hs].
  apply seg_app in Hs as [Hc Hd]. change (len [_]) with 1 in *.
  rewrite (seg_at _ _ _ _ Ha), (seg_at _ _ _ _ Hb). cbn [obind].
  replace (pos + 2) with (pos + 1 + 1) by lia. rewrite (seg_at _ _ _ _ Hc). cbn [obind].
  replace (pos + 3) with (pos + 1 + 1 + 1) by lia. rewrite (seg_at _ _ _ _ Hd). cbn [obind].
  by rewrite from_be32_be32.
Qed.

Definition min_of (ts : list Z) : option Z :=
  match ts with [] => None | t :: ts => Some (foldr Z.min t ts) end.

Lemma min_of_cons t ts : min_of (t :: ts) =
  Some (match min_of ts with Some m => Z.min t m | None => t end).
Proof.
  destruct ts as [|u ts]; [done|]. cbn. f_equal. revert t u.
  induction ts as [|v ts IH]; intros; cbn; [lia|]. specialize (IH t u). lia.
Qed.

Lemma min_ttls_seg l : ∀ w wire pos, Forall record_ok l → cat_all record_wire l = Some w →
  seg wire pos w → min_ttls wire (record_offsets pos l) = Ok (min_of (map ttl l)).
Proof.
  induction l as [|r l IH]; intros w wire pos Hl Hw Hs; cbn in Hw; [done|].
  apply cat_Some in Hw as (w1 & w2 & H1 & H2 & ->). apply Forall_cons in Hl as [Hr Hl].
  apply seg_app in Hs as [Hs1 Hs2]. cbn [record_offsets min_ttls map].
  destruct (set_ttl_wire 0 r w1 H1) as (a & c & -> & _ & Ha).
  apply seg_app in Hs1 as [_ Hs1]. apply seg_app in Hs1 as [Hs1 _]. rewrite Ha in Hs1.
  rewrite (seg_ttl _ _ (ttl r)) by (try done; by destruct Hr as (_ & ? & _)). cbn [obind].
  unfold record_len. rewrite H1. cbn [from_option]. rewrite (IH w2) by done. cbn [obind].
  rewrite min_of_cons. by destruct (min_of (map ttl l)).
Qed.

Lemma min_ttl_packet p w : packet_ok p → packet_wire p = Some w →
  min_ttl_from_wire w
    {| ttl_offsets := packet_offsets p; answer_count := len (Packet.answers p) |} =
  Ok (min_of (map ttl (Packet.answers p))).
Proof.
  intros (_ & _ & Ha & _) Hw.
  apply packet_wire_parts in Hw as (wq & wa & wn & wr & Hwq & Hwa & Hwn & Hwr & Hw).
  unfold min_ttl_from_wire. cbn [answer_count ttl_offsets]. unfold packet_offsets.
  rewrite to_nat_len.
  assert (Hlr : ∀ l q, length (record_offsets q l) = length l)
    by (induction l; intros; cbn; auto).
  rewrite take_app_length' by (by rewrite Hlr). unfold questions_len. rewrite Hwq.
  apply (min_ttls_seg _ wa); [done..|].
  exists (header_wire (counted_header p) ++ wq), (wn ++ wr ++ edns_wire (edns p)).
  rewrite <- app_assoc, len_app. done.
Qed.

(** * Correctness *)

(** Scanning arbitrary bytes returns, and the offsets it reports lie inside the
    message, so that patching TTLs and extracting the minimum TTL never panic, the
    bounds filter of [min_ttl_from_wire] never drops a record, and patching keeps the
    length and every byte outside the reported four-byte fields. *)
Theorem scan_then_patch_safe (wire : bytes) (t : Z) : all_bytes wire →
  match scan_ttl_offsets wire with
  | Ok meta =>
      0 ≤ answer_count meta ≤ len (ttl_offsets meta) ∧
      (∃ ts, Forall2 (λ o t, ttl_at wire o = Ok (Some t))
               (take (Z.to_nat (answer_count meta)) (ttl_offsets meta)) ts ∧
             min_ttl_from_wire wire meta = Ok (min_of ts)) ∧
      ∃ w', patch_ttls wire (ttl_offsets meta) t = Ok w' ∧ len w' = len wire ∧
        ∀ i, Forall (λ o, ¬ (o ≤ Z.of_nat i < o + 4)) (ttl_offsets meta) →
             w' !! i = wire !! i
  | Err _ => True
  | Panic | OutOfFuel => False
  end.
Proof.
  intros Hb. pose proof (scan_ttl_offsets_yields wire Hb) as H.
  destruct (scan_ttl_offsets wire) as [meta|e| |]; try done. destruct H as [Ho Ha].
  split_and!; try lia.
  - apply min_ttls_ok. by apply Forall_take.
  - by apply patch_ttls_returns.
Qed.

Lemma scan_then_patch_safe_witness :
  scan_ttl_offsets sample_message = Ok {| ttl_offsets := [25]; answer_count := 1 |} ∧
  ∃ w', patch_ttls sample_message [25] 7 = Ok w' ∧ len w' = len sample_message.
Proof.
  split; [by vm_compute|]. assert (Hb : all_bytes sample_message)
    by (apply (bool_decide_unpack _); by vm_compute).
  destruct (scan_then_patch_safe sample_message 7 Hb) as (_ & _ & w' & Hw & Hl & _).
  exists w'. split; [exact Hw|exact Hl].
Defined.

(** C16: the zero-copy path agrees with the parsed path: in a message written from a
    packet, [scan_ttl_offsets] finds exactly the TTL fields of its records,
    [min_ttl_from_wire] is the least TTL of its answers, and patching the bytes gives the
    message that encoding the packet with every TTL replaced would give. *)
Theorem patch_is_reencode (p : DnsPacket) (w : bytes) (t : Z) :
  packet_ok p → no_lookalike p → packet_wire p = Some w → len w ≤ 65535 →
  ∃ meta w', scan_ttl_offsets w = Ok meta ∧
    min_ttl_from_wire w meta = Ok (min_of (map ttl (Packet.answers p))) ∧
    patch_ttls w (ttl_offsets meta) t = Ok w' ∧
    packet_wire (for_each_record_mut (set_ttl t) p) = Some w'.
Proof.
  intros Hp Hopt Hw Hlen. destruct (patch_packet t p w Hw) as (w' & Hw' & Hpatch).
  eexists _, w'. split_and!; [by apply scan_packet|by apply min_ttl_packet|done..].
Qed.

Definition sample_wire : bytes := default [] (packet_wire sample_packet).

Lemma patch_is_reencode_witness : ∃ w meta w',
  packet_wire sample_packet = Some w ∧ scan_ttl_offsets w = Ok meta ∧
  len (ttl_offsets meta) = 4 ∧ min_ttl_from_wire w meta = Ok (Some 5) ∧
  patch_ttls w (ttl_offsets meta) 60 = Ok w' ∧
  packet_wire (for_each_record_mut (set_ttl 60) sample_packet) = Some w'.
Proof.
  exists sample_wire.
  destruct (patch_is_reencode sample_packet sample_wire 60) as (meta & w' & Hs & Hm & Hp & Hw).
  - apply (bool_decide_unpack _). by vm_compute.
  - apply (bool_decide_unpack _). by vm_compute.
  - vm_compute. reflexivity.
  - by vm_compute.
  - exists meta, w'. split; [vm_compute; reflexivity|]. split; [exact Hs|].
    split; [|split; [exact Hm|split; [exact Hp|exact Hw]]].
    vm_compute in Hs. by injection Hs as <-.
Defined.
