(* ===== verification/Cache.v ===== *)
(** [src/src/cache.rs]: the response cache. Raw messages are stored under a domain and
    a query type; lookups serve a copy with the id and the TTLs patched, stale ones for
    an hour more. The two-level map of the source refines a flat map from (domain,
    type) to entries. Durations and instants are integers in nanoseconds; an
    operation reads the clock once, as its argument [now]. *)
From S2P Require Import Prelude Buffer Net Header Question Record Packet Wire.

Inductive Freshness := Fresh | NearExpiry | Stale.
#[export] Instance Freshness_eq_dec : EqDecision Freshness.
Proof. solve_decision. Defined.

Definition needs_refresh (f : Freshness) : bool :=
  match f with NearExpiry | Stale => true | Fresh => false end.

Inductive DnssecStatus := Secure | Insecure | Bogus | Indeterminate.
#[export] Instance DnssecStatus_eq_dec : EqDecision DnssecStatus.
Proof. solve_decision. Defined.

Definition as_str (s : DnssecStatus) : bytes :=
  match s with
  | Secure => str "secure"
  | Insecure => str "insecure"
  | Bogus => str "bogus"
  | Indeterminate => str "indeterminate"
  end.

(** [Duration::from_secs], [Duration::as_secs]. *)
Definition NS : Z := 1000000000.
Definition from_secs (s : Z) : Z := s * NS.
Definition as_secs (d : Z) : Z := d / NS.

Record CacheEntry := MkEntry {
  wire : bytes;
  meta : WireMeta;
  inserted_at : Z;
  ttl : Z;
  dnssec_status : DnssecStatus;
}.

Definition STALE_WINDOW : Z := from_secs 3600.

Abbreviation Entries := (gmap bytes (gmap QueryType.t CacheEntry)).

Record DnsCache := MkCache {
  entries : Entries;
  entry_count : Z;
  max_entries : Z;
  min_ttl : Z;
  max_ttl : Z;
}.

Definition new (max_entries min_ttl max_ttl : Z) : DnsCache :=
  {| entries := ∅; entry_count := 0; max_entries := max_entries;
     min_ttl := min_ttl; max_ttl := max_ttl |}.

Definition set_entries (m : Entries) (n : Z) (c : DnsCache) : DnsCache :=
  {| entries := m; entry_count := n; max_entries := max_entries c;
     min_ttl := min_ttl c; max_ttl := max_ttl c |}.

(** [Instant::elapsed], which saturates at zero. *)
Definition elapsed (now : Z) (e : CacheEntry) : Z := Z.max 0 (now - inserted_at e).

Definition get_entry (c : DnsCache) (domain : bytes) (qtype : QueryType.t)
    : option CacheEntry :=
  type_map ← entries c !! domain; type_map !! qtype.

(** * Lookups *)

(** The remaining TTL to serve and the freshness, or [None] past the stale window. *)
Definition freshness_of (now : Z) (e : CacheEntry) : option (Z * Freshness) :=
  let el := elapsed now e in
  if el <? ttl e then
    let secs := as_u32 (as_secs (ttl e - el)) in
    let f := if ttl e * 9 <=? el * 10 then NearExpiry else Fresh in
    Some (Z.max secs 1, f)
  else if el <? ttl e + STALE_WINDOW then Some (1, Stale)
  else None.

Definition lookup_wire (now : Z) (c : DnsCache) (domain : bytes) (qtype : QueryType.t)
    (new_id : Z) : outcome (option (bytes * DnssecStatus * Freshness)) :=
  match get_entry c domain qtype with
  | None => Ok None
  | Some e =>
      match freshness_of now e with
      | None => Ok None
      | Some (remaining, freshness) =>
          let? w := patch_id (wire e) new_id in
          let? w := patch_ttls w (ttl_offsets (meta e)) remaining in
          Ok (Some (w, dnssec_status e, freshness))
      end
  end%outcome.

(** The parser's result for a cached message; a parse error is a miss. *)
Definition parse_ok (w : bytes) : outcome (option DnsPacket) :=
  match fst (from_buffer (from_bytes w)) with
  | Ok p => Ok (Some p)
  | Err _ => Ok None
  | Panic => Panic
  | OutOfFuel => OutOfFuel
  end.

Definition lookup_with_status (now : Z) (c : DnsCache) (domain : bytes) (qtype : QueryType.t)
    : outcome (option (DnsPacket * DnssecStatus * Freshness)) :=
  (let? r := lookup_wire now c domain qtype 0 in
   match r with
   | None => Ok None
   | Some (w, status, freshness) =>
       let? p := parse_ok w in
       Ok (option_map (λ p, (p, status, freshness)) p)
   end)%outcome.

Definition lookup (now : Z) (c : DnsCache) (domain : bytes) (qtype : QueryType.t)
    : outcome (option DnsPacket) :=
  (let? r := lookup_with_status now c domain qtype in
   Ok (option_map (λ x, fst (fst x)) r))%outcome.

Definition ttl_remaining (now : Z) (c : DnsCache) (domain : bytes) (qtype : QueryType.t)
    : option (Z * Z) :=
  e ← get_entry c domain qtype;
  let el := elapsed now e in
  if ttl e <=? el then None
  else Some (as_u32 (as_secs (ttl e - el)), as_u32 (as_secs (ttl e))).

Definition warm_one (now : Z) (c : DnsCache) (domain : bytes) (qtype : QueryType.t) : bool :=
  match ttl_remaining now c domain qtype with
  | None => true
  | Some (remaining, total) => remaining <? total / 4
  end.
Definition needs_warm (now : Z) (c : DnsCache) (domain : bytes) : bool :=
  warm_one now c domain QueryType.A || warm_one now c domain QueryType.AAAA.

Definition is_empty (c : DnsCache) : bool := entry_count c =? 0.
Definition clear (c : DnsCache) : DnsCache := set_entries ∅ 0 c.

Definition remove `{Lowercase} (domain : bytes) (c : DnsCache) : DnsCache :=
  let domain_lower := to_lowercase domain in
  match entries c !! domain_lower with
  | None => c
  | Some type_map =>
      set_entries (delete domain_lower (entries c)) (entry_count c - Z.of_nat (size type_map)) c
  end.

(** * Eviction *)

Definition live (now : Z) (e : CacheEntry) : bool := elapsed now e <? ttl e.

(** [retain] on the type map of a domain. *)
Definition retain_live (now : Z) (tm : gmap QueryType.t CacheEntry)
    : gmap QueryType.t CacheEntry := filter (λ x, live now (snd x) = true) tm.

Definition evict_expired (now : Z) (c : DnsCache) : DnsCache :=
  let count := map_fold (λ _ tm n,
    Z.of_nat (size tm) - Z.of_nat (size (retain_live now tm)) + n) 0 (entries c) in
  let kept := omap (λ tm, let tm' := retain_live now tm in
    if bool_decide (tm' = ∅) then None else Some tm') (entries c) in
  set_entries kept (entry_count c - count) c.

Definition remaining (now : Z) (e : CacheEntry) : Z := Z.max 0 (ttl e - elapsed now e).

(** A (domain, type) key with its entry, as the nested iteration visits them. *)
Abbreviation visit := (bytes * QueryType.t * CacheEntry)%type.

(** The fold keeps the first entry with the least remaining time. *)
Fixpoint worst_of (now : Z) (l : list visit) (worst : option (bytes * QueryType.t * Z))
    : option (bytes * QueryType.t * Z) :=
  match l with
  | [] => worst
  | (d, q, e) :: l =>
      let r := remaining now e in
      worst_of now l
        (match worst with
         | None => Some (d, q, r)
         | Some (_, _, w) => if r <? w then Some (d, q, r) else worst
         end)
  end.

Definition remove_one (d : bytes) (q : QueryType.t) (c : DnsCache) : DnsCache :=
  match entries c !! d with
  | None => c
  | Some tm =>
      let n := match tm !! q with Some _ => entry_count c - 1 | None => entry_count c end in
      let tm' := delete q tm in
      set_entries (if bool_decide (tm' = ∅) then delete d (entries c)
                   else <[d := tm']> (entries c)) n c
  end.

(** * Insertion

    [iter] is the iteration order of the [HashMap]s, which Rust leaves unspecified. *)
Section insertion.
Context (iter : Entries → list visit).

Definition evict_stalest (now : Z) (c : DnsCache) : DnsCache :=
  match worst_of now (iter (entries c)) None with
  | None => c
  | Some (d, q, _) => remove_one d q c
  end.

Definition make_room (now : Z) (c : DnsCache) : DnsCache :=
  if max_entries c <=? entry_count c then
    let c := evict_expired now c in
    if max_entries c <=? entry_count c then evict_stalest now c else c
  else c.

(** [u32::clamp] panics when the bounds are out of order. *)
Definition clamp (v lo hi : Z) : outcome Z :=
  if lo <=? hi then Ok (Z.min (Z.max v lo) hi) else Panic.

Definition insert_entry (domain : bytes) (qtype : QueryType.t) (e : CacheEntry)
    (c : DnsCache) : DnsCache :=
  let tm := default ∅ (entries c !! domain) in
  let n := match tm !! qtype with None => entry_count c + 1 | Some _ => entry_count c end in
  set_entries (<[domain := <[qtype := e]> tm]> (entries c)) n c.

Definition insert_wire (now : Z) (domain : bytes) (qtype : QueryType.t) (w : bytes)
    (status : DnssecStatus) (c : DnsCache) : outcome DnsCache :=
  match scan_ttl_offsets w with
  | Err _ => Ok c
  | Panic => Panic
  | OutOfFuel => OutOfFuel
  | Ok m =>
      let c := make_room now c in
      let? found := min_ttl_from_wire w m in
      let? secs := clamp (default (min_ttl c) found) (min_ttl c) (max_ttl c) in
      Ok (insert_entry domain qtype
            {| wire := w; meta := m; inserted_at := now; ttl := from_secs secs;
               dnssec_status := status |} c)
  end%outcome.

Definition insert_with_status (now : Z) (domain : bytes) (qtype : QueryType.t)
    (packet : DnsPacket) (status : DnssecStatus) (c : DnsCache) : outcome DnsCache :=
  match Packet.write packet Buffer.new with
  | (Ok _, b) =>
      let? w := filled b in
      insert_wire now domain qtype w status c
  | (Err _, _) => Ok c
  | (Panic, _) => Panic
  | (OutOfFuel, _) => OutOfFuel
  end%outcome.

Definition insert (now : Z) (domain : bytes) (qtype : QueryType.t) (packet : DnsPacket)
    (c : DnsCache) : outcome DnsCache :=
  insert_with_status now domain qtype packet Indeterminate c.
End insertion.

(** [list]: the live entries, in the iteration order. *)
Record CacheInfo := MkInfo { domain : bytes; query_type : QueryType.t; i_remaining : Z }.
Definition list_entries (iter : Entries → list visit) (now : Z) (c : DnsCache)
    : list CacheInfo :=
  omap (λ '(d, q, e),
    if elapsed now e <? ttl e
    then Some {| domain := d; query_type := q;
                 i_remaining := as_u32 (as_secs (ttl e - elapsed now e)) |}
    else None) (iter (entries c)).

(** * The flat map

    The contract of the cache is stated on a map from (domain, type) to entries. *)
Definition flatten (m : Entries) : gmap (bytes * QueryType.t) CacheEntry :=
  map_uncurry (M1 := gmap bytes) (M2 := gmap QueryType.t) (M12 := gmap (bytes * QueryType.t)) m.
Definition flat (c : DnsCache) : gmap (bytes * QueryType.t) CacheEntry := flatten (entries c).

Lemma flatten_lookup m d q : flatten m !! (d, q) = m !! d ≫= (.!! q).
Proof. apply lookup_map_uncurry. Qed.
Lemma get_entry_flat c d q : get_entry c d q = flat c !! (d, q).
Proof. unfold flat. by rewrite flatten_lookup. Qed.

Lemma flatten_insert m d q e :
  flatten (<[d := <[q := e]> (default ∅ (m !! d))]> m) = <[(d, q) := e]> (flatten m).
Proof.
  apply map_eq. intros [d' q']. rewrite flatten_lookup.
  destruct (decide (d' = d)) as [->|Hd].
  - rewrite lookup_insert_eq. cbn. destruct (decide (q' = q)) as [->|Hq].
    + by rewrite !lookup_insert_eq.
    + rewrite !lookup_insert_ne by congruence. rewrite flatten_lookup.
      destruct (m !! d); [done|]. apply lookup_empty.
  - rewrite !lookup_insert_ne by congruence. by rewrite flatten_lookup.
Qed.

Lemma size_flatten_insert m d tm : m !! d = None →
  size (flatten (<[d := tm]> m)) = (size tm + size (flatten m))%nat.
Proof.
  intros Hd. induction tm as [|q e tm Hq IH] using map_ind.
  - rewrite map_size_empty, Nat.add_0_l. f_equal. apply map_eq. intros [d' q'].
    rewrite !flatten_lookup. destruct (decide (d' = d)) as [->|?].
    + rewrite lookup_insert_eq, Hd. apply lookup_empty.
    + by rewrite lookup_insert_ne by done.
  - rewrite map_size_insert_None by done. cbn [Nat.add]. rewrite <- IH.
    rewrite <- (map_size_insert_None (d, q) e).
    + f_equal. rewrite <- flatten_insert. rewrite lookup_insert_eq, insert_insert_eq. done.
    + rewrite flatten_lookup, lookup_insert_eq. done.
Qed.

Lemma flatten_delete m d : flatten (delete d m) = filter (λ x, fst (fst x) ≠ d) (flatten m).
Proof.
  apply map_eq. intros [d' q']. rewrite map_lookup_filter, !flatten_lookup.
  destruct (decide (d' = d)) as [->|Hd].
  - rewrite lookup_delete_eq. cbn. destruct (m !! d ≫= _); [|done]. cbn.
    by rewrite option_guard_False by auto.
  - rewrite lookup_delete_ne by done. destruct (m !! d' ≫= _); [|done]. cbn.
    by rewrite option_guard_True.
Qed.

Lemma size_flatten_delete m d tm : m !! d = Some tm →
  size (flatten m) = (size tm + size (flatten (delete d m)))%nat.
Proof.
  intros Hd. rewrite <- (size_flatten_insert _ d) by apply lookup_delete_eq.
  by rewrite insert_delete_eq, insert_id.
Qed.

(** ** The operations on the flat map *)

Lemma flat_insert_entry d q e c : flat (insert_entry d q e c) = <[(d, q) := e]> (flat c).
Proof. apply flatten_insert. Qed.

Lemma retain_live_lookup now tm q :
  retain_live now tm !! q = e ← tm !! q; guard (live now e = true);; Some e.
Proof. unfold retain_live. by rewrite map_lookup_filter. Qed.

Lemma flat_evict_expired now c :
  flat (evict_expired now c) = filter (λ x, live now (snd x) = true) (flat c).
Proof.
  apply map_eq. intros [d q]. rewrite map_lookup_filter. unfold flat.
  rewrite !flatten_lookup. cbn [evict_expired set_entries entries]. rewrite lookup_omap.
  destruct (entries c !! d) as [tm|]; [|done]. cbn. case_bool_decide as He; cbn.
  - pose proof (retain_live_lookup now tm q) as Hq. rewrite He, lookup_empty in Hq.
    destruct (tm !! q); [|done]. exact Hq.
  - apply retain_live_lookup.
Qed.

Lemma flat_remove_one d q c : flat (remove_one d q c) = delete (d, q) (flat c).
Proof.
  unfold remove_one, flat. destruct (entries c !! d) as [tm|] eqn:Hd; cbn [set_entries entries].
  - apply map_eq. intros [d' q']. rewrite flatten_lookup.
    assert (Hnew : (if bool_decide (delete q tm = ∅) then delete d (entries c)
      else <[d := delete q tm]> (entries c)) !! d' ≫= (.!! q') =
      (if decide (d' = d) then delete q tm !! q' else entries c !! d' ≫= (.!! q'))).
    { case_bool_decide as He; case_decide as Hd'; subst;
        rewrite ?lookup_delete_eq, ?lookup_insert_eq, ?lookup_delete_ne, ?lookup_insert_ne by done;
        try done. by rewrite He, lookup_empty. }
    rewrite Hnew. case_decide as Hd'; subst.
    + destruct (decide (q' = q)) as [->|Hq]; [by rewrite !lookup_delete_eq|].
      rewrite !lookup_delete_ne by congruence. by rewrite flatten_lookup, Hd.
    + rewrite lookup_delete_ne by congruence. by rewrite flatten_lookup.
  - rewrite delete_id; [done|]. by rewrite flatten_lookup, Hd.
Qed.

Lemma flat_remove `{Lowercase} d c :
  flat (remove d c) = filter (λ x, fst (fst x) ≠ to_lowercase d) (flat c).
Proof.
  unfold remove, flat. destruct (entries c !! to_lowercase d) eqn:Hd.
  - apply flatten_delete.
  - rewrite <- flatten_delete, delete_id; done.
Qed.

(** ** The entry counter *)
Definition counted (c : DnsCache) : Prop :=
  entry_count c = Z.of_nat (size (flat c)) ∧
  map_Forall (λ _ tm, tm ≠ ∅) (entries c).

Lemma counted_insert_entry d q e c : counted c → counted (insert_entry d q e c).
Proof.
  intros [Hn Hne]. split.
  - rewrite flat_insert_entry. cbn [insert_entry set_entries entry_count].
    rewrite map_size_insert, <- get_entry_flat. unfold get_entry.
    destruct (entries c !! d) as [tm|]; cbn.
    + destruct (tm !! q); cbn; lia.
    + rewrite lookup_empty. cbn. lia.
  - cbn. apply map_Forall_insert_2; [|done]. apply insert_non_empty.
Qed.

Lemma counted_remove_one d q c : counted c → counted (remove_one d q c).
Proof.
  intros [Hn Hne]. split.
  - rewrite flat_remove_one, map_size_delete, <- get_entry_flat. unfold get_entry, remove_one.
    assert (Hsz : flat c !! (d, q) ≠ None → (0 < size (flat c))%nat).
    { intros Hs. destruct (size (flat c)) eqn:Hz; [|lia].
      apply map_size_empty_inv in Hz. by rewrite Hz, lookup_empty in Hs. }
    unfold flat in Hsz at 1. rewrite flatten_lookup in Hsz.
    destruct (entries c !! d) as [tm|]; cbn in *; [|done].
    destruct (tm !! q); cbn; [|lia]. specialize (Hsz ltac:(done)). lia.
  - unfold remove_one. destruct (entries c !! d) as [tm|]; cbn; [|done].
    case_bool_decide; [by apply map_Forall_delete|by apply map_Forall_insert_2].
Qed.

Lemma flatten_retain (now : Z) (m : Entries) : flatten (retain_live now <$> m) =
  filter (λ x, live now (snd x) = true) (flatten m).
Proof.
  apply map_eq. intros [d q]. rewrite map_lookup_filter, !flatten_lookup, lookup_fmap.
  destruct (m !! d) as [tm|]; [|done]. cbn. apply retain_live_lookup.
Qed.

Lemma evict_count (now : Z) (m : Entries) :
  map_fold (λ _ tm n, Z.of_nat (size tm) - Z.of_nat (size (retain_live now tm)) + n) 0 m =
  Z.of_nat (size (flatten m))
  - Z.of_nat (size (filter (λ x, live now (snd x) = true) (flatten m))).
Proof.
  rewrite <- flatten_retain.
  apply (map_fold_weak_ind (λ r m, r = Z.of_nat (size (flatten m))
    - Z.of_nat (size (flatten (retain_live now <$> m))))); [done|].
  intros d tm m' r Hd ->. rewrite fmap_insert, !size_flatten_insert; [lia| |done].
  by rewrite lookup_fmap, Hd.
Qed.

Lemma counted_evict_expired (now : Z) c : counted c → counted (evict_expired now c).
Proof.
  intros [Hn Hne]. split.
  - rewrite flat_evict_expired. cbn [evict_expired set_entries entry_count].
    rewrite evict_count, Hn. unfold flat. lia.
  - cbn. intros d tm. rewrite lookup_omap. intros (tm0 & _ & Hk)%bind_Some.
    case_bool_decide; by simplify_eq.
Qed.

Lemma counted_remove `{Lowercase} d c : counted c → counted (remove d c).
Proof.
  intros [Hn Hne]. unfold remove. destruct (entries c !! to_lowercase d) as [tm|] eqn:Hd;
    [|done]. split; cbn; [|by apply map_Forall_delete].
  pose proof (size_flatten_delete _ _ _ Hd). unfold flat in *. cbn. lia.
Qed.

(** * Eviction and insertion *)

(** What the cache relies on from the iteration order: it visits exactly the entries. *)
Class IterOrder (iter : Entries → list visit) : Prop :=
  iter_spec m d q e : (d, q, e) ∈ iter m ↔ flatten m !! (d, q) = Some e.

(** An order that follows it. *)
Definition iter_list (m : Entries) : list visit :=
  (λ '(k, e), (fst k, snd k, e)) <$> map_to_list (flatten m).
#[export] Instance iter_list_order : IterOrder iter_list.
Proof.
  intros m d q e. unfold iter_list. rewrite list_elem_of_fmap. split.
  - intros ([[d' q'] e'] & [= -> -> ->] & H). by apply elem_of_map_to_list.
  - intros H. exists ((d, q), e). split; [done|]. by apply elem_of_map_to_list.
Qed.

(** The fold picks an entry with the least remaining time, if there is an entry. *)
Lemma worst_of_acc now l : ∀ d q r, ∃ d' q' r',
  worst_of now l (Some (d, q, r)) = Some (d', q', r') ∧
  ((d', q', r') = (d, q, r) ∨ ∃ e, (d', q', e) ∈ l ∧ r' = remaining now e) ∧
  r' ≤ r ∧ Forall (λ x, r' ≤ remaining now (snd x)) l.
Proof.
  induction l as [|[[d0 q0] e0] l IH]; intros d q r; cbn [worst_of].
  { exists d, q, r. split_and!; [done|by left|lia|constructor]. }
  destruct (Z.ltb_spec (remaining now e0) r).
  - destruct (IH d0 q0 (remaining now e0)) as (d' & q' & r' & -> & Ho & Hr & Hl).
    exists d', q', r'. split_and!; [done| |lia|by constructor].
    right. destruct Ho as [[= -> -> ->]|(e & He & Hr')].
    + exists e0. split; [apply list_elem_of_here|done].
    + exists e. split; [by apply list_elem_of_further|done].
  - destruct (IH d q r) as (d' & q' & r' & -> & Ho & Hr & Hl).
    exists d', q', r'. split_and!; [done| |lia|constructor; [cbn; lia|done]].
    destruct Ho as [|(e & He & Hr')]; [by left|right].
    exists e. split; [by apply list_elem_of_further|done].
Qed.

Lemma worst_of_spec now l :
  match worst_of now l None with
  | None => l = []
  | Some (d, q, r) => ∃ e, (d, q, e) ∈ l ∧ r = remaining now e ∧
      Forall (λ x, r ≤ remaining now (snd x)) l
  end.
Proof.
  destruct l as [|[[d0 q0] e0] l]; [done|]. cbn [worst_of].
  destruct (worst_of_acc now l d0 q0 (remaining now e0)) as (d' & q' & r' & -> & Ho & Hr & Hl).
  destruct Ho as [[= -> -> ->]|(e & He & Hr')].
  - exists e0. split_and!; [apply list_elem_of_here|done|by constructor].
  - exists e. split_and!; [by apply list_elem_of_further|done|by constructor].
Qed.

Section order.
Context (iter : Entries → list visit) `{!IterOrder iter}.

Lemma evict_stalest_spec now c :
  (flat c = ∅ ∧ evict_stalest iter now c = c) ∨
  ∃ k e, flat c !! k = Some e ∧ map_Forall (λ _ x, remaining now e ≤ remaining now x) (flat c)
    ∧ flat (evict_stalest iter now c) = delete k (flat c)
    ∧ (counted c → counted (evict_stalest iter now c)).
Proof.
  unfold evict_stalest. pose proof (worst_of_spec now (iter (entries c))) as Hw.
  destruct (worst_of now (iter (entries c)) None) as [[[d q] r]|].
  - right. destruct Hw as (e & He & -> & Hall). exists (d, q), e.
    split_and!; [by apply iter_spec in He| |apply flat_remove_one|apply counted_remove_one].
    intros [d' q'] x Hx. apply iter_spec in Hx. rewrite Forall_forall in Hall.
    apply (Hall _ Hx).
  - left. split; [|done]. apply map_empty. intros [d q].
    destruct (flat c !! (d, q)) as [e|] eqn:He; [|done].
    apply iter_spec in He. rewrite Hw in He. by apply not_elem_of_nil in He.
Qed.

(** The entries that have not expired. *)
Definition unexpired (now : Z) (c : DnsCache) : gmap (bytes * QueryType.t) CacheEntry :=
  filter (λ x, live now (snd x) = true) (flat c).
(** Making room: nothing goes below capacity. At capacity the expired entries go; and exactly
    when those that are left still fill it, one of them goes, with the least remaining time. *)
Inductive makes_room (now : Z) (c : DnsCache)
    : gmap (bytes * QueryType.t) CacheEntry → Prop :=
  | room_below : Z.of_nat (size (flat c)) < max_entries c → makes_room now c (flat c)
  | room_expired : max_entries c ≤ Z.of_nat (size (flat c)) →
      Z.of_nat (size (unexpired now c)) < max_entries c ∨ unexpired now c = ∅ →
      makes_room now c (unexpired now c)
  | room_stalest k e : max_entries c ≤ Z.of_nat (size (flat c)) →
      max_entries c ≤ Z.of_nat (size (unexpired now c)) →
      unexpired now c !! k = Some e →
      map_Forall (λ _ x, remaining now e ≤ remaining now x) (unexpired now c) →
      makes_room now c (delete k (unexpired now c)).

Lemma config_evict_stalest now c : max_entries (evict_stalest iter now c) = max_entries c ∧
  min_ttl (evict_stalest iter now c) = min_ttl c ∧ max_ttl (evict_stalest iter now c) = max_ttl c.
Proof.
  unfold evict_stalest. destruct (worst_of now (iter (entries c)) None) as [[[d q] r]|]; [|done].
  unfold remove_one. by destruct (entries c !! d).
Qed.

Lemma config_make_room now c : max_entries (make_room iter now c) = max_entries c ∧
  min_ttl (make_room iter now c) = min_ttl c ∧ max_ttl (make_room iter now c) = max_ttl c.
Proof.
  unfold make_room. destruct (max_entries c <=? entry_count c); [|done].
  case_if; [|done]. apply (config_evict_stalest now (evict_expired now c)).
Qed.

Lemma make_room_spec now c : counted c → entry_count c ≤ Z.max 1 (max_entries c) →
  counted (make_room iter now c) ∧ makes_room now c (flat (make_room iter now c)) ∧
  entry_count (make_room iter now c) < Z.max 1 (max_entries c).
Proof.
  intros Hc Hcap. unfold make_room. pose proof (proj1 Hc) as Hsize.
  destruct (Z.leb_spec (max_entries c) (entry_count c)) as [Hfull|Hfull].
  2: { split_and!; [done|apply room_below; lia|lia]. }
  pose proof (counted_evict_expired now c Hc) as Hce. pose proof (proj1 Hce) as Hleft.
  pose proof (flat_evict_expired now c) as Hfl. fold (unexpired now c) in Hfl. rewrite Hfl in Hleft.
  change (max_entries (evict_expired now c)) with (max_entries c) in *.
  destruct (Z.leb_spec (max_entries c) (entry_count (evict_expired now c))) as [Hf|Hf].
  2: { split_and!; [done|rewrite Hfl; apply room_expired; [lia|left; lia]|lia]. }
  assert (Hle : entry_count (evict_expired now c) ≤ entry_count c).
  { rewrite Hsize, Hleft.
    pose proof (map_size_filter (λ x, live now (snd x) = true) (flat c)). unfold unexpired. lia. }
  destruct (evict_stalest_spec now (evict_expired now c))
    as [[Hemp Heq]|(k & e & Hk & Hmin & Hdel & Hcnt)]; rewrite Hfl in *.
  - rewrite Heq, Hfl. split_and!; [done|apply room_expired; [lia|by right]|].
    rewrite Hleft, Hemp, map_size_empty. lia.
  - split_and!; [auto|rewrite Hdel; apply (room_stalest now c k e); (lia || done)|].
    destruct (Hcnt Hce) as [-> _]. rewrite Hdel, map_size_delete_Some by eauto.
    assert (size (unexpired now c) ≠ 0)%nat.
    { intros Hz. apply map_size_empty_inv in Hz. by rewrite Hz, lookup_empty in Hk. }
    lia.
Qed.

(** * The invariant *)

Definition entry_ok (c : DnsCache) (e : CacheEntry) : Prop :=
  all_bytes (wire e) ∧ scan_ttl_offsets (wire e) = Ok (meta e) ∧
  from_secs (min_ttl c) ≤ ttl e ≤ from_secs (max_ttl c).

Definition config_ok (c : DnsCache) : Prop := 0 ≤ min_ttl c ≤ max_ttl c ∧ max_ttl c < 2 ^ 32.

(** The counter is the number of entries, there is no empty type map, the capacity is
    respected (an entry is kept even at capacity zero), and every entry is a message
    that was scanned, with its TTL clamped. *)
Record cache_ok (c : DnsCache) : Prop := {
  ok_counted : counted c;
  ok_cap : entry_count c ≤ Z.max 1 (max_entries c);
  ok_config : config_ok c;
  ok_entries : map_Forall (λ _ e, entry_ok c e) (flat c);
}.

Lemma new_cache_ok n lo hi : 0 ≤ n → 0 ≤ lo ≤ hi → hi < 2 ^ 32 → cache_ok (new n lo hi).
Proof.
  intros. split; [split; [done|]|cbn; lia|split; cbn; lia|].
  - apply map_Forall_empty.
  - assert (flat (new n lo hi) = ∅) as -> by done. apply map_Forall_empty.
Qed.

Lemma makes_room_sub now c m : makes_room now c m → m ⊆ flat c.
Proof.
  intros []; [done|apply map_filter_subseteq|].
  etrans; [apply delete_subseteq|apply map_filter_subseteq].
Qed.

Lemma make_room_ok now c : cache_ok c → cache_ok (make_room iter now c) ∧
  entry_count (make_room iter now c) < Z.max 1 (max_entries c) ∧
  makes_room now c (flat (make_room iter now c)).
Proof.
  intros [Hc Hcap Hcfg He]. destruct (make_room_spec now c Hc Hcap) as (Hc' & Hm & Hlt).
  destruct (config_make_room now c) as (Hmax & Hmin & Hmx).
  split; [|done]. split; [done|lia| |].
  - unfold config_ok. by rewrite Hmin, Hmx.
  - unfold entry_ok. rewrite Hmin, Hmx. intros k e Hk.
    apply (He k). by eapply lookup_weaken; [exact Hk|eapply makes_room_sub].
Qed.

(** The TTL an inserted message is given, in seconds. *)
Definition entry_secs (c : DnsCache) (found : option Z) : Z :=
  Z.min (Z.max (default (min_ttl c) found) (min_ttl c)) (max_ttl c).

Lemma insert_wire_scanned now d q w st c m : cache_ok c → all_bytes w →
  scan_ttl_offsets w = Ok m →
  ∃ found c', min_ttl_from_wire w m = Ok found ∧
    insert_wire iter now d q w st c = Ok c' ∧ cache_ok c' ∧
    min_ttl c' = min_ttl c ∧ max_ttl c' = max_ttl c ∧
    flat c' = <[(d, q) := {| wire := w; meta := m; inserted_at := now;
                 ttl := from_secs (entry_secs c found); dnssec_status := st |}]>
                (flat (make_room iter now c)).
Proof.
  intros Hc Hb Hm. pose proof (scan_ttl_offsets_yields w Hb) as Hy. rewrite Hm in Hy.
  destruct Hy as [Hoffs Hcount].
  destruct (min_ttls_ok w (take (Z.to_nat (answer_count m)) (ttl_offsets m)))
    as (ts & _ & Hmin); [by apply Forall_take|].
  fold (min_ttl_from_wire w m) in Hmin. eexists _, _. split; [exact Hmin|].
  set (found := match ts with [] => None | t :: ts => Some (foldr Z.min t ts) end) in *.
  destruct (make_room_ok now c Hc) as ([Hcnt _ Hcfg He] & Hlt & _).
  destruct (config_make_room now c) as (Hmax & Hmi & Hma).
  unfold insert_wire. rewrite Hm. cbn zeta. rewrite Hmin. cbn [obind]. unfold clamp.
  rewrite Hmi, Hma. destruct Hc as [_ _ [Hc1 Hc2] _].
  destruct (Z.leb_spec (min_ttl c) (max_ttl c)); [|lia]. cbn [obind].
  fold (entry_secs c found). set (e := {| wire := w |}).
  split; [done|]. split; [|by rewrite flat_insert_entry].
  split.
  - by apply counted_insert_entry.
  - cbn. rewrite Hmax. destruct (_ !! q); lia.
  - unfold config_ok. cbn. rewrite Hmi, Hma. lia.
  - rewrite flat_insert_entry. apply map_Forall_insert_2.
    + split; [done|]. split; [done|]. cbn. rewrite Hmi, Hma.
      unfold entry_secs, from_secs, NS. lia.
    + exact He.
Qed.

Lemma insert_wire_error now d q w st c e : scan_ttl_offsets w = Err e →
  insert_wire iter now d q w st c = Ok c.
Proof. unfold insert_wire. by intros ->. Qed.
End order.

(** * Lookups *)

Lemma put_returns w i v : 0 ≤ i < len w → ∃ w', put w i v = Ok w' ∧ len w' = len w.
Proof.
  intros Hi. unfold put, store.
  destruct (Z.leb_spec 0 i), (Z.ltb_spec i (len w)); try lia. cbn. eexists. split; [done|].
  unfold len. by rewrite length_insert.
Qed.

Lemma patch_id_returns w id : 2 ≤ len w → ∃ w', patch_id w id = Ok w' ∧ len w' = len w.
Proof.
  intros Hl. unfold patch_id. destruct (put_returns w 0 (as_u8 (Z.shiftr id 8)))
    as (w1 & -> & Hl1); [lia|]. cbn. destruct (put_returns w1 1 (Z.land id 255))
    as (w2 & -> & Hl2); [lia|]. exists w2. split; [done|lia].
Qed.

Lemma scan_long w m : scan_ttl_offsets w = Ok m → 12 ≤ len w.
Proof. unfold scan_ttl_offsets. destruct (Z.ltb_spec (len w) 12); [done|lia]. Qed.

(** Entries of the cache can always be patched and served. *)
Lemma serve_returns c e id t : entry_ok c e → ∃ w1 w2,
  patch_id (wire e) id = Ok w1 ∧ patch_ttls w1 (ttl_offsets (meta e)) t = Ok w2 ∧
  len w2 = len (wire e).
Proof.
  intros (Hb & Hm & _). pose proof (scan_ttl_offsets_yields _ Hb) as Hy.
  rewrite Hm in Hy. destruct Hy as [Ho _].
  destruct (patch_id_returns (wire e) id) as (w1 & Hw1 & Hl1);
    [pose proof (scan_long _ _ Hm); lia|].
  destruct (patch_ttls_returns w1 (ttl_offsets (meta e)) t) as (w2 & Hw2 & Hl2 & _).
  { eapply Forall_impl; [exact Ho|]. unfold offset_ok. intros. lia. }
  exists w1, w2. split_and!; [done..|lia].
Qed.

(** The freshness of an entry, by its age in the cache. *)
Lemma freshness_spec c now e : entry_ok c e → config_ok c →
  let age := elapsed now e in
  (age < ttl e → ∃ f, freshness_of now e = Some (Z.max ((ttl e - age) / NS) 1, f) ∧
     f = if decide (ttl e * 9 ≤ age * 10) then NearExpiry else Fresh) ∧
  (ttl e ≤ age < ttl e + STALE_WINDOW → freshness_of now e = Some (1, Stale)) ∧
  (ttl e + STALE_WINDOW ≤ age → freshness_of now e = None).
Proof.
  intros (_ & _ & Hlo & Hhi) [Hc1 Hc2] age. unfold freshness_of. fold age.
  assert (Hage : 0 ≤ age) by (unfold age, elapsed; lia).
  assert (0 < STALE_WINDOW) by (by vm_compute).
  split_and!; intros Ha.
  - destruct (Z.ltb_spec age (ttl e)); [|lia]. eexists. split.
    + unfold as_secs, as_u32, from_secs, NS in *. rewrite Z.mod_small; [done|].
      split; [apply Z.div_pos; lia|]. apply Z.div_lt_upper_bound; lia.
    + destruct (Z.leb_spec (ttl e * 9) (age * 10)); by case_decide; try lia.
  - destruct (Z.ltb_spec age (ttl e)); [lia|].
    by destruct (Z.ltb_spec age (ttl e + STALE_WINDOW)); [|lia].
  - destruct (Z.ltb_spec age (ttl e)); [lia|].
    by destruct (Z.ltb_spec age (ttl e + STALE_WINDOW)); [lia|].
Qed.

Lemma put_0 x c v : put (x :: c) 0 v = Ok (v :: c).
Proof. exact (put_app [] x c 0 v eq_refl). Qed.
Lemma put_1 x y c v : put (x :: y :: c) 1 v = Ok (x :: v :: c).
Proof. exact (put_app [x] y c 1 v eq_refl). Qed.

Lemma patch_id_packet id p w : packet_wire p = Some w →
  ∃ w', patch_id w id = Ok w' ∧
    packet_wire {| header := with_id id (header p); Packet.questions := Packet.questions p;
      Packet.answers := Packet.answers p; authorities := authorities p;
      resources := resources p; edns := edns p |} = Some w'.
Proof.
  intros (wq & wa & wn & wr & Hwq & Hwa & Hwn & Hwr & ->)%packet_wire_parts.
  unfold packet_wire. cbn [Packet.questions Packet.answers authorities resources edns].
  rewrite Hwq, Hwa, Hwn, Hwr. eexists. split; [|reflexivity].
  unfold header_wire, patch_id. cbn [counted_header with_counts Header.id].
  unfold be16 at 1. cbn [app].
  rewrite put_0. cbn [obind]. by rewrite put_1.
Qed.

(** ** A packet through the cache *)

Definition zero_id (p : DnsPacket) : DnsPacket :=
  {| header := with_id 0 (header p); Packet.questions := Packet.questions p;
     Packet.answers := Packet.answers p; authorities := authorities p;
     resources := resources p; edns := edns p |}.

(** What a lookup serves for a cached packet when TTL [t] is left. *)
Definition served (t : Z) (p : DnsPacket) : DnsPacket :=
  canon_packet (for_each_record_mut (set_ttl t) (zero_id p)).

Lemma set_ttl_ok t r : is_u32 t → record_ok r → record_ok (set_ttl t r).
Proof. intros Ht (? & _ & ?). destruct r; split_and!; done. Qed.
Lemma set_ttl_lookalike t r : opt_lookalike (set_ttl t r) ↔ opt_lookalike r.
Proof. by destruct r. Qed.

Lemma set_ttl_packet_ok t p : is_u32 t → packet_ok p →
  packet_ok (for_each_record_mut (set_ttl t) (zero_id p)).
Proof.
  intros Ht (Hh & Hq & Ha & Hn & Hr & He & Ho). unfold packet_ok. cbn.
  assert (Hmap : ∀ l, Forall record_ok l → Forall record_ok (map (set_ttl t) l)).
  { intros l Hl. apply Forall_map. eapply Forall_impl; [exact Hl|].
    intros r. by apply set_ttl_ok. }
  split_and!; auto.
  - destruct Hh as (_ & ? & ? & ? & ? & ?). unfold header_ok, is_u16 in *. cbn. lia.
  - apply Forall_map. eapply Forall_impl; [exact Ho|]. intros r. cbn.
    by rewrite set_ttl_lookalike.
Qed.

Lemma parse_image p w : packet_ok p → packet_wire p = Some w → len w ≤ BUF_SIZE →
  parse_ok w = Ok (Some (canon_packet p)).
Proof.
  intros Hp Hw Hf. pose proof (reads_packet_wire p w Hp Hw) as Hr.
  pose proof (from_bytes_readable w (packet_wire_bytes p w Hp Hw)) as [[Hl Hpos] _].
  unfold parse_ok. rewrite (Hr (from_bytes w) (drop (Z.to_nat (len w)) (buf Buffer.new))).
  - done.
  - split; [done|]. by vm_compute.
  - unfold rest, from_bytes. cbn [buf pos]. rewrite Z.min_l by done.
    by rewrite to_nat_len, firstn_all.
Qed.

Lemma serve_packet p w id m t : packet_ok p → no_lookalike p → packet_wire p = Some w →
  len w ≤ 65535 → scan_ttl_offsets w = Ok m → ∃ w1 w2, patch_id w id = Ok w1 ∧
  patch_ttls w1 (ttl_offsets m) t = Ok w2 ∧
  packet_wire (for_each_record_mut (set_ttl t)
    {| header := with_id id (header p); Packet.questions := Packet.questions p;
       Packet.answers := Packet.answers p; authorities := authorities p;
       resources := resources p; edns := edns p |}) = Some w2.
Proof.
  intros Hp Hopt Hw Hlen Hm. rewrite (scan_packet p w) in Hm by done.
  apply (inj Ok) in Hm as <-. destruct (patch_id_packet id p w Hw) as (w1 & Hw1 & Hp1).
  destruct (patch_packet t _ w1 Hp1) as (w2 & Hw2 & Hp2). exists w1, w2. done.
Qed.

Lemma len_patched_packet t p w w2 : packet_wire p = Some w →
  packet_wire (for_each_record_mut (set_ttl t) (zero_id p)) = Some w2 → len w2 = len w.
Proof.
  intros Hw Hw2. destruct (patch_id_packet 0 p w Hw) as (w1 & Hw1 & Hp1).
  apply packet_wire_parts in Hw as (wq & wa & wn & wr & Hwq & Hwa & Hwn & Hwr & ->).
  apply packet_wire_parts in Hw2 as (wq' & wa' & wn' & wr' & Hwq' & Hwa' & Hwn' & Hwr' & ->).
  cbn in Hwq', Hwa', Hwn', Hwr'. rewrite Hwq in Hwq'. apply (inj Some) in Hwq' as <-.
  destruct (patch_records t _ [] wa [] Hwa) as (? & Ha & ? & _).
  destruct (patch_records t _ [] wn [] Hwn) as (? & Hn & ? & _).
  destruct (patch_records t _ [] wr [] Hwr) as (? & Hr & ? & _). simplify_eq.
  rewrite !len_app, !len_header_wire. cbn [for_each_record_mut zero_id edns]. lia.
Qed.

(** The scan of a written packet and the TTL it yields. *)
Lemma patch_is_reencode_facts p w : packet_ok p → no_lookalike p → packet_wire p = Some w →
  len w ≤ 65535 → ∃ m, scan_ttl_offsets w = Ok m ∧
    min_ttl_from_wire w m = Ok (min_of (map Record.ttl (Packet.answers p))).
Proof.
  intros Hp Hopt Hw Hlen. eexists. split; [by apply scan_packet|].
  by apply min_ttl_packet.
Qed.

Lemma fresh_ttl_u32 c e age : entry_ok c e → config_ok c → 0 ≤ age → age < ttl e →
  is_u32 (Z.max ((ttl e - age) / NS) 1).
Proof.
  intros (_ & _ & Hlo & Hhi) [Hc1 Hc2] H0 Ha. unfold is_u32, from_secs, NS in *.
  assert ((ttl e - age) / 1000000000 < 2 ^ 32) by (apply Z.div_lt_upper_bound; lia).
  assert (0 ≤ (ttl e - age) / 1000000000) by (apply Z.div_pos; lia). lia.
Qed.

Lemma write_filled p w : packet_wire p = Some w → len w ≤ BUF_SIZE →
  Packet.write p Buffer.new = (Ok tt, push w Buffer.new) ∧ filled (push w Buffer.new) = Ok w.
Proof.
  intros Hw Hf. pose proof (emits_packet p) as He. rewrite Hw in He. apply emits_unit in He.
  destruct (He _ new_in_bounds) as [Hok _]. split; [by apply Hok|].
  unfold filled. rewrite slice_Some.
  - cbn [push pos buf]. change (pos Buffer.new) with 0.
    rewrite Z.add_0_l, Z.sub_0_r, to_nat_len. change (Z.to_nat 0) with 0%nat.
    rewrite drop_0, take_0, app_nil_l. by rewrite take_app_length.
  - lia.
  - cbn. pose proof (len_nonneg w). lia.
  - rewrite (len_push w Buffer.new new_in_bounds) by exact Hf. cbn [push pos]. exact Hf.
Qed.

(** * Correctness *)

Section correctness.
Context (iter : Entries → list visit) `{!IterOrder iter}.

(** The states a cache goes through: created, then inserted into (raw messages or
    packets), pruned by name and cleared, at any times. *)
Inductive reachable (n lo hi : Z) : DnsCache → Prop :=
  | reach_new : reachable n lo hi (new n lo hi)
  | reach_insert_wire c c' now d q w st :
      reachable n lo hi c → all_bytes w →
      insert_wire iter now d q w st c = Ok c' → reachable n lo hi c'
  | reach_insert c c' now d q p st :
      reachable n lo hi c → packet_ok p →
      insert_with_status iter now d q p st c = Ok c' → reachable n lo hi c'
  | reach_remove `{Lowercase} c d : reachable n lo hi c → reachable n lo hi (remove d c)
  | reach_clear c : reachable n lo hi c → reachable n lo hi (clear c).

Lemma remove_ok `{Lowercase} d c : cache_ok c → cache_ok (remove d c).
Proof.
  intros [Hc Hcap Hcfg He].
  assert (Hsame : max_entries (remove d c) = max_entries c ∧ min_ttl (remove d c) = min_ttl c ∧
    max_ttl (remove d c) = max_ttl c) by (unfold remove; by destruct (entries c !! _)).
  destruct Hsame as (Hm & Hlo & Hhi). pose proof (counted_remove d c Hc) as Hc'.
  split; [done| | |].
  - rewrite Hm. destruct Hc as [Hc _], Hc' as [-> _]. rewrite flat_remove.
    pose proof (map_size_filter (λ x, fst (fst x) ≠ to_lowercase d) (flat c)). lia.
  - unfold config_ok. by rewrite Hlo, Hhi.
  - unfold entry_ok. rewrite Hlo, Hhi, flat_remove.
    intros k x [Hx _]%map_lookup_filter_Some. by apply (He k).
Qed.

Lemma clear_ok c : cache_ok c → cache_ok (clear c).
Proof.
  intros [_ _ Hcfg _]. assert (Hf : flat (clear c) = ∅) by done.
  split; [split; [by rewrite Hf|apply map_Forall_empty]|cbn; lia|done|].
  rewrite Hf. apply map_Forall_empty.
Qed.

Lemma insert_wire_ok now d q w st c c' : cache_ok c → all_bytes w →
  insert_wire iter now d q w st c = Ok c' → cache_ok c'.
Proof.
  intros Hc Hb Hi. pose proof (scan_ttl_offsets_yields w Hb) as Hy.
  destruct (scan_ttl_offsets w) as [m|e| |] eqn:Hm; try done.
  - destruct (insert_wire_scanned iter now d q w st c m Hc Hb Hm)
      as (found & c1 & _ & Hi' & Hok & _). rewrite Hi' in Hi. by apply (inj Ok) in Hi as <-.
  - rewrite (insert_wire_error iter _ _ _ _ _ _ e) in Hi by done.
    by apply (inj Ok) in Hi as <-.
Qed.

Lemma insert_with_status_image now d q p st c w : packet_wire p = Some w → len w ≤ BUF_SIZE →
  insert_with_status iter now d q p st c = insert_wire iter now d q w st c.
Proof.
  intros Hw Hf. destruct (write_filled p w Hw Hf) as [Hwr Hfi].
  unfold insert_with_status. rewrite Hwr, Hfi. done.
Qed.

Lemma insert_with_status_unwritable now d q p st c :
  (∀ w, packet_wire p = Some w → BUF_SIZE < len w) →
  insert_with_status iter now d q p st c = Ok c.
Proof.
  intros Hw. pose proof (emits_packet p) as He. unfold insert_with_status.
  destruct (packet_wire p) as [w|].
  - apply emits_unit in He. destruct (He _ new_in_bounds) as [_ Hfull].
    destruct (Hfull (Hw _ eq_refl)) as (b' & -> & _). done.
  - destruct (He _ new_in_bounds) as (e & b' & ->). done.
Qed.

Lemma insert_with_status_ok now d q p st c c' : cache_ok c → packet_ok p →
  insert_with_status iter now d q p st c = Ok c' → cache_ok c'.
Proof.
  intros Hc Hp Hi.
  assert (Hu : (∃ w, packet_wire p = Some w ∧ len w ≤ BUF_SIZE) ∨
    (∀ w, packet_wire p = Some w → BUF_SIZE < len w)).
  { clear Hi. destruct (packet_wire p) as [w|]; [|by right].
    destruct (Z.le_gt_cases (len w) BUF_SIZE); [left; eauto|right].
    intros w' Hw'. by apply (inj Some) in Hw' as <-. }
  destruct Hu as [(w & Hw & Hf)|Hu].
  - rewrite (insert_with_status_image _ _ _ _ _ _ w Hw Hf) in Hi.
    eapply insert_wire_ok; [exact Hc|by eapply packet_wire_bytes|exact Hi].
  - rewrite (insert_with_status_unwritable _ _ _ _ _ _ Hu) in Hi.
    by apply (inj Ok) in Hi as <-.
Qed.

(** What clients of the cache rely on: it never panics, keeps its invariant, and serves
    packets as the parser yields them. *)
Lemma insert_wire_returns now d q w st c : cache_ok c → all_bytes w →
  ∃ c', insert_wire iter now d q w st c = Ok c' ∧ cache_ok c'.
Proof.
  intros Hc Hb. pose proof (scan_ttl_offsets_yields w Hb) as Hy.
  destruct (scan_ttl_offsets w) as [m|e| |] eqn:Hm; try done.
  - destruct (insert_wire_scanned iter now d q w st c m Hc Hb Hm)
      as (found & c1 & _ & Hi & Hok & _). eauto.
  - rewrite (insert_wire_error iter _ _ _ _ _ _ e) by done. eauto.
Qed.
Lemma insert_with_status_returns now d q p st c : cache_ok c → packet_fields p →
  ∃ c', insert_with_status iter now d q p st c = Ok c' ∧ cache_ok c'.
Proof.
  intros Hc Hp. destruct (packet_wire p) as [w|] eqn:Hw.
  - destruct (Z.le_gt_cases (len w) BUF_SIZE).
    + rewrite (insert_with_status_image _ _ _ _ _ _ w) by done.
      apply insert_wire_returns; [done|]. by eapply packet_fields_bytes.
    + rewrite insert_with_status_unwritable; [eauto|]. intros w' Hw'. rewrite Hw in Hw'.
      by injection Hw' as <-.
  - rewrite insert_with_status_unwritable; [eauto|]. intros w' Hw'. by rewrite Hw in Hw'.
Qed.
Lemma lookup_wire_returns now c d q id : cache_ok c → ∃ r, lookup_wire now c d q id = Ok r ∧
  match r with Some (w, _, _) => all_bytes w | None => True end.
Proof.
  intros [_ _ _ He]. unfold lookup_wire. rewrite get_entry_flat.
  destruct (flat c !! (d, q)) as [e|] eqn:Hl; [|by exists None].
  destruct (freshness_of now e) as [[t f]|]; [|by exists None].
  destruct (serve_returns c e id t (He _ _ Hl)) as (w1 & w2 & H1 & H2 & _).
  rewrite H1. cbn [obind]. rewrite H2. cbn [obind]. eexists. split; [reflexivity|].
  eapply patch_ttls_bytes, H2. eapply patch_id_bytes, H1. by apply (He _ _ Hl).
Qed.
Lemma lookup_with_status_returns now c d q : cache_ok c →
  ∃ r, lookup_with_status now c d q = Ok r ∧
    match r with Some (p, _, _) => parsed_packet p | None => True end.
Proof.
  intros Hc. unfold lookup_with_status.
  destruct (lookup_wire_returns now c d q 0 Hc) as ([[[w st] f]|] & -> & Hw); cbn [obind]; [|by exists None].
  pose proof (safe_from_buffer (from_bytes w) (from_bytes_readable w Hw)) as Hs.
  unfold parse_ok. destruct (from_buffer (from_bytes w)) as [[p|e| |] b]; cbn in *; [|by exists None|done..].
  destruct Hs. by eexists.
Qed.
Lemma lookup_returns now c d q : cache_ok c →
  ∃ r, lookup now c d q = Ok r ∧ match r with Some p => parsed_packet p | None => True end.
Proof.
  intros Hc. unfold lookup.
  destruct (lookup_with_status_returns now c d q Hc) as ([[[p st] f]|] & -> & Hp); cbn; [by exists (Some p)|by exists None].
Qed.

Lemma reachable_ok n lo hi c : 0 ≤ n → 0 ≤ lo ≤ hi → hi < 2 ^ 32 →
  reachable n lo hi c → cache_ok c.
Proof.
  intros ??? Hr. induction Hr.
  - by apply new_cache_ok.
  - by eapply insert_wire_ok.
  - by eapply insert_with_status_ok.
  - by apply remove_ok.
  - by apply clear_ok.
Qed.

(** In every reachable state the entry counter is the number of entries, it never
    exceeds the capacity (one entry is kept even at capacity zero), no empty type map
    is left behind, and neither inserting any bytes nor looking any name up panics. *)
Theorem cache_invariant (n lo hi : Z) (c : DnsCache) :
  0 ≤ n → 0 ≤ lo ≤ hi → hi < 2 ^ 32 → reachable n lo hi c →
  entry_count c = Z.of_nat (size (flat c)) ∧ entry_count c ≤ Z.max 1 (max_entries c) ∧
  map_Forall (λ _ tm, tm ≠ ∅) (entries c) ∧
  (∀ now d q w st, all_bytes w → ∃ c', insert_wire iter now d q w st c = Ok c') ∧
  (∀ now d q id, ∃ r, lookup_wire now c d q id = Ok r).
Proof.
  intros Hn Hlo Hhi Hr. pose proof (reachable_ok n lo hi c Hn Hlo Hhi Hr) as Hc.
  pose proof Hc as [[Hcnt Hne] Hcap Hcfg He]. split_and!; try done.
  - intros now d q w st Hb. pose proof (scan_ttl_offsets_yields w Hb) as Hy.
    destruct (scan_ttl_offsets w) as [m|e| |] eqn:Hm; try done.
    + destruct (insert_wire_scanned iter now d q w st c m Hc Hb Hm) as (? & c1 & _ & ? & _).
      eauto.
    + rewrite (insert_wire_error iter _ _ _ _ _ _ e) by done. eauto.
  - intros now d q id. unfold lookup_wire. rewrite get_entry_flat.
    destruct (flat c !! (d, q)) as [e|] eqn:Hl; [|eauto].
    destruct (freshness_of now e) as [[t f]|]; [|eauto].
    destruct (serve_returns c e id t (He _ _ Hl)) as (w1 & w2 & -> & Hw2 & _).
    cbn. rewrite Hw2. cbn. eauto.
Qed.

(** C37: inserting a message refines a map update: the entry is bound to its domain and
    type with the clamped minimum TTL of the answers. Below capacity nothing else
    changes. At capacity the expired entries go; and exactly when the others still fill it, one entry with
    the least remaining time goes too, and no other. *)
Theorem insert_refines (now : Z) (d : bytes) (q : QueryType.t) (w : bytes) (st : DnssecStatus)
    (c : DnsCache) (m : WireMeta) :
  cache_ok c → all_bytes w → scan_ttl_offsets w = Ok m →
  ∃ found kept c', min_ttl_from_wire w m = Ok found ∧ makes_room now c kept ∧
    insert_wire iter now d q w st c = Ok c' ∧
    flat c' = <[(d, q) := {| wire := w; meta := m; inserted_at := now;
      ttl := from_secs (entry_secs c found); dnssec_status := st |}]> kept.
Proof.
  intros Hc Hb Hm. destruct (make_room_ok iter now c Hc) as (_ & _ & Hroom).
  destruct (insert_wire_scanned iter now d q w st c m Hc Hb Hm)
    as (found & c' & Hf & Hi & _ & _ & _ & Hfl).
  exists found, (flat (make_room iter now c)), c'. done.
Qed.

(** C17: a packet put into the cache is served back as itself: until its (clamped,
    minimum) TTL runs out with the whole seconds left, at least one, in every record,
    marked for refresh in the last tenth; then for an hour with TTL 1 and marked stale;
    then not at all. *)
Theorem cached_packet (now later : Z) (d : bytes) (q : QueryType.t) (p : DnsPacket)
    (w : bytes) (st : DnssecStatus) (c : DnsCache) :
  cache_ok c → packet_ok p → no_lookalike p → packet_wire p = Some w → len w ≤ BUF_SIZE →
  now ≤ later →
  let t := from_secs (entry_secs c (min_of (map Record.ttl (Packet.answers p)))) in
  let age := later - now in
  ∃ c', insert_with_status iter now d q p st c = Ok c' ∧
    lookup_with_status later c' d q = Ok (
      if decide (age < t)
      then Some (served (Z.max ((t - age) / NS) 1) p, st,
                 if decide (t * 9 ≤ age * 10) then NearExpiry else Fresh)
      else if decide (age < t + STALE_WINDOW) then Some (served 1 p, st, Stale)
      else None).
Proof.
  intros Hc Hp Hopt Hw Hf Hnow t age. unfold BUF_SIZE in Hf.
  assert (Hb := packet_wire_bytes p w Hp Hw).
  destruct (patch_is_reencode_facts p w Hp Hopt Hw ltac:(lia)) as (m & Hm & Hmin).
  destruct (insert_wire_scanned iter now d q w st c m Hc Hb Hm)
    as (found & c' & Hfound & Hi & Hok & Hlo & Hhi & Hfl).
  rewrite Hmin in Hfound. apply (inj Ok) in Hfound as <-. exists c'.
  rewrite (insert_with_status_image _ _ _ _ _ _ w) by done. split; [done|].
  set (e := {| wire := w; meta := m; inserted_at := now; ttl := t; dnssec_status := st |}) in *.
  assert (Hget : flat c' !! (d, q) = Some e) by (rewrite Hfl; apply lookup_insert_eq).
  assert (He : entry_ok c' e) by (by apply (ok_entries _ Hok) in Hget).
  destruct (freshness_spec c' later e He (ok_config _ Hok)) as (H1 & H2 & H3).
  assert (Hage : elapsed later e = age) by (unfold elapsed, e; cbn; lia).
  rewrite Hage in H1, H2, H3. cbn [ttl e] in H1, H2, H3.
  assert (Hserve : ∀ u, is_u32 u → ∃ w1 w2, patch_id w 0 = Ok w1 ∧
    patch_ttls w1 (ttl_offsets m) u = Ok w2 ∧ parse_ok w2 = Ok (Some (served u p))).
  { intros u Hu. destruct (serve_packet p w 0 m u Hp Hopt Hw ltac:(lia) Hm)
      as (w1 & w2 & Hw1 & Hw2 & Hp2). exists w1, w2. split_and!; [done..|].
    apply parse_image; [by apply set_ttl_packet_ok|exact Hp2|].
    rewrite (len_patched_packet u p w w2 Hw Hp2). unfold BUF_SIZE. lia. }
  unfold lookup_with_status, lookup_wire. rewrite get_entry_flat, Hget.
  destruct (decide (age < t)) as [Hlt|Hlt];
    [|destruct (decide (age < t + STALE_WINDOW)) as [Hst|Hst]].
  - destruct (H1 Hlt) as (f & -> & ->). cbn [wire meta dnssec_status e].
    destruct (Hserve (Z.max ((t - age) / NS) 1)) as (w1 & w2 & -> & Hw2 & Hpk).
    { apply (fresh_ttl_u32 c' e age); [done|apply (ok_config _ Hok)|unfold age; lia|done]. }
    cbn [obind]. rewrite Hw2. cbn [obind]. rewrite Hpk. done.
  - rewrite (H2 ltac:(lia)). cbn [wire meta dnssec_status e].
    destruct (Hserve 1) as (w1 & w2 & -> & Hw2 & Hpk); [unfold is_u32; lia|].
    cbn [obind]. rewrite Hw2. cbn [obind]. rewrite Hpk. done.
  - by rewrite (H3 ltac:(lia)).
Qed.
End correctness.

Lemma cache_invariant_witness :
  entry_count (new 2 0 9) = Z.of_nat (size (flat (new 2 0 9))) ∧
  ∃ c', insert_wire iter_list 5 (str "a") QueryType.A sample_message Secure (new 2 0 9) = Ok c'.
Proof.
  destruct (cache_invariant iter_list 2 0 9 (new 2 0 9)) as (Hc & _ & _ & Hi & _);
    [lia|lia|lia|apply reach_new|].
  split; [exact Hc|]. apply Hi. apply (bool_decide_unpack _). by vm_compute.
Defined.

(** A cache of one entry, full. *)
Definition full_cache : DnsCache :=
  match insert_wire iter_list 5 (str "b") QueryType.A sample_message Secure (new 1 0 9) with
  | Ok c => c | _ => new 1 0 9 end.
Definition sample_entry (now : Z) : CacheEntry :=
  {| wire := sample_message; meta := {| ttl_offsets := [25]; answer_count := 1 |};
     inserted_at := now; ttl := from_secs 9; dnssec_status := Secure |}.
Lemma full_cache_ok : cache_ok full_cache.
Proof.
  assert (Hn : cache_ok (new 1 0 9)) by (apply new_cache_ok; lia).
  assert (Hb : all_bytes sample_message) by (apply (bool_decide_unpack _); by vm_compute).
  destruct (insert_wire_scanned iter_list 5 (str "b") QueryType.A sample_message Secure (new 1 0 9)
    {| ttl_offsets := [25]; answer_count := 1 |} Hn Hb ltac:(by vm_compute)) as (found & c & _ & Hi & Hok & _).
  unfold full_cache. by rewrite Hi.
Qed.
(** The other name has to go, although it has not expired. *)
Lemma insert_refines_witness : ∃ c',
  insert_wire iter_list 6 (str "a") QueryType.A sample_message Secure full_cache = Ok c' ∧
  flat full_cache = {[ (str "b", QueryType.A) := sample_entry 5 ]} ∧
  flat c' = {[ (str "a", QueryType.A) := sample_entry 6 ]}.
Proof.
  destruct (insert_refines iter_list 6 (str "a") QueryType.A sample_message Secure full_cache
    {| ttl_offsets := [25]; answer_count := 1 |}) as (found & kept & c' & Hf & Hr & Hi & Hfl).
  - exact full_cache_ok.
  - apply (bool_decide_unpack _). by vm_compute.
  - by vm_compute.
  - exists c'. split; [exact Hi|]. split; [vm_compute; reflexivity|]. vm_compute in Hf. injection Hf as <-. rewrite Hfl.
    assert (Hu : unexpired 6 full_cache = {[ (str "b", QueryType.A) := sample_entry 5 ]}) by (vm_compute; reflexivity).
    destruct Hr as [Hr|_ Hr|k e _ _ Hk _].
    + exfalso. vm_compute in Hr. discriminate Hr.
    + exfalso. rewrite Hu in Hr. destruct Hr as [Hr|Hr]; vm_compute in Hr; discriminate Hr.
    + rewrite Hu in Hk |- *. apply lookup_singleton_Some in Hk as [<- <-].
      rewrite delete_singleton_eq. vm_compute. reflexivity.
Defined.

Lemma cached_packet_witness : ∃ c',
  insert_with_status iter_list 0 (str "a") QueryType.MX sample_packet Secure
    (new 2 10 60) = Ok c' ∧
  lookup_with_status (3 * NS) c' (str "a") QueryType.MX =
    Ok (Some (served 7 sample_packet, Secure, Fresh)).
Proof.
  assert (Hc : cache_ok (new 2 10 60)) by (apply new_cache_ok; lia).
  assert (Hp : packet_ok sample_packet) by (apply (bool_decide_unpack _); by vm_compute).
  assert (Ho : no_lookalike sample_packet) by (apply (bool_decide_unpack _); by vm_compute).
  assert (Hw : packet_wire sample_packet = Some sample_wire) by (by vm_compute).
  assert (Hf : len sample_wire ≤ BUF_SIZE) by (by vm_compute).
  destruct (cached_packet iter_list 0 (3 * NS) (str "a") QueryType.MX sample_packet sample_wire
    Secure (new 2 10 60) Hc Hp Ho Hw Hf ltac:(by vm_compute)) as (c' & Hi & Hl).
  exists c'. split; [exact Hi|]. rewrite Hl. vm_compute. reflexivity.
Defined.

(** A configuration whose minimum TTL exceeds its maximum makes every insertion of a
    well-formed message panic, and no other configuration does. *)
Theorem insert_panics_iff (iter : Entries → list visit) (now : Z) (d : bytes)
    (q : QueryType.t) (w : bytes) (st : DnssecStatus) (c : DnsCache) (m : WireMeta) :
  IterOrder iter → all_bytes w → scan_ttl_offsets w = Ok m →
  insert_wire iter now d q w st c = Panic ↔ max_ttl c < min_ttl c.
Proof.
  intros Hiter Hb Hm. pose proof (scan_ttl_offsets_yields w Hb) as Hy. rewrite Hm in Hy.
  destruct (min_ttls_ok w (take (Z.to_nat (answer_count m)) (ttl_offsets m)))
    as (ts & _ & Hmin); [by apply Forall_take, Hy|]. fold (min_ttl_from_wire w m) in Hmin.
  destruct (config_make_room iter now c) as (_ & Hlo & Hhi).
  unfold insert_wire. rewrite Hm. cbn zeta. rewrite Hmin. cbn [obind]. unfold clamp.
  rewrite Hlo, Hhi. destruct (Z.leb_spec (min_ttl c) (max_ttl c)); cbn [obind].
  - split; [done|lia].
  - by split; [lia|].
Qed.

Lemma insert_panics_iff_witness :
  insert_wire iter_list 0 (str "a") QueryType.A sample_message Secure (new 2 60 10) = Panic.
Proof.
  apply (insert_panics_iff iter_list 0 (str "a") QueryType.A sample_message Secure
    (new 2 60 10) {| ttl_offsets := [25]; answer_count := 1 |}).
  - apply iter_list_order.
  - apply (bool_decide_unpack _). by vm_compute.
  - by vm_compute.
  - by vm_compute.
Defined.
