(* ===== verification/Text.v ===== *)
(** String functions of the standard library that the code uses on UTF-8 text:
    splitting, trimming, prefix tests, ordering. *)
From S2P Require Import Prelude.
From stdpp Require Export sorting.
#[global] Open Scope Z_scope.

(** [s.strip_prefix(p)], [s.starts_with(p)]. *)
Fixpoint strip_prefix (p s : bytes) : option bytes :=
  match p, s with
  | [], _ => Some s
  | x :: p, y :: s => if x =? y then strip_prefix p s else None
  | _ :: _, [] => None
  end.
Definition starts_with (p s : bytes) : bool :=
  match strip_prefix p s with Some _ => true | None => false end.
Definition ends_with (p s : bytes) : bool := starts_with (reverse p) (reverse s).
Definition contains (c : Z) (s : bytes) : bool := existsb (Z.eqb c) s.

(** [s.trim_end_matches(c)] and [s.trim_start_matches(c)] for one byte. *)
Fixpoint drop_while (c : Z) (s : bytes) : bytes :=
  match s with
  | [] => []
  | b :: r => if b =? c then drop_while c r else s
  end.
Definition trim_end_byte (c : Z) (s : bytes) : bytes := reverse (drop_while c (reverse s)).

(** [s.trim_start_matches(p)] for a non-empty string. *)
Fixpoint trim_start_str_go (fuel : nat) (p s : bytes) : bytes :=
  match fuel with
  | O => s
  | S fuel => match strip_prefix p s with
              | Some r => trim_start_str_go fuel p r
              | None => s
              end
  end.
Definition trim_start_str (p s : bytes) : bytes := trim_start_str_go (length s) p s.

(** [s.split(c).next()]: the text before the first [c]. *)
Fixpoint before (c : Z) (s : bytes) : bytes :=
  match s with
  | [] => []
  | b :: r => if b =? c then [] else b :: before c r
  end.
(** [s.find(c)], giving the text after the first [c]. *)
Fixpoint after (c : Z) (s : bytes) : option bytes :=
  match s with
  | [] => None
  | b :: r => if b =? c then Some r else after c r
  end.
(** [s.split(c)]: all the pieces. *)
Fixpoint split_on (c : Z) (s : bytes) : list bytes :=
  match s with
  | [] => [[]]
  | b :: r =>
      if b =? c then [] :: split_on c r
      else match split_on c r with
           | [] => [[b]]
           | x :: xs => (b :: x) :: xs
           end
  end.

(** [l.join(sep)]. *)
Fixpoint join (sep : bytes) (l : list bytes) : bytes :=
  match l with
  | [] => []
  | [x] => x
  | x :: l => x ++ sep ++ join sep l
  end.

(** [s.lines()]: pieces between line feeds, each without a final carriage return, the
    empty piece after a last line feed left out. *)
Definition strip_cr (l : bytes) : bytes :=
  match reverse l with 13 :: r => reverse r | _ => l end.
Fixpoint drop_last_empty (l : list bytes) : list bytes :=
  match l with
  | [] => []
  | [x] => match x with [] => [] | _ => [x] end
  | x :: l => x :: drop_last_empty l
  end.
Definition lines (s : bytes) : list bytes := map strip_cr (drop_last_empty (split_on 10 s)).

(** The UTF-8 encodings of the characters with the Unicode property White_Space. *)
Definition white_space : list bytes :=
  [[9]; [10]; [11]; [12]; [13]; [32]; [0xC2; 0x85]; [0xC2; 0xA0]; [0xE1; 0x9A; 0x80];
   [0xE2; 0x80; 0x80]; [0xE2; 0x80; 0x81]; [0xE2; 0x80; 0x82]; [0xE2; 0x80; 0x83];
   [0xE2; 0x80; 0x84]; [0xE2; 0x80; 0x85]; [0xE2; 0x80; 0x86]; [0xE2; 0x80; 0x87];
   [0xE2; 0x80; 0x88]; [0xE2; 0x80; 0x89]; [0xE2; 0x80; 0x8A]; [0xE2; 0x80; 0xA8];
   [0xE2; 0x80; 0xA9]; [0xE2; 0x80; 0xAF]; [0xE2; 0x81; 0x9F]; [0xE3; 0x80; 0x80]].

Definition strip_any (ps : list bytes) (s : bytes) : option bytes :=
  fold_right (λ p acc, match strip_prefix p s with Some r => Some r | None => acc end) None ps.

Fixpoint trim_go (fuel : nat) (ps : list bytes) (s : bytes) : bytes :=
  match fuel with
  | O => s
  | S fuel => match strip_any ps s with Some r => trim_go fuel ps r | None => s end
  end.
Definition trim_start (s : bytes) : bytes := trim_go (length s) white_space s.
Definition trim_end (s : bytes) : bytes :=
  reverse (trim_go (length s) (map reverse white_space) (reverse s)).
Definition trim (s : bytes) : bytes := trim_end (trim_start s).

(** [s.split_whitespace()]: the non-empty pieces between white space. *)
Fixpoint words_go (fuel : nat) (cur s : bytes) : list bytes :=
  match fuel with
  | O => []
  | S fuel =>
      match s with
      | [] => match cur with [] => [] | _ => [cur] end
      | b :: r =>
          match strip_any white_space s with
          | Some r' => match cur with [] => words_go fuel [] r'
                       | _ => cur :: words_go fuel [] r' end
          | None => words_go fuel (cur ++ [b]) r
          end
      end
  end.
Definition split_whitespace (s : bytes) : list bytes := words_go (S (length s)) [] s.

(** The order of [String]: lexicographic on bytes. *)
Fixpoint lex_leb (a b : bytes) : bool :=
  match a, b with
  | [], _ => true
  | _ :: _, [] => false
  | x :: a, y :: b => (x <? y) || ((x =? y) && lex_leb a b)
  end.
Definition lex_le (a b : bytes) : Prop := lex_leb a b = true.
#[export] Instance lex_le_dec : RelDecision lex_le.
Proof. intros a b. unfold lex_le. apply _. Defined.

#[export] Instance lex_le_total : Total lex_le.
Proof.
  unfold Total, lex_le. induction x as [|x a IH]; intros [|y b]; cbn; auto.
  destruct (Z.ltb_spec x y), (Z.ltb_spec y x), (Z.eqb_spec x y), (Z.eqb_spec y x);
    try lia; cbn; auto.
Qed.
#[export] Instance lex_le_trans : Transitive lex_le.
Proof.
  unfold Transitive, lex_le.
  induction x as [|x a IH]; intros [|y b] [|z c] H1 H2; cbn in *; try done.
  destruct (Z.ltb_spec x y), (Z.ltb_spec y z), (Z.eqb_spec x y), (Z.eqb_spec y z),
    (Z.ltb_spec x z), (Z.eqb_spec x z); try lia; cbn in *; try done. by eapply IH.
Qed.

(** [sort()] of a vector of strings. *)
Definition sort_strings (l : list bytes) : list bytes := merge_sort lex_le l.
Lemma sort_strings_perm l : sort_strings l ≡ₚ l.
Proof. apply merge_sort_Permutation. Qed.
Lemma sort_strings_sorted l : StronglySorted lex_le (sort_strings l).
Proof. apply StronglySorted_merge_sort; apply _. Qed.

(** ** Facts *)

Lemma after_shorter c s r : after c s = Some r → (length r < length s)%nat.
Proof.
  induction s as [|b s IH]; cbn; [done|]. destruct (b =? c); intros H; [simplify_eq; lia|].
  specialize (IH H). lia.
Qed.

Lemma after_split c s r : after c s = Some r → s = before c s ++ c :: r ∧ c ∉ before c s.
Proof.
  induction s as [|b s IH]; cbn; [done|]. destruct (Z.eqb_spec b c) as [->|Hne]; intros H.
  - simplify_eq. split; [done|]. apply not_elem_of_nil.
  - destruct (IH H) as [Hs Hn]. split; [cbn; by rewrite <- Hs|].
    by rewrite not_elem_of_cons.
Qed.

Lemma after_None c s : after c s = None ↔ c ∉ s.
Proof.
  induction s as [|b s IH]; cbn.
  - split; [intros _; apply not_elem_of_nil|done].
  - rewrite not_elem_of_cons. destruct (Z.eqb_spec b c) as [->|]; [naive_solver|].
    rewrite IH. naive_solver.
Qed.

Lemma strip_prefix_spec p s r : strip_prefix p s = Some r ↔ s = p ++ r.
Proof.
  revert s. induction p as [|x p IH]; intros [|y s]; cbn.
  - split; [by intros [= <-]|by intros <-].
  - split; [by intros [= <-]|by intros <-].
  - done.
  - destruct (Z.eqb_spec x y) as [->|Hne].
    + rewrite IH. split; [by intros ->|by intros [= ->]].
    + split; [done|]. by intros [= -> _].
Qed.

Lemma starts_with_spec p s : starts_with p s = true ↔ ∃ r, s = p ++ r.
Proof.
  unfold starts_with. split.
  - destruct (strip_prefix p s) as [r|] eqn:Hp; [|done]. intros _. exists r. by apply strip_prefix_spec.
  - intros (r & Hr). apply strip_prefix_spec in Hr. by rewrite Hr.
Qed.

(** Joining pieces without the separator and splitting again. *)
Lemma before_free c a b : c ∉ a → before c (a ++ c :: b) = a.
Proof.
  induction a as [|x a IH]; cbn; intros Ha; [by rewrite Z.eqb_refl|].
  destruct (Z.eqb_spec x c) as [->|]; [exfalso; apply Ha; by left|]. rewrite IH; [done|].
  intros Hin. apply Ha. by right.
Qed.
Lemma after_free c a b : c ∉ a → after c (a ++ c :: b) = Some b.
Proof.
  induction a as [|x a IH]; cbn; intros Ha; [by rewrite Z.eqb_refl|].
  destruct (Z.eqb_spec x c) as [->|]; [exfalso; apply Ha; by left|]. apply IH.
  intros Hin. apply Ha. by right.
Qed.
Lemma split_on_free c a : c ∉ a → split_on c a = [a].
Proof.
  induction a as [|x a IH]; cbn; intros Ha; [done|].
  destruct (Z.eqb_spec x c) as [->|]; [exfalso; apply Ha; by left|]. rewrite IH; [done|].
  intros Hin. apply Ha. by right.
Qed.
Lemma split_on_app c a b : c ∉ a → split_on c (a ++ c :: b) = a :: split_on c b.
Proof.
  induction a as [|x a IH]; cbn; intros Ha; [by rewrite Z.eqb_refl|].
  destruct (Z.eqb_spec x c) as [->|]; [exfalso; apply Ha; by left|]. rewrite IH; [done|].
  intros Hin. apply Ha. by right.
Qed.
Lemma split_on_join c l : l ≠ [] → Forall (λ s, c ∉ s) l → split_on c (join [c] l) = l.
Proof.
  intros Hne Hl. induction Hl as [|s l Hs Hl IH]; [done|]. destruct l as [|t l].
  - by apply split_on_free.
  - cbn [join app]. rewrite split_on_app by done. f_equal. by apply IH.
Qed.

(** [str::parse] at an unsigned type whose largest value is [limit]: an optional plus sign
    and at least one digit. *)
Fixpoint parse_digits (limit acc : Z) (s : bytes) : option Z :=
  match s with
  | [] => Some acc
  | c :: r =>
      if is_ascii_digit c then
        let acc := acc * 10 + (c - 48) in
        if limit <? acc then None else parse_digits limit acc r
      else None
  end.
Definition parse_uint (limit : Z) (s : bytes) : option Z :=
  match s with
  | [] => None
  | 43 :: [] => None
  | 43 :: r => parse_digits limit 0 r
  | _ => parse_digits limit 0 s
  end.

Lemma parse_digits_bound limit s : ∀ acc v, 0 ≤ acc ≤ limit → parse_digits limit acc s = Some v →
  0 ≤ v ≤ limit.
Proof.
  induction s as [|c s IH]; intros acc v Ha; cbn [parse_digits]; [intros; by simplify_eq|].
  destruct (is_ascii_digit c) eqn:Hd; [|done]. unfold is_ascii_digit in Hd. bool_prop.
  destruct (Z.ltb_spec limit (acc * 10 + (c - 48))); [done|]. apply IH. lia.
Qed.
Lemma parse_uint_bound limit s v : 0 ≤ limit → parse_uint limit s = Some v → 0 ≤ v ≤ limit.
Proof.
  intros Hl. destruct s as [|c s]; [done|]. intros Hp.
  assert (parse_digits limit 0 (c :: s) = Some v ∨ parse_digits limit 0 s = Some v) as [H|H].
  { destruct (Z.eq_dec c 43) as [->|Hc].
    - destruct s; [done|]. by right.
    - left. unfold parse_uint in Hp. by repeat case_match; simplify_eq. }
  all: eapply parse_digits_bound, H; lia.
Qed.
