(* ===== verification/Domains.v ===== *)
(** [src/src/domain_list.rs] and [src/src/blocklist.rs]: two-layer persisted domain
    lists, suffix matching, the blocklist store and the blocklist-file parser. *)
From S2P Require Import Prelude Text.

(** * Normalisation and suffix matching *)

Definition normalize `{Lowercase} (domain : bytes) : bytes :=
  trim_end_byte 46 (to_lowercase domain).

(** The loop of [find_in_set] over the text after each dot. *)
Fixpoint find_suffix (fuel : nat) (d : bytes) (s : gset bytes) : option bytes :=
  match fuel with
  | O => None
  | S fuel =>
      match after 46 d with
      | None => None
      | Some d => if bool_decide (d ∈ s) then Some d else find_suffix fuel d s
      end
  end.
Definition find_in_set (domain : bytes) (s : gset bytes) : option bytes :=
  if bool_decide (domain ∈ s) then Some domain else find_suffix (S (length domain)) domain s.

(** * Persisted domain lists

    [saved] is the JSON file of the list: what [save] last wrote there, or what was
    found there at start-up; [None] for an unpersisted list. *)
Record PersistedDomainList := MkList {
  config : gset bytes;
  user : gset bytes;
  saved : option (list bytes);
}.

Section domain_list.
Context `{Lowercase}.

Definition insert_from_config (domain : bytes) (l : PersistedDomainList) : PersistedDomainList :=
  {| config := {[ normalize domain ]} ∪ config l; user := user l; saved := saved l |}.

Definition load_one (l : PersistedDomainList) (domain : bytes) : PersistedDomainList :=
  let d := normalize domain in
  if bool_decide (d ∈ config l) then l
  else {| config := config l; user := {[ d ]} ∪ user l; saved := saved l |}.

(** A missing or unreadable file loads as no entries. *)
Definition load_persisted (l : PersistedDomainList) : PersistedDomainList :=
  match saved l with
  | None => l
  | Some file => fold_left load_one file l
  end.

Definition new (file : list bytes) (config_seeds : list bytes) : PersistedDomainList :=
  load_persisted
    (fold_left (λ l d, insert_from_config d l) config_seeds
       {| config := ∅; user := ∅; saved := Some file |}).

Definition unpersisted : PersistedDomainList := {| config := ∅; user := ∅; saved := None |}.

Definition save (l : PersistedDomainList) : PersistedDomainList :=
  match saved l with
  | None => l
  | Some _ => {| config := config l; user := user l;
                 saved := Some (sort_strings (elements (user l))) |}
  end.

Definition insert (domain : bytes) (l : PersistedDomainList) : PersistedDomainList :=
  let d := normalize domain in
  if bool_decide (d ∈ config l) then l
  else if bool_decide (d ∈ user l) then l
  else save {| config := config l; user := {[ d ]} ∪ user l; saved := saved l |}.

Definition remove (domain : bytes) (l : PersistedDomainList) : bool * PersistedDomainList :=
  let d := normalize domain in
  if bool_decide (d ∈ user l)
  then (true, save {| config := config l; user := user l ∖ {[ d ]}; saved := saved l |})
  else (false, l).

Definition find_normalized (domain : bytes) (l : PersistedDomainList) : option bytes :=
  match find_in_set domain (config l) with
  | Some d => Some d
  | None => find_in_set domain (user l)
  end.

Definition matches (qname : bytes) (l : PersistedDomainList) : bool :=
  match find_normalized (normalize qname) l with Some _ => true | None => false end.

Definition is_config (domain : bytes) (l : PersistedDomainList) : bool :=
  bool_decide (normalize domain ∈ config l).

Definition entries (l : PersistedDomainList) : list bytes :=
  sort_strings (elements (config l ∪ user l)).

Definition list_len (l : PersistedDomainList) : Z :=
  Z.of_nat (size (config l)) + Z.of_nat (size (user l)).
Definition is_empty (l : PersistedDomainList) : bool :=
  bool_decide (config l = ∅) && bool_decide (user l = ∅).

(** * The blocklist store *)

Record BlocklistStore := MkStore {
  domains : gset bytes;
  allowlist : PersistedDomainList;
  manual : PersistedDomainList;
  enabled : bool;
  paused_until : option Z;
  list_sources : list bytes;
  last_refresh : option Z;
}.

Record BlockCheckResult := MkCheck {
  blocked : bool;
  reason : bytes;
  matched_rule : option bytes;
}.

Definition check_blocked (rule reason : bytes) : BlockCheckResult :=
  {| blocked := true; reason := reason; matched_rule := Some rule |}.
Definition check_allowed (rule reason : bytes) : BlockCheckResult :=
  {| blocked := false; reason := reason; matched_rule := Some rule |}.
Definition not_blocked : BlockCheckResult :=
  {| blocked := false; reason := str "not in blocklist"; matched_rule := None |}.
Definition disabled : BlockCheckResult :=
  {| blocked := false; reason := str "blocking is disabled"; matched_rule := None |}.

Definition store_new (allow man : PersistedDomainList) : BlocklistStore :=
  {| domains := ∅; allowlist := allow; manual := man; enabled := true;
     paused_until := None; list_sources := []; last_refresh := None |}.

Definition is_paused (now : Z) (s : BlocklistStore) : bool :=
  match paused_until s with Some until => now <? until | None => false end.

Definition is_blocked (now : Z) (domain : bytes) (s : BlocklistStore) : bool :=
  if negb (enabled s) then false
  else if is_paused now s then false
  else
    let domain := normalize domain in
    match find_normalized domain (allowlist s) with
    | Some _ => false
    | None =>
        match find_normalized domain (manual s) with
        | Some _ => true
        | None => match find_in_set domain (domains s) with Some _ => true | None => false end
        end
    end.

Definition check (now : Z) (domain : bytes) (s : BlocklistStore) : BlockCheckResult :=
  if negb (enabled s) then disabled
  else if is_paused now s then disabled
  else
    let domain := normalize domain in
    match find_normalized domain (allowlist s) with
    | Some matched =>
        check_allowed matched
          (if bool_decide (matched = domain) then str "exact match in allowlist"
           else str "parent domain in allowlist")
    | None =>
        match find_normalized domain (manual s) with
        | Some matched => check_blocked matched (str "manually blocked")
        | None =>
            match find_in_set domain (domains s) with
            | Some matched =>
                check_blocked matched
                  (if bool_decide (matched = domain) then str "exact match in blocklist"
                   else str "parent domain in blocklist")
            | None => not_blocked
            end
        end
    end.

Definition with_lists (allow man : PersistedDomainList) (s : BlocklistStore) : BlocklistStore :=
  {| domains := domains s; allowlist := allow; manual := man; enabled := enabled s;
     paused_until := paused_until s; list_sources := list_sources s;
     last_refresh := last_refresh s |}.

Definition swap_domains (now : Z) (ds : gset bytes) (sources : list bytes)
    (s : BlocklistStore) : BlocklistStore :=
  {| domains := ds; allowlist := allowlist s; manual := manual s; enabled := enabled s;
     paused_until := paused_until s; list_sources := sources; last_refresh := Some now |}.
Definition set_enabled (b : bool) (s : BlocklistStore) : BlocklistStore :=
  {| domains := domains s; allowlist := allowlist s; manual := manual s; enabled := b;
     paused_until := paused_until s; list_sources := list_sources s;
     last_refresh := last_refresh s |}.
Definition set_pause (u : option Z) (s : BlocklistStore) : BlocklistStore :=
  {| domains := domains s; allowlist := allowlist s; manual := manual s; enabled := enabled s;
     paused_until := u; list_sources := list_sources s; last_refresh := last_refresh s |}.
(** Instants are in nanoseconds. *)
Definition pause (now seconds : Z) (s : BlocklistStore) : outcome BlocklistStore :=
  obind (instant_add now seconds) (λ until, Ok (set_pause (Some until) s)).
Definition unpause (s : BlocklistStore) : BlocklistStore := set_pause None s.

Definition add_to_allowlist (d : bytes) (s : BlocklistStore) : BlocklistStore :=
  with_lists (insert d (allowlist s)) (manual s) s.
Definition remove_from_allowlist (d : bytes) (s : BlocklistStore) : bool * BlocklistStore :=
  let '(r, l) := remove d (allowlist s) in (r, with_lists l (manual s) s).
Definition add_to_blocklist (d : bytes) (s : BlocklistStore) : BlocklistStore :=
  with_lists (allowlist s) (insert d (manual s)) s.
Definition remove_from_blocklist (d : bytes) (s : BlocklistStore) : bool * BlocklistStore :=
  let '(r, l) := remove d (manual s) in (r, with_lists (allowlist s) l s).

(** * Blocklist files *)

Definition insert_if_valid (s : gset bytes) (raw : bytes) : gset bytes :=
  let d := normalize raw in
  if negb (bool_decide (d = [])) && contains 46 d && negb (bool_decide (d = str "localhost"))
     && negb (bool_decide (d = str "localhost.localdomain"))
  then {[ d ]} ∪ s else s.

(** The body of the loop over the lines. *)
Definition parse_line (s : gset bytes) (raw : bytes) : gset bytes :=
  let line := trim raw in
  if bool_decide (line = []) || starts_with (str "#") line || starts_with (str "!") line then s
  else if starts_with (str "0.0.0.0") line || starts_with (str "127.0.0.1") line
          || starts_with (str "::") line then
    let payload := before 35 line in
    fold_left insert_if_valid (drop 1 (split_whitespace payload)) s
  else if contains 32 line || contains 9 line then s
  else
    let d := trim_start_str (str "||") (trim_start_str (str "*.") line) in
    let d := before 36 d in
    insert_if_valid s (trim_end_byte 94 d).

Definition parse_blocklist (text : bytes) : gset bytes := fold_left parse_line (lines text) ∅.
End domain_list.

(** * Suffix matching *)

(** [s] is [d] or what follows one of its dots. *)
Definition proper_suffix (s d : bytes) : Prop := ∃ pre, d = pre ++ 46 :: s.
Definition dot_suffix (s d : bytes) : Prop := s = d ∨ proper_suffix s d.

Lemma proper_suffix_after d r s : after 46 d = Some r →
  proper_suffix s d ↔ s = r ∨ proper_suffix s r.
Proof.
  intros (Hd & Hn)%after_split. split.
  - intros (pre & Hpre). rewrite Hd in Hpre. clear Hd. revert pre Hpre.
    induction (before 46 d) as [|b l IH]; intros pre Hpre.
    + destruct pre as [|c pre]; cbn in Hpre; simplify_eq; [by left|right; by exists pre].
    + apply not_elem_of_cons in Hn as [Hb Hn].
      destruct pre as [|c pre]; cbn in Hpre; simplify_eq. by eapply IH.
  - intros [->|(pre & ->)]; [by exists (before 46 d)|].
    exists (before 46 d ++ 46 :: pre). by rewrite <- app_assoc.
Qed.

Lemma proper_suffix_none d s : after 46 d = None → ¬ proper_suffix s d.
Proof.
  intros Hn%after_None (pre & ->). apply Hn. apply elem_of_app. right. apply list_elem_of_here.
Qed.

Lemma proper_suffix_len s d : proper_suffix s d → len s < len d.
Proof. intros (pre & ->). len_lia. Qed.

Lemma find_suffix_spec fuel d S : (length d < fuel)%nat →
  match find_suffix fuel d S with
  | Some s => proper_suffix s d ∧ s ∈ S ∧ ∀ s', proper_suffix s' d → s' ∈ S → len s' ≤ len s
  | None => ∀ s', proper_suffix s' d → s' ∉ S
  end.
Proof.
  revert d. induction fuel as [|fuel IH]; intros d Hf; [lia|]. cbn [find_suffix].
  destruct (after 46 d) as [r|] eqn:Ha.
  2: { intros s' Hs'. by apply proper_suffix_none in Hs'. }
  pose proof (after_shorter _ _ _ Ha). case_bool_decide as Hr.
  - split_and!; [apply (proper_suffix_after d r r Ha); by left|done|].
    intros s' Hs' _. apply (proper_suffix_after d r s' Ha) in Hs' as [->|Hs']; [lia|].
    apply proper_suffix_len in Hs'. lia.
  - specialize (IH r ltac:(lia)). destruct (find_suffix fuel r S) as [s|].
    + destruct IH as (Hs & Hin & Hmax). split_and!; [|done|].
      * apply (proper_suffix_after d r s Ha). by right.
      * intros s' [->|Hs']%(proper_suffix_after d r s' Ha) Hs'in; [done|by apply Hmax].
    + intros s' [->|Hs']%(proper_suffix_after d r s' Ha); [done|by apply IH].
Qed.

Definition covered (d : bytes) (S : gset bytes) : Prop := ∃ s, dot_suffix s d ∧ s ∈ S.

Lemma find_in_set_found d S :
  match find_in_set d S with
  | Some s => dot_suffix s d ∧ s ∈ S ∧ ∀ s', dot_suffix s' d → s' ∈ S → len s' ≤ len s
  | None => ¬ covered d S
  end.
Proof.
  unfold find_in_set. case_bool_decide as Hd.
  - split_and!; [by left|done|]. intros s' [->|Hs'] _; [lia|].
    apply proper_suffix_len in Hs'. lia.
  - pose proof (find_suffix_spec (Datatypes.S (length d)) d S ltac:(lia)) as H.
    destruct (find_suffix _ d S) as [s|].
    + destruct H as (Hs & Hin & Hmax). split_and!; [by right|done|].
      intros s' [->|Hs'] Hin'; [done|by apply Hmax].
    + intros (s & [->|Hs] & Hin); [done|by apply (H s)].
Qed.

Lemma find_in_set_covered d S : is_Some (find_in_set d S) ↔ covered d S.
Proof.
  pose proof (find_in_set_found d S) as H. destruct (find_in_set d S) as [s|].
  - destruct H as (Hs & Hin & _). split; [by exists s|done].
  - split; [by intros []|done].
Qed.

Lemma covered_union (d : bytes) (S T : gset bytes) : covered d (S ∪ T) ↔ covered d S ∨ covered d T.
Proof.
  unfold covered. split.
  - intros (s & Hs & [H|H]%elem_of_union); [left|right]; by exists s.
  - intros [(s & Hs & H)|(s & Hs & H)]; exists s; split; set_solver.
Qed.

Lemma find_normalized_covered d l :
  is_Some (find_normalized d l) ↔ covered d (config l ∪ user l).
Proof.
  unfold find_normalized. pose proof (find_in_set_covered d (config l)) as Hc.
  pose proof (find_in_set_covered d (user l)) as Hu.
  rewrite covered_union, <- Hc, <- Hu. destruct (find_in_set d (config l)).
  - split; [by left|by eexists].
  - split; [by right|]. by intros [[]|].
Qed.

Lemma find_normalized_in d l m : find_normalized d l = Some m →
  dot_suffix m d ∧ m ∈ config l ∪ user l.
Proof.
  unfold find_normalized. pose proof (find_in_set_found d (config l)) as Hc.
  pose proof (find_in_set_found d (user l)) as Hu.
  destruct (find_in_set d (config l)); intros; simplify_eq.
  - destruct Hc as (? & ? & _). set_solver.
  - destruct (find_in_set d (user l)); simplify_eq. destruct Hu as (? & ? & _). set_solver.
Qed.

(** * Normalised ASCII names *)

Definition ascii (s : bytes) : Prop := Forall (λ b, 0 ≤ b < 128) s.

Lemma drop_while_map c s : to_ascii_lowercase c = c → ¬ (97 ≤ c ≤ 122) →
  drop_while c (ascii_lower s) = ascii_lower (drop_while c s).
Proof.
  intros Hc Hl. induction s as [|b s IH]; cbn; [done|].
  assert (Heq : (to_ascii_lowercase b =? c) = (b =? c)).
  { unfold to_ascii_lowercase in *. destruct (Z.eqb_spec b c) as [->|Hb].
    - rewrite Hc. by apply Z.eqb_eq.
    - apply Z.eqb_neq. case_if; bool_prop; lia. }
  rewrite Heq. by destruct (b =? c).
Qed.

Lemma drop_while_idem c s : drop_while c (drop_while c s) = drop_while c s.
Proof.
  induction s as [|b s IH]; cbn; [done|]. destruct (b =? c) eqn:Hb; [done|]. cbn. by rewrite Hb.
Qed.

Lemma ascii_lower_reverse s : ascii_lower (reverse s) = reverse (ascii_lower s).
Proof. apply (fmap_reverse to_ascii_lowercase). Qed.
Lemma ascii_lower_idem s : ascii_lower (ascii_lower s) = ascii_lower s.
Proof.
  unfold ascii_lower. rewrite map_map. apply map_ext. intros b.
  unfold to_ascii_lowercase. repeat case_if; bool_prop; lia.
Qed.

Lemma trim_dot_lower s : ascii_lower (trim_end_byte 46 s) = trim_end_byte 46 (ascii_lower s).
Proof.
  unfold trim_end_byte. rewrite ascii_lower_reverse, <- (drop_while_map 46) by first [reflexivity|lia].
  by rewrite ascii_lower_reverse.
Qed.

Lemma drop_while_Forall c (P : Z → Prop) s : Forall P s → Forall P (drop_while c s).
Proof. induction 1; cbn; [constructor|]. destruct (_ =? _); [done|by constructor]. Qed.

Section lists.
Context `{Lowercase}.

(** * The persisted lists *)

Definition names_of (f : list bytes) : gset bytes := list_to_set (map normalize f).

Lemma fold_config seeds l : fold_left (λ l d, insert_from_config d l) seeds l =
  {| config := names_of seeds ∪ config l; user := user l; saved := saved l |}.
Proof.
  revert l. induction seeds as [|d seeds IH]; intros l; cbn [fold_left].
  - destruct l. cbn. by rewrite union_empty_l_L.
  - rewrite IH. cbn. f_equal. set_solver.
Qed.

Lemma fold_load f l : fold_left load_one f l =
  {| config := config l; user := (names_of f ∖ config l) ∪ user l; saved := saved l |}.
Proof.
  revert l. induction f as [|d f IH]; intros l; cbn [fold_left].
  - destruct l. cbn. f_equal. set_solver.
  - rewrite IH. unfold load_one. case_bool_decide as Hd; cbn; f_equal; [set_solver|].
    apply set_eq. intros x. destruct (decide (x = normalize d)); set_solver.
Qed.

Lemma new_list f seeds : new f seeds =
  {| config := names_of seeds; user := names_of f ∖ names_of seeds; saved := Some f |}.
Proof.
  unfold new. rewrite fold_config. unfold load_persisted. cbn [saved].
  rewrite fold_load. cbn. rewrite !union_empty_r_L. done.
Qed.

(** The three verdicts of an active store. *)
Lemma check_cases now d s : enabled s = true → is_paused now s = false →
  let A := config (allowlist s) ∪ user (allowlist s) in
  let B := config (manual s) ∪ user (manual s) ∪ domains s in
  (covered (normalize d) A ∧ blocked (check now d s) = false ∧
   is_Some (matched_rule (check now d s))) ∨
  (¬ covered (normalize d) A ∧ covered (normalize d) B ∧ blocked (check now d s) = true) ∨
  (¬ covered (normalize d) A ∧ ¬ covered (normalize d) B ∧ check now d s = not_blocked).
Proof.
  intros He Hp A B. unfold A, B, check. rewrite He, Hp. cbn [negb].
  rewrite (covered_union _ (_ ∪ _) (domains s)), <- !find_normalized_covered,
    <- find_in_set_covered.
  destruct (find_normalized (normalize d) (allowlist s)); [left; by repeat split|right].
  destruct (find_normalized (normalize d) (manual s));
    [left; split_and!; [by intros []|by left; eexists|done]|].
  destruct (find_in_set (normalize d) (domains s));
    [left; split_and!; [by intros []|by right; eexists|done]|right].
  split_and!; [by intros []| |done]. by intros [[]|[]].
Qed.

(** Suffix matching is on label boundaries and prefers the longest match:
    [find_in_set] returns the longest text of the domain after a dot (or the domain
    itself) that is in the set, and nothing exactly when no such text is. *)
Theorem find_in_set_spec (d : bytes) (S : gset bytes) :
  match find_in_set d S with
  | Some s => dot_suffix s d ∧ s ∈ S ∧ ∀ s', dot_suffix s' d → s' ∈ S → len s' ≤ len s
  | None => ∀ s, dot_suffix s d → s ∉ S
  end.
Proof.
  pose proof (find_in_set_found d S) as Hf. destruct (find_in_set d S); [done|].
  intros s Hs Hin. apply Hf. by exists s.
Qed.

(** When a name is blocked. *)
Definition blocks (now : Z) (d : bytes) (s : BlocklistStore) : Prop :=
  enabled s = true ∧ is_paused now s = false ∧
  ¬ covered (normalize d) (config (allowlist s) ∪ user (allowlist s)) ∧
  covered (normalize d) (config (manual s) ∪ user (manual s) ∪ domains s).

Lemma is_blocked_iff now d s : is_blocked now d s = true ↔ blocks now d s.
Proof.
  unfold is_blocked, blocks. destruct (enabled s), (is_paused now s); cbn;
    try (split; [done|by intros (? & ? & _)]).
  rewrite (covered_union _ (_ ∪ _) (domains s)),
    <- (find_normalized_covered (normalize d) (allowlist s)),
    <- (find_normalized_covered (normalize d) (manual s)),
    <- (find_in_set_covered (normalize d) (domains s)).
  destruct (find_normalized (normalize d) (allowlist s)) as [a|]; cbn.
  { split; [done|]. intros (_ & _ & Hno & _). by destruct Hno. }
  destruct (find_normalized (normalize d) (manual s)) as [b|]; cbn.
  { split; [|done]. intros _. split_and!; [done|done|by intros []|by left]. }
  destruct (find_in_set (normalize d) (domains s)) as [c|]; cbn.
  { split; [|done]. intros _. split_and!; [done|done|by intros []|by right]. }
  split; [done|]. intros (_ & _ & _ & [[]|[]]); done.
Qed.

(** The blocking decision: a name is blocked exactly when blocking is on and not
    paused, no allowlist entry covers it, and a manual or downloaded entry does; the
    explanation given by [check] always agrees with [is_blocked], and the rule it names
    is a suffix of the name from the list the reason speaks of. *)
Theorem blocking_decision (now : Z) (d : bytes) (s : BlocklistStore) :
  blocked (check now d s) = is_blocked now d s ∧
  (is_blocked now d s = true ↔
     enabled s = true ∧ is_paused now s = false ∧
     ¬ covered (normalize d) (config (allowlist s) ∪ user (allowlist s)) ∧
     covered (normalize d) (config (manual s) ∪ user (manual s) ∪ domains s)) ∧
  (∀ m, matched_rule (check now d s) = Some m → dot_suffix m (normalize d) ∧
     if is_blocked now d s then m ∈ config (manual s) ∪ user (manual s) ∪ domains s
     else m ∈ config (allowlist s) ∪ user (allowlist s)).
Proof.
  enough (blocked (check now d s) = is_blocked now d s ∧
    ∀ m, matched_rule (check now d s) = Some m → dot_suffix m (normalize d) ∧
     if is_blocked now d s then m ∈ config (manual s) ∪ user (manual s) ∪ domains s
     else m ∈ config (allowlist s) ∪ user (allowlist s)) as [? ?]
    by (split_and!; [done|apply is_blocked_iff|done]).
  unfold check, is_blocked. destruct (enabled s), (is_paused now s); cbn; try (by split).
  pose proof (find_normalized_in (normalize d) (allowlist s)) as Ia.
  pose proof (find_normalized_in (normalize d) (manual s)) as Im.
  pose proof (find_in_set_found (normalize d) (domains s)) as Id.
  destruct (find_normalized (normalize d) (allowlist s)) as [a|]; cbn.
  { split; [done|]. intros m [= <-]. by apply Ia. }
  destruct (find_normalized (normalize d) (manual s)) as [b|]; cbn.
  { split; [done|]. intros m [= <-]. destruct (Im b eq_refl); set_solver. }
  destruct (find_in_set (normalize d) (domains s)) as [c|]; cbn; [|done].
  split; [done|]. intros m [= <-]. destruct Id as (? & ? & _); set_solver.
Qed.

(** Pausing. While the pause lasts nothing is blocked, afterwards the decisions are
    those of the store that was not paused, and unpausing ends it at once; but a pause
    whose end is beyond the clock's range is a panic (of a writer that holds the lock). *)
Theorem pause_spec (now seconds : Z) (s : BlocklistStore) :
  match pause now seconds s with
  | Ok s' =>
      now + seconds * 1000000000 < instant_limit ∧
      (∀ t d, t < now + seconds * 1000000000 → is_blocked t d s' = false) ∧
      (∀ t d, now + seconds * 1000000000 ≤ t →
         is_blocked t d s' = is_blocked t d (unpause s) ∧
         check t d s' = check t d (unpause s)) ∧
      unpause s' = unpause s
  | Panic => instant_limit ≤ now + seconds * 1000000000
  | _ => False
  end.
Proof.
  unfold pause, instant_add.
  destruct (Z.ltb_spec (now + seconds * 1000000000) instant_limit) as [Hlt|Hge]; cbn [obind];
    [|done].
  split_and!; [done| |intros t d Ht; split|done].
  - intros t d Ht. unfold is_blocked, is_paused. cbn.
    destruct (Z.ltb_spec t (now + seconds * 1000000000)); [|lia]. by destruct (enabled s).
  - unfold is_blocked, is_paused. cbn.
    by destruct (Z.ltb_spec t (now + seconds * 1000000000)); [lia|].
  - unfold check, is_paused. cbn.
    by destruct (Z.ltb_spec t (now + seconds * 1000000000)); [lia|].
Qed.
End lists.

Section names.
Context `{LowercaseLaws}.

Lemma normalize_ascii s : ascii s → normalize s = trim_end_byte 46 (ascii_lower s).
Proof. intros Hs. unfold normalize. by rewrite to_lowercase_ascii. Qed.

Lemma ascii_normalize s : ascii s → ascii (normalize s).
Proof.
  intros Hs. rewrite normalize_ascii by done. unfold ascii, trim_end_byte.
  apply Forall_reverse, drop_while_Forall, Forall_reverse. unfold ascii_lower.
  apply Forall_map. eapply Forall_impl; [exact Hs|]. intros b Hb. cbn in *.
  unfold to_ascii_lowercase. case_if; bool_prop; lia.
Qed.

Lemma normalize_idem s : ascii s → normalize (normalize s) = normalize s.
Proof.
  intros Hs. rewrite (normalize_ascii (normalize s)) by by apply ascii_normalize.
  rewrite (normalize_ascii s) by done. rewrite trim_dot_lower, ascii_lower_idem.
  unfold trim_end_byte. by rewrite reverse_involutive, drop_while_idem.
Qed.

(** The states of a list started from a file and the configuration. *)
Inductive list_reachable (f seeds : list bytes) : PersistedDomainList → Prop :=
  | list_start : list_reachable f seeds (new f seeds)
  | list_insert l d : list_reachable f seeds l → ascii d → list_reachable f seeds (insert d l)
  | list_remove l d : list_reachable f seeds l → ascii d →
      list_reachable f seeds (snd (remove d l)).

Record list_ok (seeds : list bytes) (l : PersistedDomainList) : Prop := {
  lo_config : config l = names_of seeds;
  lo_file : ∃ g, saved l = Some g ∧ user l = names_of g ∖ config l;
  lo_disjoint : config l ## user l;
  lo_normal : set_Forall (λ d, ascii d ∧ normalize d = d) (user l);
}.

Lemma names_of_sorted (S : gset bytes) : set_Forall (λ d, ascii d ∧ normalize d = d) S →
  names_of (sort_strings (elements S)) = S.
Proof.
  intros HS. apply set_eq. intros x. unfold names_of.
  rewrite elem_of_list_to_set. change (map normalize) with (fmap (M := list) normalize).
  rewrite list_elem_of_fmap. split.
  - intros (d & -> & Hd). rewrite sort_strings_perm in Hd. apply elem_of_elements in Hd.
    by destruct (HS d Hd) as [_ ->].
  - intros Hx. exists x. split; [by destruct (HS x Hx)|].
    rewrite sort_strings_perm. by apply elem_of_elements.
Qed.

Lemma save_ok seeds c u g : c = names_of seeds → c ## u →
  set_Forall (λ d, ascii d ∧ normalize d = d) u →
  list_ok seeds (save {| config := c; user := u; saved := Some g |}).
Proof.
  intros Hc Hd Hn. split; cbn; [done| |done|done]. eexists. split; [done|].
  rewrite names_of_sorted by done. set_solver.
Qed.

Lemma list_reachable_ok f seeds l : Forall ascii f → list_reachable f seeds l → list_ok seeds l.
Proof.
  intros Hf Hr. induction Hr as [|l d Hr IH Hd|l d Hr IH Hd].
  - rewrite new_list. split; cbn; [done|by exists f|set_solver|].
    intros d [Hd _]%elem_of_difference. unfold names_of in Hd.
    rewrite elem_of_list_to_set in Hd.
    change (map normalize) with (fmap (M := list) normalize) in Hd.
    apply list_elem_of_fmap in Hd as (e & -> & He).
    rewrite Forall_forall in Hf. split; [by apply ascii_normalize, Hf|by apply normalize_idem, Hf].
  - unfold insert. case_bool_decide as Hc; [done|]. case_bool_decide as Hu; [done|].
    destruct IH as [Hcfg (g & Hg & _) Hdis Hn]. rewrite Hg. apply save_ok; [done|set_solver|].
    apply set_Forall_union; [|done]. apply set_Forall_singleton.
    split; [by apply ascii_normalize|by apply normalize_idem].
  - unfold remove. case_bool_decide as Hu; [|done].
    destruct IH as [Hcfg (g & Hg & _) Hdis Hn]. cbn [snd]. rewrite Hg.
    apply save_ok; [done|set_solver|]. intros x Hx. apply Hn. set_solver.
Qed.

(** * Correctness *)

(** A persisted domain list keeps its two layers disjoint (so that its length is the
    number of distinct entries), never lets a configured entry be removed, and survives
    a restart: loading the file it last saved with the same configuration gives the
    same list. *)
Theorem domain_list_persistence (f seeds : list bytes) (l : PersistedDomainList) :
  Forall ascii f → list_reachable f seeds l →
  (∃ g, saved l = Some g ∧ new g seeds = l) ∧
  config l = names_of seeds ∧
  list_len l = Z.of_nat (size (config l ∪ user l)) ∧
  (∀ d, ascii d → is_config d l = true →
     fst (remove d l) = false ∧ matches d (snd (remove d l)) = true).
Proof.
  intros Hf Hr. destruct (list_reachable_ok f seeds l Hf Hr) as [Hc (g & Hg & Hu) Hd Hn].
  split_and!; [|done| |].
  - exists g. split; [done|]. rewrite new_list. destruct l. cbn in *. by subst.
  - unfold list_len. rewrite size_union by done. lia.
  - intros d Hda Hcd. unfold is_config in Hcd. apply bool_decide_eq_true in Hcd.
    unfold remove. rewrite bool_decide_eq_false_2 by set_solver. split; [done|].
    cbn [snd]. unfold matches.
    destruct (find_normalized (normalize d) l) eqn:Hfn; [done|].
    assert (is_Some (find_normalized (normalize d) l)) as [? ?]; [|congruence].
    apply find_normalized_covered. exists (normalize d). split; [by left|set_solver].
Qed.

End names.

Lemma domain_list_persistence_witness :
  let l := @insert lowercase_ascii (str "Ads.Example.")
             (@new lowercase_ascii [] [str "good.com"]) in
  ∃ g, saved l = Some g ∧ @new lowercase_ascii g [str "good.com"] = l.
Proof.
  assert (Hl : @LowercaseLaws lowercase_ascii) by exact lowercase_ascii_laws.
  destruct (@domain_list_persistence lowercase_ascii Hl [] [str "good.com"]
    (@insert lowercase_ascii (str "Ads.Example.") (@new lowercase_ascii [] [str "good.com"])))
    as [Hg _].
  - constructor.
  - apply list_insert; [apply list_start|].
    apply (bool_decide_unpack _). by vm_compute.
  - exact Hg.
Defined.

(** * Blocklist files *)

Section files.
Context `{Lowercase}.

(** A domain worth listing. *)
Definition valid_entry (d : bytes) : Prop :=
  d ≠ [] ∧ 46 ∈ d ∧ d ≠ str "localhost" ∧ d ≠ str "localhost.localdomain" ∧
  ∃ raw, d = normalize raw.

Lemma contains_elem c s : contains c s = true ↔ c ∈ s.
Proof.
  unfold contains. rewrite existsb_exists. split.
  - intros (x & Hx & ->%Z.eqb_eq). by apply list_elem_of_In.
  - intros Hx. exists c. split; [by apply list_elem_of_In|apply Z.eqb_refl].
Qed.

Lemma insert_if_valid_spec S raw d :
  d ∈ insert_if_valid S raw ↔ d ∈ S ∨ (d = normalize raw ∧ valid_entry d).
Proof.
  unfold insert_if_valid, valid_entry. case_if.
  - bool_prop. rewrite contains_elem in *. rewrite elem_of_union, elem_of_singleton. split.
    + intros [->|Hd]; [right; split; [done|split_and!; eauto]|by left].
    + intros [Hd|[-> _]]; [by right|by left].
  - split; [by left|]. intros [Hd|(-> & H1 & H2 & H3 & H4 & _)]; [done|]. exfalso.
    apply contains_elem in H2. rewrite H2 in Hif.
    rewrite !bool_decide_eq_false_2 in Hif by done. done.
Qed.

Lemma fold_insert_if_valid raws S d :
  d ∈ fold_left insert_if_valid raws S ↔
  d ∈ S ∨ ∃ raw, raw ∈ raws ∧ d = normalize raw ∧ valid_entry d.
Proof.
  revert S. induction raws as [|r raws IH]; intros S; cbn.
  - split; [by left|]. intros [Hd|(raw & Hr & _)]; [done|by apply not_elem_of_nil in Hr].
  - rewrite IH, insert_if_valid_spec. split.
    + intros [[Hd|[-> Hv]]|(raw & Hr & Hd)]; [by left| |].
      * right. exists r. split; [apply list_elem_of_here|done].
      * right. exists raw. split; [by apply list_elem_of_further|done].
    + intros [Hd|(raw & Hr & Hd)]; [by left; left|].
      apply elem_of_cons in Hr as [->|Hr]; [left; by right|right; by exists raw].
Qed.

(** The candidates a line offers: the aliases of a hosts line, the domain of a plain or
    adblock line, nothing for comments and unparsable lines. *)
Definition line_candidates (raw : bytes) : list bytes :=
  let line := trim raw in
  if bool_decide (line = []) || starts_with (str "#") line || starts_with (str "!") line then []
  else if starts_with (str "0.0.0.0") line || starts_with (str "127.0.0.1") line
          || starts_with (str "::") line then drop 1 (split_whitespace (before 35 line))
  else if contains 32 line || contains 9 line then []
  else [trim_end_byte 94 (before 36 (trim_start_str (str "||") (trim_start_str (str "*.") line)))].

Lemma parse_line_candidates S raw :
  parse_line S raw = fold_left insert_if_valid (line_candidates raw) S.
Proof. unfold parse_line, line_candidates. by repeat case_if. Qed.

(** Parsing a blocklist file is line by line and order independent: a domain is listed
    exactly when it is the normal form of a candidate of some line and is a real domain
    (not empty, with a dot, not a localhost name). *)
Theorem parse_blocklist_spec (text d : bytes) :
  d ∈ parse_blocklist text ↔
  ∃ line c, line ∈ lines text ∧ c ∈ line_candidates line ∧ d = normalize c ∧ valid_entry d.
Proof.
  unfold parse_blocklist.
  assert (Hfold : ∀ ls S, d ∈ fold_left parse_line ls S ↔ d ∈ S ∨
    ∃ line c, line ∈ ls ∧ c ∈ line_candidates line ∧ d = normalize c ∧ valid_entry d).
  { induction ls as [|l ls IH]; intros S; cbn.
    - split; [by left|]. intros [Hd|(? & ? & Hl & _)]; [done|by apply not_elem_of_nil in Hl].
    - rewrite IH, parse_line_candidates, fold_insert_if_valid. split.
      + intros [[Hd|(c & Hc & Hd)]|(line & c & Hl & Hd)]; [by left| |]; right.
        * exists l, c. split; [apply list_elem_of_here|done].
        * exists line, c. split; [by apply list_elem_of_further|done].
      + intros [Hd|(line & c & [->|Hl]%elem_of_cons & Hd)]; [by left; left| |].
        * left. right. by exists c.
        * right. by exists line, c. }
  rewrite Hfold. split; [|by right]. intros [Hd|]; [|done]. by apply elem_of_empty in Hd.
Qed.
End files.

Example parse_hosts_line :
  line_candidates (str "0.0.0.0  ads.example  T.example # x") =
    [str "ads.example"; str "T.example"].
Proof. by vm_compute. Qed.
Example parse_adblock_line :
  line_candidates (str "||Ads.example^$third-party") = [str "Ads.example"].
Proof. by vm_compute. Qed.
