(* ===== verification/Svcb.v ===== *)
(** [src/src/svcb.rs]: editing the parameters of SVCB/HTTPS RDATA. The editor is
    characterised on the list of parameters: it applies the edit to each, keeps the
    others byte for byte, and leaves anything unparseable alone. *)
From S2P Require Import Prelude Buffer Net Wire.
Open Scope outcome_scope.

Definition IPV4_HINT_KEY : Z := 4.
Definition IPV6_HINT_KEY : Z := 6.

(** [rdata.get(pos)?]. *)
Definition get_byte (l : bytes) (pos : Z) : outcome Z :=
  match index l pos with Some v => Ok v | None => none end.

Fixpoint skip_target_loop (fuel : nat) (rdata : bytes) (pos : Z) : outcome Z :=
  match fuel with
  | O => OutOfFuel
  | S fuel =>
      let? l := get_byte rdata pos in
      let pos := pos + 1 in
      if l =? 0 then Ok pos
      else if negb (Z.land l 0xC0 =? 0) then none
      else
        let pos := pos + l in
        if len rdata <? pos then none else skip_target_loop fuel rdata pos
  end.
Definition skip_target_name (rdata : bytes) (pos : Z) : outcome Z :=
  skip_target_loop (S (length rdata)) rdata pos.

Definition hint_stride (key : Z) : option nat :=
  if key =? IPV4_HINT_KEY then Some 4%nat
  else if key =? IPV6_HINT_KEY then Some 16%nat
  else None.

(** [copy_from_slice] panics unless the chunk has 16 bytes. *)
Definition hint_addr (chunk : bytes) : outcome IpAddr :=
  match chunk with
  | [a; b; c; d] => Ok (V4 (Ipv4 a b c d))
  | [a0; a1; a2; a3; a4; a5; a6; a7; a8; a9; a10; a11; a12; a13; a14; a15] =>
      Ok (V6 (Ipv6 (from_be16 a0 a1) (from_be16 a2 a3) (from_be16 a4 a5) (from_be16 a6 a7)
                (from_be16 a8 a9) (from_be16 a10 a11) (from_be16 a12 a13) (from_be16 a14 a15)))
  | _ => Panic
  end.

(** [chunks_exact(stride)], for a positive stride. *)
Fixpoint chunks_exact (fuel : nat) (stride : nat) (l : bytes) : list bytes :=
  match fuel with
  | O => []
  | S fuel =>
      if (length l <? stride)%nat then []
      else take stride l :: chunks_exact fuel stride (drop stride l)
  end.

Section filter.
Context (is_private : IpAddr → bool).

Fixpoint filter_chunks (l : list bytes) : outcome bytes :=
  match l with
  | [] => Ok []
  | c :: l =>
      let? ip := hint_addr c in
      let? out := filter_chunks l in
      Ok (if is_private ip then out else c ++ out)
  end.
Definition filter_hint (value : bytes) (stride : nat) : outcome bytes :=
  filter_chunks (chunks_exact (length value) stride value).
End filter.

(** [(key, value, end)]. *)
Definition read_param (rdata : bytes) (pos : Z) : outcome (Z * bytes * Z) :=
  if len rdata <? pos + 4 then none
  else
    let? key := u16_at rdata pos in
    let? vlen := u16_at rdata (pos + 2) in
    let end_ := pos + 4 + vlen in
    if len rdata <? end_ then none
    else match slice rdata (pos + 4) end_ with
         | Some v => Ok (key, v, end_)
         | None => Panic
         end.

Inductive Edit := Keep | Rewrite (v : bytes).

Section edit.
Context (edit : Z → bytes → outcome Edit).

(** The first pass: validate, and note whether anything is rewritten. *)
Fixpoint scan_params (fuel : nat) (rdata : bytes) (pos : Z) (changed : bool) : outcome bool :=
  match fuel with
  | O => OutOfFuel
  | S fuel =>
      if pos <? len rdata then
        let? (key, value, end_) := read_param rdata pos in
        let? e := edit key value in
        scan_params fuel rdata end_ (match e with Keep => changed | Rewrite _ => true end)
      else Ok changed
  end.

Definition edited (rdata : bytes) (pos key end_ : Z) (e : Edit) : outcome bytes :=
  match e with
  | Keep => match slice rdata pos end_ with Some s => Ok s | None => Panic end
  | Rewrite [] => Ok []
  | Rewrite v => Ok (be16 key ++ be16 (as_u16 (len v)) ++ v)
  end.

(** The second pass, returning what it appends to [out]. *)
Fixpoint emit_params (fuel : nat) (rdata : bytes) (pos : Z) : outcome bytes :=
  match fuel with
  | O => OutOfFuel
  | S fuel =>
      if pos <? len rdata then
        let? (key, value, end_) := read_param rdata pos in
        let? e := edit key value in
        let? out := edited rdata pos key end_ e in
        let? rest := emit_params fuel rdata end_ in
        Ok (out ++ rest)
      else Ok []
  end.

Definition edit_svcparams (rdata : bytes) : outcome bytes :=
  if len rdata <? 2 then none
  else
    let? params_start := skip_target_name rdata 2 in
    let? changed := scan_params (S (length rdata)) rdata params_start false in
    if negb changed then none
    else
      match slice rdata 0 params_start with
      | None => Panic
      | Some head =>
          let? out := emit_params (S (length rdata)) rdata params_start in
          Ok (head ++ out)
      end.
End edit.

Definition private_edit (is_private : IpAddr → bool) (key : Z) (value : bytes) : outcome Edit :=
  match hint_stride key with
  | Some stride =>
      if negb (Nat.modulo (length value) stride =? 0)%nat then none
      else
        let? kept := filter_hint is_private value stride in
        Ok (if len kept =? len value then Keep else Rewrite kept)
  | None => Ok Keep
  end.
Definition strip_private_hints (is_private : IpAddr → bool) (rdata : bytes) : outcome bytes :=
  edit_svcparams (private_edit is_private) rdata.

Definition v6hint_edit (key : Z) (value : bytes) : outcome Edit :=
  Ok (if key =? IPV6_HINT_KEY then Rewrite [] else Keep).
Definition strip_ipv6hint (rdata : bytes) : outcome bytes := edit_svcparams v6hint_edit rdata.

(** * The parameters of a blob *)

Definition param_wire (p : Z * bytes) : bytes := be16 (fst p) ++ be16 (len (snd p)) ++ snd p.
Definition params_wire (ps : list (Z * bytes)) : bytes := flat_map param_wire ps.
Definition param_ok (p : Z * bytes) : Prop := is_u16 (fst p) ∧ is_u16 (len (snd p)).

(** What an edit does to a parameter. *)
Definition apply_edit (p : Z * bytes) (e : Edit) : list (Z * bytes) :=
  match e with
  | Keep => [p]
  | Rewrite [] => []
  | Rewrite v => [(fst p, v)]
  end.

Lemma seg_slice w pos v : seg w pos v → slice w pos (pos + len v) = Some v.
Proof.
  intros Hs. pose proof (seg_room _ _ _ Hs) as [? ?]. pose proof (len_nonneg v).
  destruct Hs as (a & c & -> & <-).
  rewrite slice_Some by lia. f_equal.
  replace (len a + len v - len a) with (len v) by lia.
  rewrite !to_nat_len, drop_app_length. by rewrite take_app_length.
Qed.

Lemma read_param_seg w pos p : param_ok p → seg w pos (param_wire p) →
  read_param w pos = Ok (fst p, snd p, pos + len (param_wire p)).
Proof.
  intros [Hk Hv] Hs. pose proof (seg_room _ _ _ Hs) as [? Hroom].
  unfold param_wire in *. apply seg_app in Hs as [H1 Hs]. apply seg_app in Hs as [H2 H3].
  rewrite !len_app in *. change (len (be16 _)) with 2 in *. unfold read_param.
  pose proof (len_nonneg (snd p)).
  destruct (Z.ltb_spec (len w) (pos + 4)); [lia|].
  rewrite (seg_u16 _ _ _ Hk H1), (seg_u16 _ _ _ Hv H2). cbn [obind].
  destruct (Z.ltb_spec (len w) (pos + 4 + len (snd p))); [lia|].
  replace (pos + 2 + 2) with (pos + 4) in H3 by lia.
  rewrite (seg_slice _ _ _ H3). do 2 f_equal. lia.
Qed.

Lemma be16_from_be16 x y : is_byte x → is_byte y → be16 (from_be16 x y) = [x; y].
Proof.
  unfold is_byte. intros. unfold be16, from_be16. rewrite lor_shiftl_add, land_255 by lia.
  rewrite Z.shiftr_div_pow2 by lia. change (2 ^ 8) with 256. unfold as_u8.
  f_equal; [|f_equal]; div_lia.
Qed.

(** A blob that can be read is framed by its parameters. *)
Lemma read_param_inv w pos k v e : all_bytes w → 0 ≤ pos → read_param w pos = Ok (k, v, e) →
  param_ok (k, v) ∧ seg w pos (param_wire (k, v)) ∧ e = pos + len (param_wire (k, v)).
Proof.
  intros Hb Hp Hr. unfold read_param in Hr. destruct (Z.ltb_spec (len w) (pos + 4)); [done|].
  destruct (split_at4 w pos) as (a & x0 & x1 & x2 & x3 & c & -> & <-); [by split|].
  pose proof Hb as Hbs. rewrite Forall_app, !Forall_cons in Hbs.
  destruct Hbs as (_ & H0 & H1 & H2 & H3 & Hc).
  assert (Hk : u16_at (a ++ x0 :: x1 :: x2 :: x3 :: c) (len a) = Ok (from_be16 x0 x1)).
  { pose proof (u16_at_app a (from_be16 x0 x1) (x2 :: x3 :: c) (len a)
      (is_u16_from_be16 _ _ H0 H1) eq_refl) as Hu. by rewrite be16_from_be16 in Hu. }
  assert (Hl : u16_at (a ++ x0 :: x1 :: x2 :: x3 :: c) (len a + 2) = Ok (from_be16 x2 x3)).
  { change (a ++ x0 :: x1 :: x2 :: x3 :: c) with (a ++ [x0; x1] ++ [x2; x3] ++ c).
    rewrite app_assoc. pose proof (u16_at_app (a ++ [x0; x1]) (from_be16 x2 x3) c (len a + 2)
      (is_u16_from_be16 _ _ H2 H3) ltac:(len_lia)) as Hu. by rewrite be16_from_be16 in Hu. }
  rewrite Hk, Hl in Hr. cbn [obind] in Hr.
  pose proof (is_u16_from_be16 _ _ H0 H1). pose proof (is_u16_from_be16 _ _ H2 H3) as Hu.
  set (l := from_be16 x2 x3) in *. unfold is_u16 in Hu.
  rewrite len_app, !len_cons in *. pose proof (len_nonneg a).
  destruct (Z.ltb_spec (len a + (1 + (1 + (1 + (1 + len c))))) (len a + 4 + l)); [done|].
  assert (Hlen : len (take (Z.to_nat l) c) = l) by (apply len_take; lia).
  assert (Hs : seg (a ++ x0 :: x1 :: x2 :: x3 :: c) (len a) (param_wire (from_be16 x0 x1, take (Z.to_nat l) c))).
  { exists a, (drop (Z.to_nat l) c). split; [|done]. unfold param_wire. cbn [fst snd].
    rewrite Hlen, be16_from_be16 by done. unfold l at 1. rewrite be16_from_be16 by done.
    rewrite <- !app_assoc. cbn [app]. by rewrite take_drop. }
  pose proof Hs as Hs'. unfold param_wire in Hs'. apply seg_app in Hs' as [_ Hs'].
  apply seg_app in Hs' as [_ Hs']. cbn [fst snd] in Hs'. rewrite Hlen in Hs'.
  change (len (be16 _)) with 2 in Hs'. replace (len a + 2 + 2) with (len a + 4) in Hs' by lia.
  apply seg_slice in Hs'. rewrite Hlen in Hs'. rewrite Hs' in Hr. injection Hr as <- <- <-.
  split; [split; cbn; [done|rewrite Hlen; done]|]. split; [done|].
  unfold param_wire. rewrite !len_app. cbn [fst snd]. rewrite Hlen.
  change (len (be16 _)) with 2. lia.
Qed.

Lemma be16_as_u16 v : be16 (as_u16 v) = be16 v.
Proof.
  unfold be16, as_u8, as_u16. rewrite !land_255, !Z.shiftr_div_pow2 by lia.
  f_equal; [|f_equal]; div_lia.
Qed.

Lemma be16_is_bytes v : all_bytes (be16 v).
Proof. constructor; [apply as_u8_byte|]. by constructor; [apply land_255_byte|]. Qed.
Lemma params_wire_cons p ps : params_wire (p :: ps) = param_wire p ++ params_wire ps.
Proof. done. Qed.
Lemma params_wire_app ps qs : params_wire (ps ++ qs) = params_wire ps ++ params_wire qs.
Proof. unfold params_wire. by rewrite flat_map_app. Qed.
Lemma len_param_wire p : len (param_wire p) = 4 + len (snd p).
Proof. unfold param_wire. rewrite !len_app. change (len (be16 _)) with 2. lia. Qed.

Definition is_rewrite (e : Edit) : bool := match e with Keep => false | Rewrite _ => true end.

Section edit_spec.
Context (edit : Z → bytes → outcome Edit).

(** The edits of all parameters, stopping at the first one that is rejected. *)
Fixpoint edits (ps : list (Z * bytes)) : outcome (list Edit) :=
  match ps with
  | [] => Ok []
  | p :: ps =>
      let? e := edit (fst p) (snd p) in
      let? es := edits ps in
      Ok (e :: es)
  end.

Lemma scan_params_seg ps : ∀ fuel w pos ch, seg w pos (params_wire ps) →
  pos + len (params_wire ps) = len w → Forall param_ok ps → (length ps < fuel)%nat →
  scan_params edit fuel w pos ch = (let? es := edits ps in Ok (ch || existsb is_rewrite es)).
Proof.
  induction ps as [|p ps IH]; intros fuel w pos ch Hs Hl Hok Hf;
    (destruct fuel as [|fuel]; [cbn in Hf; lia|]); cbn [scan_params edits].
  - cbn [params_wire flat_map] in Hl. rewrite len_nil in Hl.
    destruct (Z.ltb_spec pos (len w)); [lia|]. cbn. by rewrite orb_false_r.
  - apply Forall_cons in Hok as [Hp Hok]. rewrite params_wire_cons in *.
    apply seg_app in Hs as [H1 H2]. rewrite len_app in Hl.
    pose proof (len_nonneg (params_wire ps)). pose proof (len_param_wire p).
    pose proof (len_nonneg (snd p)). destruct (Z.ltb_spec pos (len w)); [|lia].
    rewrite (read_param_seg _ _ _ Hp H1). cbn [obind].
    destruct (edit (fst p) (snd p)) as [e| | |]; cbn [obind]; try done.
    rewrite IH; [|done|lia|done|cbn in Hf; lia].
    destruct (edits ps); cbn [obind]; try done. f_equal. cbn [existsb].
    destruct e; cbn; [done|]. by rewrite orb_true_r.
Qed.

Lemma edited_apply w pos p e : seg w pos (param_wire p) →
  edited w pos (fst p) (pos + len (param_wire p)) e = Ok (params_wire (apply_edit p e)).
Proof.
  intros Hs. destruct e as [|[|b v]]; cbn [edited apply_edit].
  - rewrite (seg_slice _ _ _ Hs). unfold params_wire. cbn [flat_map]. by rewrite app_nil_r.
  - done.
  - unfold params_wire. cbn [flat_map]. rewrite app_nil_r, be16_as_u16. done.
Qed.

Lemma emit_params_seg ps : ∀ fuel w pos es, seg w pos (params_wire ps) →
  pos + len (params_wire ps) = len w → Forall param_ok ps → (length ps < fuel)%nat →
  edits ps = Ok es →
  emit_params edit fuel w pos = Ok (params_wire (concat (zip_with apply_edit ps es))).
Proof.
  induction ps as [|p ps IH]; intros fuel w pos es Hs Hl Hok Hf He;
    (destruct fuel as [|fuel]; [cbn in Hf; lia|]); cbn [emit_params].
  - cbn [params_wire flat_map] in Hl. rewrite len_nil in Hl.
    destruct (Z.ltb_spec pos (len w)); [lia|]. done.
  - apply Forall_cons in Hok as [Hp Hok]. rewrite params_wire_cons in *.
    apply seg_app in Hs as [H1 H2]. rewrite len_app in Hl.
    pose proof (len_nonneg (params_wire ps)). pose proof (len_param_wire p).
    pose proof (len_nonneg (snd p)). destruct (Z.ltb_spec pos (len w)); [|lia].
    cbn [edits] in He. rewrite (read_param_seg _ _ _ Hp H1). cbn [obind].
    destruct (edit (fst p) (snd p)) as [e| | |]; cbn [obind] in *; try done.
    destruct (edits ps) as [es'| | |] eqn:Hes; cbn [obind] in *; try done.
    apply (inj Ok) in He as <-. rewrite edited_apply by done. cbn [obind].
    rewrite (IH fuel w _ es'); [|done|lia|done|cbn in Hf; lia|done]. cbn [obind].
    cbn [zip_with concat]. by rewrite params_wire_app.
Qed.

(** A successful scan frames the whole rest of the blob. *)
Lemma scan_params_frames fuel : ∀ w pos ch b, all_bytes w → 0 ≤ pos ≤ len w →
  scan_params edit fuel w pos ch = Ok b →
  ∃ ps, seg w pos (params_wire ps) ∧ pos + len (params_wire ps) = len w ∧ Forall param_ok ps.
Proof.
  induction fuel as [|fuel IH]; intros w pos ch b Hb Hp H; [done|]. cbn [scan_params] in H.
  destruct (Z.ltb_spec pos (len w)).
  - destruct (read_param w pos) as [[[k v] e]| | |] eqn:Hr; cbn [obind] in H; try done.
    destruct (read_param_inv _ _ _ _ _ Hb (proj1 Hp) Hr) as (Hok & Hs & ->).
    destruct (edit k v) as [ed| | |]; cbn [obind] in H; try done.
    pose proof (seg_room _ _ _ Hs). pose proof (len_nonneg (param_wire (k, v))).
    apply IH in H as (ps & Hps & Hl & Hall); [|done|lia].
    exists ((k, v) :: ps). rewrite params_wire_cons, len_app.
    split; [|split; [lia|by constructor]].
    by apply seg_join.
  - exists []. split_and!; [|cbn [params_wire flat_map]; rewrite len_nil; lia|constructor].
    exists w, []. split; [by rewrite !app_nil_r|lia].
Qed.

Lemma read_param_yields w pos : all_bytes w → 0 ≤ pos →
  yields (read_param w pos) (λ x, pos < snd x ≤ len w ∧ all_bytes (snd (fst x))).
Proof.
  intros Hb Hp. destruct (read_param w pos) as [[[k v] e]|err| |] eqn:Hr; cbn.
  - destruct (read_param_inv _ _ _ _ _ Hb Hp Hr) as (_ & Hs & ->).
    pose proof (seg_room _ _ _ Hs). rewrite len_param_wire in *. cbn [snd] in *.
    pose proof (len_nonneg v). split; [lia|]. unfold param_wire in Hs.
    apply seg_app in Hs as [_ Hs]. apply seg_app in Hs as [_ (a & c & -> & _)].
    rewrite !Forall_app in Hb. by destruct Hb as (_ & ? & _).
  - done.
  - unfold read_param in Hr. destruct (Z.ltb_spec (len w) (pos + 4)); [done|].
    destruct (u16_at_range w pos Hb) as (k & Hk & _); [lia..|].
    destruct (u16_at_range w (pos + 2) Hb) as (l & Hl & Hlu); [lia..|].
    rewrite Hk, Hl in Hr. cbn [obind] in Hr. unfold is_u16 in Hlu.
    destruct (Z.ltb_spec (len w) (pos + 4 + l)); [done|].
    rewrite slice_Some in Hr by lia. done.
  - unfold read_param in Hr. destruct (Z.ltb_spec (len w) (pos + 4)); [done|].
    destruct (u16_at_range w pos Hb) as (k & Hk & _); [lia..|].
    destruct (u16_at_range w (pos + 2) Hb) as (l & Hl & Hlu); [lia..|].
    rewrite Hk, Hl in Hr. cbn [obind] in Hr.
    destruct (Z.ltb_spec (len w) (pos + 4 + l)); [done|].
    by destruct (slice w (pos + 4) (pos + 4 + l)).
Qed.

Lemma scan_params_yields fuel : ∀ w pos ch, all_bytes w → 0 ≤ pos →
  (∀ k v, all_bytes v → yields (edit k v) (λ _, True)) →
  len w - pos < Z.of_nat fuel → (0 < fuel)%nat →
  yields (scan_params edit fuel w pos ch) (λ _, True).
Proof.
  induction fuel as [|fuel IH]; intros w pos ch Hb Hp He Hf H0; [lia|]. cbn [scan_params].
  destruct (Z.ltb_spec pos (len w)); [|done].
  eapply yields_bind; [by apply read_param_yields|]. intros [[k v] e] [? Hv]. cbn in *.
  eapply yields_bind; [by apply He|]. intros ed _. apply IH; [done|lia|done|lia|lia].
Qed.
End edit_spec.

(** * The target name *)

Lemma skip_target_yields fuel : ∀ w pos, all_bytes w → 0 ≤ pos →
  len w - pos < Z.of_nat fuel → (0 < fuel)%nat →
  yields (skip_target_loop fuel w pos) (λ p, pos < p ≤ len w).
Proof.
  induction fuel as [|fuel IH]; intros w pos Hb Hp Hf H0; [lia|]. cbn [skip_target_loop].
  unfold get_byte. destruct (index w pos) as [l|] eqn:Hi; [|done]. cbn [obind].
  pose proof (index_nonneg _ _ _ Hi). pose proof Hi as Hi'.
  rewrite index_lookup in Hi' by lia.
  assert (is_byte l) by (by eapply (Forall_lookup_1 is_byte)). unfold is_byte in *.
  destruct (Z.eqb_spec l 0); [cbn; lia|]. destruct (negb _); [done|].
  destruct (Z.ltb_spec (len w) (pos + 1 + l)); [done|].
  eapply yields_mono; [apply IH; [done|lia|lia|lia]|]. intros p ?. cbv beta in *. lia.
Qed.

Lemma skip_target_mono fuel : ∀ w pos p, all_bytes w → 0 ≤ pos →
  skip_target_loop fuel w pos = Ok p → pos < p ≤ len w.
Proof.
  induction fuel as [|fuel IH]; intros w pos p Hb Hp Hs; [done|]. cbn [skip_target_loop] in Hs.
  unfold get_byte in Hs. destruct (index w pos) as [l|] eqn:Hi; [|done]. cbn [obind] in Hs.
  pose proof (index_nonneg _ _ _ Hi). pose proof Hi as Hi'.
  rewrite index_lookup in Hi' by lia.
  assert (is_byte l) by (by eapply (Forall_lookup_1 is_byte)). unfold is_byte in *.
  destruct (Z.eqb_spec l 0); [simplify_eq; lia|]. destruct (negb _); [done|].
  destruct (Z.ltb_spec (len w) (pos + 1 + l)); [done|].
  apply IH in Hs; [lia|done|lia].
Qed.

Lemma index_app_l (a c : bytes) i : i < len a → index (a ++ c) i = index a i.
Proof.
  intros Hi. unfold index. destruct (Z.ltb_spec i 0); [done|].
  apply lookup_app_l. unfold len in Hi. lia.
Qed.

(** Skipping looks only at the bytes it skips. *)
Lemma skip_target_prefix fuel : ∀ fuel' head x y pos p,
  all_bytes (head ++ x) → 0 ≤ pos → len head = p →
  skip_target_loop fuel (head ++ x) pos = Ok p → p - pos < Z.of_nat fuel' → 
  skip_target_loop fuel' (head ++ y) pos = Ok p.
Proof.
  induction fuel as [|fuel IH]; intros fuel' head x y pos p Hb Hp Hl Hs Hf; [done|].
  pose proof (skip_target_mono _ _ _ _ Hb Hp Hs).
  destruct fuel' as [|fuel']; [lia|]. cbn [skip_target_loop] in *. unfold get_byte in *.
  rewrite (index_app_l head x) in Hs by lia. rewrite (index_app_l head y) by lia.
  destruct (index head pos) as [l|] eqn:Hi; [|done]. cbn [obind] in *.
  assert (is_byte l).
  { pose proof (index_nonneg _ _ _ Hi). rewrite index_lookup in Hi by lia.
    apply Forall_app in Hb as [Hb _]. by eapply (Forall_lookup_1 is_byte). }
  unfold is_byte in *. destruct (Z.eqb_spec l 0); [done|]. destruct (negb _); [done|].
  destruct (Z.ltb_spec (len (head ++ x)) (pos + 1 + l)); [done|].
  assert (pos + 1 + l < p ≤ len (head ++ x))
    by (eapply skip_target_mono; [exact Hb|lia|exact Hs]).
  destruct (Z.ltb_spec (len (head ++ y)) (pos + 1 + l)); [len_lia|].
  eapply (IH fuel' head x y); [done|lia|done|done|lia].
Qed.

(** * Hints *)

(** A chunk of a hint that is not private. *)
Definition public_chunk (is_private : IpAddr → bool) (c : bytes) : bool :=
  match hint_addr c with Ok ip => negb (is_private ip) | _ => false end.

Definition hint_chunks (stride : nat) (v : bytes) : list bytes :=
  chunks_exact (length v) stride v.

(** A hint without its private addresses; other parameters are kept. *)
Definition scrub_value (is_private : IpAddr → bool) (key : Z) (v : bytes) : bytes :=
  match hint_stride key with
  | None => v
  | Some stride => concat (filter (λ c, public_chunk is_private c = true) (hint_chunks stride v))
  end.
Definition scrub_param (is_private : IpAddr → bool) (p : Z * bytes) : list (Z * bytes) :=
  let v := scrub_value is_private (fst p) (snd p) in
  if bool_decide (v = snd p) then [p] else if bool_decide (v = []) then [] else [(fst p, v)].
Definition scrub (is_private : IpAddr → bool) (ps : list (Z * bytes)) : list (Z * bytes) :=
  flat_map (scrub_param is_private) ps.

(** Hint values are whole numbers of addresses. *)
Definition sized (p : Z * bytes) : Prop :=
  match hint_stride (fst p) with
  | Some stride => Nat.modulo (length (snd p)) stride = 0%nat
  | None => True
  end.

#[export] Instance sized_dec p : Decision (sized p).
Proof. unfold sized. destruct (hint_stride (fst p)); apply _. Defined.

(** No hint holds a private address. *)
Definition hints_public (is_private : IpAddr → bool) (p : Z * bytes) : Prop :=
  match hint_stride (fst p) with
  | Some stride => Forall (λ c, public_chunk is_private c = true) (hint_chunks stride (snd p))
  | None => True
  end.

(** A well-framed blob: priority and target name, then parameters. *)
Definition blob (w head : bytes) (ps : list (Z * bytes)) : Prop :=
  w = head ++ params_wire ps ∧ 2 ≤ len w ∧ skip_target_name w 2 = Ok (len head) ∧
  Forall param_ok ps.

(** No hint of the blob, when it is one, holds a private address. *)
Definition private_free (is_private : IpAddr → bool) (w : bytes) : Prop :=
  ∀ head ps, blob w head ps → Forall sized ps → Forall (hints_public is_private) ps.

(** ** Chunks *)

Lemma chunks_exact_spec stride : (0 < stride)%nat → ∀ fuel v, (length v ≤ fuel)%nat →
  Nat.modulo (length v) stride = 0%nat →
  concat (chunks_exact fuel stride v) = v ∧
  Forall (λ c, length c = stride) (chunks_exact fuel stride v).
Proof.
  intros Hs. induction fuel as [|fuel IH]; intros v Hf Hm.
  - destruct v; [done|cbn in Hf; lia].
  - cbn [chunks_exact]. destruct (Nat.ltb_spec (length v) stride) as [Hlt|Hge].
    + rewrite Nat.mod_small in Hm by done. apply nil_length_inv in Hm as ->. done.
    + destruct (IH (drop stride v)) as [Hc Hall].
      * rewrite length_drop. lia.
      * rewrite length_drop. replace (length v) with (length v - stride + 1 * stride)%nat in Hm by lia.
        by rewrite Nat.Div0.mod_add in Hm.
      * cbn [concat]. rewrite Hc, take_drop. split; [done|]. constructor; [|done].
        rewrite length_take. lia.
Qed.

Lemma chunks_of_concat stride l : (0 < stride)%nat → Forall (λ c, length c = stride) l →
  ∀ fuel, (length (concat l) ≤ fuel)%nat → chunks_exact fuel stride (concat l) = l.
Proof.
  intros Hs Hl. induction Hl as [|c l Hc Hl IH]; intros fuel Hf.
  - destruct fuel; [done|]. cbn [concat chunks_exact length].
    destruct (Nat.ltb_spec 0 stride); [done|lia].
  - cbn [concat] in *. rewrite length_app in Hf. destruct fuel as [|fuel]; [lia|].
    cbn [chunks_exact]. rewrite length_app.
    destruct (Nat.ltb_spec (length c + length (concat l)) stride); [lia|].
    rewrite take_app_length', drop_app_length' by done. by rewrite IH by lia.
Qed.

Lemma concat_lengths stride (l : list bytes) : Forall (λ c, length c = stride) l →
  length (concat l) = (length l * stride)%nat.
Proof. induction 1; cbn; [done|]. rewrite length_app. lia. Qed.

Lemma filter_Forall {A} (P Q : A → Prop) `{∀ x, Decision (P x)} l :
  Forall Q l → Forall Q (filter P l).
Proof.
  induction 1 as [|x l Hx Hl IH]; [constructor|]. rewrite filter_cons.
  case_decide; [by constructor|done].
Qed.

Lemma filter_length_eq {A} (P : A → Prop) `{∀ x, Decision (P x)} l :
  length (filter P l) = length l → filter P l = l.
Proof.
  induction l as [|x l IH]; [done|]. rewrite filter_cons. case_decide; cbn; intros Hl.
  - f_equal. apply IH. lia.
  - pose proof (length_filter P l). lia.
Qed.

Lemma hint_stride_pos key stride : hint_stride key = Some stride →
  stride = 4%nat ∨ stride = 16%nat.
Proof. unfold hint_stride. repeat case_if; intros; simplify_eq; auto. Qed.

Lemma hint_addr_ok c stride : stride = 4%nat ∨ stride = 16%nat → length c = stride →
  ∃ ip, hint_addr c = Ok ip.
Proof.
  intros Hs Hc. destruct Hs as [->| ->].
  - do 4 (destruct c as [|? c]; [done|]). destruct c; [|done]. by eexists.
  - do 16 (destruct c as [|? c]; [done|]). destruct c; [|done]. by eexists.
Qed.

Lemma filter_chunks_ok is_private stride l : stride = 4%nat ∨ stride = 16%nat →
  Forall (λ c, length c = stride) l →
  filter_chunks is_private l = Ok (concat (filter (λ c, public_chunk is_private c = true) l)).
Proof.
  intros Hs Hl. induction Hl as [|c l Hc Hl IH]; [done|]. cbn [filter_chunks].
  destruct (hint_addr_ok c stride Hs Hc) as [ip Hip]. rewrite Hip, IH. cbn [obind].
  assert (Hp : public_chunk is_private c = negb (is_private ip))
    by (unfold public_chunk; by rewrite Hip).
  rewrite filter_cons. destruct (is_private ip); cbn [negb] in Hp.
  - rewrite decide_False by congruence. done.
  - rewrite decide_True by done. done.
Qed.

Lemma private_edit_sized is_private k v : sized (k, v) →
  private_edit is_private k v =
    Ok (let v' := scrub_value is_private k v in if len v' =? len v then Keep else Rewrite v').
Proof.
  unfold private_edit, sized, scrub_value. cbn [fst snd].
  destruct (hint_stride k) as [stride|] eqn:Hk; [|by rewrite Z.eqb_refl]. intros Hm.
  destruct (Nat.eqb_spec (Nat.modulo (length v) stride) 0); [|done]. cbn [negb].
  unfold filter_hint. pose proof (hint_stride_pos _ _ Hk) as Hs.
  destruct (chunks_exact_spec stride ltac:(lia) (length v) v ltac:(lia) Hm) as [_ Hall].
  rewrite (filter_chunks_ok is_private stride _ Hs Hall). done.
Qed.

Lemma private_edit_unsized is_private k v : ¬ sized (k, v) → private_edit is_private k v = none.
Proof.
  unfold private_edit, sized. cbn [fst snd]. destruct (hint_stride k) as [stride|]; [|done].
  intros Hm. by destruct (Nat.eqb_spec (Nat.modulo (length v) stride) 0).
Qed.

(** Filtering keeps everything or gets shorter. *)
Lemma scrub_value_len is_private k v : sized (k, v) →
  len (scrub_value is_private k v) ≤ len v ∧
  (len (scrub_value is_private k v) = len v → scrub_value is_private k v = v).
Proof.
  unfold sized, scrub_value. cbn [fst snd]. destruct (hint_stride k) as [stride|] eqn:Hk;
    [|by split; [lia|]].
  intros Hm. pose proof (hint_stride_pos _ _ Hk) as Hs.
  destruct (chunks_exact_spec stride ltac:(lia) (length v) v ltac:(lia) Hm) as [Hc Hall].
  unfold hint_chunks. set (l := chunks_exact (length v) stride v) in *.
  rewrite <- Hc at 1 2 3. unfold len. rewrite (concat_lengths stride l) by done.
  rewrite (concat_lengths stride) by (by apply filter_Forall).
  pose proof (length_filter (λ c, public_chunk is_private c = true) l).
  split; [nia|]. intros Hl. f_equal. apply filter_length_eq. nia.
Qed.

(** The edits that [private_edit] makes amount to [scrub]. *)
Lemma scrub_edit is_private p : sized p →
  ∃ e, private_edit is_private (fst p) (snd p) = Ok e ∧
    apply_edit p e = scrub_param is_private p ∧
    (is_rewrite e = false ↔ scrub_param is_private p = [p]).
Proof.
  destruct p as [k v]. intros Hs. cbn [fst snd]. rewrite private_edit_sized by done. cbn zeta.
  destruct (scrub_value_len is_private k v Hs) as [Hle Heq]. cbn [fst snd].
  unfold scrub_param. cbn [fst snd]. set (v' := scrub_value is_private k v) in *.
  eexists. split; [done|]. destruct (Z.eqb_spec (len v') (len v)) as [Hl|Hl].
  - rewrite bool_decide_eq_true_2 by auto. done.
  - rewrite bool_decide_eq_false_2 by (intros Hv; by rewrite Hv in Hl).
    destruct v' as [|b v']; cbn; [by split|]. split; [done|]. split; [done|].
    intros [= Hv]. destruct Hl. by rewrite Hv.
Qed.

Lemma scrub_edits is_private ps : Forall sized ps →
  ∃ es, edits (private_edit is_private) ps = Ok es ∧
    concat (zip_with apply_edit ps es) = scrub is_private ps ∧
    (existsb is_rewrite es = false ↔ scrub is_private ps = ps).
Proof.
  induction 1 as [|p ps Hp Hps (es & Hes & Hcat & Hex)]; [by exists []|].
  destruct (scrub_edit is_private p Hp) as (e & He & Hap & Hre).
  exists (e :: es). cbn [edits]. rewrite He, Hes. cbn [obind].
  split; [done|]. cbn [zip_with concat scrub flat_map existsb]. rewrite Hap, Hcat.
  fold (scrub is_private ps). split; [done|]. rewrite orb_false_iff, Hre, Hex. split.
  - intros [-> ->]. done.
  - intros Heq.
    assert (Hl : ∀ q, (length (scrub_param is_private q) ≤ 1)%nat)
      by (intros q; unfold scrub_param; repeat case_bool_decide; cbn; lia).
    assert (Hls : ∀ qs, (length (scrub is_private qs) ≤ length qs)%nat).
    { induction qs as [|q qs IH]; cbn; [lia|]. rewrite length_app. specialize (Hl q).
      unfold scrub in IH. lia. }
    pose proof (f_equal length Heq) as Hlen. rewrite length_app in Hlen. cbn in Hlen.
    specialize (Hl p). specialize (Hls ps).
    destruct (scrub_param is_private p) as [|p' [|p'' r]] eqn:Hsp; cbn in *; try lia.
    by injection Heq as -> ->.
Qed.

Lemma edits_unsized is_private ps es :
  edits (private_edit is_private) ps = Ok es → Forall sized ps.
Proof.
  revert es. induction ps as [|[k v] ps IH]; intros es H; [constructor|]. cbn [edits fst snd] in H.
  destruct (decide (sized (k, v))) as [Hs|Hs]; [|by rewrite private_edit_unsized in H].
  rewrite private_edit_sized in H by done. cbn [obind] in H.
  destruct (edits _ ps) as [es'| | |] eqn:He; try done. constructor; [done|]. by eapply IH.
Qed.

(** Scrubbing once is enough, and leaves no private address. *)
Lemma scrub_value_idem is_private k v : sized (k, v) →
  scrub_value is_private k (scrub_value is_private k v) = scrub_value is_private k v ∧
  sized (k, scrub_value is_private k v) ∧
  hints_public is_private (k, scrub_value is_private k v).
Proof.
  unfold sized, hints_public, scrub_value. cbn [fst snd].
  destruct (hint_stride k) as [stride|] eqn:Hk; [|done]. intros Hm.
  pose proof (hint_stride_pos _ _ Hk) as Hs.
  destruct (chunks_exact_spec stride ltac:(lia) (length v) v ltac:(lia) Hm) as [_ Hall].
  unfold hint_chunks. set (l := chunks_exact (length v) stride v) in *.
  set (l' := filter (λ c, public_chunk is_private c = true) l).
  assert (Hfl : Forall (λ c, length c = stride) l') by (by apply filter_Forall).
  rewrite (chunks_of_concat stride l') by (done || lia).
  assert (Hpub : Forall (λ c, public_chunk is_private c = true) l').
  { unfold l'. clear. induction l as [|c l IH]; [constructor|]. rewrite filter_cons.
    case_decide; [by constructor|done]. }
  split_and!; [|rewrite (concat_lengths stride) by done; apply Nat.Div0.mod_mul|done].
  f_equal. clear -Hpub. induction Hpub as [|c l' Hc Hp IH]; [done|].
  rewrite filter_cons, decide_True by done. by rewrite IH.
Qed.

Lemma scrub_app is_private ps qs :
  scrub is_private (ps ++ qs) = scrub is_private ps ++ scrub is_private qs.
Proof. unfold scrub. by rewrite flat_map_app. Qed.

Lemma scrub_param_props is_private p : sized p → param_ok p →
  scrub is_private (scrub_param is_private p) = scrub_param is_private p ∧
  Forall sized (scrub_param is_private p) ∧ Forall param_ok (scrub_param is_private p) ∧
  Forall (hints_public is_private) (scrub_param is_private p).
Proof.
  destruct p as [k v]. intros Hs [Hk Hv].
  destruct (scrub_value_idem is_private k v Hs) as (Hi & Hsz & Hpub).
  destruct (scrub_value_len is_private k v Hs) as [Hle _].
  set (v' := scrub_value is_private k v) in *.
  assert (Hone : scrub_param is_private (k, v') = [(k, v')])
    by (unfold scrub_param; cbn [fst snd]; by rewrite Hi, bool_decide_eq_true_2).
  assert (Hok' : param_ok (k, v')).
  { split; [done|]. unfold is_u16 in *. cbn [fst snd] in *. pose proof (len_nonneg v'). lia. }
  assert (scrub_param is_private (k, v) = [(k, v')] ∨ scrub_param is_private (k, v) = [])
    as [-> | ->].
  { unfold scrub_param. cbn [fst snd]. fold v'. case_bool_decide as Heq; [by rewrite Heq; left|].
    case_bool_decide; auto. }
  - cbn [scrub flat_map]. rewrite Hone. cbn [app].
    split_and!; [done|by apply Forall_singleton..].
  - done.
Qed.

Lemma scrub_props is_private ps : Forall sized ps → Forall param_ok ps →
  scrub is_private (scrub is_private ps) = scrub is_private ps ∧
  Forall sized (scrub is_private ps) ∧ Forall param_ok (scrub is_private ps) ∧
  Forall (hints_public is_private) (scrub is_private ps).
Proof.
  intros Hs. induction Hs as [|p ps Hp Hps IH]; intros Hok; [done|].
  apply Forall_cons in Hok as [Hpo Hok]. destruct (IH Hok) as (H1 & H2 & H3 & H4).
  destruct (scrub_param_props is_private p Hp Hpo) as (J1 & J2 & J3 & J4).
  change (scrub is_private (p :: ps)) with (scrub_param is_private p ++ scrub is_private ps).
  rewrite scrub_app, J1, H1, !Forall_app. done.
Qed.

(** * The editors *)

Lemma get_byte_err w pos e : get_byte w pos = Err e → e = NoneValue.
Proof. unfold get_byte. destruct (index w pos); [done|]. by intros [= <-]. Qed.

Lemma skip_err fuel : ∀ w pos e, skip_target_loop fuel w pos = Err e → e = NoneValue.
Proof.
  induction fuel as [|fuel IH]; intros w pos e H; [done|]. cbn [skip_target_loop] in H.
  destruct (get_byte w pos) as [l|e'| |] eqn:Hg; cbn [obind] in H; try done.
  - destruct (l =? 0); [done|]. destruct (negb _); [by injection H as <-|].
    destruct (_ <? _); [by injection H as <-|]. by eapply IH.
  - apply get_byte_err in Hg as ->. by injection H as <-.
Qed.

Lemma read_param_err w pos e : all_bytes w → 0 ≤ pos → read_param w pos = Err e → e = NoneValue.
Proof.
  intros Hb Hp H. unfold read_param in H.
  destruct (Z.ltb_spec (len w) (pos + 4)); [by injection H as <-|].
  destruct (u16_at_range w pos Hb) as (k & Hk & _); [lia..|].
  destruct (u16_at_range w (pos + 2) Hb) as (l & Hl & _); [lia..|].
  rewrite Hk, Hl in H. cbn [obind] in H. destruct (_ <? _); [by injection H as <-|].
  by destruct (slice w _ _).
Qed.

Section editor.
Context (edit : Z → bytes → outcome Edit).

Lemma scan_err fuel : (∀ k v e, edit k v = Err e → e = NoneValue) →
  ∀ w pos ch e, all_bytes w → 0 ≤ pos → scan_params edit fuel w pos ch = Err e → e = NoneValue.
Proof.
  intros He. induction fuel as [|fuel IH]; intros w pos ch e Hb Hp H; [done|].
  cbn [scan_params] in H. destruct (pos <? len w); [|done].
  destruct (read_param w pos) as [[[k v] p]|e'| |] eqn:Hr; cbn [obind] in H; try done.
  - destruct (edit k v) as [ed|e'| |] eqn:Hed; cbn [obind] in H; try done.
    + destruct (read_param_inv _ _ _ _ _ Hb Hp Hr) as (_ & _ & Hq).
      eapply IH, H; [done|]. pose proof (len_nonneg (param_wire (k, v))). lia.
    + injection H as <-. by eapply He.
  - injection H as <-. by eapply read_param_err.
Qed.

Lemma params_wire_length ps : 4 * Z.of_nat (length ps) ≤ len (params_wire ps).
Proof.
  induction ps as [|p ps IH]; [unfold len; cbn; lia|].
  rewrite params_wire_cons, len_app, len_param_wire. pose proof (len_nonneg (snd p)).
  cbn [length]. lia.
Qed.

(** On a well-framed blob the editor is the list of edits, applied. *)
Lemma edit_svcparams_blob w head ps : blob w head ps →
  edit_svcparams edit w =
    (let? es := edits edit ps in
     if existsb is_rewrite es then Ok (head ++ params_wire (concat (zip_with apply_edit ps es)))
     else none).
Proof.
  intros (-> & H2 & Hskip & Hok). unfold edit_svcparams.
  destruct (Z.ltb_spec (len (head ++ params_wire ps)) 2); [lia|]. rewrite Hskip. cbn [obind].
  assert (Hs : seg (head ++ params_wire ps) (len head) (params_wire ps))
    by (exists head, []; by rewrite app_nil_r).
  assert (Hl : len head + len (params_wire ps) = len (head ++ params_wire ps)) by len_lia.
  assert (Hf : (length ps < S (length (head ++ params_wire ps)))%nat).
  { pose proof (params_wire_length ps). pose proof (len_nonneg head).
    rewrite length_app. unfold len in *. lia. }
  rewrite (scan_params_seg edit ps) by done.
  destruct (edits edit ps) as [es| | |] eqn:He; cbn [obind]; try done.
  rewrite orb_false_l. destruct (existsb is_rewrite es); cbn [negb]; [|done].
  pose proof (len_nonneg head). pose proof (len_nonneg (params_wire ps)).
  rewrite slice_Some by len_lia. rewrite (emit_params_seg edit ps _ _ _ es) by done.
  cbn [obind]. f_equal. f_equal. rewrite Z.sub_0_r, to_nat_len.
  exact (take_app_length head _).
Qed.

(** Whatever the blob, the editor terminates without a panic; when it answers, the blob
    was well framed. *)
Lemma edit_svcparams_frames w : all_bytes w →
  (∀ k v, all_bytes v → yields (edit k v) (λ _, True)) →
  (∀ k v e, edit k v = Err e → e = NoneValue) →
  (∃ head ps, blob w head ps) ∨ edit_svcparams edit w = none.
Proof.
  intros Hb Hy He. unfold edit_svcparams.
  destruct (Z.ltb_spec (len w) 2) as [|H2]; [by right|].
  pose proof (skip_target_yields (S (length w)) w 2 Hb ltac:(lia)
    ltac:(unfold len; lia) ltac:(lia)) as Hsk.
  unfold skip_target_name.
  destruct (skip_target_loop _ w 2) as [p|err| |] eqn:Hp; cbn in Hsk; try done.
  - cbn [obind].
    pose proof (scan_params_yields edit (S (length w)) w p false Hb ltac:(lia) Hy
      ltac:(unfold len in *; lia) ltac:(lia)) as Hsc.
    destruct (scan_params edit _ w p false) as [b|err| |] eqn:Hsp; cbn in Hsc; try done.
    + apply scan_params_frames in Hsp as (ps & (a & c & -> & <-) & Hl & Hok); [|done|lia].
      left. exists a, ps. repeat rewrite len_app in Hl.
      assert (c = []) as -> by (apply len_zero; lia).
      rewrite app_nil_r in *. by split_and!.
    + right. cbn [obind]. apply scan_err in Hsp as ->; [done|done|done|lia].
  - right. cbn [obind]. by apply skip_err in Hp as ->.
Qed.
End editor.

(** * Stripping private hints *)

Lemma filter_chunks_total is_private stride l : stride = 4%nat ∨ stride = 16%nat →
  Forall (λ c, length c = stride) l → ∃ out, filter_chunks is_private l = Ok out.
Proof. intros. eexists. by eapply filter_chunks_ok. Qed.

Lemma private_edit_cases is_private k v :
  (∃ e, private_edit is_private k v = Ok e) ∨ private_edit is_private k v = none.
Proof.
  destruct (decide (sized (k, v))).
  - left. rewrite private_edit_sized by done. by eexists.
  - right. by apply private_edit_unsized.
Qed.

Lemma private_edits_unsized is_private ps :
  ¬ Forall sized ps → edits (private_edit is_private) ps = none.
Proof.
  induction ps as [|[k v] ps IH]; intros Hn; [by destruct Hn|]. cbn [edits fst snd].
  destruct (decide (sized (k, v))) as [Hs|Hs]; [|by rewrite private_edit_unsized].
  rewrite private_edit_sized by done. cbn [obind]. rewrite IH; [done|].
  intros Hps. apply Hn. by constructor.
Qed.

Lemma be16_inj x y : is_u16 x → is_u16 y → be16 x = be16 y → x = y.
Proof.
  intros Hx Hy He. pose proof (u16_at_app [] x [] 0 Hx eq_refl) as H1.
  pose proof (u16_at_app [] y [] 0 Hy eq_refl) as H2. rewrite He, H2 in H1.
  by apply (inj Ok) in H1.
Qed.

(** The parameters of a blob are determined. *)
Lemma blob_inj w h1 p1 h2 p2 : blob w h1 p1 → blob w h2 p2 → h1 = h2 ∧ p1 = p2.
Proof.
  intros (-> & _ & Hs1 & Ho1) (Hw & _ & Hs2 & Ho2). rewrite Hs1 in Hs2. apply (inj Ok) in Hs2.
  apply app_inj_1 in Hw as [-> Hw]; [|unfold len in Hs2; lia]. split; [done|].
  clear Hs1 Hs2. revert p2 Ho2 Hw. induction Ho1 as [|[k v] p1 [Hk Hv] Ho1 IH]; intros p2 Ho2 Hw.
  - by destruct p2 as [|[k' v'] p2].
  - destruct Ho2 as [|[k' v'] p2 [Hk' Hv'] Ho2]; [done|]. rewrite !params_wire_cons in Hw.
    assert (Hq : ∀ k v r, param_wire (k, v) ++ r = be16 k ++ be16 (len v) ++ v ++ r)
      by (intros; unfold param_wire; by rewrite <- !app_assoc).
    rewrite !Hq in Hw. apply app_inj_1 in Hw as [Hkk Hw]; [|done].
    apply app_inj_1 in Hw as [Hvv Hw]; [|done].
    apply be16_inj in Hkk as ->; [|done..]. apply be16_inj in Hvv; [|done..].
    cbn [fst snd] in *. apply app_inj_1 in Hw as [-> Hw]; [|unfold len in Hvv; lia].
    f_equal. by apply IH.
Qed.

(** Changing the parameters of a blob keeps it a blob with the same head. *)
Lemma blob_params w head ps qs : all_bytes w → blob w head ps → Forall param_ok qs →
  blob (head ++ params_wire qs) head qs.
Proof.
  intros Hb (-> & Hl & Hsk & Hok) Hq. pose proof (len_nonneg (params_wire qs)).
  pose proof Hsk as Hsk'. unfold skip_target_name in Hsk.
  apply skip_target_mono in Hsk; [|done|lia].
  split_and!; [done|len_lia| |done]. unfold skip_target_name.
  eapply skip_target_prefix; [exact Hb|lia|done|exact Hsk'|].
  rewrite length_app. unfold len. lia.
Qed.

(** The outcomes of stripping, used below and by the rebinding filter. *)
Lemma strip_private_hints_cases (is_private : IpAddr → bool) (w : bytes) : all_bytes w →
  match strip_private_hints is_private w with
  | Ok out => ∃ head ps, blob w head ps ∧ Forall sized ps ∧ scrub is_private ps ≠ ps ∧
      out = head ++ params_wire (scrub is_private ps) ∧
      blob out head (scrub is_private ps) ∧
      Forall (hints_public is_private) (scrub is_private ps) ∧
      strip_private_hints is_private out = none
  | Err e => e = NoneValue ∧
      ∀ head ps, blob w head ps → Forall sized ps → scrub is_private ps = ps
  | _ => False
  end.
Proof.
  intros Hb.
  destruct (edit_svcparams_frames (private_edit is_private) w Hb) as [(head & ps & Hw)|Hn].
  { intros k v _. by destruct (private_edit_cases is_private k v) as [[e ->]| ->]. }
  { intros k v e. destruct (private_edit_cases is_private k v) as [[e' ->]| ->]; [done|].
    by intros [= <-]. }
  - unfold strip_private_hints. rewrite (edit_svcparams_blob _ w head ps) by done.
    destruct (decide (Forall sized ps)) as [Hs|Hs].
    + destruct (scrub_edits is_private ps Hs) as (es & He & Hcat & Hex).
      rewrite He. cbn [obind]. rewrite Hcat. destruct (existsb is_rewrite es).
      * assert (Hne : scrub is_private ps ≠ ps) by (intros Heq; by apply Hex in Heq).
        destruct (scrub_props is_private ps Hs) as (H1 & H2 & H3 & H4); [by apply Hw|].
        assert (Hout : blob (head ++ params_wire (scrub is_private ps)) head (scrub is_private ps))
          by (by apply (blob_params w head ps)).
        exists head, ps. split_and!; try done.
        destruct (scrub_edits is_private _ H2) as (es' & He' & Hcat' & Hex').
        rewrite (edit_svcparams_blob _ _ head (scrub is_private ps)); [|done].
        rewrite He'. cbn [obind]. apply Hex' in H1. by rewrite H1.
      * split; [done|]. intros h q Hq _. destruct (blob_inj _ _ _ _ _ Hw Hq) as [<- <-].
        by apply Hex.
    + rewrite private_edits_unsized by done. cbn [obind]. split; [done|].
      intros h q Hq Hsq. by destruct (blob_inj _ _ _ _ _ Hw Hq) as [<- <-].
  - unfold strip_private_hints. rewrite Hn. split; [done|]. intros h q Hq Hsq.
    rewrite (edit_svcparams_blob _ w h q Hq) in Hn.
    destruct (scrub_edits is_private q Hsq) as (es & He & _ & Hex).
    rewrite He in Hn. cbn [obind] in Hn. apply Hex. by destruct (existsb is_rewrite es).
Qed.

(** Scrubbing makes bytes of bytes. *)
Lemma chunks_exact_bytes stride fuel : ∀ v, all_bytes v → Forall all_bytes (chunks_exact fuel stride v).
Proof.
  induction fuel as [|fuel IH]; intros v Hv; cbn [chunks_exact]; [constructor|].
  destruct (_ <? _)%nat; constructor; [by apply Forall_take|by apply IH, Forall_drop].
Qed.
Lemma scrub_value_bytes is_private k v : all_bytes v → all_bytes (scrub_value is_private k v).
Proof.
  intros Hv. unfold scrub_value. destruct (hint_stride k) as [stride|]; [|done].
  apply Forall_concat, filter_Forall, chunks_exact_bytes, Hv.
Qed.
Lemma params_bytes ps : all_bytes (params_wire ps) ↔ Forall (λ p, all_bytes (snd p)) ps.
Proof.
  induction ps as [|[k v] ps IH]; [split; constructor|]. rewrite params_wire_cons, Forall_cons, <- IH.
  rewrite Forall_app. unfold param_wire. rewrite !Forall_app. cbn [fst snd].
  pose proof (be16_is_bytes k). pose proof (be16_is_bytes (len v)). tauto.
Qed.
Lemma scrub_bytes is_private ps : Forall (λ p, all_bytes (snd p)) ps →
  Forall (λ p, all_bytes (snd p)) (scrub is_private ps).
Proof.
  induction 1 as [|[k v] ps Hv Hps IH]; cbn; [constructor|]. apply Forall_app. split; [|exact IH].
  unfold scrub_param. repeat case_bool_decide; repeat constructor; [done|]. by apply scrub_value_bytes.
Qed.
Lemma strip_private_hints_bytes is_private w out : all_bytes w →
  strip_private_hints is_private w = Ok out → all_bytes out.
Proof.
  intros Hb Ho. pose proof (strip_private_hints_cases is_private w Hb) as Hs. rewrite Ho in Hs.
  destruct Hs as (head & ps & (-> & _) & _ & _ & -> & _). apply Forall_app in Hb as [Hh Hp].
  apply Forall_app. split; [done|]. by apply params_bytes, scrub_bytes, params_bytes.
Qed.

(** What the rebinding filter relies on: stripping answers or declines, and what is left
    holds no private hint and would be left alone. *)
Lemma strip_private_hints_step is_private w : all_bytes w →
  (∃ out, strip_private_hints is_private w = Ok out ∧ out ≠ w ∧
     strip_private_hints is_private out = none ∧ private_free is_private out) ∨
  (strip_private_hints is_private w = none ∧ private_free is_private w).
Proof.
  intros Hb. pose proof (strip_private_hints_cases is_private w Hb) as Hs.
  destruct (strip_private_hints is_private w) as [out|e| |]; try done.
  - left. destruct Hs as (head & ps & Hw & Hsz & Hne & Hout & Ho & Hpub & Hn).
    exists out. split_and!; [done| |done|].
    + intros ->. by destruct (blob_inj _ _ _ _ _ Hw Ho) as [_ ?].
    + intros h q Hq _. by destruct (blob_inj _ _ _ _ _ Ho Hq) as [<- <-].
  - right. destruct Hs as [-> Hs]. split; [done|]. intros h q Hq Hsz.
    rewrite <- (Hs h q Hq Hsz). apply scrub_props; [done|apply Hq].
Qed.

(** Stripping private hints, for any bytes and any notion of private address. The
    answer is [Some] exactly when the RDATA is a well-framed blob whose hints are whole
    numbers of addresses and at least one of them is private; it is then the same blob
    with the private addresses (and the hints left empty) removed, every other parameter
    byte for byte; it has no private hint left, so stripping it again changes nothing.
    The function never panics and terminates. *)
Theorem strip_private_hints_spec (is_private : IpAddr → bool) (w : bytes) : all_bytes w →
  match strip_private_hints is_private w with
  | Ok out => ∃ head ps, blob w head ps ∧ Forall sized ps ∧ scrub is_private ps ≠ ps ∧
      out = head ++ params_wire (scrub is_private ps) ∧
      blob out head (scrub is_private ps) ∧
      Forall (hints_public is_private) (scrub is_private ps) ∧
      strip_private_hints is_private out = none
  | Err e => e = NoneValue ∧
      ∀ head ps, blob w head ps → Forall sized ps → scrub is_private ps = ps
  | _ => False
  end.
Proof. exact (strip_private_hints_cases is_private w). Qed.

(** * Stripping the IPv6 hint *)

Definition not_v6hint (p : Z * bytes) : Prop := fst p ≠ IPV6_HINT_KEY.
#[export] Instance not_v6hint_dec p : Decision (not_v6hint p).
Proof. unfold not_v6hint. apply _. Defined.

Lemma v6hint_edits ps : ∃ es, edits v6hint_edit ps = Ok es ∧
  concat (zip_with apply_edit ps es) = filter not_v6hint ps ∧
  (existsb is_rewrite es = false ↔ Forall not_v6hint ps).
Proof.
  induction ps as [|[k v] ps (es & He & Hc & Hx)]; [by exists []; repeat split|].
  cbn [edits fst snd]. rewrite He. unfold v6hint_edit at 1. cbn [obind].
  eexists. split; [done|]. cbn [zip_with concat existsb]. rewrite Hc, orb_false_iff, Hx.
  rewrite filter_cons, Forall_cons. unfold not_v6hint at 4. cbn [fst].
  destruct (Z.eqb_spec k IPV6_HINT_KEY) as [Hk|Hk].
  - rewrite decide_False by (intros Hn; by apply Hn). split; [done|]. split; [by intros []|].
    by intros [? _].
  - rewrite decide_True by done. split; [done|]. split; by intros [].
Qed.

(** The outcomes of stripping, used below and by response shaping. *)
Lemma strip_ipv6hint_cases (w : bytes) : all_bytes w →
  match strip_ipv6hint w with
  | Ok out => ∃ head ps, blob w head ps ∧ ¬ Forall not_v6hint ps ∧
      out = head ++ params_wire (filter not_v6hint ps) ∧ strip_ipv6hint out = none
  | Err e => e = NoneValue ∧ ∀ head ps, blob w head ps → Forall not_v6hint ps
  | _ => False
  end.
Proof.
  intros Hb. destruct (edit_svcparams_frames v6hint_edit w Hb) as [(head & ps & Hw)|Hn];
    [done..| |].
  - unfold strip_ipv6hint. rewrite (edit_svcparams_blob _ w head ps) by done.
    destruct (v6hint_edits ps) as (es & He & Hc & Hx). rewrite He. cbn [obind]. rewrite Hc.
    destruct (existsb is_rewrite es) eqn:Hex.
    + exists head, ps. split_and!; [done|by intros ?%Hx|done|].
      rewrite (edit_svcparams_blob _ _ head (filter not_v6hint ps)).
      * destruct (v6hint_edits (filter not_v6hint ps)) as (es' & He' & _ & Hx').
        rewrite He'. cbn [obind]. assert (existsb is_rewrite es' = false) as ->; [|done].
        apply Hx'. apply Forall_forall. intros p Hp. apply list_elem_of_filter in Hp. tauto.
      * by apply (blob_params w head ps); [..|apply filter_Forall, Hw].
    + split; [done|]. intros h q Hq. destruct (blob_inj _ _ _ _ _ Hw Hq) as [<- <-].
      by apply Hx.
  - unfold strip_ipv6hint. rewrite Hn. split; [done|]. intros h q Hq.
    rewrite (edit_svcparams_blob _ w h q Hq) in Hn.
    destruct (v6hint_edits q) as (es & He & _ & Hx). rewrite He in Hn. cbn [obind] in Hn.
    apply Hx. by destruct (existsb is_rewrite es).
Qed.

Lemma strip_ipv6hint_bytes w out : all_bytes w → strip_ipv6hint w = Ok out → all_bytes out.
Proof.
  intros Hb Ho. pose proof (strip_ipv6hint_cases w Hb) as Hs. rewrite Ho in Hs.
  destruct Hs as (head & ps & (-> & _) & _ & -> & _). apply Forall_app in Hb as [Hh Hp].
  apply Forall_app. split; [done|]. apply params_bytes in Hp. apply params_bytes, Forall_forall.
  intros x [_ Hx]%list_elem_of_filter. rewrite Forall_forall in Hp. by apply Hp.
Qed.

(** No parameter of the blob, when it is one, is an IPv6 hint. *)
Definition v6_free (w : bytes) : Prop := ∀ head ps, blob w head ps → Forall not_v6hint ps.

Lemma strip_ipv6hint_step w : all_bytes w →
  (∃ out, strip_ipv6hint w = Ok out ∧ strip_ipv6hint out = none ∧ v6_free out) ∨
  (strip_ipv6hint w = none ∧ v6_free w).
Proof.
  intros Hb. pose proof (strip_ipv6hint_cases w Hb) as Hs.
  destruct (strip_ipv6hint w) as [out|e| |]; try done.
  - left. destruct Hs as (head & ps & Hw & Hne & -> & Hn). eexists. split_and!; [done|done|].
    assert (Ho : blob (head ++ params_wire (filter not_v6hint ps)) head (filter not_v6hint ps))
      by (apply (blob_params w head ps); [done|done|apply filter_Forall, Hw]).
    intros h q Hq. destruct (blob_inj _ _ _ _ _ Ho Hq) as [<- <-].
    apply Forall_forall. intros x Hx. apply list_elem_of_filter in Hx. tauto.
  - right. destruct Hs as [-> Hs]. by split.
Qed.

(** Stripping the IPv6 hint, for any bytes. The answer is [Some] exactly when the RDATA
    is a well-framed blob with an IPv6 hint, and is then the same blob without its IPv6
    hints, in the same order, and without anything left to strip. *)
Theorem strip_ipv6hint_spec (w : bytes) : all_bytes w →
  match strip_ipv6hint w with
  | Ok out => ∃ head ps, blob w head ps ∧ ¬ Forall not_v6hint ps ∧
      out = head ++ params_wire (filter not_v6hint ps) ∧ strip_ipv6hint out = none
  | Err e => e = NoneValue ∧ ∀ head ps, blob w head ps → Forall not_v6hint ps
  | _ => False
  end.
Proof. exact (strip_ipv6hint_cases w). Qed.

(** An HTTPS blob: priority 1, root target, [alpn=h2], one public and one private IPv4
    hint, and an IPv6 hint. *)
Definition sample_svcb : bytes :=
  [0; 1; 0; 0; 1; 0; 3; 2; 104; 50; 0; 4; 0; 8; 93; 184; 216; 34; 192; 168; 0; 1;
   0; 6; 0; 16; 32; 1; 13; 184; 0; 0; 0; 0; 0; 0; 0; 0; 0; 0; 0; 1].
Definition sample_private (ip : IpAddr) : bool :=
  match ip with V4 (Ipv4 a _ _ _) => a =? 192 | V6 _ => false end.

Lemma strip_private_hints_spec_witness : all_bytes sample_svcb ∧
  strip_private_hints sample_private sample_svcb =
    Ok ([0; 1; 0; 0; 1; 0; 3; 2; 104; 50; 0; 4; 0; 4; 93; 184; 216; 34;
         0; 6; 0; 16; 32; 1; 13; 184; 0; 0; 0; 0; 0; 0; 0; 0; 0; 0; 0; 1]) ∧
  ∃ head ps, blob sample_svcb head ps ∧ Forall sized ps.
Proof.
  assert (Hb : all_bytes sample_svcb) by (apply (bool_decide_unpack _); vm_compute; exact I).
  split; [exact Hb|]. split; [vm_compute; reflexivity|].
  pose proof (strip_private_hints_spec sample_private sample_svcb Hb) as Hs.
  assert (He : ∃ out, strip_private_hints sample_private sample_svcb = Ok out)
    by (eexists; vm_compute; reflexivity).
  destruct He as [out He]. rewrite He in Hs. destruct Hs as (head & ps & H1 & H2 & _).
  exists head, ps. exact (conj H1 H2).
Defined.

Lemma strip_ipv6hint_spec_witness : all_bytes sample_svcb ∧
  strip_ipv6hint sample_svcb =
    Ok ([0; 1; 0; 0; 1; 0; 3; 2; 104; 50; 0; 4; 0; 8; 93; 184; 216; 34; 192; 168; 0; 1]) ∧
  ∃ head ps, blob sample_svcb head ps ∧ ¬ Forall not_v6hint ps.
Proof.
  assert (Hb : all_bytes sample_svcb) by (apply (bool_decide_unpack _); vm_compute; exact I).
  split; [exact Hb|]. split; [vm_compute; reflexivity|].
  pose proof (strip_ipv6hint_spec sample_svcb Hb) as Hs.
  assert (He : ∃ out, strip_ipv6hint sample_svcb = Ok out) by (eexists; vm_compute; reflexivity).
  destruct He as [out He]. rewrite He in Hs. destruct Hs as (head & ps & H1 & H2 & _).
  exists head, ps. exact (conj H1 H2).
Defined.
