(* ===== verification/Ip.v ===== *)
(** The address functions of the standard library that several components use: the text
    form accepted by [str::parse], canonical form and loopback test, and socket addresses. *)
From S2P Require Import Prelude Net.

Record SocketAddr := MkSock { ip : IpAddr; port : Z }.
#[export] Instance SocketAddr_eq_dec : EqDecision SocketAddr.
Proof. solve_decision. Defined.

(** [Ipv6Addr::to_ipv4_mapped] and [IpAddr::to_canonical]. *)
Definition to_ipv4_mapped (a : Ipv6Addr) : option Ipv4Addr :=
  let 'Ipv6 s0 s1 s2 s3 s4 s5 s6 s7 := a in
  if forallb (Z.eqb 0) [s0; s1; s2; s3; s4] && (s5 =? 0xFFFF)
  then Some (Ipv4 (Z.shiftr s6 8) (Z.land s6 255) (Z.shiftr s7 8) (Z.land s7 255))
  else None.
Definition to_canonical (a : IpAddr) : IpAddr :=
  match a with
  | V4 _ => a
  | V6 v6 => match to_ipv4_mapped v6 with Some v4 => V4 v4 | None => a end
  end.

(** [IpAddr::is_loopback]. *)
Definition is_loopback (a : IpAddr) : bool :=
  match a with
  | V4 (Ipv4 x _ _ _) => x =? 127
  | V6 v6 => bool_decide (v6 = Ipv6 0 0 0 0 0 0 0 1)
  end.

(** [Ipv4Addr::to_ipv6_mapped]. *)
Definition to_ipv6_mapped (a : Ipv4Addr) : Ipv6Addr :=
  let 'Ipv4 x y z w := a in Ipv6 0 0 0 0 0 0xFFFF (from_be16 x y) (from_be16 z w).

(** * The parser of [core::net]

    Every function takes the remaining text and returns the value read with the text left
    over; on [None] nothing is consumed. *)

Definition digit_value (radix c : Z) : option Z :=
  let d := if (48 <=? c) && (c <=? 57) then Some (c - 48)
           else if (97 <=? c) && (c <=? 122) then Some (c - 87)
           else if (65 <=? c) && (c <=? 90) then Some (c - 55) else None in
  match d with Some v => if v <? radix then Some v else None | None => None end.

(** The loop of [read_number] over digits; [limit] is the largest value of the type. *)
Fixpoint read_digits (radix limit : Z) (max count acc : Z) (s : bytes) : option (Z * Z * bytes) :=
  match s with
  | [] => Some (count, acc, s)
  | c :: r =>
      match digit_value radix c with
      | None => Some (count, acc, s)
      | Some d =>
          let acc := acc * radix + d in
          if limit <? acc then None
          else if max <? count + 1 then None
          else read_digits radix limit max (count + 1) acc r
      end
  end.
Definition read_number (radix limit max : Z) (allow_zero_prefix : bool) (s : bytes)
    : option (Z * bytes) :=
  match read_digits radix limit max 0 0 s with
  | None => None
  | Some (count, v, r) =>
      if count =? 0 then None
      else if negb allow_zero_prefix && bool_decide (head s = Some 48) && (1 <? count) then None
      else Some (v, r)
  end.

Definition read_char (c : Z) (s : bytes) : option bytes :=
  match s with x :: r => if x =? c then Some r else None | [] => None end.
(** [read_separator]: the separator is expected from the second element on. *)
Definition read_separator {A} (sep : Z) (i : nat) (p : bytes → option (A * bytes)) (s : bytes)
    : option (A * bytes) :=
  match i with
  | O => p s
  | S _ => match read_char sep s with Some s => p s | None => None end
  end.

Fixpoint read_octets (n i : nat) (s : bytes) : option (list Z * bytes) :=
  match n with
  | O => Some ([], s)
  | S n =>
      match read_separator 46 i (read_number 10 255 3 false) s with
      | None => None
      | Some (v, s) =>
          match read_octets n (S i) s with Some (vs, s) => Some (v :: vs, s) | None => None end
      end
  end.
Definition read_ipv4_addr (s : bytes) : option (Ipv4Addr * bytes) :=
  match read_octets 4 0 s with
  | Some ([a; b; c; d], s) => Some (Ipv4 a b c d, s)
  | _ => None
  end.

(** [read_groups]: up to [n] more groups from the [i]-th on, of [i + n]; the flag says that
    an embedded IPv4 address ended them. *)
Fixpoint read_groups (n i : nat) (s : bytes) : list Z * bool * bytes :=
  match n with
  | O => ([], false, s)
  | S n' =>
      match (if (2 <=? n)%nat then read_separator 58 i read_ipv4_addr s else None) with
      | Some (Ipv4 a b c d, s) => ([from_be16 a b; from_be16 c d], true, s)
      | None =>
          match read_separator 58 i (read_number 16 65535 4 true) s with
          | None => ([], false, s)
          | Some (v, s) => let '(vs, v4, s) := read_groups n' (S i) s in (v :: vs, v4, s)
          end
      end
  end.
Definition ipv6_of_groups (l : list Z) : option Ipv6Addr :=
  match l with
  | [a; b; c; d; e; f; g; h] => Some (Ipv6 a b c d e f g h)
  | _ => None
  end.
Definition read_ipv6_addr (s : bytes) : option (Ipv6Addr * bytes) :=
  let '(head, head_ipv4, s) := read_groups 8 0 s in
  if (length head =? 8)%nat then option_map (λ a, (a, s)) (ipv6_of_groups head)
  else if head_ipv4 then None
  else
    match read_char 58 s with
    | None => None
    | Some s =>
        match read_char 58 s with
        | None => None
        | Some s =>
            let limit := (8 - (length head + 1))%nat in
            let '(tail, _, s) := read_groups limit 0 s in
            option_map (λ a, (a, s))
              (ipv6_of_groups (head ++ replicate (8 - length head - length tail) 0 ++ tail))
        end
    end.

Definition all_read {A} (r : option (A * bytes)) : option A :=
  match r with Some (a, []) => Some a | _ => None end.

(** [str::parse::<Ipv4Addr>], which refuses texts longer than 15 bytes. *)
Definition parse_ipv4 (s : bytes) : option Ipv4Addr :=
  if 15 <? len s then None else all_read (read_ipv4_addr s).
Definition parse_ipv6 (s : bytes) : option Ipv6Addr := all_read (read_ipv6_addr s).
Definition parse_ip (s : bytes) : option IpAddr :=
  all_read match read_ipv4_addr s with
           | Some (a, s) => Some (V4 a, s)
           | None => option_map (λ '(a, s), (V6 a, s)) (read_ipv6_addr s)
           end.

Example parse_ip_v4 : parse_ip (str "192.168.0.1") = Some (V4 (Ipv4 192 168 0 1)).
Proof. reflexivity. Qed.
Example parse_ip_zero : parse_ip (str "192.168.00.1") = None.
Proof. reflexivity. Qed.
Example parse_ip_v6 : parse_ip (str "2001:dB8::1") = Some (V6 (Ipv6 0x2001 0xdb8 0 0 0 0 0 1)).
Proof. reflexivity. Qed.
Example parse_ip_mapped :
  parse_ip (str "::ffff:127.0.0.1") = Some (V6 (to_ipv6_mapped (Ipv4 127 0 0 1))).
Proof. reflexivity. Qed.
Example parse_ip_trailing : parse_ip (str "::1 ") = None.
Proof. reflexivity. Qed.

(** * Facts *)

Lemma from_be16_split x y : is_byte x → is_byte y →
  Z.shiftr (from_be16 x y) 8 = x ∧ Z.land (from_be16 x y) 255 = y.
Proof.
  unfold is_byte. intros Hx Hy. unfold from_be16. rewrite lor_shiftl_add, land_255 by lia.
  rewrite Z.shiftr_div_pow2 by lia. change (2 ^ 8) with 256. split; div_lia.
Qed.

(** An IPv4 client of a dual-stack socket is seen as its own address. *)
Lemma to_canonical_mapped a : ipv4_ok a → to_canonical (V6 (to_ipv6_mapped a)) = V4 a.
Proof.
  destruct a as [x y z w]. intros Ha. cbn. unfold ipv4_ok, octets in Ha.
  rewrite !Forall_cons in Ha. destruct Ha as (? & ? & ? & ? & _).
  destruct (from_be16_split x y) as [-> ->]; [done..|].
  by destruct (from_be16_split z w) as [-> ->].
Qed.

Lemma to_canonical_idem a : to_canonical (to_canonical a) = to_canonical a.
Proof. destruct a as [|v6]; [done|]. cbn. by destruct (to_ipv4_mapped v6) eqn:E; cbn; rewrite ?E. Qed.

(** Parsed addresses are addresses. *)
Lemma digit_value_range radix c v : digit_value radix c = Some v → 0 ≤ v < radix.
Proof.
  unfold digit_value. repeat case_match; intros [= <-]; try done;
    repeat match goal with H : Some _ = Some _ |- _ => injection H as <- end;
    rewrite ?andb_true_iff, ?Z.leb_le, ?Z.ltb_lt in *; lia.
Qed.
Lemma read_digits_range radix limit max s : ∀ count acc n v r, 0 ≤ radix → 0 ≤ acc ≤ limit →
  read_digits radix limit max count acc s = Some (n, v, r) → 0 ≤ v ≤ limit.
Proof.
  induction s as [|c s IH]; intros count acc n v r Hr Ha; cbn [read_digits]; [by intros [= _ <- _]|].
  destruct (digit_value radix c) as [d|] eqn:Hd; [|by intros [= _ <- _]]. apply digit_value_range in Hd.
  destruct (Z.ltb_spec limit (acc * radix + d)); [done|]. destruct (max <? count + 1); [done|].
  apply IH; [done|]. nia.
Qed.
Lemma read_number_range radix limit max z s v r : 0 ≤ radix → 0 ≤ limit →
  read_number radix limit max z s = Some (v, r) → 0 ≤ v ≤ limit.
Proof.
  unfold read_number. intros Hr Hl. destruct (read_digits radix limit max 0 0 s) as [[[n w] s']|] eqn:E; [|done].
  repeat case_match; intros [= <- _]; try done; by eapply read_digits_range in E.
Qed.
Lemma read_separator_some {A} sep i (p : bytes → option (A * bytes)) s a r :
  read_separator sep i p s = Some (a, r) → ∃ s', p s' = Some (a, r).
Proof. destruct i; cbn; [by exists s|]. destruct (read_char sep s) as [s'|]; [by exists s'|done]. Qed.
Lemma read_octets_range n : ∀ i s l r, read_octets n i s = Some (l, r) → Forall is_byte l.
Proof.
  induction n as [|n IH]; intros i s l r; cbn [read_octets]; [by intros [= <- _]|].
  destruct (read_separator 46 i _ s) as [[v s1]|] eqn:E; [|done].
  apply read_separator_some in E as (s' & E). apply read_number_range in E; [|lia..].
  destruct (read_octets n (S i) s1) as [[vs s2]|] eqn:E2; [|done]. intros [= <- _].
  apply Forall_cons_2; [unfold is_byte; lia|by eapply IH].
Qed.
Lemma read_ipv4_ok s a r : read_ipv4_addr s = Some (a, r) → ipv4_ok a.
Proof.
  unfold read_ipv4_addr. destruct (read_octets 4 0 s) as [[l r']|] eqn:E; [|done].
  apply read_octets_range in E. destruct l as [|x [|y [|z [|t [|]]]]]; try done. by intros [= <- _].
Qed.
Lemma from_be16_u16 x y : is_byte x → is_byte y → is_u16 (from_be16 x y).
Proof.
  unfold is_byte, is_u16. intros. unfold from_be16. rewrite lor_shiftl_add by lia. change (2 ^ 8) with 256. lia.
Qed.
Lemma read_groups_range n : ∀ i s l f r, read_groups n i s = (l, f, r) → Forall is_u16 l.
Proof.
  induction n as [|n IH]; intros i s l f r; [by intros [= <- _ _]|]. cbn [read_groups].
  destruct (if (2 <=? S n)%nat then _ else None) as [[[a b c d] s1]|] eqn:E4.
  - destruct (2 <=? S n)%nat; [|done]. apply read_separator_some in E4 as (s' & E4).
    apply read_ipv4_ok in E4. unfold ipv4_ok, octets in E4. rewrite !Forall_cons in E4.
    destruct E4 as (? & ? & ? & ? & _). intros [= <- _ _].
    apply Forall_cons_2; [by apply from_be16_u16|]. apply Forall_singleton. by apply from_be16_u16.
  - destruct (read_separator 58 i (read_number 16 65535 4 true) s) as [[v s1]|] eqn:E; [|by intros [= <- _ _]].
    apply read_separator_some in E as (s' & E). apply read_number_range in E; [|lia..].
    destruct (read_groups n (S i) s1) as [[vs v4] s2] eqn:E2. intros [= <- _ _].
    apply Forall_cons_2; [unfold is_u16; lia|by eapply IH].
Qed.
Lemma ipv6_of_groups_ok l a : Forall is_u16 l → ipv6_of_groups l = Some a → ipv6_ok a.
Proof.
  intros Hl. do 8 (destruct l as [|? l]; [done|]). destruct l; [|done]. by intros [= <-].
Qed.
Lemma read_ipv6_ok s a r : read_ipv6_addr s = Some (a, r) → ipv6_ok a.
Proof.
  unfold read_ipv6_addr. destruct (read_groups 8 0 s) as [[hd h4] s1] eqn:E1. apply read_groups_range in E1.
  destruct (length hd =? 8)%nat.
  - destruct (ipv6_of_groups hd) eqn:E; [|done]. intros [= <- _]. by eapply ipv6_of_groups_ok.
  - destruct h4; [done|]. destruct (read_char 58 s1) as [s2|]; [|done]. destruct (read_char 58 s2) as [s3|]; [|done].
    destruct (read_groups _ 0 s3) as [[tl t4] s4] eqn:E2. apply read_groups_range in E2.
    destruct (ipv6_of_groups _) eqn:E; [|done]. intros [= <- _].
    eapply ipv6_of_groups_ok; [|exact E]. apply Forall_app. split; [done|]. apply Forall_app.
    split; [|done]. apply Forall_replicate. unfold is_u16. lia.
Qed.
Lemma all_read_some {A} (o : option (A * bytes)) a : all_read o = Some a → o = Some (a, []).
Proof. destruct o as [[x [|]]|]; cbn; try done. by intros [= ->]. Qed.
Lemma parse_ipv4_ok s a : parse_ipv4 s = Some a → ipv4_ok a.
Proof. unfold parse_ipv4. destruct (_ <? _); [done|]. intros H%all_read_some. by eapply read_ipv4_ok. Qed.
Lemma parse_ipv6_ok s a : parse_ipv6 s = Some a → ipv6_ok a.
Proof. intros H%all_read_some. by eapply read_ipv6_ok. Qed.

(** * Socket addresses

    [str::parse::<SocketAddr>]: [a.b.c.d:port], or [\[v6\]:port] with an optional scope, which
    is read and then left out since nothing in the program looks at it. *)
Definition read_port (s : bytes) : option (Z * bytes) :=
  match read_char 58 s with
  | Some s => read_number 10 65535 (Z.of_nat (length s)) true s
  | None => None
  end.
Definition read_scope (s : bytes) : bytes :=
  match read_char 37 s with
  | Some r => match read_number 10 (2 ^ 32 - 1) (Z.of_nat (length r)) true r with
              | Some (_, r) => r
              | None => s
              end
  | None => s
  end.
Definition read_socket_v4 (s : bytes) : option (SocketAddr * bytes) :=
  match read_ipv4_addr s with
  | Some (a, s) => match read_port s with
                   | Some (p, s) => Some (MkSock (V4 a) p, s)
                   | None => None
                   end
  | None => None
  end.
Definition read_socket_v6 (s : bytes) : option (SocketAddr * bytes) :=
  match read_char 91 s with
  | None => None
  | Some s =>
      match read_ipv6_addr s with
      | None => None
      | Some (a, s) =>
          match read_char 93 (read_scope s) with
          | None => None
          | Some s => match read_port s with
                      | Some (p, s) => Some (MkSock (V6 a) p, s)
                      | None => None
                      end
          end
      end
  end.
Definition parse_socket (s : bytes) : option SocketAddr :=
  all_read match read_socket_v4 s with Some r => Some r | None => read_socket_v6 s end.

Example parse_socket_v4 : parse_socket (str "1.2.3.4:5353") = Some (MkSock (V4 (Ipv4 1 2 3 4)) 5353).
Proof. reflexivity. Qed.
Example parse_socket_v6 :
  parse_socket (str "[::1%3]:53") = Some (MkSock (V6 (Ipv6 0 0 0 0 0 0 0 1)) 53).
Proof. reflexivity. Qed.
Example parse_socket_bare : parse_socket (str "::1") = None.
Proof. reflexivity. Qed.
