(* ===== verification/Acl.v ===== *)
(** [src/src/acl.rs]: the CIDR matcher shared by the client allowlist, the per-client
    policies and the rebinding filter, and the allowlist itself. *)
From S2P Require Import Prelude Net Ip.
Open Scope outcome_scope.

(** The [ipnet] crate: [IpNet]'s [FromStr], [From<IpAddr>] and [contains]. *)
Class NetLib := {
  IpNet : Type;
  net_parse : bytes → option IpNet;
  net_of_ip : IpAddr → IpNet;
  net_contains : IpNet → IpAddr → bool;
}.
(** The documented behaviour the code relies on: a network made of one address holds
    that address and no other. *)
Class NetLaws `{NetLib} : Prop :=
  net_of_ip_contains a b : net_contains (net_of_ip a) b = bool_decide (a = b).

Section acl.
Context `{NetLib}.

Definition parse_entry (entry : bytes) : option IpNet :=
  match net_parse entry with
  | Some n => Some n
  | None => option_map net_of_ip (parse_ip entry)
  end.

(** The warning about world-routable entries has no effect on the result. *)
Fixpoint parse_cidr_list (entries : list bytes) : outcome (list IpNet) :=
  match entries with
  | [] => Ok []
  | entry :: entries =>
      match parse_entry entry with
      | None => Err (Message "invalid CIDR or IP")
      | Some net => let? nets := parse_cidr_list entries in Ok (net :: nets)
      end
  end.

Record CidrMatcher := MkMatcher { include : list IpNet; exclude : list IpNet }.

Definition matcher_from_entries (inc exc : list bytes) : outcome CidrMatcher :=
  let? i := parse_cidr_list inc in
  let? e := parse_cidr_list exc in
  Ok {| include := i; exclude := e |}.

Definition matcher_matches (m : CidrMatcher) (ip : IpAddr) : bool :=
  let ip := to_canonical ip in
  if existsb (λ n, net_contains n ip) (exclude m) then false
  else existsb (λ n, net_contains n ip) (include m).

Definition matcher_is_empty (m : CidrMatcher) : bool :=
  match include m with [] => true | _ => false end.

Record AllowFromAcl := MkAcl { matcher : CidrMatcher }.

Definition acl_from_entries (entries : list bytes) : outcome AllowFromAcl :=
  let? m := matcher_from_entries entries [] in Ok {| matcher := m |}.

Definition allows (acl : AllowFromAcl) (peer : IpAddr) : bool :=
  let peer := to_canonical peer in
  if matcher_is_empty (matcher acl) || is_loopback peer then true
  else matcher_matches (matcher acl) peer.

Definition admits (acl : AllowFromAcl) (peer : IpAddr) (local_command : bool) : bool :=
  local_command || allows acl peer.

Definition acl_is_enabled (acl : AllowFromAcl) : bool := negb (matcher_is_empty (matcher acl)).

(** * What the lists mean *)

(** [entry] is well formed and its network holds [ip]. *)
Definition covers (entry : bytes) (ip : IpAddr) : Prop :=
  ∃ n, parse_entry entry = Some n ∧ net_contains n (to_canonical ip) = true.
Definition covered (entries : list bytes) (ip : IpAddr) : Prop :=
  ∃ entry, entry ∈ entries ∧ covers entry ip.

Lemma covers_canonical entry ip : covers entry (to_canonical ip) ↔ covers entry ip.
Proof. unfold covers. by rewrite to_canonical_idem. Qed.

Lemma parse_cidr_list_spec entries :
  match parse_cidr_list entries with
  | Ok nets => map parse_entry entries = map Some nets
  | Err e => e = Message "invalid CIDR or IP" ∧ ∃ entry, entry ∈ entries ∧ parse_entry entry = None
  | _ => False
  end.
Proof.
  induction entries as [|x entries IH]; [done|]. cbn [parse_cidr_list].
  destruct (parse_entry x) as [n|] eqn:Hx.
  - destruct (parse_cidr_list entries); cbn [obind]; try done.
    + cbn. by rewrite Hx, IH.
    + destruct IH as (-> & y & Hy & Hn). split; [done|]. exists y. split; [by right|done].
  - split; [done|]. exists x. split; [by left|done].
Qed.

Lemma parse_cidr_list_covered entries nets ip : parse_cidr_list entries = Ok nets →
  existsb (λ n, net_contains n (to_canonical ip)) nets = true ↔ covered entries ip.
Proof.
  intros Hp. pose proof (parse_cidr_list_spec entries) as Hs. rewrite Hp in Hs. clear Hp.
  unfold covered. revert nets Hs. induction entries as [|x entries IH]; intros [|n nets] Hs;
    try done; cbn [existsb].
  - split; [done|]. by intros (? & ?%elem_of_nil & _).
  - cbn in Hs. injection Hs as Hx Hs. rewrite orb_true_iff, (IH nets Hs). split.
    + intros [Hn|(y & Hy & Hc)]; [exists x|exists y]; (split; [by constructor|]); [|done].
      by exists n.
    + intros (y & [->|Hy]%elem_of_cons & Hc); [left|right; by exists y].
      destruct Hc as (n' & Hn' & Hc). congruence.
Qed.

Lemma parse_cidr_list_returns entries : returns (parse_cidr_list entries).
Proof. pose proof (parse_cidr_list_spec entries). by destruct (parse_cidr_list entries). Qed.

Lemma matcher_matches_spec inc exc m ip : matcher_from_entries inc exc = Ok m →
  matcher_matches m ip = true ↔ covered inc ip ∧ ¬ covered exc ip.
Proof.
  unfold matcher_from_entries. intros Hm.
  destruct (parse_cidr_list inc) as [i| | |] eqn:Hi; cbn [obind] in Hm; try done.
  destruct (parse_cidr_list exc) as [e| | |] eqn:He; cbn [obind] in Hm; try done.
  apply (inj Ok) in Hm as <-. unfold matcher_matches. cbn [exclude include].
  rewrite <- (parse_cidr_list_covered inc i ip Hi), <- (parse_cidr_list_covered exc e ip He).
  by destruct (existsb _ e), (existsb _ i); intuition.
Qed.

Lemma matcher_empty_spec inc exc m : matcher_from_entries inc exc = Ok m →
  matcher_is_empty m = true ↔ inc = [].
Proof.
  unfold matcher_from_entries. intros Hm. pose proof (parse_cidr_list_spec inc) as Hs.
  destruct (parse_cidr_list inc) as [i| | |]; cbn [obind] in Hm; try done.
  destruct (parse_cidr_list exc) as [e| | |]; cbn [obind] in Hm; try done.
  apply (inj Ok) in Hm as <-. unfold matcher_is_empty. cbn [include].
  destruct inc, i; cbn in Hs; try done; by intuition.
Qed.

Lemma matcher_canonical m ip : matcher_matches m (to_canonical ip) = matcher_matches m ip.
Proof. unfold matcher_matches. by rewrite to_canonical_idem. Qed.

(** The client allowlist. Building it fails exactly when an entry is neither a network
    nor an address. Once built it admits every client when it has no entries, loopback
    clients and local PROXY commands always, and otherwise exactly the clients an entry
    covers; an IPv4 client of a dual-stack socket is treated as the same client. *)
Theorem allow_from_spec (entries : list bytes) :
  match acl_from_entries entries with
  | Ok acl =>
      acl_is_enabled acl = bool_decide (entries ≠ []) ∧
      (∀ peer local, admits acl peer local = true ↔
         local = true ∨ entries = [] ∨ is_loopback (to_canonical peer) = true ∨
         covered entries peer) ∧
      (∀ a, ipv4_ok a → allows acl (V6 (to_ipv6_mapped a)) = allows acl (V4 a))
  | Err _ => ∃ entry, entry ∈ entries ∧ net_parse entry = None ∧ parse_ip entry = None
  | _ => False
  end.
Proof.
  unfold acl_from_entries.
  destruct (matcher_from_entries entries []) as [m|e| |] eqn:Hm; cbn [obind].
  - pose proof (matcher_empty_spec _ _ _ Hm) as He. split.
    { unfold acl_is_enabled. cbn [matcher]. destruct (matcher_is_empty m).
      - by rewrite bool_decide_eq_false_2 by (intros Hn; by apply Hn, He).
      - rewrite bool_decide_eq_true_2; [done|]. by intros Hn%He. }
    split.
    + intros peer local. unfold admits, allows. cbn [matcher]. rewrite orb_true_iff, matcher_canonical.
      pose proof (matcher_matches_spec _ _ _ peer Hm) as Hs.
      assert (Hn : ¬ covered [] peer) by (by intros (? & ?%elem_of_nil & _)).
      destruct (matcher_is_empty m); cbn [orb]; [intuition|].
      destruct (is_loopback (to_canonical peer)); [intuition|].
      assert (entries ≠ []) by (by intros ?%He). intuition congruence.
    + intros a Ha. unfold allows. by rewrite to_canonical_mapped.
  - unfold matcher_from_entries in Hm. pose proof (parse_cidr_list_spec entries) as Hs.
    destruct (parse_cidr_list entries); cbn in Hm; try done.
    destruct Hs as (_ & x & Hx & Hn). exists x. split; [done|]. unfold parse_entry in Hn.
    destruct (net_parse x); [done|]. by destruct (parse_ip x).
  - unfold matcher_from_entries in Hm. pose proof (parse_cidr_list_spec entries) as Hs.
    by destruct (parse_cidr_list entries).
  - unfold matcher_from_entries in Hm. pose proof (parse_cidr_list_spec entries) as Hs.
    by destruct (parse_cidr_list entries).
Qed.

(** An entry that is a bare address covers that address and no other, where a client
    is compared by its canonical form; so an entry written as an IPv4-mapped IPv6 address
    covers no client at all, the mapped client included. *)
Theorem address_entry_spec `{!NetLaws} (entry : bytes) (a : IpAddr) :
  net_parse entry = None → parse_ip entry = Some a →
  (∀ ip, covers entry ip ↔ to_canonical ip = a) ∧
  (to_canonical a ≠ a → ∀ ip, ¬ covers entry ip).
Proof.
  intros Hn Ha.
  assert (Hc : ∀ ip, covers entry ip ↔ to_canonical ip = a).
  { intros ip. unfold covers, parse_entry. rewrite Hn, Ha. cbn [option_map]. split.
    - intros (n & Hi & Hc). injection Hi as <-. rewrite net_of_ip_contains in Hc.
      symmetry. by apply bool_decide_eq_true_1 in Hc.
    - intros Hip. exists (net_of_ip a). split; [done|].
      rewrite net_of_ip_contains. by apply bool_decide_eq_true_2. }
  split; [done|]. intros Hne ip Hcov%Hc. apply Hne. by rewrite <- Hcov, to_canonical_idem.
Qed.
End acl.

(** A concrete network library for the witnesses: IPv4 networks written [a.b.c.d/n] with
    [n] a multiple of eight, and single addresses. *)
Definition sample_contains (n : IpAddr * Z) (ip : IpAddr) : bool :=
  match fst n, ip with
  | V4 a, V4 b => bool_decide (take (Z.to_nat (snd n)) (octets a) = take (Z.to_nat (snd n)) (octets b))
  | V6 a, V6 b => bool_decide (a = b)
  | _, _ => false
  end.
#[local] Instance sample_net : NetLib := {|
  IpNet := IpAddr * Z;
  net_parse s :=
    match read_ipv4_addr s with
    | Some (a, 47 :: r) =>
        match read_number 10 255 3 false r with
        | Some (n, []) => Some (V4 a, n / 8)
        | _ => None
        end
    | _ => None
    end;
  net_of_ip a := (a, 4);
  net_contains := sample_contains;
|}.

Lemma sample_net_laws : NetLaws.
Proof.
  intros [a|a] [b|b]; cbn; try done.
  - destruct a, b. apply bool_decide_ext. cbn. split; by intros [= -> -> -> ->].
  - apply bool_decide_ext. split; congruence.
Qed.

Lemma allow_from_spec_witness : ∃ acl,
  acl_from_entries [str "10.0.0.0/8"; str "192.168.1.7"] = Ok acl ∧
  admits acl (V4 (Ipv4 10 9 8 7)) false = true ∧
  admits acl (V4 (Ipv4 192 168 1 8)) false = false ∧
  allows acl (V6 (to_ipv6_mapped (Ipv4 192 168 1 7))) = allows acl (V4 (Ipv4 192 168 1 7)).
Proof.
  set (es := [str "10.0.0.0/8"; str "192.168.1.7"]).
  set (acl := @MkAcl sample_net (@MkMatcher sample_net [(V4 (Ipv4 10 0 0 0), 1); (V4 (Ipv4 192 168 1 7), 4)] [])).
  assert (He : acl_from_entries es = Ok acl) by (vm_compute; reflexivity).
  pose proof (allow_from_spec es) as Hs. rewrite He in Hs. destruct Hs as (_ & _ & Hmap).
  exists acl. split; [exact He|]. split; [vm_compute; reflexivity|].
  split; [vm_compute; reflexivity|].
  apply Hmap. apply (bool_decide_unpack _). vm_compute. exact I.
Defined.

Lemma address_entry_spec_witness :
  net_parse (str "::ffff:10.0.0.1") = None ∧
  parse_ip (str "::ffff:10.0.0.1") = Some (V6 (to_ipv6_mapped (Ipv4 10 0 0 1))) ∧
  ¬ covers (str "::ffff:10.0.0.1") (V6 (to_ipv6_mapped (Ipv4 10 0 0 1))).
Proof.
  assert (H1 : net_parse (str "::ffff:10.0.0.1") = None) by reflexivity.
  assert (H2 : parse_ip (str "::ffff:10.0.0.1") = Some (V6 (to_ipv6_mapped (Ipv4 10 0 0 1))))
    by reflexivity.
  split; [exact H1|]. split; [exact H2|].
  destruct (@address_entry_spec sample_net sample_net_laws _ _ H1 H2) as [_ Hn].
  apply Hn. vm_compute. discriminate.
Defined.
