(* ===== verification/Policy.v ===== *)
(** [src/src/client_policy.rs]: block and allow rules for particular clients. *)
From S2P Require Import Prelude Net Ip Text Acl Domains.
Open Scope outcome_scope.

Record ClientPolicyConfig := MkPolicyConfig {
  from : list bytes;
  exclude_from : list bytes;
  block : list bytes;
  allow : list bytes;
  cfg_filter_aaaa : option bool;
}.

Inductive Decision := Block | Allow | Passthrough.

Section policy.
Context `{NetLib} `{Lowercase}.

Record ClientPolicy := MkPolicy {
  nets : CidrMatcher;
  store : BlocklistStore;
  filter_aaaa : option bool;
}.
Record ClientPolicySet := MkPolicySet { rules : list ClientPolicy }.

(** The loop iterates over the set of allowed domains in any order; all orders give the
    same list. *)
Definition policy_store (now : Z) (blocks allows : gset bytes) : BlocklistStore :=
  let allow := fold_left (λ l a, insert_from_config a l) (elements allows) unpersisted in
  swap_domains now blocks [] (store_new allow unpersisted).

Definition policy_from_config (now : Z) (cfg : ClientPolicyConfig) : outcome ClientPolicy :=
  if bool_decide (from cfg = []) then Err (Message "must list at least one CIDR or IP")
  else
    let blocks := parse_blocklist (join [10] (block cfg)) in
    let allows := parse_blocklist (join [10] (allow cfg)) in
    if bool_decide (blocks = ∅) && bool_decide (allows = ∅) &&
       bool_decide (cfg_filter_aaaa cfg = None)
    then Err (Message "must specify at least one valid domain")
    else
      let? m := matcher_from_entries (from cfg) (exclude_from cfg) in
      Ok {| nets := m; store := policy_store now blocks allows;
            filter_aaaa := cfg_filter_aaaa cfg |}.

Fixpoint rules_from_configs (now : Z) (configs : list ClientPolicyConfig)
    : outcome (list ClientPolicy) :=
  match configs with
  | [] => Ok []
  | cfg :: configs =>
      let? p := policy_from_config now cfg in
      let? ps := rules_from_configs now configs in
      Ok (p :: ps)
  end.
Definition from_configs (now : Z) (configs : list ClientPolicyConfig) : outcome ClientPolicySet :=
  let? rs := rules_from_configs now configs in Ok {| rules := rs |}.

Definition policies_enabled (set : ClientPolicySet) : bool :=
  match rules set with [] => false | _ => true end.
Definition rule_count (set : ClientPolicySet) : nat := length (rules set).

Definition matching_rules (set : ClientPolicySet) (peer : IpAddr) : list ClientPolicy :=
  let peer := to_canonical peer in
  let bypass := is_loopback peer in
  List.filter (λ rule, negb bypass && matcher_matches (nets rule) peer) (rules set).

(** The loop of [evaluate] over the matching rules. *)
Fixpoint evaluate_rules (now : Z) (rs : list ClientPolicy) (qname : bytes) : Decision :=
  match rs with
  | [] => Passthrough
  | rule :: rs =>
      let r := check now qname (store rule) in
      if blocked r then Block
      else match matched_rule r with
           | Some _ => Allow
           | None => evaluate_rules now rs qname
           end
  end.
Definition evaluate (now : Z) (set : ClientPolicySet) (peer : IpAddr) (qname : bytes) : Decision :=
  evaluate_rules now (matching_rules set peer) qname.

Fixpoint find_filter_aaaa (rs : list ClientPolicy) : option bool :=
  match rs with
  | [] => None
  | rule :: rs => match filter_aaaa rule with Some b => Some b | None => find_filter_aaaa rs end
  end.
Definition effective_filter_aaaa (set : ClientPolicySet) (peer : IpAddr) (global : bool) : bool :=
  match find_filter_aaaa (matching_rules set peer) with Some b => b | None => global end.

(** * The policy the configuration asks for *)

(** The rule concerns this client: it is not local, is listed and is not excluded. *)
Definition concerns (cfg : ClientPolicyConfig) (peer : IpAddr) : Prop :=
  is_loopback (to_canonical peer) = false ∧
  Acl.covered (from cfg) peer ∧ ¬ Acl.covered (exclude_from cfg) peer.

Definition block_set (cfg : ClientPolicyConfig) : gset bytes :=
  parse_blocklist (join [10] (block cfg)).
Definition allow_set (cfg : ClientPolicyConfig) : gset bytes :=
  set_map normalize (parse_blocklist (join [10] (allow cfg))).

(** The decision for a client and a name, rule by rule in the order of the file. *)
Inductive decides (peer : IpAddr) (qname : bytes) : list ClientPolicyConfig → Decision → Prop :=
  | decides_none : decides peer qname [] Passthrough
  | decides_other cfg cfgs d : ¬ concerns cfg peer →
      decides peer qname cfgs d → decides peer qname (cfg :: cfgs) d
  | decides_silent cfg cfgs d : concerns cfg peer →
      ¬ Domains.covered (normalize qname) (allow_set cfg) →
      ¬ Domains.covered (normalize qname) (block_set cfg) →
      decides peer qname cfgs d → decides peer qname (cfg :: cfgs) d
  | decides_allow cfg cfgs : concerns cfg peer →
      Domains.covered (normalize qname) (allow_set cfg) →
      decides peer qname (cfg :: cfgs) Allow
  | decides_block cfg cfgs : concerns cfg peer →
      ¬ Domains.covered (normalize qname) (allow_set cfg) →
      Domains.covered (normalize qname) (block_set cfg) →
      decides peer qname (cfg :: cfgs) Block.

(** The AAAA filter setting for a client: the first rule that has one. *)
Inductive aaaa_setting (peer : IpAddr) (global : bool) : list ClientPolicyConfig → bool → Prop :=
  | aaaa_global : aaaa_setting peer global [] global
  | aaaa_other cfg cfgs b : ¬ concerns cfg peer ∨ cfg_filter_aaaa cfg = None →
      aaaa_setting peer global cfgs b → aaaa_setting peer global (cfg :: cfgs) b
  | aaaa_rule cfg cfgs b : concerns cfg peer → cfg_filter_aaaa cfg = Some b →
      aaaa_setting peer global (cfg :: cfgs) b.

(** A rule that cannot be built. *)
Definition bad_config (cfg : ClientPolicyConfig) : Prop :=
  from cfg = [] ∨
  (block_set cfg = ∅ ∧ allow_set cfg = ∅ ∧ cfg_filter_aaaa cfg = None) ∨
  ∃ entry, entry ∈ from cfg ++ exclude_from cfg ∧ parse_entry entry = None.

(** * Rules *)

Lemma policy_store_active now blocks allows t :
  enabled (policy_store now blocks allows) = true ∧
  is_paused t (policy_store now blocks allows) = false.
Proof. done. Qed.

Lemma policy_store_lists now blocks allows :
  let s := policy_store now blocks allows in
  config (allowlist s) ∪ user (allowlist s) = set_map normalize allows ∧
  config (manual s) ∪ user (manual s) ∪ domains s = blocks.
Proof.
  unfold policy_store. cbn zeta. rewrite fold_config. cbn. split; [|set_solver].
  apply set_eq. intros x. unfold names_of.
  rewrite !elem_of_union, elem_of_list_to_set, elem_of_map.
  change (map normalize) with (fmap (M := list) normalize). rewrite list_elem_of_fmap.
  setoid_rewrite elem_of_elements. split.
  - intros [[(y & -> & Hy)|?%elem_of_empty]|?%elem_of_empty]; [by exists y|done..].
  - intros (y & -> & Hy). left. left. by exists y.
Qed.

Lemma policy_from_config_ok now cfg p : policy_from_config now cfg = Ok p →
  (∀ t qname,
    (Domains.covered (normalize qname) (allow_set cfg) ∧ blocked (check t qname (store p)) = false ∧
     is_Some (matched_rule (check t qname (store p)))) ∨
    (¬ Domains.covered (normalize qname) (allow_set cfg) ∧
     Domains.covered (normalize qname) (block_set cfg) ∧ blocked (check t qname (store p)) = true) ∨
    (¬ Domains.covered (normalize qname) (allow_set cfg) ∧
     ¬ Domains.covered (normalize qname) (block_set cfg) ∧ check t qname (store p) = not_blocked)) ∧
  filter_aaaa p = cfg_filter_aaaa cfg ∧
  (∀ peer, negb (is_loopback (to_canonical peer)) && matcher_matches (nets p) (to_canonical peer)
     = true ↔ concerns cfg peer).
Proof.
  unfold policy_from_config. intros Hp. case_bool_decide; [done|]. case_if; [done|].
  destruct (matcher_from_entries (from cfg) (exclude_from cfg)) as [m| | |] eqn:Hm;
    cbn [obind] in Hp; try done.
  apply (inj Ok) in Hp as <-. cbn [store filter_aaaa nets]. split_and!; [|done|].
  - intros t qname.
    set (bs := parse_blocklist (join [10] (block cfg))).
    set (als := parse_blocklist (join [10] (allow cfg))).
    destruct (policy_store_active now bs als t) as [He Hpa].
    pose proof (check_cases t qname _ He Hpa) as Hc. cbn zeta in Hc.
    destruct (policy_store_lists now bs als) as [HA HB]. rewrite HA, HB in Hc. exact Hc.
  - intros peer. rewrite andb_true_iff, negb_true_iff, matcher_canonical.
    by rewrite (matcher_matches_spec _ _ _ peer Hm).
Qed.

Lemma rules_from_configs_ok now cfgs ps : rules_from_configs now cfgs = Ok ps →
  Forall2 (λ cfg p, policy_from_config now cfg = Ok p) cfgs ps.
Proof.
  revert ps. induction cfgs as [|cfg cfgs IH]; intros ps Hp; cbn [rules_from_configs] in Hp.
  - apply (inj Ok) in Hp as <-. constructor.
  - destruct (policy_from_config now cfg) as [p| | |] eqn:Hc; cbn [obind] in Hp; try done.
    destruct (rules_from_configs now cfgs) as [qs| | |]; cbn [obind] in Hp; try done.
    apply (inj Ok) in Hp as <-. constructor; [done|by apply IH].
Qed.

Lemma policy_from_config_err now cfg :
  match policy_from_config now cfg with
  | Ok _ => True
  | Err _ => bad_config cfg
  | _ => False
  end.
Proof.
  unfold policy_from_config. case_bool_decide; [by left|]. case_if.
  - bool_prop. right. left. split_and!; [done| |done]. unfold allow_set.
    match goal with H : parse_blocklist (join [10] (allow cfg)) = ∅ |- _ => rewrite H end.
    set_solver.
  - unfold matcher_from_entries.
    pose proof (parse_cidr_list_spec (from cfg)) as Hfr.
    pose proof (parse_cidr_list_spec (exclude_from cfg)) as Hex.
    destruct (parse_cidr_list (from cfg)); cbn [obind]; try done.
    + destruct (parse_cidr_list (exclude_from cfg)); cbn [obind]; try done.
      destruct Hex as (_ & x & Hx & Hn). right. right. exists x.
      split; [apply elem_of_app; by right|done].
    + destruct Hfr as (_ & x & Hx & Hn). right. right. exists x.
      split; [apply elem_of_app; by left|done].
Qed.

Lemma from_configs_bad now cfgs :
  match from_configs now cfgs with
  | Ok set => rules_from_configs now cfgs = Ok (rules set)
  | Err _ => Exists bad_config cfgs
  | _ => False
  end.
Proof.
  unfold from_configs. induction cfgs as [|cfg cfgs IH]; [done|]. cbn [rules_from_configs].
  pose proof (policy_from_config_err now cfg) as He.
  destruct (policy_from_config now cfg); cbn [obind]; try done; [|by left].
  destruct (rules_from_configs now cfgs); cbn [obind rules] in *; try done. by right.
Qed.

(** C27: the per-client policies. Building them fails only when some rule has no client, no
    effect or an entry that is no address; the set that is built decides every query,
    at any time, as the rules read in order say: the first rule that concerns the
    client and speaks of the name wins, allowing before blocking, and a local client is
    concerned by none. The AAAA filter follows the first concerned rule that sets it. *)
Theorem client_policy_decision (now : Z) (configs : list ClientPolicyConfig) :
  match from_configs now configs with
  | Ok set => ∀ t peer qname global,
      decides peer qname configs (evaluate t set peer qname) ∧
      aaaa_setting peer global configs (effective_filter_aaaa set peer global)
  | Err _ => Exists bad_config configs
  | _ => False
  end.
Proof.
  pose proof (from_configs_bad now configs) as Hc.
  destruct (from_configs now configs) as [[rs]| | |]; try done. cbn [rules] in Hc.
  apply rules_from_configs_ok in Hc. intros t peer qname global.
  unfold evaluate, effective_filter_aaaa, matching_rules. cbn [rules].
  set (keep := λ rule, _ && _). induction Hc as [|cfg p cfgs ps Hp Hps [IH1 IH2]].
  - split; constructor.
  - destruct (policy_from_config_ok now cfg p Hp) as (Hv & Hf & Hm). specialize (Hm peer).
    cbn [List.filter]. fold (keep p) in Hm. destruct (keep p).
    + assert (concerns cfg peer) by (by apply Hm). cbn [evaluate_rules find_filter_aaaa]. split.
      * destruct (Hv t qname) as [(Ha & -> & [m ->])|[(Ha & Hb & ->)|(Ha & Hb & ->)]].
        -- by apply decides_allow.
        -- by apply decides_block.
        -- by apply decides_silent.
      * rewrite Hf. destruct (cfg_filter_aaaa cfg) as [b|] eqn:Hb.
        -- by apply aaaa_rule.
        -- apply aaaa_other; [by right|done].
    + assert (¬ concerns cfg peer) by (by intros ?%Hm). split.
      * by apply decides_other.
      * apply aaaa_other; [by left|done].
Qed.

(** The configuration determines the decision: no two answers are possible for a client
    and a name. *)
Lemma decides_functional peer qname cfgs d d' :
  decides peer qname cfgs d → decides peer qname cfgs d' → d = d'.
Proof.
  intros Hd. revert d'. induction Hd; intros d' Hd'; inversion Hd'; subst; try done; auto.
Qed.
End policy.

(** A kiosk network without social networks, one page excepted. *)
Definition sample_configs : list ClientPolicyConfig :=
  [{| from := [str "10.1.0.0/16"]; exclude_from := [str "10.1.0.7"];
      block := [str "social.example"; str "ads.example"]; allow := [str "help.social.example"];
      cfg_filter_aaaa := Some true |}].

Definition sample_decision (ip : Ipv4Addr) (qname : string) : Decision :=
  match @from_configs sample_net lowercase_ascii 0 sample_configs with
  | Ok set => @evaluate sample_net lowercase_ascii 0 set (V4 ip) (str qname)
  | _ => Passthrough
  end.

Lemma client_policy_decision_witness :
  sample_decision (Ipv4 10 1 2 3) "x.help.social.example" = Allow ∧
  sample_decision (Ipv4 10 1 0 7) "ads.example" = Passthrough ∧
  @decides sample_net lowercase_ascii (V4 (Ipv4 10 1 2 3)) (str "m.Social.example.")
    sample_configs Block.
Proof.
  split; [vm_compute; reflexivity|]. split; [vm_compute; reflexivity|].
  assert (Hb : sample_decision (Ipv4 10 1 2 3) "m.Social.example." = Block)
    by (vm_compute; reflexivity).
  assert (Ho : is_ok (@from_configs sample_net lowercase_ascii 0 sample_configs) = true)
    by (vm_compute; reflexivity).
  unfold sample_decision in Hb.
  pose proof (@client_policy_decision sample_net lowercase_ascii 0 sample_configs) as Hd.
  destruct (@from_configs sample_net lowercase_ascii 0 sample_configs) as [set| | |];
    [|discriminate Ho..].
  destruct (Hd 0 (V4 (Ipv4 10 1 2 3)) (str "m.Social.example.") false) as [Hdec _].
  rewrite Hb in Hdec. exact Hdec.
Defined.
