(* ===== verification/Rebind.v ===== *)
(** [src/src/rebind.rs]: DNS rebinding protection, removing private addresses from upstream
    answers. *)
From S2P Require Import Prelude Net Ip Question Record Packet Acl Domains Svcb.
Open Scope outcome_scope.

Definition DEFAULT_RANGES : list bytes :=
  map str
    ["127.0.0.0/8"; "10.0.0.0/8"; "172.16.0.0/12"; "192.168.0.0/16"; "169.254.0.0/16";
     "100.64.0.0/10"; "0.0.0.0/8"; "fc00::/7"; "64:ff9b::/96"; "fe80::/10"; "::1/128";
     "::/128"]%string.

(** The retain closure. *)
Definition keep_record (is_private : IpAddr → bool) (r : DnsRecord.t) : bool :=
  match r with
  | DnsRecord.A _ addr _ => negb (is_private (V4 addr))
  | DnsRecord.AAAA _ addr _ => negb (is_private (V6 addr))
  | _ => true
  end.

(** The body of the second loop: the record with its hints scrubbed, and whether it was. *)
Definition scrub_hints (is_private : IpAddr → bool) (r : DnsRecord.t)
    : outcome (DnsRecord.t * Z) :=
  match r with
  | DnsRecord.UNKNOWN domain qtype data ttl =>
      if (qtype =? to_num QueryType.HTTPS) || (qtype =? to_num QueryType.SVCB) then
        match strip_private_hints is_private data with
        | Ok scrubbed => Ok (DnsRecord.UNKNOWN domain qtype scrubbed ttl, 1)
        | Err _ => Ok (r, 0)
        | Panic => Panic
        | OutOfFuel => OutOfFuel
        end
      else Ok (r, 0)
  | _ => Ok (r, 0)
  end.
Fixpoint scrub_hints_all (is_private : IpAddr → bool) (rs : list DnsRecord.t)
    : outcome (list DnsRecord.t * Z) :=
  match rs with
  | [] => Ok ([], 0)
  | r :: rs =>
      let? (r, n) := scrub_hints is_private r in
      let? (rs, m) := scrub_hints_all is_private rs in
      Ok (r :: rs, n + m)
  end.

Definition scrub_section (is_private : IpAddr → bool) (records : list DnsRecord.t)
    : outcome (list DnsRecord.t * Z) :=
  let before := len records in
  let records := List.filter (keep_record is_private) records in
  let acted := before - len records in
  let? (records, n) := scrub_hints_all is_private records in
  Ok (records, acted + n).

Section rebind.
Context `{NetLib} `{Lowercase}.

Record RebindFilter := MkRebind {
  rebind_enabled : bool;
  ranges : CidrMatcher;
  range_strings : list bytes;
  rebind_allowlist : PersistedDomainList;
}.

Definition rebind_new (enabled : bool) (allowlist : PersistedDomainList)
    (custom_ranges : list bytes) : outcome RebindFilter :=
  let strings := match custom_ranges with [] => DEFAULT_RANGES | _ => custom_ranges end in
  let? r := matcher_from_entries strings [] in
  Ok {| rebind_enabled := enabled; ranges := r; range_strings := strings;
        rebind_allowlist := allowlist |}.

Definition rebind_set_enabled (b : bool) (f : RebindFilter) : RebindFilter :=
  {| rebind_enabled := b; ranges := ranges f; range_strings := range_strings f;
     rebind_allowlist := rebind_allowlist f |}.
Definition with_allowlist (l : PersistedDomainList) (f : RebindFilter) : RebindFilter :=
  {| rebind_enabled := rebind_enabled f; ranges := ranges f; range_strings := range_strings f;
     rebind_allowlist := l |}.
Definition rebind_add (d : bytes) (f : RebindFilter) : RebindFilter :=
  with_allowlist (insert d (rebind_allowlist f)) f.
Definition rebind_remove (d : bytes) (f : RebindFilter) : bool * RebindFilter :=
  let '(b, l) := remove d (rebind_allowlist f) in (b, with_allowlist l f).

Definition is_allowed (f : RebindFilter) (qname : bytes) : bool :=
  negb (is_empty (rebind_allowlist f)) && matches qname (rebind_allowlist f).

Definition rebind_apply (f : RebindFilter) (qname : bytes) (p : DnsPacket)
    : outcome (Z * DnsPacket) :=
  if negb (rebind_enabled f) || is_allowed f qname then Ok (0, p)
  else
    let is_private := matcher_matches (ranges f) in
    let? (an, n1) := scrub_section is_private (answers p) in
    let? (au, n2) := scrub_section is_private (authorities p) in
    let? (ad, n3) := scrub_section is_private (resources p) in
    Ok (n1 + n2 + n3,
        {| header := header p; questions := questions p; answers := an; authorities := au;
           resources := ad; edns := edns p |}).

(** * Sections *)

Definition data_bytes (r : DnsRecord.t) : Prop :=
  match r with DnsRecord.UNKNOWN _ _ data _ => all_bytes data | _ => True end.

(** The record shows no private address: not as an A or AAAA address and not in a hint. *)
Definition record_public (is_private : IpAddr → bool) (r : DnsRecord.t) : Prop :=
  match r with
  | DnsRecord.A _ addr _ => is_private (V4 addr) = false
  | DnsRecord.AAAA _ addr _ => is_private (V6 addr) = false
  | DnsRecord.UNKNOWN _ qtype data _ => qtype = 64 ∨ qtype = 65 → private_free is_private data
  | _ => True
  end.

(** [r'] is [r], or [r] with other HTTPS or SVCB data. *)
Definition same_but_hints (r r' : DnsRecord.t) : Prop :=
  r' = r ∨ ∃ d t data data' ttl, (t = 64 ∨ t = 65) ∧
    r = DnsRecord.UNKNOWN d t data ttl ∧ r' = DnsRecord.UNKNOWN d t data' ttl.

Lemma scrub_hints_spec is_private r : data_bytes r → keep_record is_private r = true →
  ∃ r' n, scrub_hints is_private r = Ok (r', n) ∧ keep_record is_private r' = true ∧
    record_public is_private r' ∧ same_but_hints r r' ∧
    scrub_hints is_private r' = Ok (r', 0) ∧
    ((n = 0 ∧ r' = r) ∨ (n = 1 ∧ r' ≠ r)).
Proof.
  intros Hb Hk. destruct r; try (cbn in Hk; eexists _, 0; split; [done|]; cbn;
    refine (conj _ (conj _ (conj (or_introl eq_refl) (conj eq_refl
      (or_introl (conj eq_refl eq_refl)))))); rewrite ?negb_true_iff in *; done).
  cbn [data_bytes] in Hb. cbn [scrub_hints to_num].
  destruct ((qtype =? 65) || (qtype =? 64)) eqn:Hq.
  - assert (Ht : qtype = 64 ∨ qtype = 65) by (apply orb_true_iff in Hq; lia).
    destruct (strip_private_hints_step is_private data Hb)
      as [(out & Ho & Hne & Hn & Hf)|(Hn & Hf)].
    + rewrite Ho. eexists _, 1. split; [done|]. cbn [scrub_hints to_num]. rewrite Hq, Hn.
      split_and!; [done|by intros _| |done|right].
      * right. by exists domain, qtype, data, out, ttl.
      * split; [done|congruence].
    + rewrite Hn. eexists _, 0. split; [done|]. cbn [scrub_hints to_num]. rewrite Hq, Hn.
      split_and!; [done|by intros _|by left|done|by left].
  - eexists _, 0. split; [done|]. cbn [scrub_hints to_num]. rewrite Hq.
    split_and!; [done| |by left|done|by left]. cbn. apply orb_false_iff in Hq. lia.
Qed.

Lemma scrub_hints_all_spec is_private rs : Forall data_bytes rs →
  Forall (λ r, keep_record is_private r = true) rs →
  ∃ rs' n, scrub_hints_all is_private rs = Ok (rs', n) ∧
    Forall (λ r, keep_record is_private r = true) rs' ∧
    Forall (record_public is_private) rs' ∧ Forall2 same_but_hints rs rs' ∧
    scrub_hints_all is_private rs' = Ok (rs', 0) ∧ 0 ≤ n ∧ (n = 0 ↔ rs' = rs).
Proof.
  intros Hb Hk. induction rs as [|r rs IH]; [eexists [], 0; repeat split; try done; constructor|].
  apply Forall_cons in Hb as [Hb Hbs]. apply Forall_cons in Hk as [Hk Hks].
  destruct (scrub_hints_spec is_private r Hb Hk) as (r' & n & E & K & P & S & I & N).
  destruct (IH Hbs Hks) as (rs' & m & E' & K' & P' & S' & I' & M & N').
  exists (r' :: rs'), (n + m). cbn [scrub_hints_all]. rewrite E, E', I, I'. cbn [obind].
  split_and!; [done|by constructor..|done| |].
  - destruct N as [[-> _]|[-> _]]; lia.
  - split.
    + intros Hz. destruct N as [[-> ->]|[-> _]]; [|lia]. f_equal. apply N'. lia.
    + intros [= -> ->]. destruct N as [[-> _]|[_ ?]]; [|done]. by apply N'.
Qed.

(** What scrubbing a section leaves: the records shown publicly, in order, each as it was
    but for its hints. *)
Definition scrubbed (is_private : IpAddr → bool) (rs rs' : list DnsRecord.t) (n : Z) : Prop :=
  Forall (record_public is_private) rs' ∧
  Forall2 same_but_hints (List.filter (keep_record is_private) rs) rs' ∧
  0 ≤ n ∧ (n = 0 ↔ rs' = rs) ∧
  scrub_section is_private rs' = Ok (rs', 0).

Lemma filter_all {A} (f : A → bool) l : Forall (λ x, f x = true) l → List.filter f l = l.
Proof. induction 1 as [|x l Hx Hl IH]; [done|]. cbn. by rewrite Hx, IH. Qed.
Lemma filter_Forall_true {A} (f : A → bool) l : Forall (λ x, f x = true) (List.filter f l).
Proof. induction l as [|x l IH]; cbn; [constructor|]. destruct (f x) eqn:E; [by constructor|done]. Qed.
Lemma filter_len {A} (f : A → bool) l :
  len (List.filter f l) ≤ len l ∧ (len (List.filter f l) = len l → List.filter f l = l).
Proof.
  induction l as [|x l [H1 H2]]; [done|]. cbn. destruct (f x); rewrite !len_cons.
  - split; [lia|]. intros. f_equal. apply H2. lia.
  - split; [lia|]. pose proof (len_nonneg l). lia.
Qed.

Lemma scrub_section_spec is_private rs : Forall data_bytes rs →
  ∃ rs' n, scrub_section is_private rs = Ok (rs', n) ∧ scrubbed is_private rs rs' n.
Proof.
  intros Hb. unfold scrub_section. set (ks := List.filter (keep_record is_private) rs).
  assert (Hbk : Forall data_bytes ks).
  { apply Forall_forall. intros r Hr%list_elem_of_In. unfold ks in Hr.
    apply filter_In in Hr as [Hr _]. rewrite Forall_forall in Hb. apply Hb.
    by apply list_elem_of_In. }
  destruct (scrub_hints_all_spec is_private ks Hbk (filter_Forall_true _ _))
    as (rs' & n & E & K & P & S & I & M & N).
  rewrite E. cbn [obind]. eexists _, _. split; [done|].
  destruct (filter_len (keep_record is_private) rs) as [Hle Heq]. fold ks in Hle, Heq.
  split_and!; [done|done|lia| |].
  - split.
    + intros Hz. assert (rs' = ks) as -> by (apply N; lia). apply Heq. lia.
    + intros ->. assert (ks = rs) as Hks by (unfold ks; by apply filter_all).
      rewrite Hks in *. assert (n = 0) as -> by by apply N. lia.
  - unfold scrub_section. rewrite filter_all by done. rewrite I. cbn [obind].
    do 2 f_equal. lia.
Qed.

(** Scrubbing keeps the fields of records in range. *)
Lemma scrub_hints_ok is_private r r' n : record_ok r → scrub_hints is_private r = Ok (r', n) →
  record_ok r'.
Proof.
  intros Hr. destruct r; cbn [scrub_hints]; try by intros [= <- _].
  destruct (_ || _); [|by intros [= <- _]]. destruct Hr as (Hd & Ht & Hq & Ho & Hb).
  destruct (strip_private_hints is_private data) as [out|e| |] eqn:E; [| |done|done].
  - intros [= <- _]. split; [done|]. split; [done|]. cbn.
    split_and!; [done..|]. by eapply strip_private_hints_bytes.
  - intros [= <- _]. split; [done|]. split; [done|]. by split_and!.
Qed.
Lemma scrub_hints_all_ok is_private rs : ∀ rs' n, Forall record_ok rs →
  scrub_hints_all is_private rs = Ok (rs', n) → Forall record_ok rs'.
Proof.
  induction rs as [|r rs IH]; intros rs' n Hrs; cbn [scrub_hints_all]; [by intros [= <- _]|].
  apply Forall_cons_1 in Hrs as [Hr Hrs].
  destruct (scrub_hints is_private r) as [[r1 n1]|e| |] eqn:E1; cbn [obind]; try done.
  destruct (scrub_hints_all is_private rs) as [[rs1 m]|e| |] eqn:E2; cbn [obind]; try done.
  intros [= <- _]. constructor; [by eapply scrub_hints_ok|by eapply IH].
Qed.
Lemma scrub_section_ok is_private rs rs' n : Forall record_ok rs →
  scrub_section is_private rs = Ok (rs', n) → Forall record_ok rs'.
Proof.
  intros Hrs. unfold scrub_section.
  destruct (scrub_hints_all _ _) as [[rs1 m]|e| |] eqn:E; cbn [obind]; try done. intros [= <- _].
  eapply scrub_hints_all_ok, E. apply Forall_forall. intros r [Hr _]%list_elem_of_In%filter_In.
  rewrite Forall_forall in Hrs. by apply Hrs, list_elem_of_In.
Qed.

(** * The filter *)

Definition packet_bytes (p : DnsPacket) : Prop :=
  Forall data_bytes (answers p) ∧ Forall data_bytes (authorities p) ∧
  Forall data_bytes (resources p).

Lemma packet_fields_data p : packet_fields p → packet_bytes p.
Proof.
  intros (_ & _ & Ha & Hn & Hd & _). split_and!; (eapply Forall_impl; [eassumption|]);
    intros r (_ & _ & Hr); destruct r; try done; apply Hr.
Qed.
(** The three sections. *)
Definition everywhere (P : DnsRecord.t → Prop) (p : DnsPacket) : Prop :=
  Forall P (answers p) ∧ Forall P (authorities p) ∧ Forall P (resources p).
(** What the query pipeline relies on. *)
Lemma rebind_apply_questions f qname p n p' : rebind_apply f qname p = Ok (n, p') →
  header p' = header p ∧ questions p' = questions p.
Proof.
  unfold rebind_apply. destruct (_ || _); [by intros [= <- <-]|]. cbv zeta.
  destruct (scrub_section _ (answers p)) as [[? ?]|e| |]; cbn [obind]; try done.
  destruct (scrub_section _ (authorities p)) as [[? ?]|e| |]; cbn [obind]; try done.
  destruct (scrub_section _ (resources p)) as [[? ?]|e| |]; cbn [obind]; try done. by intros [= <- <-].
Qed.
Lemma rebind_apply_fields (f : RebindFilter) (qname : bytes) (p : DnsPacket) : packet_fields p →
  ∃ n p', rebind_apply f qname p = Ok (n, p') ∧ packet_fields p' ∧ header p' = header p ∧
    (rebind_enabled f = true → is_allowed f qname = false →
     everywhere (record_public (matcher_matches (ranges f))) p').
Proof.
  intros Hp. pose proof (packet_fields_data p Hp) as (B1 & B2 & B3).
  destruct Hp as (Hh & Hq & Ha & Hn & Hd & He). unfold rebind_apply.
  destruct (rebind_enabled f), (is_allowed f qname) eqn:Hal; cbn [negb orb];
    try (eexists _, _; split; [reflexivity|]; split; [by split_and!|]; by split).
  set (priv := matcher_matches (ranges f)).
  destruct (scrub_section_spec priv _ B1) as (an & n1 & E1 & S1 & _).
  destruct (scrub_section_spec priv _ B2) as (au & n2 & E2 & S2 & _).
  destruct (scrub_section_spec priv _ B3) as (ad & n3 & E3 & S3 & _).
  rewrite E1, E2, E3. cbn [obind]. eexists _, _. split; [reflexivity|].
  split; [split_and!; try done; eauto using scrub_section_ok|]. split; [done|]. intros _ _. by split_and!.
Qed.

(** C26: rebinding protection. Unless it is off or the name is allowlisted, the filtered
    response shows no address of the configured ranges (the default ones when none are
    configured), not in an A or AAAA record nor in an HTTPS or SVCB hint of any section;
    all other records stay, in order and byte for byte; the count is zero exactly when
    nothing changed, and filtering again changes nothing. It always returns. *)
Theorem rebind_apply_spec (enabled : bool) (al : PersistedDomainList) (custom : list bytes)
    (f : RebindFilter) (qname : bytes) (p : DnsPacket) :
  rebind_new enabled al custom = Ok f → packet_bytes p →
  let effective := match custom with [] => DEFAULT_RANGES | _ => custom end in
  let is_private := matcher_matches (ranges f) in
  range_strings f = effective ∧
  (∀ ip, is_private ip = true ↔ Acl.covered effective ip) ∧
  ∃ n p', rebind_apply f qname p = Ok (n, p') ∧
    if enabled && negb (is_allowed f qname) then
      ∃ n1 n2 n3, n = n1 + n2 + n3 ∧
      scrubbed is_private (answers p) (answers p') n1 ∧
      scrubbed is_private (authorities p) (authorities p') n2 ∧
      scrubbed is_private (resources p) (resources p') n3 ∧
      header p' = header p ∧ questions p' = questions p ∧ edns p' = edns p ∧
      (n = 0 ↔ p' = p) ∧ rebind_apply f qname p' = Ok (0, p')
    else n = 0 ∧ p' = p.
Proof.
  intros Hf (B1 & B2 & B3) effective is_private. unfold rebind_new in Hf. fold effective in Hf.
  destruct (matcher_from_entries effective []) as [m| | |] eqn:Hm; cbn [obind] in Hf; try done.
  apply (inj Ok) in Hf as <-. cbn [range_strings ranges] in *. split; [done|]. split.
  { intros ip. unfold is_private. rewrite (matcher_matches_spec _ _ _ ip Hm).
    split; [tauto|]. split; [done|]. by intros (? & ?%elem_of_nil & _). }
  unfold rebind_apply. cbn [rebind_enabled ranges]. fold is_private.
  set (g := {| rebind_enabled := enabled; ranges := m; range_strings := effective;
               rebind_allowlist := al |}) in *.
  destruct enabled, (is_allowed g qname) eqn:Hal; cbn [negb orb andb]; try by eexists _, _.
  destruct (scrub_section_spec is_private _ B1) as (an & n1 & E1 & S1).
  destruct (scrub_section_spec is_private _ B2) as (au & n2 & E2 & S2).
  destruct (scrub_section_spec is_private _ B3) as (ad & n3 & E3 & S3).
  rewrite E1, E2, E3. cbn [obind]. eexists _, _. split; [done|].
  exists n1, n2, n3. cbn. split_and!; try done.
  - destruct S1 as (_ & _ & P1 & N1 & _), S2 as (_ & _ & P2 & N2 & _), S3 as (_ & _ & P3 & N3 & _).
    destruct p as [h q a1 a2 a3 e]. cbn in *. split.
    + intros Hz. f_equal; [apply N1|apply N2|apply N3]; lia.
    + intros Hp. injection Hp as H1 H2 H3. apply N1 in H1. apply N2 in H2. apply N3 in H3. lia.
  - destruct S1 as (_ & _ & _ & _ & I1), S2 as (_ & _ & _ & _ & I2), S3 as (_ & _ & _ & _ & I3).
    by rewrite I1, I2, I3.
Qed.
End rebind.

(** A public name answered with a public and a private address, and with an HTTPS record
    that hints at a private one. *)
Definition sample_answer : DnsPacket :=
  {| header := Header.new; questions := [];
     answers :=
       [DnsRecord.A (str "evil.example") (Ipv4 93 184 216 34) 60;
        DnsRecord.A (str "evil.example") (Ipv4 192 168 0 1) 60;
        DnsRecord.UNKNOWN (str "evil.example") 65 sample_svcb 60];
     authorities := []; resources := []; edns := None |}.

Definition sample_ranges : list bytes := [str "192.168.0.0/16"].

Lemma rebind_apply_spec_witness : ∃ f p',
  @rebind_new sample_net true unpersisted sample_ranges = Ok f ∧
  packet_bytes sample_answer ∧
  @rebind_apply sample_net lowercase_ascii f (str "evil.example") sample_answer = Ok (2, p') ∧
  scrubbed (@matcher_matches sample_net (@ranges sample_net f)) (answers sample_answer)
    (answers p') 2.
Proof.
  set (f := @MkRebind sample_net true
    (@MkMatcher sample_net [(V4 (Ipv4 192 168 0 0), 2)] []) sample_ranges unpersisted).
  assert (Hf : @rebind_new sample_net true unpersisted sample_ranges = Ok f)
    by (vm_compute; reflexivity).
  assert (Hb : packet_bytes sample_answer).
  { assert (Hd : all_bytes sample_svcb) by (apply (bool_decide_unpack _); vm_compute; exact I).
    split; [|split; constructor]. unfold sample_answer. cbn [answers].
    apply Forall_cons; split; [exact I|]. apply Forall_cons; split; [exact I|].
    apply Forall_singleton. exact Hd. }
  destruct (@rebind_apply_spec sample_net lowercase_ascii true unpersisted sample_ranges f
    (str "evil.example") sample_answer Hf Hb) as (_ & _ & n & p' & He & Hif).
  assert (Hal : @is_allowed sample_net lowercase_ascii f (str "evil.example") = false)
    by (vm_compute; reflexivity).
  rewrite Hal in Hif. destruct Hif as (n1 & n2 & n3 & Hn & H1 & H2 & H3 & _).
  exists f, p'. split; [exact Hf|]. split; [exact Hb|].
  assert (Hc : ∃ q, @rebind_apply sample_net lowercase_ascii f (str "evil.example") sample_answer
    = Ok (2, q)) by (eexists; vm_compute; reflexivity).
  destruct Hc as [q Hc]. rewrite He in Hc. injection Hc as Hc _.
  destruct H2 as (_ & _ & _ & Hz2 & _), H3 as (_ & _ & _ & Hz3 & _).
  assert (n2 = 0 ∧ n3 = 0) as [-> ->].
  { split; [apply Hz2|apply Hz3].
    - vm_compute in He. injection He as _ <-. reflexivity.
    - vm_compute in He. injection He as _ <-. reflexivity. }
  assert (n1 = 2) as -> by lia. rewrite Hc in He. split; [exact He|exact H1].
Defined.
