(* ===== verification/Stats.v ===== *)
(** [src/src/stats.rs]: query paths, transports and the query counters. (The process-memory
    probes of that file are calls of the operating system and are not modelled.) *)
From S2P Require Import Prelude.

Module Transport.
Inductive t := Udp | Tcp | Dot | Doh.
Definition as_str (x : t) : bytes :=
  match x with
  | Udp => str "UDP"
  | Tcp => str "TCP"
  | Dot => str "DOT"
  | Doh => str "DOH"
  end.
End Transport.

Module UpstreamTransport.
Inductive t := Udp | Tcp | Doh | Dot | Odoh.
Definition as_str (x : t) : bytes :=
  match x with
  | Udp => str "UDP"
  | Tcp => str "TCP"
  | Doh => str "DOH"
  | Dot => str "DOT"
  | Odoh => str "ODOH"
  end.
End UpstreamTransport.

Module QueryPath.
Inductive t :=
  | Local | Cached | Forwarded | Upstream | Recursive_ | Coalesced | Blocked | Overridden
  | UpstreamError.
Definition as_str (x : t) : bytes :=
  match x with
  | Local => str "LOCAL"
  | Cached => str "CACHED"
  | Forwarded => str "FORWARD"
  | Upstream => str "UPSTREAM"
  | Recursive_ => str "RECURSIVE"
  | Coalesced => str "COALESCED"
  | Blocked => str "BLOCKED"
  | Overridden => str "OVERRIDE"
  | UpstreamError => str "SERVFAIL"
  end.
Definition returns_trusted_local_data (x : t) : bool :=
  match x with
  | Local | Overridden | Blocked => true
  | Cached | Forwarded | Upstream | Recursive_ | Coalesced | UpstreamError => false
  end.
Definition parse_str (s : bytes) : option t :=
  if eq_ignore_ascii_case s (str "LOCAL") then Some Local
  else if eq_ignore_ascii_case s (str "CACHED") then Some Cached
  else if eq_ignore_ascii_case s (str "FORWARD") then Some Forwarded
  else if eq_ignore_ascii_case s (str "UPSTREAM") then Some Upstream
  else if eq_ignore_ascii_case s (str "RECURSIVE") then Some Recursive_
  else if eq_ignore_ascii_case s (str "COALESCED") then Some Coalesced
  else if eq_ignore_ascii_case s (str "BLOCKED") then Some Blocked
  else if eq_ignore_ascii_case s (str "OVERRIDE") then Some Overridden
  else if eq_ignore_ascii_case s (str "SERVFAIL") then Some UpstreamError
  else None.
End QueryPath.

#[export] Instance Transport_eq_dec : EqDecision Transport.t.
Proof. solve_decision. Defined.
#[export] Instance UpstreamTransport_eq_dec : EqDecision UpstreamTransport.t.
Proof. solve_decision. Defined.
#[export] Instance QueryPath_eq_dec : EqDecision QueryPath.t.
Proof. solve_decision. Defined.
#[export] Instance UpstreamTransport_countable : Countable UpstreamTransport.t.
Proof.
  apply (inj_countable'
    (λ x, match x with UpstreamTransport.Udp => 0%nat | UpstreamTransport.Tcp => 1%nat
          | UpstreamTransport.Doh => 2%nat | UpstreamTransport.Dot => 3%nat
          | UpstreamTransport.Odoh => 4%nat end)
    (λ n, match n with 0%nat => UpstreamTransport.Udp | 1%nat => UpstreamTransport.Tcp
          | 2%nat => UpstreamTransport.Doh | 3%nat => UpstreamTransport.Dot
          | _ => UpstreamTransport.Odoh end)).
  by intros [].
Defined.

(** The counters, as unbounded integers: no run of the server counts 2^64 queries. *)
Record ServerStats := MkStats {
  queries_total : Z;
  queries_forwarded : Z;
  queries_upstream : Z;
  queries_recursive : Z;
  queries_coalesced : Z;
  queries_cached : Z;
  queries_blocked : Z;
  queries_local : Z;
  queries_overridden : Z;
  upstream_errors : Z;
  transport_udp : Z;
  transport_tcp : Z;
  transport_dot : Z;
  transport_doh : Z;
  upstream_transport_udp : Z;
  upstream_transport_tcp : Z;
  upstream_transport_doh : Z;
  upstream_transport_dot : Z;
  upstream_transport_odoh : Z;
  proxy_v2_accepted : Z;
  proxy_v2_rejected_untrusted : Z;
  proxy_v2_rejected_signature : Z;
  proxy_v2_local_command : Z;
  proxy_v2_timeout : Z;
  rebind_stripped : Z;
  started_at : Z;
}.

Definition stats_new (now : Z) : ServerStats :=
  {| queries_total := 0; queries_forwarded := 0; queries_upstream := 0; queries_recursive := 0;
     queries_coalesced := 0; queries_cached := 0; queries_blocked := 0; queries_local := 0;
     queries_overridden := 0; upstream_errors := 0; transport_udp := 0; transport_tcp := 0;
     transport_dot := 0; transport_doh := 0; upstream_transport_udp := 0;
     upstream_transport_tcp := 0; upstream_transport_doh := 0; upstream_transport_dot := 0;
     upstream_transport_odoh := 0; proxy_v2_accepted := 0; proxy_v2_rejected_untrusted := 0;
     proxy_v2_rejected_signature := 0; proxy_v2_local_command := 0; proxy_v2_timeout := 0;
     rebind_stripped := 0; started_at := now |}.

(** The fields of the stats, in order: the updates below write one of them. *)
Inductive field :=
  | Ftotal | Fforwarded | Fupstream | Frecursive | Fcoalesced | Fcached | Fblocked | Flocal
  | Foverridden | Ferrors | Fudp | Ftcp | Fdot | Fdoh | Fup_udp | Fup_tcp | Fup_doh | Fup_dot
  | Fup_odoh | Faccepted | Funtrusted | Fsignature | Flocal_command | Ftimeout | Frebind.
#[export] Instance field_eq_dec : EqDecision field.
Proof. solve_decision. Defined.

(** [self.f += 1]. *)
Definition bump (f : field) (s : ServerStats) : ServerStats :=
  let inc g v := if bool_decide (f = g) then v + 1 else v in
  {| queries_total := inc Ftotal (queries_total s);
     queries_forwarded := inc Fforwarded (queries_forwarded s);
     queries_upstream := inc Fupstream (queries_upstream s);
     queries_recursive := inc Frecursive (queries_recursive s);
     queries_coalesced := inc Fcoalesced (queries_coalesced s);
     queries_cached := inc Fcached (queries_cached s);
     queries_blocked := inc Fblocked (queries_blocked s);
     queries_local := inc Flocal (queries_local s);
     queries_overridden := inc Foverridden (queries_overridden s);
     upstream_errors := inc Ferrors (upstream_errors s);
     transport_udp := inc Fudp (transport_udp s);
     transport_tcp := inc Ftcp (transport_tcp s);
     transport_dot := inc Fdot (transport_dot s);
     transport_doh := inc Fdoh (transport_doh s);
     upstream_transport_udp := inc Fup_udp (upstream_transport_udp s);
     upstream_transport_tcp := inc Fup_tcp (upstream_transport_tcp s);
     upstream_transport_doh := inc Fup_doh (upstream_transport_doh s);
     upstream_transport_dot := inc Fup_dot (upstream_transport_dot s);
     upstream_transport_odoh := inc Fup_odoh (upstream_transport_odoh s);
     proxy_v2_accepted := inc Faccepted (proxy_v2_accepted s);
     proxy_v2_rejected_untrusted := inc Funtrusted (proxy_v2_rejected_untrusted s);
     proxy_v2_rejected_signature := inc Fsignature (proxy_v2_rejected_signature s);
     proxy_v2_local_command := inc Flocal_command (proxy_v2_local_command s);
     proxy_v2_timeout := inc Ftimeout (proxy_v2_timeout s);
     rebind_stripped := inc Frebind (rebind_stripped s);
     started_at := started_at s |}.

Definition record_rebind_stripped (s : ServerStats) : ServerStats := bump Frebind s.

Definition path_field (p : QueryPath.t) : field :=
  match p with
  | QueryPath.Local => Flocal
  | QueryPath.Cached => Fcached
  | QueryPath.Forwarded => Fforwarded
  | QueryPath.Upstream => Fupstream
  | QueryPath.Recursive_ => Frecursive
  | QueryPath.Coalesced => Fcoalesced
  | QueryPath.Blocked => Fblocked
  | QueryPath.Overridden => Foverridden
  | QueryPath.UpstreamError => Ferrors
  end.
Definition transport_field (t : Transport.t) : field :=
  match t with
  | Transport.Udp => Fudp
  | Transport.Tcp => Ftcp
  | Transport.Dot => Fdot
  | Transport.Doh => Fdoh
  end.
Definition upstream_field (t : UpstreamTransport.t) : field :=
  match t with
  | UpstreamTransport.Udp => Fup_udp
  | UpstreamTransport.Tcp => Fup_tcp
  | UpstreamTransport.Doh => Fup_doh
  | UpstreamTransport.Dot => Fup_dot
  | UpstreamTransport.Odoh => Fup_odoh
  end.

Definition record (path : QueryPath.t) (transport : Transport.t)
    (upstream_transport : option UpstreamTransport.t) (s : ServerStats) : Z * ServerStats :=
  let s := bump Ftotal s in
  let s := bump (path_field path) s in
  let s := bump (transport_field transport) s in
  let s := match upstream_transport with Some ut => bump (upstream_field ut) s | None => s end in
  (queries_total s, s).

Definition total (s : ServerStats) : Z := queries_total s.

(** [SystemTime::elapsed], zero when the clock went back, in seconds. *)
Definition uptime_secs (now : Z) (s : ServerStats) : Z :=
  Z.max 0 (now - started_at s) / 1000000000.

Record StatsSnapshot := MkSnapshot {
  snap_uptime_secs : Z;
  snap_total : Z;
  snap_forwarded : Z;
  snap_upstream : Z;
  snap_recursive : Z;
  snap_coalesced : Z;
  snap_cached : Z;
  snap_local : Z;
  snap_overridden : Z;
  snap_blocked : Z;
  snap_errors : Z;
  snap_transport_udp : Z;
  snap_transport_tcp : Z;
  snap_transport_dot : Z;
  snap_transport_doh : Z;
  snap_upstream_transport_udp : Z;
  snap_upstream_transport_tcp : Z;
  snap_upstream_transport_doh : Z;
  snap_upstream_transport_dot : Z;
  snap_upstream_transport_odoh : Z;
  snap_proxy_v2_accepted : Z;
  snap_proxy_v2_rejected_untrusted : Z;
  snap_proxy_v2_rejected_signature : Z;
  snap_proxy_v2_local_command : Z;
  snap_proxy_v2_timeout : Z;
  snap_rebind_stripped : Z;
}.

Definition snapshot (now : Z) (s : ServerStats) : StatsSnapshot :=
  {| snap_uptime_secs := uptime_secs now s;
     snap_total := queries_total s;
     snap_forwarded := queries_forwarded s;
     snap_upstream := queries_upstream s;
     snap_recursive := queries_recursive s;
     snap_coalesced := queries_coalesced s;
     snap_cached := queries_cached s;
     snap_local := queries_local s;
     snap_overridden := queries_overridden s;
     snap_blocked := queries_blocked s;
     snap_errors := upstream_errors s;
     snap_transport_udp := transport_udp s;
     snap_transport_tcp := transport_tcp s;
     snap_transport_dot := transport_dot s;
     snap_transport_doh := transport_doh s;
     snap_upstream_transport_udp := upstream_transport_udp s;
     snap_upstream_transport_tcp := upstream_transport_tcp s;
     snap_upstream_transport_doh := upstream_transport_doh s;
     snap_upstream_transport_dot := upstream_transport_dot s;
     snap_upstream_transport_odoh := upstream_transport_odoh s;
     snap_proxy_v2_accepted := proxy_v2_accepted s;
     snap_proxy_v2_rejected_untrusted := proxy_v2_rejected_untrusted s;
     snap_proxy_v2_rejected_signature := proxy_v2_rejected_signature s;
     snap_proxy_v2_local_command := proxy_v2_local_command s;
     snap_proxy_v2_timeout := proxy_v2_timeout s;
     snap_rebind_stripped := rebind_stripped s |}.

(** The counters of a snapshot by what they count. *)
Definition snap_paths (x : StatsSnapshot) (p : QueryPath.t) : Z :=
  match p with
  | QueryPath.Forwarded => snap_forwarded x
  | QueryPath.Upstream => snap_upstream x
  | QueryPath.Recursive_ => snap_recursive x
  | QueryPath.Coalesced => snap_coalesced x
  | QueryPath.Cached => snap_cached x
  | QueryPath.Local => snap_local x
  | QueryPath.Overridden => snap_overridden x
  | QueryPath.Blocked => snap_blocked x
  | QueryPath.UpstreamError => snap_errors x
  end.
Definition snap_transports (x : StatsSnapshot) (t : Transport.t) : Z :=
  match t with
  | Transport.Udp => snap_transport_udp x
  | Transport.Tcp => snap_transport_tcp x
  | Transport.Dot => snap_transport_dot x
  | Transport.Doh => snap_transport_doh x
  end.
Definition snap_upstreams (x : StatsSnapshot) (t : UpstreamTransport.t) : Z :=
  match t with
  | UpstreamTransport.Udp => snap_upstream_transport_udp x
  | UpstreamTransport.Tcp => snap_upstream_transport_tcp x
  | UpstreamTransport.Doh => snap_upstream_transport_doh x
  | UpstreamTransport.Dot => snap_upstream_transport_dot x
  | UpstreamTransport.Odoh => snap_upstream_transport_odoh x
  end.

(** * What is counted *)

Definition all_paths : list QueryPath.t :=
  [QueryPath.Local; QueryPath.Cached; QueryPath.Forwarded; QueryPath.Upstream;
   QueryPath.Recursive_; QueryPath.Coalesced; QueryPath.Blocked; QueryPath.Overridden;
   QueryPath.UpstreamError].
Definition all_transports : list Transport.t :=
  [Transport.Udp; Transport.Tcp; Transport.Dot; Transport.Doh].
Definition all_upstream : list UpstreamTransport.t :=
  [UpstreamTransport.Udp; UpstreamTransport.Tcp; UpstreamTransport.Doh; UpstreamTransport.Dot;
   UpstreamTransport.Odoh].
Definition sum (l : list Z) : Z := fold_right Z.add 0 l.

(** A query, as it is reported to [record]. *)
Definition event : Type := QueryPath.t * Transport.t * option UpstreamTransport.t.
Definition record_event (s : ServerStats) (e : event) : ServerStats :=
  let '(p, t, u) := e in snd (record p t u s).
Definition count (P : event → bool) (es : list event) : Z := len (List.filter P es).

Lemma count_cons P e es : count P (e :: es) = (if P e then 1 else 0) + count P es.
Proof. unfold count. cbn. destruct (P e); rewrite ?len_cons; lia. Qed.

(** Evaluate the tests between constants. *)
Ltac eval_tests :=
  repeat match goal with
  | |- context [bool_decide ?P] =>
      let b := eval vm_compute in (bool_decide P) in change (bool_decide P) with b
  end; cbn -[Z.add count].
Ltac tests_lia := cbn -[Z.add count bool_decide]; eval_tests; try reflexivity; lia.

(** Counts of the rest of a sequence are just numbers. *)
Ltac counts := repeat match goal with |- context [count ?P ?es] => generalize (count P es); intros ? end.

(** One more count of a field shows where that field is copied. *)
Lemma bump_paths now f s q : snap_paths (snapshot now (bump f s)) q =
  snap_paths (snapshot now s) q + (if bool_decide (f = path_field q) then 1 else 0).
Proof. destruct q; cbn -[Z.add bool_decide]; case_bool_decide; lia. Qed.
Lemma bump_transports now f s q : snap_transports (snapshot now (bump f s)) q =
  snap_transports (snapshot now s) q + (if bool_decide (f = transport_field q) then 1 else 0).
Proof. destruct q; cbn -[Z.add bool_decide]; case_bool_decide; lia. Qed.
Lemma bump_upstream now f s q : snap_upstreams (snapshot now (bump f s)) q =
  snap_upstreams (snapshot now s) q + (if bool_decide (f = upstream_field q) then 1 else 0).
Proof. destruct q; cbn -[Z.add bool_decide]; case_bool_decide; lia. Qed.
Lemma bump_total now f s : snap_total (snapshot now (bump f s)) =
  snap_total (snapshot now s) + (if bool_decide (f = Ftotal) then 1 else 0).
Proof. cbn -[Z.add bool_decide]. case_bool_decide; lia. Qed.

(** What one query adds. *)
Lemma record_event_shows now s p t u :
  let s1 := snapshot now (record_event s (p, t, u)) in
  let s0 := snapshot now s in
  snap_total s1 = snap_total s0 + 1 ∧
  (∀ q, snap_paths s1 q = snap_paths s0 q + (if bool_decide (p = q) then 1 else 0)) ∧
  (∀ q, snap_transports s1 q = snap_transports s0 q + (if bool_decide (t = q) then 1 else 0)) ∧
  (∀ q, snap_upstreams s1 q = snap_upstreams s0 q + (if bool_decide (u = Some q) then 1 else 0)).
Proof.
  cbn zeta. unfold record_event, record. cbn [snd]. split_and!.
  - destruct u; rewrite !bump_total; destruct p, t; try (destruct t0); tests_lia.
  - intros q. destruct u as [u|]; rewrite !bump_paths.
    + rewrite (bool_decide_eq_false_2 (upstream_field u = _)) by (by destruct u, q).
      rewrite (bool_decide_eq_false_2 (transport_field t = _)) by (by destruct t, q).
      destruct p, q; tests_lia.
    + rewrite (bool_decide_eq_false_2 (transport_field t = _)) by (by destruct t, q).
      destruct p, q; tests_lia.
  - intros q. destruct u as [u|]; rewrite !bump_transports.
    + rewrite (bool_decide_eq_false_2 (upstream_field u = _)) by (by destruct u, q).
      rewrite (bool_decide_eq_false_2 (path_field p = _)) by (by destruct p, q).
      destruct t, q; tests_lia.
    + rewrite (bool_decide_eq_false_2 (path_field p = _)) by (by destruct p, q).
      destruct t, q; tests_lia.
  - intros q. destruct u as [u|]; rewrite !bump_upstream;
      rewrite (bool_decide_eq_false_2 (path_field p = _)) by (by destruct p, q);
      rewrite (bool_decide_eq_false_2 (transport_field t = _)) by (by destruct t, q).
    + destruct u, q; tests_lia.
    + destruct q; tests_lia.
Qed.

Lemma fold_events now s es :
  let s' := snapshot now (fold_left record_event es s) in
  let s0 := snapshot now s in
  snap_total s' = snap_total s0 + len es ∧
  (∀ p, snap_paths s' p = snap_paths s0 p + count (λ e, bool_decide (fst (fst e) = p)) es) ∧
  (∀ t, snap_transports s' t = snap_transports s0 t + count (λ e, bool_decide (snd (fst e) = t)) es) ∧
  (∀ u, snap_upstreams s' u = snap_upstreams s0 u + count (λ e, bool_decide (snd e = Some u)) es).
Proof.
  cbn zeta. revert s. induction es as [|[[p t] u] es IH]; intros s.
  - unfold count. cbn [fold_left List.filter]. rewrite len_nil.
    split_and!; try done; intros; lia.
  - cbn [fold_left]. destruct (IH (record_event s (p, t, u))) as (H1 & H2 & H3 & H4).
    destruct (record_event_shows now s p t u) as (J1 & J2 & J3 & J4).
    rewrite H1, len_cons, J1. split_and!; [lia| | |].
    + intros q. rewrite H2, count_cons, J2. cbn [fst snd]. lia.
    + intros q. rewrite H3, count_cons, J3. cbn [fst snd]. lia.
    + intros q. rewrite H4, count_cons, J4. cbn [fst snd]. lia.
Qed.

Lemma sum_count_paths es :
  sum (map (λ p, count (λ e : event, bool_decide (fst (fst e) = p)) es) all_paths) = len es.
Proof.
  induction es as [|[[p t] u] es IH]; [done|]. rewrite len_cons. rewrite <- IH.
  unfold all_paths, sum. cbn [map fold_right]. rewrite !count_cons. cbn [fst].
  counts. destruct p; tests_lia.
Qed.
Lemma sum_count_transports es :
  sum (map (λ t, count (λ e : event, bool_decide (snd (fst e) = t)) es) all_transports) = len es.
Proof.
  induction es as [|[[p t] u] es IH]; [done|]. rewrite len_cons. rewrite <- IH.
  unfold all_transports, sum. cbn [map fold_right]. rewrite !count_cons. cbn [fst snd].
  counts. destruct t; tests_lia.
Qed.
Lemma sum_count_upstream es :
  sum (map (λ u, count (λ e : event, bool_decide (snd e = Some u)) es) all_upstream) =
  count (λ e : event, bool_decide (snd e ≠ None)) es.
Proof.
  induction es as [|[[p t] u] es IH]; [done|]. rewrite count_cons, <- IH.
  unfold all_upstream, sum. cbn [map fold_right]. rewrite !count_cons. cbn [fst snd].
  counts. destruct u as [[]|]; tests_lia.
Qed.

(** The query counters count. After any sequence of queries the snapshot shows for
    every path, transport and upstream transport exactly the number of queries reported
    for it; the paths, and the transports, add up to the total, and the upstream
    transports to the queries that reached a forwarder. *)
Theorem stats_count (start now : Z) (es : list event) :
  let s := snapshot now (fold_left record_event es (stats_new start)) in
  snap_total s = len es ∧
  (∀ p, snap_paths s p = count (λ e, bool_decide (fst (fst e) = p)) es) ∧
  (∀ t, snap_transports s t = count (λ e, bool_decide (snd (fst e) = t)) es) ∧
  (∀ u, snap_upstreams s u = count (λ e, bool_decide (snd e = Some u)) es) ∧
  sum (map (snap_paths s) all_paths) = snap_total s ∧
  sum (map (snap_transports s) all_transports) = snap_total s ∧
  sum (map (snap_upstreams s) all_upstream) = count (λ e, bool_decide (snd e ≠ None)) es.
Proof.
  intros s. destruct (fold_events now (stats_new start) es) as (H1 & H2 & H3 & H4).
  fold s in H1, H2, H3, H4. cbn [stats_new snapshot snap_total snap_paths snap_transports
    snap_upstreams queries_total] in *.
  assert (J1 : snap_total s = len es) by (rewrite H1; tests_lia).
  assert (J2 : ∀ p, snap_paths s p = count (λ e, bool_decide (fst (fst e) = p)) es)
    by (intros p; rewrite H2; destruct p; tests_lia).
  assert (J3 : ∀ t, snap_transports s t = count (λ e, bool_decide (snd (fst e) = t)) es)
    by (intros t; rewrite H3; destruct t; tests_lia).
  assert (J4 : ∀ u, snap_upstreams s u = count (λ e, bool_decide (snd e = Some u)) es)
    by (intros u; rewrite H4; destruct u; tests_lia).
  split_and!; try done.
  - rewrite J1, <- (sum_count_paths es). f_equal. apply map_ext. intros ?. auto.
  - rewrite J1, <- (sum_count_transports es). f_equal. apply map_ext. intros ?. auto.
  - rewrite <- (sum_count_upstream es). f_equal. apply map_ext. intros ?. auto.
Qed.

(** The text names of the query paths: a text is read as a path exactly when it is the
    path's name, letter case aside; in particular every printed name is read back. *)
Theorem query_path_text (s : bytes) (p : QueryPath.t) :
  QueryPath.parse_str s = Some p ↔ ascii_lower s = ascii_lower (QueryPath.as_str p).
Proof.
  unfold QueryPath.parse_str, eq_ignore_ascii_case. split.
  - repeat (case_bool_decide; [intros [= <-]; assumption|]). done.
  - intros Hs. rewrite Hs. destruct p; reflexivity.
Qed.
