(* ===== verification/Srtt.v ===== *)
(** [src/src/srtt.rs]: smoothed round-trip times per server address and transport, with
    decay of stale values, failure penalties and bounded size. *)
From S2P Require Import Prelude Net Ip Stats.
From stdpp Require Import sorting.
Open Scope Z_scope.

Definition INITIAL_SRTT_MS : Z := 200.
Definition FAILURE_PENALTY_MS : Z := 5000.
Definition DECAY_AFTER_SECS : Z := 300.
Definition MAX_ENTRIES : nat := Z.to_nat 4096.
Definition EVICT_BATCH : nat := 64.
Definition PRIMARY_SKIP_SRTT_MS : Z := 4000.

(** Instants are in nanoseconds. *)
Record SrttEntry := MkSrtt { srtt_ms : Z; updated_at : Z }.
Abbreviation key := (IpAddr * UpstreamTransport.t)%type.
Abbreviation srtt_map := (gmap key SrttEntry).

Record SrttCache := MkSrttCache { entries : srtt_map; enabled : bool }.

Definition srtt_new (enabled : bool) : SrttCache := {| entries := ∅; enabled := enabled |}.

(** [elapsed().as_secs()]: zero when the instant is in the future. *)
Definition elapsed_secs (now at_ : Z) : Z := Z.max 0 (now - at_) / 1000000000.

Fixpoint halve (n : nat) (srtt : Z) : Z :=
  match n with
  | O => srtt
  | S n => halve n (as_u64 (srtt + INITIAL_SRTT_MS) / 2)
  end.
Definition decay_for_age (srtt_ms age_secs : Z) : Z :=
  if DECAY_AFTER_SECS <? age_secs then
    let periods := Z.min (age_secs / DECAY_AFTER_SECS) 8 in
    halve (Z.to_nat periods) srtt_ms
  else srtt_ms.
Definition decayed_srtt (now : Z) (e : SrttEntry) : Z :=
  decay_for_age (srtt_ms e) (elapsed_secs now (updated_at e)).

Definition get (now : Z) (ip : IpAddr) (t : UpstreamTransport.t) (c : SrttCache) : Z :=
  match entries c !! (ip, t) with
  | Some e => decayed_srtt now e
  | None => INITIAL_SRTT_MS
  end.
Definition is_known (ip : IpAddr) (t : UpstreamTransport.t) (c : SrttCache) : bool :=
  match entries c !! (ip, t) with Some _ => true | None => false end.

(** [keys] is the iteration order of the hash map, which Rust leaves unspecified. *)
Section operations.
Context (keys : srtt_map → list key).

Definition age_key (m : srtt_map) (k : key) : Z :=
  match m !! k with Some e => updated_at e | None => 0 end.
Definition maybe_evict (c : SrttCache) : SrttCache :=
  if (size (entries c) <? MAX_ENTRIES)%nat then c
  else
    let by_age := sort_by_key (age_key (entries c)) (keys (entries c)) in
    {| entries := foldr delete (entries c) (take EVICT_BATCH by_age); enabled := enabled c |}.

Definition record_rtt (now : Z) (ip : IpAddr) (t : UpstreamTransport.t) (rtt_ms : Z)
    (c : SrttCache) : SrttCache :=
  if negb (enabled c) then c
  else
    let c := maybe_evict c in
    let entry := default {| srtt_ms := rtt_ms; updated_at := now |} (entries c !! (ip, t)) in
    let base := decayed_srtt now entry in
    let entry := {| srtt_ms := as_u64 (base * 7 + rtt_ms) / 8; updated_at := now |} in
    {| entries := <[(ip, t) := entry]> (entries c); enabled := enabled c |}.

Definition record_failure (now : Z) (ip : IpAddr) (t : UpstreamTransport.t) (c : SrttCache)
    : SrttCache :=
  if negb (enabled c) then c
  else
    let c := maybe_evict c in
    {| entries := <[(ip, t) := {| srtt_ms := FAILURE_PENALTY_MS; updated_at := now |}]> (entries c);
       enabled := enabled c |}.
End operations.

Definition sort_by_udp_rtt (now : Z) (c : SrttCache) (addrs : list SocketAddr) : list SocketAddr :=
  if negb (enabled c) then addrs
  else sort_by_key (λ a, get now (ip a) UpstreamTransport.Udp c) addrs.

Definition srtt_len (c : SrttCache) : nat := size (entries c).
Definition srtt_is_empty (c : SrttCache) : bool := bool_decide (entries c = ∅).

(** * Decay *)

(** The values of interest: round-trip times up to [B], far below what overflows. *)
Definition in_range (B s : Z) : Prop := 0 ≤ s ≤ B.

Lemma halve_bounds n B s : 200 ≤ B < 2 ^ 60 → in_range B s →
  in_range B (halve n s) ∧ Z.min s 200 ≤ halve n s ≤ Z.max s 200.
Proof.
  revert s. induction n as [|n IH]; intros s HB Hs; cbn [halve].
  - unfold in_range in *. lia.
  - unfold INITIAL_SRTT_MS, as_u64, in_range in *. rewrite Z.mod_small by lia.
    destruct (IH ((s + 200) / 2)) as [H1 H2]; [done|div_lia|]. split; [done|div_lia].
Qed.

Lemma decay_bounds B s age : 200 ≤ B < 2 ^ 60 → in_range B s →
  in_range B (decay_for_age s age) ∧ Z.min s 200 ≤ decay_for_age s age ≤ Z.max s 200.
Proof.
  intros HB Hs. unfold decay_for_age. destruct (_ <? _); [by apply halve_bounds|].
  unfold in_range in *. lia.
Qed.

(** Each period halves the distance to the initial value (rounding down). *)
Lemma halve_distance n s : 0 ≤ s < 2 ^ 60 →
  Z.abs (halve n s - 200) * 2 ^ Z.of_nat n ≤ Z.abs (s - 200) + 2 ^ Z.of_nat n - 1.
Proof.
  revert s. induction n as [|n IH]; intros s Hs; cbn [halve].
  - change (2 ^ Z.of_nat 0) with 1. lia.
  - unfold INITIAL_SRTT_MS, as_u64. rewrite Z.mod_small by lia.
    specialize (IH ((s + 200) / 2) ltac:(div_lia)).
    rewrite Nat2Z.inj_succ, Z.pow_succ_r by lia.
    assert (Hd : 2 * Z.abs ((s + 200) / 2 - 200) ≤ Z.abs (s - 200) + 1) by div_lia. lia.
Qed.

Lemma ewma_bounds B b r : 0 ≤ B < 2 ^ 60 → in_range B b → in_range B r →
  in_range B (as_u64 (b * 7 + r) / 8) ∧ Z.min b r ≤ as_u64 (b * 7 + r) / 8 ≤ Z.max b r.
Proof.
  unfold in_range, as_u64. intros HB Hb Hr. rewrite Z.mod_small by lia. split; div_lia.
Qed.

(** * Eviction *)

Section cache.
Context (keys : srtt_map → list key)
  (keys_spec : ∀ m, keys m ≡ₚ elements (dom m)).

Lemma foldr_delete_lookup (m : srtt_map) ks k :
  foldr delete m ks !! k = if bool_decide (k ∈ ks) then None else m !! k.
Proof.
  induction ks as [|x ks IH]; cbn.
  - rewrite bool_decide_eq_false_2; [done|]. apply not_elem_of_nil.
  - destruct (decide (x = k)) as [->|Hne].
    + rewrite lookup_delete_eq, bool_decide_eq_true_2; [done|]. by left.
    + rewrite lookup_delete_ne, IH by done.
      assert (Hd : bool_decide (k ∈ x :: ks) = bool_decide (k ∈ ks)); [|by rewrite Hd].
      apply bool_decide_ext. rewrite elem_of_cons. split; [by intros [->|]|by right].
Qed.

Lemma keys_nodup m : NoDup (keys m).
Proof. rewrite keys_spec. apply NoDup_elements. Qed.

Lemma keys_elem m k : k ∈ keys m ↔ is_Some (m !! k).
Proof. by rewrite keys_spec, elem_of_elements, elem_of_dom. Qed.

Lemma size_foldr_delete (m : srtt_map) ks : NoDup ks → (∀ k, k ∈ ks → is_Some (m !! k)) →
  size (foldr delete m ks) = (size m - length ks)%nat.
Proof.
  induction 1 as [|k ks Hk Hnd IH]; intros Hin; cbn; [lia|].
  rewrite map_size_delete, foldr_delete_lookup, bool_decide_eq_false_2 by done.
  destruct (Hin k) as [e ->]; [by left|]. rewrite IH; [lia|]. intros k' Hk'. apply Hin. by right.
Qed.

Lemma elem_of_take_sub {A} n (x : A) l : x ∈ take n l → x ∈ l.
Proof. intros Hx. rewrite <- (take_drop n l). apply elem_of_app. by left. Qed.

(** Eviction drops the oldest entries, a batch of them, and only when the map is full. *)
Lemma maybe_evict_spec c : (size (entries c) ≤ MAX_ENTRIES)%nat →
  let c' := maybe_evict keys c in
  enabled c' = enabled c ∧ (size (entries c') < MAX_ENTRIES)%nat ∧
  (∀ k e, entries c' !! k = Some e → entries c !! k = Some e) ∧
  (∀ k e k' e', entries c !! k = Some e → entries c' !! k = None →
     entries c' !! k' = Some e' → updated_at e ≤ updated_at e') ∧
  ((size (entries c) < MAX_ENTRIES)%nat → c' = c).
Proof.
  intros Hsz. unfold maybe_evict. cbn zeta. destruct (Nat.ltb_spec (size (entries c)) MAX_ENTRIES) as [Hlt|Hge].
  - split_and!; try done. intros k e k' e'. congruence.
  - cbn [entries enabled]. set (m := entries c) in *.
    set (s := sort_by_key (age_key m) (keys m)).
    assert (Hp : s ≡ₚ keys m) by apply sort_by_key_perm.
    assert (Hnd : NoDup s) by (rewrite Hp; apply keys_nodup).
    assert (Hin : ∀ k, k ∈ s ↔ is_Some (m !! k)) by (intros k; rewrite Hp; apply keys_elem).
    assert (Hls : length s = size m).
    { rewrite Hp, keys_spec. change (length (elements (dom m))) with (size (dom m)). apply size_dom. }
    rewrite <- (take_drop EVICT_BATCH s) in Hnd. apply NoDup_app in Hnd as (Hnd & _ & _).
    split_and!; [done| | | |lia].
    + rewrite size_foldr_delete; [|done|].
      * rewrite length_take, Hls. unfold MAX_ENTRIES, EVICT_BATCH in *. lia.
      * intros k Hk. apply Hin. by eapply elem_of_take_sub.
    + intros k e. rewrite foldr_delete_lookup. by case_bool_decide.
    + intros k e k' e' Hk Hd Hk'. rewrite foldr_delete_lookup in Hd, Hk'.
      destruct (bool_decide_reflect (k ∈ take EVICT_BATCH s)) as [Hkt|]; [|congruence].
      destruct (bool_decide_reflect (k' ∈ take EVICT_BATCH s)) as [|Hkt']; [done|].
      assert (Hsd : k' ∈ drop EVICT_BATCH s).
      { assert (Hs : k' ∈ s) by (apply Hin; by eexists).
        rewrite <- (take_drop EVICT_BATCH s), elem_of_app in Hs. by destruct Hs. }
      pose proof (sort_by_key_sorted (age_key m) (keys m)) as Hss. fold s in Hss.
      rewrite <- (take_drop EVICT_BATCH s) in Hss.
      pose proof (StronglySorted_app_1_elem_of _ _ _ _ _ Hss Hkt Hsd) as Hle.
      unfold age_key in Hle. by rewrite Hk, Hk' in Hle.
Qed.

Lemma decayed_now now s : decayed_srtt now {| srtt_ms := s; updated_at := now |} = s.
Proof.
  unfold decayed_srtt, decay_for_age, elapsed_secs, DECAY_AFTER_SECS. cbn [updated_at srtt_ms].
  rewrite Z.sub_diag. done.
Qed.

(** * Reachable states *)

(** The operations, with the clock value each one read. *)
Inductive srtt_step (B : Z) : SrttCache → SrttCache → Prop :=
  | step_rtt now ip t rtt c : in_range B rtt → srtt_step B c (record_rtt keys now ip t rtt c)
  | step_failure now ip t c : srtt_step B c (record_failure keys now ip t c).

Definition srtt_ok (B : Z) (c : SrttCache) : Prop :=
  (size (entries c) ≤ MAX_ENTRIES)%nat ∧
  map_Forall (λ _ e, in_range B (srtt_ms e)) (entries c) ∧
  (enabled c = false → entries c = ∅).

Lemma get_bounds B now ip t c : FAILURE_PENALTY_MS ≤ B < 2 ^ 60 → srtt_ok B c →
  in_range B (get now ip t c).
Proof.
  unfold FAILURE_PENALTY_MS. intros HB (_ & Hr & _). unfold get.
  destruct (entries c !! (ip, t)) as [e|] eqn:He; [|unfold in_range, INITIAL_SRTT_MS; lia].
  apply decay_bounds; [lia|]. by apply (Hr (ip, t)).
Qed.

Lemma insert_evicted_ok B c k e : srtt_ok B c → in_range B (srtt_ms e) →
  enabled c = true →
  srtt_ok B {| entries := <[k := e]> (entries (maybe_evict keys c));
               enabled := enabled (maybe_evict keys c) |}.
Proof.
  intros (Hsz & Hr & Hdis) He Hen. destruct (maybe_evict_spec c Hsz) as (E & S & K & _ & _).
  split_and!; cbn [entries enabled].
  - rewrite map_size_insert. destruct (entries (maybe_evict keys c) !! k); cbn; lia.
  - apply map_Forall_insert_2; [done|]. intros k' e' Hk'. by apply (Hr k'), K.
  - rewrite E. congruence.
Qed.

Lemma srtt_step_ok B c c' : FAILURE_PENALTY_MS ≤ B < 2 ^ 60 → srtt_step B c c' →
  srtt_ok B c → srtt_ok B c' ∧ enabled c' = enabled c.
Proof.
  unfold FAILURE_PENALTY_MS. intros HB Hs Hok. pose proof Hok as (Hsz & Hr & _).
  destruct (maybe_evict_spec c Hsz) as (E & _ & K & _ & _).
  destruct Hs as [now ip t rtt c Hrtt|now ip t c]; [unfold record_rtt|unfold record_failure];
    (destruct (enabled c) eqn:Hen; cbn [negb]; [|by split]); (split; [|by cbn; rewrite E]).
  - apply insert_evicted_ok; [done| |done]. cbn [srtt_ms]. apply ewma_bounds; [lia| |done].
    apply decay_bounds; [lia|].
    destruct (entries (maybe_evict keys c) !! (ip, t)) as [e|] eqn:He; cbn; [|done].
    by apply (Hr (ip, t)), K.
  - apply insert_evicted_ok; [done| |done]. unfold in_range, FAILURE_PENALTY_MS. cbn. lia.
Qed.

Lemma srtt_new_ok B on : srtt_ok B (srtt_new on).
Proof. split_and!; cbn; [rewrite map_size_empty; lia|apply map_Forall_empty|done]. Qed.

(** The state of the cache, over any sequence of operations with round-trip times up
    to [B]: at most 4096 entries, no value above [B] (so that no arithmetic overflows),
    and nothing is ever recorded while it is disabled. *)
Theorem srtt_reachable (B : Z) (on : bool) (c : SrttCache) :
  FAILURE_PENALTY_MS ≤ B < 2 ^ 60 → rtc (srtt_step B) (srtt_new on) c →
  (srtt_len c ≤ 4096)%nat ∧
  (∀ now ip t, 0 ≤ get now ip t c ≤ B) ∧
  (on = false → ∀ now ip t, get now ip t c = INITIAL_SRTT_MS).
Proof.
  intros HB Hr.
  assert (Hok : srtt_ok B c ∧ enabled c = on).
  { revert Hr. generalize (eq_refl (enabled (srtt_new on))).
    generalize (srtt_new_ok B on). change on with (enabled (srtt_new on)) at 3 5. generalize (srtt_new on) at 1 2 3 4 5.
    intros c0 Hok _ Hr. induction Hr as [c|c c1 c2 Hs Hr IH]; [by split|].
    destruct (srtt_step_ok B c c1 HB Hs Hok) as [Hok1 <-]. by apply IH. }
  destruct Hok as [Hok Hen]. split_and!.
  - destruct Hok as (Hsz & _). unfold srtt_len. unfold MAX_ENTRIES in Hsz. lia.
  - intros. by apply get_bounds.
  - intros Hon now ip t. destruct Hok as (_ & _ & Hd). unfold get.
    rewrite (Hd ltac:(congruence)). by rewrite lookup_empty.
Qed.

(** The failover circuit breaker. A failure puts the server at or above the skip
    threshold for the next 300 seconds exactly: afterwards, without another report, the
    decayed value is below it, and it never falls below the value of an unknown server. *)
Theorem circuit_breaker (now later : Z) (ip : IpAddr) (t : UpstreamTransport.t) (c : SrttCache) :
  enabled c = true → now ≤ later →
  let s := get later ip t (record_failure keys now ip t c) in
  (PRIMARY_SKIP_SRTT_MS ≤ s ↔ elapsed_secs later now ≤ DECAY_AFTER_SECS) ∧
  INITIAL_SRTT_MS ≤ s ≤ FAILURE_PENALTY_MS.
Proof.
  intros Hen Hl. unfold record_failure. rewrite Hen. cbn [negb]. unfold get. cbn [entries].
  rewrite lookup_insert_eq. unfold decayed_srtt. cbn [srtt_ms updated_at].
  unfold decay_for_age, PRIMARY_SKIP_SRTT_MS, INITIAL_SRTT_MS, FAILURE_PENALTY_MS, DECAY_AFTER_SECS.
  destruct (Z.ltb_spec 300 (elapsed_secs later now)) as [Ha|Ha]; [|lia].
  set (n := Z.min (elapsed_secs later now / 300) 8).
  assert (Hn : 1 ≤ n ≤ 8) by (unfold n; div_lia).
  assert (Hb : in_range 5000 5000) by (unfold in_range; lia).
  destruct (halve_bounds (Z.to_nat n) 5000 5000 ltac:(lia) Hb) as [_ Hh].
  split; [|lia]. split; [|lia]. intros Hge. exfalso. revert Hge.
  destruct (Z.to_nat n) as [|m] eqn:Hm; [lia|]. cbn [halve].
  change (as_u64 (5000 + INITIAL_SRTT_MS) / 2) with 2600.
  assert (Hb' : in_range 5000 2600) by (unfold in_range; lia).
  destruct (halve_bounds m 5000 2600 ltac:(lia) Hb') as [_ Hh']. lia.
Qed.

(** A success report moves the estimate to a weighted mean of the decayed old value and
    the sample, touches only the given address and transport, and loses other servers'
    data only when the table is full: then the entries dropped are the oldest ones. *)
Theorem record_rtt_spec (B now : Z) (ip : IpAddr) (t : UpstreamTransport.t) (rtt : Z)
    (c : SrttCache) :
  FAILURE_PENALTY_MS ≤ B < 2 ^ 60 → srtt_ok B c → in_range B rtt → enabled c = true →
  let c' := record_rtt keys now ip t rtt c in
  let old := get now ip t c in
  (is_known ip t (maybe_evict keys c) = true →
     get now ip t c' = (old * 7 + rtt) / 8 ∧
     Z.min old rtt ≤ get now ip t c' ≤ Z.max old rtt) ∧
  (is_known ip t (maybe_evict keys c) = false → get now ip t c' = rtt) ∧
  (∀ k e, k ≠ (ip, t) → entries c' !! k = Some e → entries c !! k = Some e) ∧
  (∀ k e, k ≠ (ip, t) → entries c !! k = Some e →
     entries c' !! k = Some e ∨
     (4096 ≤ srtt_len c)%nat ∧
     ∀ k' e', k' ≠ (ip, t) → entries c' !! k' = Some e' → updated_at e ≤ updated_at e').
Proof.
  intros HB Hok Hrtt Hen c' old. pose proof Hok as (Hsz & Hr & _).
  destruct (maybe_evict_spec c Hsz) as (E & S & K & Hold & Hsame).
  unfold FAILURE_PENALTY_MS in HB.
  assert (Hc' : ∀ k, entries c' !! k = if bool_decide (k = (ip, t)) then
    Some {| srtt_ms := as_u64 (decayed_srtt now (default {| srtt_ms := rtt; updated_at := now |}
              (entries (maybe_evict keys c) !! (ip, t))) * 7 + rtt) / 8; updated_at := now |}
    else entries (maybe_evict keys c) !! k).
  { intros k. unfold c', record_rtt. rewrite Hen. cbn [negb entries]. case_bool_decide as Hk.
    - rewrite Hk. apply lookup_insert_eq.
    - by rewrite lookup_insert_ne. }
  assert (Hget : get now ip t c' = as_u64 (decayed_srtt now (default
    {| srtt_ms := rtt; updated_at := now |} (entries (maybe_evict keys c) !! (ip, t))) * 7 + rtt) / 8).
  { unfold get. rewrite Hc', bool_decide_eq_true_2 by done. apply decayed_now. }
  rewrite Hget. unfold is_known. split_and!.
  - destruct (entries (maybe_evict keys c) !! (ip, t)) as [e|] eqn:He; [intros _|done].
    assert (Hold' : old = decayed_srtt now e) by (unfold old, get; by rewrite (K _ _ He)).
    cbn [from_option id]. rewrite <- Hold'.
    assert (Hb : in_range B old) by (apply get_bounds; [unfold FAILURE_PENALTY_MS; lia|done]).
    destruct (ewma_bounds B old rtt ltac:(lia) Hb Hrtt) as [_ He2]. split; [|done].
    unfold as_u64, in_range in *. by rewrite Z.mod_small by lia.
  - destruct (entries (maybe_evict keys c) !! (ip, t)) as [e|]; [done|intros _]. cbn [from_option id].
    rewrite decayed_now. cbn [srtt_ms]. unfold as_u64, in_range in *. rewrite Z.mod_small by lia.
    div_lia.
  - intros k e Hk. rewrite Hc', bool_decide_eq_false_2 by done. apply K.
  - intros k e Hk He. rewrite Hc', bool_decide_eq_false_2 by done.
    destruct (entries (maybe_evict keys c) !! k) as [e'|] eqn:He'.
    + left. apply K in He'. congruence.
    + right. split.
      * destruct (Nat.lt_ge_cases (size (entries c)) MAX_ENTRIES) as [Hlt|Hge]; [|exact Hge].
        rewrite (Hsame Hlt) in He'. congruence.
      * intros k' e' Hk'. rewrite Hc', bool_decide_eq_false_2 by done. by apply (Hold k e).
Qed.
End cache.

(** Servers are tried fastest first: sorting keeps the addresses, orders them by the
    current UDP estimate, keeps the given order among equal estimates, and does nothing
    while the cache is disabled. *)
Theorem sort_by_udp_rtt_spec (now : Z) (c : SrttCache) (addrs : list SocketAddr) :
  let out := sort_by_udp_rtt now c addrs in
  let rtt a := get now (ip a) UpstreamTransport.Udp c in
  out ≡ₚ addrs ∧
  (enabled c = false → out = addrs) ∧
  (enabled c = true → StronglySorted (λ a b, rtt a ≤ rtt b) out ∧
     ∀ k, List.filter (λ a, rtt a =? k) out = List.filter (λ a, rtt a =? k) addrs).
Proof.
  intros out rtt. unfold out, sort_by_udp_rtt. destruct (enabled c); cbn [negb].
  - split_and!; [apply sort_by_key_perm|done|]. intros _.
    split; [apply sort_by_key_sorted|intros k; apply sort_by_key_stable].
  - by split_and!.
Qed.

(** A concrete iteration order, and a cache that has seen one server. *)
Definition keys_list (m : srtt_map) : list key := elements (dom m).
Definition sample_srtt : SrttCache :=
  record_rtt keys_list 0 (V4 (Ipv4 9 9 9 9)) UpstreamTransport.Udp 40 (srtt_new true).

Lemma srtt_reachable_witness : rtc (srtt_step keys_list 6000) (srtt_new true) sample_srtt ∧
  (srtt_len sample_srtt ≤ 4096)%nat.
Proof.
  assert (Hr : rtc (srtt_step keys_list 6000) (srtt_new true) sample_srtt).
  { eapply rtc_l; [|apply rtc_refl]. apply step_rtt. split; vm_compute; discriminate. }
  split; [exact Hr|]. refine (proj1 (srtt_reachable keys_list _ 6000 true sample_srtt _ Hr)).
  - intros m. reflexivity.
  - split; vm_compute; [discriminate|reflexivity].
Defined.

Lemma circuit_breaker_witness :
  PRIMARY_SKIP_SRTT_MS ≤ get 60000000000 (V4 (Ipv4 9 9 9 9)) UpstreamTransport.Udp
    (record_failure keys_list 0 (V4 (Ipv4 9 9 9 9)) UpstreamTransport.Udp sample_srtt).
Proof.
  assert (He : enabled sample_srtt = true) by (vm_compute; reflexivity).
  refine (proj2 (proj1 (circuit_breaker keys_list 0 60000000000 (V4 (Ipv4 9 9 9 9))
    UpstreamTransport.Udp sample_srtt He _)) _); vm_compute; discriminate.
Defined.

Lemma record_rtt_spec_witness :
  get 0 (V4 (Ipv4 9 9 9 9)) UpstreamTransport.Udp
    (record_rtt keys_list 0 (V4 (Ipv4 9 9 9 9)) UpstreamTransport.Udp 120 sample_srtt) = 50.
Proof.
  assert (Hok : srtt_ok 6000 sample_srtt).
  { assert (Hk : ∀ m, keys_list m ≡ₚ elements (dom m)) by reflexivity.
    refine (proj1 (srtt_step_ok keys_list Hk 6000 (srtt_new true) sample_srtt _ _ _)).
    - split; vm_compute; [discriminate|reflexivity].
    - apply step_rtt. split; vm_compute; discriminate.
    - apply srtt_new_ok. }
  destruct (record_rtt_spec keys_list (λ m, reflexivity _) 6000 0 (V4 (Ipv4 9 9 9 9))
    UpstreamTransport.Udp 120 sample_srtt) as [Hk _].
  - split; vm_compute; [discriminate|reflexivity].
  - exact Hok.
  - split; vm_compute; discriminate.
  - vm_compute. reflexivity.
  - destruct (Hk ltac:(vm_compute; reflexivity)) as [-> _]. vm_compute. reflexivity.
Defined.
