(* ===== verification/Overrides.v ===== *)
(** [src/src/override_store.rs]: temporary overrides of domains, with lazy expiry. *)
From S2P Require Import Prelude Net Ip Question Record.
Open Scope outcome_scope.

(** Instants are in nanoseconds. *)
Record OverrideEntry := MkOverride {
  domain : bytes;
  target : bytes;
  record : DnsRecord.t;
  query_type : QueryType.t;
  ttl : Z;
  created_at : Z;
  duration_secs : option Z;
}.

Definition expires_at (e : OverrideEntry) : outcome (option Z) :=
  match duration_secs e with
  | None => Ok None
  | Some d => let? t := instant_add (created_at e) d in Ok (Some t)
  end.
Definition is_expired (now : Z) (e : OverrideEntry) : outcome bool :=
  let? exp := expires_at e in
  Ok match exp with Some exp => exp <=? now | None => false end.
Definition remaining_secs (now : Z) (e : OverrideEntry) : outcome (option Z) :=
  let? exp := expires_at e in
  Ok match exp with
     | Some exp => Some (if exp <=? now then 0 else (exp - now) / 1000000000)
     | None => None
     end.

Abbreviation OverrideStore := (gmap bytes OverrideEntry).

Definition parse_target (domain target : bytes) (ttl : Z) : QueryType.t * DnsRecord.t :=
  match parse_ipv4 target with
  | Some addr => (QueryType.A, DnsRecord.A domain addr ttl)
  | None =>
      match parse_ipv6 target with
      | Some addr => (QueryType.AAAA, DnsRecord.AAAA domain addr ttl)
      | None => (QueryType.CNAME, DnsRecord.CNAME domain target ttl)
      end
  end.

(** Whether the clock overflows in the expiry of some entry: the visit of all entries then
    panics, in whatever order they are visited. *)
Definition overflows (e : OverrideEntry) : bool :=
  match expires_at e with Panic => true | _ => false end.
Definition live (now : Z) (e : OverrideEntry) : bool :=
  match is_expired now e with Ok b => negb b | _ => false end.
Definition any_overflows (s : OverrideStore) : bool :=
  existsb (λ kv, overflows (snd kv)) (map_to_list s).

(** [retain(|_, e| !e.is_expired())] and [values().filter(...)]. *)
Definition retain_live (now : Z) (s : OverrideStore) : outcome OverrideStore :=
  if any_overflows s then Panic else Ok (filter (λ kv, live now (snd kv) = true) s).

Section store.
Context `{Lowercase}.

Definition override_insert (now : Z) (domain target : bytes) (ttl : Z) (duration_secs : option Z)
    (s : OverrideStore) : outcome (QueryType.t * OverrideStore) :=
  let? s := retain_live now s in
  let domain_lower := to_lowercase domain in
  let '(qtype, record) := parse_target domain_lower target ttl in
  Ok (qtype,
      <[domain_lower :=
          {| domain := domain_lower; target := target; record := record; query_type := qtype;
             ttl := ttl; created_at := now; duration_secs := duration_secs |}]> s).

Definition override_lookup (now : Z) (domain : bytes) (s : OverrideStore)
    : outcome (option DnsRecord.t) :=
  match s !! domain with
  | None => Ok None
  | Some e => let? b := is_expired now e in Ok (if b : bool then None else Some (record e))
  end.

Definition override_get (now : Z) (domain : bytes) (s : OverrideStore)
    : outcome (option OverrideEntry) :=
  match s !! to_lowercase domain with
  | None => Ok None
  | Some e => let? b := is_expired now e in Ok (if b : bool then None else Some e)
  end.

Definition override_remove (domain : bytes) (s : OverrideStore) : bool * OverrideStore :=
  (bool_decide (is_Some (s !! to_lowercase domain)), delete (to_lowercase domain) s).

Definition override_list (now : Z) (s : OverrideStore) : outcome (list OverrideEntry) :=
  let? s := retain_live now s in Ok (map snd (map_to_list s)).
Definition active_count (now : Z) (s : OverrideStore) : outcome Z :=
  let? l := override_list now s in Ok (len l).
Definition override_clear (s : OverrideStore) : OverrideStore := ∅.

(** * Expiry *)

(** Every expiry is within the clock's range. *)
Definition sane (s : OverrideStore) : Prop := map_Forall (λ _ e, overflows e = false) s.

Lemma any_overflows_spec s : any_overflows s = false ↔ sane s.
Proof.
  unfold any_overflows, sane, map_Forall. rewrite <- not_true_iff_false, existsb_exists. split.
  - intros Hn k e He. destruct (overflows e) eqn:Ho; [|done]. exfalso. apply Hn.
    exists (k, e). split; [|done]. apply list_elem_of_In. by apply elem_of_map_to_list.
  - intros Hs ((k, e) & Hin & Ho). cbn in Ho.
    apply list_elem_of_In, elem_of_map_to_list, Hs in Hin. congruence.
Qed.

(** The instant from which the entry no longer answers. *)
Definition deadline (e : OverrideEntry) : option Z :=
  option_map (λ d, created_at e + d * 1000000000) (duration_secs e).
Definition expired (now : Z) (e : OverrideEntry) : Prop :=
  match deadline e with Some t => t ≤ now | None => False end.
#[export] Instance expired_dec now e : Decision (expired now e).
Proof. unfold expired. destruct (deadline e); apply _. Defined.

Lemma overflows_spec e : overflows e = false ↔
  match deadline e with Some t => t < instant_limit | None => True end.
Proof.
  unfold overflows, expires_at, deadline, instant_add. destruct (duration_secs e) as [d|]; [|done].
  cbn [option_map]. destruct (Z.ltb_spec (created_at e + d * 1000000000) instant_limit);
    cbn [obind]; split; intros; try done; lia.
Qed.

Lemma is_expired_cases now e :
  (overflows e = true ∧ is_expired now e = Panic) ∨
  (overflows e = false ∧ ∃ b, is_expired now e = Ok b ∧ (b = true ↔ expired now e)).
Proof.
  unfold is_expired, overflows, expires_at, expired, deadline, instant_add.
  destruct (duration_secs e) as [d|]; [|right; split; [done|]; by exists false]. cbn [option_map].
  destruct (Z.ltb_spec (created_at e + d * 1000000000) instant_limit); cbn [obind]; [right|by left].
  split; [done|]. eexists. split; [done|]. by rewrite Z.leb_le.
Qed.

Lemma is_expired_spec now e :
  is_expired now e = if overflows e then Panic else Ok (bool_decide (expired now e)).
Proof.
  destruct (is_expired_cases now e) as [[-> ->]|(-> & b & -> & Hb)]; [done|].
  f_equal. apply eq_true_iff_eq. by rewrite bool_decide_eq_true.
Qed.

Lemma retain_live_spec now s : sane s → ∃ s', retain_live now s = Ok s' ∧ sane s' ∧
  ∀ d, s' !! d = match s !! d with
                 | Some e => if decide (expired now e) then None else Some e
                 | None => None
                 end.
Proof.
  intros Hs. pose proof (proj2 (any_overflows_spec s) Hs) as Ha. unfold retain_live. rewrite Ha.
  eexists. split; [done|].
  assert (Hl : ∀ d, filter (λ kv : bytes * OverrideEntry, live now (snd kv) = true) s !! d =
    match s !! d with
    | Some e => if decide (expired now e) then None else Some e
    | None => None
    end).
  { intros d. rewrite map_lookup_filter. destruct (s !! d) as [e|] eqn:He; [|done]. cbn.
    pose proof (is_expired_spec now e) as Hx. rewrite (Hs d e He) in Hx.
    assert (Hlv : live now e = negb (bool_decide (expired now e))) by (unfold live; by rewrite Hx).
    rewrite Hlv. destruct (decide (expired now e)) as [Hd|Hd].
    - rewrite bool_decide_eq_true_2 by done. by case_guard.
    - rewrite bool_decide_eq_false_2 by done. by case_guard. }
  split; [|done]. intros d e He. rewrite Hl in He. destruct (s !! d) as [e'|] eqn:He'; [|done].
  case_decide; simplify_eq. by apply (Hs d).
Qed.

(** Looking up, on a store without overflow. *)
Definition answer (now : Z) (domain : bytes) (s : OverrideStore) : option DnsRecord.t :=
  match s !! domain with
  | Some e => if decide (expired now e) then None else Some (record e)
  | None => None
  end.

Lemma lookup_answer now d s : sane s → override_lookup now d s = Ok (answer now d s).
Proof.
  intros Hs. unfold override_lookup, answer. destruct (s !! d) as [e|] eqn:He; [|done].
  rewrite is_expired_spec, (Hs d e He). cbn [obind]. f_equal.
  case_decide; [by rewrite bool_decide_eq_true_2|by rewrite bool_decide_eq_false_2].
Qed.

Lemma expired_mono now later e : now ≤ later → expired now e → expired later e.
Proof. unfold expired. destruct (deadline e); [lia|done]. Qed.

Lemma parse_target_type key tgt t : Record.query_type (snd (parse_target key tgt t)) =
    fst (parse_target key tgt t) ∧
  Record.domain (snd (parse_target key tgt t)) = key ∧ Record.ttl (snd (parse_target key tgt t)) = t.
Proof. unfold parse_target. destruct (parse_ipv4 tgt); [done|]. by destruct (parse_ipv6 tgt). Qed.

(** Inserting an override. In a store whose expiries are within the clock's range the
    insertion always succeeds; the record has the domain (lower-cased), the time to live
    and the type its target stands for. When the new deadline is within range too, the
    domain answers with that record until the deadline, and every other domain answers as
    before: dropping expired entries is never seen. *)
Theorem override_insert_lookup (now : Z) (d tgt : bytes) (t : Z) (dur : option Z)
    (s : OverrideStore) : sane s →
  let key := to_lowercase d in
  let '(qtype, r) := parse_target key tgt t in
  Record.query_type r = qtype ∧ Record.domain r = key ∧ Record.ttl r = t ∧
  ∃ s', override_insert now d tgt t dur s = Ok (qtype, s') ∧
    (match dur with Some n => now + n * 1000000000 < instant_limit | None => True end →
     sane s' ∧
     ∀ later d', now ≤ later → override_lookup later d' s' =
       if decide (d' = key)
       then Ok match dur with
               | Some n => if decide (now + n * 1000000000 ≤ later) then None else Some r
               | None => Some r
               end
       else override_lookup later d' s).
Proof.
  intros Hs key. destruct (parse_target key tgt t) as [qtype r] eqn:Hp.
  pose proof (parse_target_type key tgt t) as (H1 & H2 & H3). rewrite Hp in H1, H2, H3.
  split_and!; [done..|]. destruct (retain_live_spec now s Hs) as (s1 & Hr & Hs1 & Hl1).
  eexists. split.
  { unfold override_insert. rewrite Hr. cbn [obind]. fold key. by rewrite Hp. }
  set (e := {| domain := key; target := tgt; record := r; query_type := qtype; ttl := t;
               created_at := now; duration_secs := dur |}).
  intros Hd. assert (Ho : overflows e = false)
    by (apply overflows_spec; unfold deadline; cbn; by destruct dur).
  assert (Hs' : sane (<[key := e]> s1)) by (by apply map_Forall_insert_2).
  split; [done|]. intros later d' Hl. rewrite !lookup_answer by done. unfold answer.
  destruct (decide (d' = key)) as [->|Hne].
  - rewrite lookup_insert_eq. f_equal. unfold expired, deadline. cbn [duration_secs e created_at record].
    destruct dur as [n|]; cbn [option_map]; repeat case_decide; done.
  - rewrite lookup_insert_ne, Hl1 by done. destruct (s !! d') as [e'|]; [|done]. f_equal.
    destruct (decide (expired now e')) as [He|He]; [|done].
    rewrite decide_True; [done|]. by eapply expired_mono.
Qed.

(** A duration that the clock cannot represent is accepted by the insertion, but from
    then on every lookup of that domain panics, and so do every listing, every count and
    every further insertion, whatever its domain, until the entry is removed. *)
Theorem override_duration_panic (now : Z) (d tgt : bytes) (t n : Z) (s : OverrideStore) :
  sane s → instant_limit ≤ now + n * 1000000000 →
  ∃ qtype s', override_insert now d tgt t (Some n) s = Ok (qtype, s') ∧
    ∀ later, override_lookup later (to_lowercase d) s' = Panic ∧
      override_list later s' = Panic ∧ active_count later s' = Panic ∧
      ∀ d2 tgt2 t2 dur2, override_insert later d2 tgt2 t2 dur2 s' = Panic.
Proof.
  intros Hs Hn. destruct (retain_live_spec now s Hs) as (s1 & Hr & Hs1 & Hl1).
  unfold override_insert at 1. rewrite Hr. cbn [obind].
  destruct (parse_target (to_lowercase d) tgt t) as [qtype r]. eexists _, _. split; [done|].
  set (e := {| domain := to_lowercase d |}).
  assert (Ho : overflows e = true).
  { destruct (overflows e) eqn:He; [done|]. apply overflows_spec in He. cbn in He. lia. }
  set (s' := <[to_lowercase d := e]> s1). intros later.
  assert (Ha : any_overflows s' = true).
  { destruct (any_overflows s') eqn:Ha; [done|]. apply any_overflows_spec in Ha.
    rewrite (Ha (to_lowercase d) e) in Ho; [done|apply lookup_insert_eq]. }
  assert (Hrl : retain_live later s' = Panic) by (unfold retain_live; by rewrite Ha).
  split_and!.
  - unfold override_lookup, s'. rewrite lookup_insert_eq, is_expired_spec, Ho. done.
  - unfold override_list. by rewrite Hrl.
  - unfold active_count, override_list. by rewrite Hrl.
  - intros. unfold override_insert. by rewrite Hrl.
Qed.
End store.

Lemma override_insert_lookup_witness :
  sane ∅ ∧ ∃ s', @override_insert lowercase_ascii 0 (str "Dev.Test") (str "::1") 60 (Some 30) ∅
    = Ok (QueryType.AAAA, s') ∧
  override_lookup 29999999999 (str "dev.test") s' =
    Ok (Some (DnsRecord.AAAA (str "dev.test") (Ipv6 0 0 0 0 0 0 0 1) 60)) ∧
  override_lookup 30000000000 (str "dev.test") s' = Ok None.
Proof.
  assert (Hs : sane ∅) by apply map_Forall_empty. split; [exact Hs|].
  pose proof (@override_insert_lookup lowercase_ascii 0 (str "Dev.Test") (str "::1") 60 (Some 30) ∅ Hs)
    as Ht.
  change (parse_target (@to_lowercase lowercase_ascii (str "Dev.Test")) (str "::1") 60) with
    (QueryType.AAAA, DnsRecord.AAAA (str "dev.test") (Ipv6 0 0 0 0 0 0 0 1) 60) in Ht.
  destruct Ht as (_ & _ & _ & s' & He & Hl). exists s'. split; [exact He|].
  destruct Hl as [_ Hl]; [vm_compute; reflexivity|].
  split; rewrite Hl by (vm_compute; discriminate); reflexivity.
Defined.

Lemma override_duration_panic_witness :
  ∃ qtype s', @override_insert lowercase_ascii 0 (str "a.test") (str "1.2.3.4") 60 (Some (2 ^ 63)) ∅
    = Ok (qtype, s') ∧ override_lookup 0 (str "a.test") s' = Panic.
Proof.
  destruct (@override_duration_panic lowercase_ascii 0 (str "a.test") (str "1.2.3.4") 60 (2 ^ 63) ∅)
    as (q & s' & He & Hp).
  - apply map_Forall_empty.
  - vm_compute. discriminate.
  - exists q, s'. split; [exact He|]. exact (proj1 (Hp 0)).
Defined.
