(* ===== verification/Services.v ===== *)
(** [src/src/service_store.rs]: the local services, their routes and their persistence. *)
From S2P Require Import Prelude Text.

Record RouteEntry := MkRoute { path : bytes; route_port : Z; strip : bool }.
Record ServiceEntry := MkService {
  name : bytes;
  target_port : Z;
  target_host : option bytes;
  routes : list RouteEntry;
}.
#[export] Instance RouteEntry_eq_dec : EqDecision RouteEntry.
Proof. solve_decision. Defined.
#[export] Instance ServiceEntry_eq_dec : EqDecision ServiceEntry.
Proof. solve_decision. Defined.

(** * Routing *)

(** The filter closure: a route matches a path at a segment boundary. *)
Definition route_matches (request_path : bytes) (r : RouteEntry) : bool :=
  bool_decide (request_path = path r) ||
  (starts_with (path r) request_path &&
   (ends_with [47] (path r) ||
    match index request_path (len (path r)) with Some c => c =? 47 | None => false end)).

(** [max_by_key], which keeps the last of the greatest. *)
Definition longer (best : option RouteEntry) (r : RouteEntry) : option RouteEntry :=
  match best with
  | Some b => if len (path b) <=? len (path r) then Some r else best
  | None => Some r
  end.
Definition longest (rs : list RouteEntry) : option RouteEntry := fold_left longer rs None.

Definition resolve_route (s : ServiceEntry) (request_path : bytes) : Z * bytes :=
  match longest (List.filter (route_matches request_path) (routes s)) with
  | Some route =>
      let p :=
        if strip route then
          let stripped := drop (length (path route)) request_path in
          if bool_decide (stripped = []) || negb (starts_with [47] stripped)
          then 47 :: drop_while 47 stripped
          else stripped
        else request_path in
      (route_port route, p)
  | None => (target_port s, request_path)
  end.

(** * The store

    [saved] is the JSON file: the entries last written there or found at start-up. The
    order in which the map's entries are written is unspecified in the source; here it is
    the order of [map_to_list]. *)
Record ServiceStore := MkServices {
  entries : gmap bytes ServiceEntry;
  config_services : gset bytes;
  saved : list ServiceEntry;
}.

Definition save (s : ServiceStore) : ServiceStore :=
  {| entries := entries s; config_services := config_services s;
     saved := List.filter (λ e, negb (bool_decide (name e ∈ config_services s)))
                (map snd (map_to_list (entries s))) |}.

Definition name_le (a b : ServiceEntry) : Prop := lex_le (name a) (name b).
#[export] Instance name_le_dec : RelDecision name_le.
Proof. intros a b. unfold name_le. apply _. Defined.

(** A configured service: name, port, host, routes. *)
Abbreviation config_entry := (bytes * Z * option bytes * list RouteEntry)%type.

Section store.
Context `{Lowercase}.

(** A store that has read nothing yet, over the given file. *)
Definition service_new (file : list ServiceEntry) : ServiceStore :=
  {| entries := ∅; config_services := ∅; saved := file |}.

Definition service_insert_from_config (nm : bytes) (port : Z) (host : option bytes)
    (rs : list RouteEntry) (s : ServiceStore) : ServiceStore :=
  let key := to_lowercase nm in
  {| entries := <[key := {| name := key; target_port := port; target_host := host;
                            routes := rs |}]> (entries s);
     config_services := {[ key ]} ∪ config_services s;
     saved := saved s |}.

Definition set_entry (key : bytes) (e : ServiceEntry) (s : ServiceStore) : ServiceStore :=
  {| entries := <[key := e]> (entries s); config_services := config_services s;
     saved := saved s |}.

Definition service_insert (nm : bytes) (port : Z) (host : option bytes) (s : ServiceStore)
    : ServiceStore :=
  let key := to_lowercase nm in
  save (set_entry key {| name := key; target_port := port; target_host := host; routes := [] |} s).

Definition without_route (p : bytes) (rs : list RouteEntry) : list RouteEntry :=
  List.filter (λ r, negb (bool_decide (path r = p))) rs.
Definition with_routes (rs : list RouteEntry) (e : ServiceEntry) : ServiceEntry :=
  {| name := name e; target_port := target_port e; target_host := target_host e; routes := rs |}.

Definition add_route (service p : bytes) (port : Z) (strip : bool) (s : ServiceStore)
    : bool * ServiceStore :=
  let key := to_lowercase service in
  match entries s !! key with
  | Some e =>
      let rs := without_route p (routes e) ++ [{| path := p; route_port := port; strip := strip |}] in
      (true, save (set_entry key (with_routes rs e) s))
  | None => (false, s)
  end.

Definition remove_route (service p : bytes) (s : ServiceStore) : bool * ServiceStore :=
  let key := to_lowercase service in
  match entries s !! key with
  | Some e =>
      let before := length (routes e) in
      let rs := without_route p (routes e) in
      let s := set_entry key (with_routes rs e) s in
      if (length rs <? before)%nat then (true, save s) else (false, s)
  | None => (false, s)
  end.

Definition service_lookup (nm : bytes) (s : ServiceStore) : option ServiceEntry :=
  entries s !! to_lowercase nm.

Definition service_remove (nm : bytes) (s : ServiceStore) : bool * ServiceStore :=
  let key := to_lowercase nm in
  match entries s !! key with
  | Some _ => (true, save {| entries := delete key (entries s);
                             config_services := config_services s; saved := saved s |})
  | None => (false, s)
  end.

Definition is_config_service (nm : bytes) (s : ServiceStore) : bool :=
  bool_decide (nm ∈ config_services s).
Definition service_list (s : ServiceStore) : list ServiceEntry :=
  merge_sort name_le (map snd (map_to_list (entries s))).
Definition has_name (nm : bytes) (s : ServiceStore) : bool :=
  match entries s !! to_lowercase nm with Some _ => true | None => false end.

Definition load_entry (s : ServiceStore) (e : ServiceEntry) : ServiceStore :=
  let key := to_lowercase (name e) in
  if bool_decide (key ∈ config_services s) then s else set_entry key e s.
Definition service_load (s : ServiceStore) : ServiceStore := fold_left load_entry (saved s) s.

(** Start-up, as the server does it: the configured services, then the file. *)
Definition configure (cfg : list config_entry) (s : ServiceStore) : ServiceStore :=
  fold_left (λ s '(nm, port, host, rs), service_insert_from_config nm port host rs s) cfg s.
Definition start (cfg : list config_entry) (file : list ServiceEntry) : ServiceStore :=
  service_load (configure cfg (service_new file)).

End store.

(** * Facts about routing *)

(** The route's path is a prefix of the request at a segment boundary, leaving [rest]. *)
Definition routed (request : bytes) (r : RouteEntry) (rest : bytes) : Prop :=
  request = path r ++ rest ∧ (rest = [] ∨ ends_with [47] (path r) = true ∨ head rest = Some 47).

Lemma route_matches_spec request r :
  route_matches request r = true ↔ ∃ rest, routed request r rest.
Proof.
  unfold route_matches, routed. rewrite orb_true_iff, andb_true_iff, orb_true_iff, starts_with_spec,
    bool_decide_eq_true. split.
  - intros [Heq|[(rest & ->) Hb]]; [exists []; rewrite app_nil_r; auto|]. exists rest. split; [done|].
    destruct Hb as [Hb|Hb]; [by right; left|]. right. right.
    rewrite index_lookup in Hb by apply len_nonneg. rewrite to_nat_len in Hb.
    rewrite lookup_app_r, Nat.sub_diag in Hb by done.
    destruct rest as [|c rest]; [done|]. cbn in *. apply Z.eqb_eq in Hb as ->. done.
  - intros (rest & -> & Hb). destruct Hb as [->|[Hb|Hb]].
    + left. apply app_nil_r.
    + right. split; [by exists rest|by left].
    + right. split; [by exists rest|right].
      rewrite index_lookup by apply len_nonneg. rewrite to_nat_len.
      rewrite lookup_app_r, Nat.sub_diag by done.
      destruct rest as [|c rest]; [done|]. cbn in *. by injection Hb as ->.
Qed.

(** The last of the longest. *)
Lemma longest_spec rs :
  match longest rs with
  | Some r => ∃ l1 l2, rs = l1 ++ r :: l2 ∧
      Forall (λ x, len (path x) ≤ len (path r)) l1 ∧ Forall (λ x, len (path x) < len (path r)) l2
  | None => rs = []
  end.
Proof.
  unfold longest. induction rs as [|x rs IH] using rev_ind; [done|].
  rewrite fold_left_app. cbn [fold_left]. destruct (fold_left longer rs None) as [b|].
  - destruct IH as (l1 & l2 & -> & H1 & H2). cbn [longer].
    destruct (Z.leb_spec (len (path b)) (len (path x))).
    + exists (l1 ++ b :: l2), []. split_and!; [done| |constructor].
      apply Forall_app. split; [|constructor; [done|]].
      * eapply Forall_impl; [exact H1|]. intros y ?. cbn in *. lia.
      * eapply Forall_impl; [exact H2|]. intros y ?. cbn in *. lia.
    + exists l1, (l2 ++ [x]). rewrite <- app_assoc. split_and!; [done|done|].
      apply Forall_app. split; [done|by apply Forall_singleton].
  - subst. cbn. by exists [], [].
Qed.

(** Routing. The request goes to the port of the matching route with the longest path
    (the last one of equally long paths), a route matching only at a segment boundary, and
    to the service's own port when none matches. A stripping route forwards the rest of
    the path, always with exactly the leading slash it has or one added; other routes
    forward the path unchanged. *)
Theorem resolve_route_spec (s : ServiceEntry) (request : bytes) :
  match resolve_route s request with
  | (port, p) =>
      (port = target_port s ∧ p = request ∧
       ∀ r rest, r ∈ routes s → ¬ routed request r rest) ∨
      (∃ r rest l1 l2, List.filter (route_matches request) (routes s) = l1 ++ r :: l2 ∧
         Forall (λ x, len (path x) ≤ len (path r)) l1 ∧
         Forall (λ x, len (path x) < len (path r)) l2 ∧
         r ∈ routes s ∧ routed request r rest ∧ port = route_port r ∧
         p = if strip r then (if starts_with [47] rest then rest else 47 :: rest) else request)
  end.
Proof.
  unfold resolve_route. pose proof (longest_spec (List.filter (route_matches request) (routes s))) as Hl.
  destruct (longest _) as [r|].
  - right. destruct Hl as (l1 & l2 & Hf & H1 & H2).
    assert (Hr : In r (List.filter (route_matches request) (routes s)))
      by (rewrite Hf; apply in_elt).
    apply filter_In in Hr as [Hr Hm]. apply route_matches_spec in Hm as (rest & Hrest).
    exists r, rest, l1, l2. split_and!; try done; [by apply list_elem_of_In|].
    destruct Hrest as [-> _]. destruct (strip r); [|done].
    rewrite drop_app_length. destruct rest as [|c rest]; [done|].
    rewrite bool_decide_eq_false_2 by done. cbn [orb]. unfold starts_with. cbn [strip_prefix].
    destruct (Z.eqb_spec 47 c) as [<-|Hne]; [done|]. cbn [negb drop_while].
    destruct (Z.eqb_spec c 47); [lia|done].
  - left. split_and!; [done..|]. intros r rest Hr Hrest.
    assert (Hin : In r (List.filter (route_matches request) (routes s))).
    { apply filter_In. split; [by apply list_elem_of_In|]. apply route_matches_spec. by exists rest. }
    by rewrite Hl in Hin.
Qed.

(** * Persistence *)

Definition ascii_name (s : bytes) : Prop := Forall (λ b, 0 ≤ b < 128) s.

Section persistence.
Context `{LowercaseLaws}.

Lemma lowercase_idem s : ascii_name s → to_lowercase (to_lowercase s) = to_lowercase s.
Proof.
  intros Hs. rewrite (to_lowercase_ascii s) by done. rewrite to_lowercase_ascii.
  - unfold ascii_lower. rewrite map_map. apply map_ext. intros b. unfold to_ascii_lowercase.
    repeat case_if; bool_prop; lia.
  - unfold ascii_lower. apply Forall_map. eapply Forall_impl; [exact Hs|]. intros b Hb. cbn in *.
    unfold to_ascii_lowercase. case_if; bool_prop; lia.
Qed.

Definition cfg_names (cfg : list config_entry) : gset bytes :=
  list_to_set (map (λ c, to_lowercase (fst (fst (fst c)))) cfg).

(** What the file gives for a key: its last entry of that name. *)
Definition from_file (k : bytes) (init : option ServiceEntry) (file : list ServiceEntry)
    : option ServiceEntry :=
  fold_left (λ acc e, if bool_decide (to_lowercase (name e) = k) then Some e else acc) file init.

Lemma from_file_cons k init e file : from_file k init (e :: file) =
  from_file k (if bool_decide (to_lowercase (name e) = k) then Some e else init) file.
Proof. done. Qed.

Lemma load_lookup file s k :
  config_services (fold_left load_entry file s) = config_services s ∧
  saved (fold_left load_entry file s) = saved s ∧
  entries (fold_left load_entry file s) !! k =
    if bool_decide (k ∈ config_services s) then entries s !! k
    else from_file k (entries s !! k) file.
Proof.
  revert s. induction file as [|e file IH]; intros s; cbn [fold_left].
  - split_and!; [done..|]. by case_bool_decide.
  - destruct (IH (load_entry s e)) as (H1 & H2 & H3). rewrite H1, H2, H3. unfold load_entry.
    destruct (bool_decide_reflect (to_lowercase (name e) ∈ config_services s)) as [Hc|Hc];
      [split_and!; [done|done|]|cbn [set_entry config_services saved entries]].
    + rewrite from_file_cons. destruct (bool_decide_reflect (k ∈ config_services s)) as [|Hk]; [done|].
      rewrite (bool_decide_eq_false_2 (_ = k)) by congruence. done.
    + split_and!; [done|done|]. rewrite from_file_cons.
      destruct (decide (to_lowercase (name e) = k)) as [<-|Hne].
      * rewrite (bool_decide_eq_false_2 (_ ∈ _)) by done.
        rewrite bool_decide_eq_true_2 by done. by rewrite lookup_insert_eq.
      * rewrite (bool_decide_eq_false_2 (_ = k)) by done. by rewrite lookup_insert_ne.
Qed.

Lemma configure_facts cfg s :
  saved (configure cfg s) = saved s ∧
  config_services (configure cfg s) = cfg_names cfg ∪ config_services s ∧
  (∀ k, k ∉ cfg_names cfg → entries (configure cfg s) !! k = entries s !! k).
Proof.
  revert s. unfold configure. induction cfg as [|[[[nm port] host] rs] cfg IH]; intros s; cbn [fold_left].
  - split_and!; [done| |done]. unfold cfg_names. cbn. by rewrite union_empty_l_L.
  - destruct (IH (service_insert_from_config nm port host rs s)) as (H1 & H2 & H3).
    rewrite H1, H2. unfold cfg_names in *. cbn [map list_to_set fst]. split_and!; [done| |].
    + cbn. set_solver.
    + intros k Hk. rewrite H3 by set_solver. cbn. apply lookup_insert_ne. set_solver.
Qed.

Lemma start_lookup cfg file k :
  entries (start cfg file) !! k =
    if bool_decide (k ∈ cfg_names cfg) then entries (configure cfg (service_new [])) !! k
    else from_file k None file.
Proof.
  unfold start, service_load.
  destruct (configure_facts cfg (service_new file)) as (H1 & H2 & H3). rewrite H1. cbn [saved service_new].
  destruct (load_lookup file (configure cfg (service_new file)) k) as (_ & _ & ->). rewrite H2.
  cbn [config_services service_new]. rewrite union_empty_r_L. case_bool_decide as Hk.
  - clear. revert k. generalize (eq_refl (entries (service_new file))).
    change (entries (service_new file)) with (entries (service_new [])) at 2.
    generalize (service_new file) (service_new []). unfold configure.
    induction cfg as [|[[[nm port] host] rs] cfg IH]; intros s s' He k; cbn [fold_left].
    + by rewrite He.
    + apply IH. cbn. by rewrite He.
  - by rewrite H3.
Qed.

Record service_ok (cfg : list config_entry) (s : ServiceStore) : Prop := {
  so_config : config_services s = cfg_names cfg;
  so_names : map_Forall (λ k e, to_lowercase (name e) = k) (entries s);
  so_saved : ∀ k, k ∉ cfg_names cfg → from_file k None (saved s) = entries s !! k;
}.

(** What [save] writes is read back. *)
Lemma from_file_unique k (m : option ServiceEntry) file init :
  (∀ e, e ∈ file → to_lowercase (name e) = k → m = Some e) →
  (init = m ∨ ∃ e, m = Some e ∧ e ∈ file ∧ to_lowercase (name e) = k) →
  from_file k init file = m.
Proof.
  revert init. induction file as [|x file IH]; intros init Hu Hi; [|rewrite from_file_cons].
  - destruct Hi as [->|(e & _ & He & _)]; [done|by apply not_elem_of_nil in He].
  - apply IH; [intros e He; apply Hu; by right|].
    case_bool_decide as Hx; [left; symmetry; apply Hu; [by left|done]|].
    destruct Hi as [->|(e & Hm & He & Hk)]; [by left|]. right. exists e.
    apply elem_of_cons in He as [->|He]; [done|auto].
Qed.

Lemma save_from_file cfg s : Forall (λ c, ascii_name (fst (fst (fst c)))) cfg →
  config_services s = cfg_names cfg → map_Forall (λ k e, to_lowercase (name e) = k) (entries s) →
  service_ok cfg (save s).
Proof.
  intros Ha Hc Hn. split; [done|done|]. intros k Hk. cbn [save saved entries].
  apply from_file_unique.
  - intros e He Hl. apply list_elem_of_In, filter_In in He as [He _].
    apply in_map_iff in He as ([k' e'] & <- & He). apply list_elem_of_In, elem_of_map_to_list in He.
    rewrite <- Hl. cbn [snd]. by rewrite (Hn k' e' He).
  - destruct (entries s !! k) as [e|] eqn:He; [right|by left]. exists e. split; [done|].
    pose proof (Hn k e He) as Hl. split; [|done]. apply list_elem_of_In, filter_In. split.
    + apply in_map_iff. exists (k, e). split; [done|]. by apply list_elem_of_In, elem_of_map_to_list.
    + rewrite Hc. apply negb_true_iff, bool_decide_eq_false. intros Hin. apply Hk.
      unfold cfg_names in Hin. rewrite elem_of_list_to_set in Hin.
      apply list_elem_of_In, in_map_iff in Hin as (c & Hcn & Hin).
      rewrite Forall_forall in Ha. specialize (Ha c (proj2 (list_elem_of_In _ _) Hin)).
      rewrite <- Hl, <- Hcn, lowercase_idem by done. unfold cfg_names.
      rewrite elem_of_list_to_set. apply list_elem_of_In, in_map_iff. by exists c.
Qed.

(** The states of the server's store. *)
Inductive service_reachable (cfg : list config_entry) (file : list ServiceEntry)
    : ServiceStore → Prop :=
  | service_start : service_reachable cfg file (start cfg file)
  | service_inserted s nm port host : service_reachable cfg file s → ascii_name nm →
      service_reachable cfg file (service_insert nm port host s)
  | service_route_added s nm p port st : service_reachable cfg file s →
      service_reachable cfg file (snd (add_route nm p port st s))
  | service_route_removed s nm p : service_reachable cfg file s →
      service_reachable cfg file (snd (remove_route nm p s))
  | service_removed s nm : service_reachable cfg file s →
      service_reachable cfg file (snd (service_remove nm s)).

Lemma from_file_names k file init :
  (∀ e, init = Some e → to_lowercase (name e) = k) →
  ∀ e, from_file k init file = Some e → to_lowercase (name e) = k.
Proof.
  revert init. induction file as [|x file IH]; intros init Hi; [done|]. rewrite from_file_cons. apply IH. intros e. case_bool_decide; [by intros [= <-]|auto].
Qed.

Lemma configure_names cfg s : Forall (λ c, ascii_name (fst (fst (fst c)))) cfg →
  map_Forall (λ k e, to_lowercase (name e) = k) (entries s) →
  map_Forall (λ k e, to_lowercase (name e) = k) (entries (configure cfg s)).
Proof.
  intros Ha. revert s. unfold configure. induction Ha as [|[[[nm port] host] rs] cfg Hnm Ha IH];
    intros s Hs; [done|]. cbn [fold_left]. apply IH. cbn.
  apply map_Forall_insert_2; [|done]. cbn. by apply lowercase_idem.
Qed.

Lemma start_ok cfg file : Forall (λ c, ascii_name (fst (fst (fst c)))) cfg →
  service_ok cfg (start cfg file).
Proof.
  intros Ha. assert (Hcs : config_services (start cfg file) = cfg_names cfg ∧ saved (start cfg file) = file).
  { unfold start, service_load. destruct (configure_facts cfg (service_new file)) as (H1 & H2 & _).
    destruct (load_lookup (saved (configure cfg (service_new file))) (configure cfg (service_new file)) [])
      as (-> & -> & _). rewrite H1, H2. cbn. by rewrite union_empty_r_L. }
  destruct Hcs as [Hc Hsv]. split; [done| |].
  - intros k e He. rewrite start_lookup in He. case_bool_decide.
    + refine (configure_names cfg (service_new []) Ha _ k e He). apply map_Forall_empty.
    + by eapply from_file_names, He.
  - intros k Hk. rewrite start_lookup, bool_decide_eq_false_2, Hsv by done. done.
Qed.

Lemma without_route_same p rs : (length rs ≤ length (without_route p rs))%nat →
  without_route p rs = rs.
Proof.
  unfold without_route. induction rs as [|r rs IH]; [done|]. cbn. destruct (negb _); cbn; intros Hl.
  - f_equal. apply IH. lia.
  - pose proof (List.filter_length_le (λ r, negb (bool_decide (path r = p))) rs). lia.
Qed.

Lemma service_reachable_ok cfg file s : Forall (λ c, ascii_name (fst (fst (fst c)))) cfg →
  service_reachable cfg file s → service_ok cfg s.
Proof.
  intros Ha Hr. induction Hr as [|s nm port host Hr [Hc Hn Hs] Hnm|s nm p port st Hr [Hc Hn Hs]
    |s nm p Hr Hok|s nm Hr [Hc Hn Hs]].
  - by apply start_ok.
  - apply save_from_file; [done|done|]. cbn. apply map_Forall_insert_2; [|done]. by apply lowercase_idem.
  - unfold add_route. destruct (entries s !! to_lowercase nm) as [e|] eqn:He; [|done]. cbn [snd].
    apply save_from_file; [done|done|]. cbn. apply map_Forall_insert_2; [|done]. by apply (Hn _ e).
  - unfold remove_route. pose proof Hok as [Hc Hn Hs].
    destruct (entries s !! to_lowercase nm) as [e|] eqn:He; [|done].
    destruct (Nat.ltb_spec (length (without_route p (routes e))) (length (routes e))) as [Hlt|Hge];
      cbn [snd].
    + apply save_from_file; [done|done|]. cbn. apply map_Forall_insert_2; [|done]. by apply (Hn _ e).
    + apply without_route_same in Hge. rewrite Hge.
      assert (with_routes (routes e) e = e) as -> by by destruct e. unfold set_entry.
      rewrite insert_id by done. by destruct s.
  - unfold service_remove. destruct (entries s !! to_lowercase nm) as [e|] eqn:He; [|done]. cbn [snd].
    apply save_from_file; [done|done|]. cbn. by apply map_Forall_delete.
Qed.

(** Persistence. Whatever was done to the store, restarting on the file it last wrote
    with the same configuration gives back exactly the user's services with their routes;
    a configured service comes back as the configuration has it, whatever was done to it
    through the store (its routes are never written), and a stored service is always
    found under the lower-cased form of its name. *)
Theorem service_persistence (cfg : list config_entry) (file : list ServiceEntry) (s : ServiceStore) :
  Forall (λ c, ascii_name (fst (fst (fst c)))) cfg → service_reachable cfg file s →
  let restarted := start cfg (saved s) in
  (∀ nm, to_lowercase nm ∉ cfg_names cfg → service_lookup nm restarted = service_lookup nm s) ∧
  (∀ nm, to_lowercase nm ∈ cfg_names cfg →
     service_lookup nm restarted = service_lookup nm (configure cfg (service_new []))) ∧
  (∀ nm e, service_lookup nm s = Some e → to_lowercase (name e) = to_lowercase nm).
Proof.
  intros Ha Hr restarted. destruct (service_reachable_ok cfg file s Ha Hr) as [Hc Hn Hs].
  unfold restarted, service_lookup. split_and!.
  - intros nm Hnm. rewrite start_lookup, bool_decide_eq_false_2 by done. by apply Hs.
  - intros nm Hnm. by rewrite start_lookup, bool_decide_eq_true_2.
  - intros nm e He. by apply (Hn _ e).
Qed.
End persistence.

(** The built-in service, and one added at run time with a route. *)
Definition sample_config : list config_entry := [(str "numa", 5380, None, [])].
Definition sample_store : ServiceStore :=
  snd (@add_route lowercase_ascii (str "Grafana") (str "/api") 3001 true
    (@service_insert lowercase_ascii (str "grafana") 3000 None
      (@start lowercase_ascii sample_config []))).

Lemma service_persistence_witness :
  @service_lookup lowercase_ascii (str "grafana") (@start lowercase_ascii sample_config (saved sample_store))
    = @service_lookup lowercase_ascii (str "grafana") sample_store ∧
  resolve_route
    (default {| name := []; target_port := 0; target_host := None; routes := [] |}
       (@service_lookup lowercase_ascii (str "grafana") sample_store)) (str "/api/x")
    = (3001, str "/x").
Proof.
  split; [|vm_compute; reflexivity].
  refine (proj1 (@service_persistence lowercase_ascii lowercase_ascii_laws sample_config []
    sample_store _ _) (str "grafana") _).
  - apply Forall_singleton. apply (bool_decide_unpack _). vm_compute. exact I.
  - apply service_route_added, service_inserted; [apply service_start|].
    apply (bool_decide_unpack _). vm_compute. exact I.
  - apply (bool_decide_unpack _). vm_compute. exact I.
Defined.
