(* ===== verification/QueryLog.v ===== *)
(** [src/src/query_log.rs]: the ring buffer of recent queries. *)
From S2P Require Import Prelude Net Ip Question Header Cache Stats Text.
From stdpp Require Import sorting.
Open Scope Z_scope.

Record QueryLogEntry := MkLogEntry {
  seq : Z;
  timestamp : Z;
  src_addr : SocketAddr;
  log_domain : bytes;
  query_type : QueryType.t;
  log_path : QueryPath.t;
  transport : Transport.t;
  rescode : ResultCode;
  latency_us : Z;
  dnssec : DnssecStatus;
  log_rebind_stripped : bool;
}.

Record QueryLog := MkLog { entries : list QueryLogEntry; capacity : nat; next_seq : Z }.

Definition log_new (capacity : nat) : QueryLog :=
  {| entries := []; capacity := capacity; next_seq := 0 |}.

Definition with_seq (n : Z) (e : QueryLogEntry) : QueryLogEntry :=
  {| seq := n; timestamp := timestamp e; src_addr := src_addr e; log_domain := log_domain e;
     query_type := query_type e; log_path := log_path e; transport := transport e;
     rescode := rescode e; latency_us := latency_us e; dnssec := dnssec e;
     log_rebind_stripped := log_rebind_stripped e |}.

Definition push (e : QueryLogEntry) (l : QueryLog) : QueryLog :=
  let n := next_seq l + 1 in
  let kept := if (capacity l <=? length (entries l))%nat then drop 1 (entries l) else entries l in
  {| entries := kept ++ [with_seq n e]; capacity := capacity l; next_seq := n |}.

Definition log_len (l : QueryLog) : nat := length (entries l).
Definition log_is_empty (l : QueryLog) : bool := (length (entries l) =? 0)%nat.

Record QueryLogFilter := MkFilter {
  by_domain : option bytes;
  by_type : option QueryType.t;
  by_path : option QueryPath.t;
  limit : option nat;
}.

(** [haystack.contains(needle)] for text. *)
Fixpoint contains_text (needle haystack : bytes) : bool :=
  starts_with needle haystack ||
  match haystack with [] => false | _ :: r => contains_text needle r end.

(** The filter closure. *)
Definition log_matches (f : QueryLogFilter) (e : QueryLogEntry) : bool :=
  if match by_domain f with Some d => negb (contains_text d (log_domain e)) | None => false end
  then false
  else if match by_type f with Some q => negb (bool_decide (query_type e = q)) | None => false end
  then false
  else if match by_path f with Some p => negb (bool_decide (log_path e = p)) | None => false end
  then false
  else true.

Definition query (f : QueryLogFilter) (l : QueryLog) : list QueryLogEntry :=
  take (default 50%nat (limit f)) (List.filter (log_matches f) (rev (entries l))).

(** * The log as a window on the history *)

(** The entries in the order they were pushed, numbered from one. *)
Definition numbered (es : list QueryLogEntry) : list QueryLogEntry :=
  imap (λ i e, with_seq (Z.of_nat i + 1) e) es.
(** At least one entry is kept, even with capacity zero. *)
Definition window (cap : nat) : nat := Nat.max 1 cap.

Definition push_all (cap : nat) (es : list QueryLogEntry) : QueryLog :=
  fold_left (λ l e, push e l) es (log_new cap).

Lemma numbered_snoc es e : numbered (es ++ [e]) = numbered es ++ [with_seq (len es + 1) e].
Proof. unfold numbered, len. rewrite imap_app. cbn. by rewrite Nat.add_0_r. Qed.
Lemma numbered_length es : length (numbered es) = length es.
Proof. apply length_imap. Qed.

Lemma push_all_spec cap es :
  push_all cap es = {| entries := drop (length es - window cap) (numbered es);
                       capacity := cap; next_seq := len es |}.
Proof.
  unfold push_all. induction es as [|e es IH] using rev_ind.
  - done.
  - rewrite fold_left_app, IH. cbn [fold_left]. unfold push. cbn [next_seq entries capacity].
    rewrite numbered_snoc, length_app, len_app, length_drop, numbered_length. cbn [length].
    f_equal. unfold window. destruct (Nat.leb_spec cap (length es - (length es - Nat.max 1 cap))) as [Hle|Hgt].
    + rewrite drop_drop. destruct (Nat.lt_ge_cases (length es) (Nat.max 1 cap)) as [Hs|Hs].
      * assert (length es = 0)%nat as Hz by lia. apply nil_length_inv in Hz as ->. cbn.
        destruct cap as [|cap]; [done|cbn in Hle; lia].
      * rewrite drop_app_le by (rewrite numbered_length; lia). do 2 f_equal. lia.
    + rewrite drop_app_le by (rewrite numbered_length; lia). do 2 f_equal. lia.
Qed.

Lemma numbered_sorted es : StronglySorted (λ a b, seq b < seq a) (rev (numbered es)).
Proof.
  induction es as [|e es IH] using rev_ind; [constructor|].
  rewrite numbered_snoc, rev_app_distr. cbn [rev app]. constructor; [done|].
  apply Forall_forall. intros x Hx. apply list_elem_of_In, in_rev, list_elem_of_In in Hx.
  unfold numbered in Hx. apply elem_of_lookup_imap in Hx as (i & y & -> & Hi).
  apply lookup_lt_Some in Hi. cbn. unfold len. lia.
Qed.

Lemma sorted_sub {A} (R : A → A → Prop) l k : l `sublist_of` k → StronglySorted R k → StronglySorted R l.
Proof.
  induction 1 as [|x l k Hs IH|x l k Hs IH]; intros Hk; [constructor| |].
  - apply StronglySorted_inv in Hk as [Hk Hx]. constructor; [auto|].
    rewrite Forall_forall in *. intros y Hy. apply Hx. by eapply elem_of_sublist.
  - apply StronglySorted_inv in Hk as [Hk _]. auto.
Qed.

Lemma filter_sublist {A} (f : A → bool) l : List.filter f l `sublist_of` l.
Proof. induction l as [|x l IH]; cbn; [done|]. destruct (f x); by constructor. Qed.

(** The query log after any sequence of pushes into a log of capacity [cap]: it holds
    exactly the last pushes (never more than [max 1 cap]), numbered by their position in
    the history; a query returns, newest first, matching entries only, and every matching
    entry still held unless the limit (50 by default) cut it off, in which case all the
    entries returned are newer. *)
Theorem query_log_window (cap : nat) (es : list QueryLogEntry) (f : QueryLogFilter) :
  let l := push_all cap es in
  let n := default 50%nat (limit f) in
  entries l = drop (length es - window cap) (numbered es) ∧
  (log_len l ≤ window cap)%nat ∧ next_seq l = len es ∧
  StronglySorted (λ a b, seq b < seq a) (query f l) ∧
  (length (query f l) ≤ n)%nat ∧
  (∀ e, e ∈ query f l → e ∈ entries l ∧ log_matches f e = true) ∧
  (∀ e, e ∈ entries l → log_matches f e = true → e ∉ query f l →
     length (query f l) = n ∧ ∀ e', e' ∈ query f l → seq e < seq e').
Proof.
  intros l n. unfold l. rewrite push_all_spec. unfold query, log_len. cbn [entries next_seq].
  fold n. set (ents := drop _ (numbered es)).
  assert (Hent : StronglySorted (λ a b, seq b < seq a) (rev ents)).
  { eapply sorted_sub, (numbered_sorted es). unfold ents.
    rewrite <- (take_drop (length es - window cap) (numbered es)) at 2. rewrite rev_app_distr.
    by apply sublist_inserts_r. }
  set (hits := List.filter (log_matches f) (rev ents)).
  assert (Hhits : StronglySorted (λ a b, seq b < seq a) hits)
    by (eapply sorted_sub, Hent; apply filter_sublist).
  assert (Hin : ∀ e, e ∈ hits ↔ e ∈ ents ∧ log_matches f e = true).
  { intros e. rewrite !list_elem_of_In. unfold hits. by rewrite filter_In, <- in_rev. }
  split_and!; [done| |done| | | |].
  - unfold ents. rewrite length_drop, numbered_length. lia.
  - eapply sorted_sub, Hhits. apply sublist_take.
  - rewrite length_take. lia.
  - intros e He. apply Hin. rewrite <- (take_drop n hits). apply elem_of_app. by left.
  - intros e He Hm Hn. assert (Hh : e ∈ hits) by (by apply Hin).
    rewrite <- (take_drop n hits), elem_of_app in Hh. destruct Hh as [|Hd]; [done|]. split.
    + rewrite length_take. apply list_elem_of_lookup in Hd as (i & Hi). apply lookup_lt_Some in Hi.
      rewrite length_drop in Hi. lia.
    + intros e' He'. rewrite <- (take_drop n hits) in Hhits.
      exact (StronglySorted_app_1_elem_of _ _ _ _ _ Hhits He' Hd).
Qed.

(** The domain filter of the log is substring search. *)
Theorem contains_text_spec (needle haystack : bytes) :
  contains_text needle haystack = true ↔ ∃ a b, haystack = a ++ needle ++ b.
Proof.
  induction haystack as [|c s IH]; cbn [contains_text]; rewrite orb_true_iff, starts_with_spec.
  - split.
    + intros [(r & Hr)|]; [|done]. by exists [], r.
    + intros (a & b & Hab). left. symmetry in Hab. apply app_nil in Hab as [-> Hab].
      exists b. by rewrite Hab.
  - rewrite IH. split.
    + intros [(r & Hr)|(a & b & ->)]; [by exists [], r|by exists (c :: a), b].
    + intros (a & b & Hab). destruct a as [|x a]; [left; by exists b|right].
      injection Hab as -> ->. by exists a, b.
Qed.
