(* ===== verification/Pp2.v ===== *)
(** [src/src/pp2.rs] and [src/src/pp2_udp.rs]: the PROXY protocol gate of the stream and
    datagram listeners. *)
From S2P Require Import Prelude Net Ip Acl Stats.
Open Scope outcome_scope.

(** The [proxy_header] crate: the datagram parser [ProxyHeader::parse], which gives the
    source address a header names (none for a LOCAL command) and its length. *)
Class ProxyLib := pp_parse : bytes → option (option SocketAddr * Z).
(** A parsed header is a prefix of the datagram, of the 16 bytes of the fixed part at
    least. *)
Class ProxyLaws `{ProxyLib} : Prop :=
  pp_parse_len d src n : pp_parse d = Some (src, n) → 16 ≤ n ≤ len d.

(** What reading the header of a stream comes to: the source a header names (none for
    a LOCAL command), a parse error, or the timeout. *)
Inductive HeaderRead := HeaderOk (source : option SocketAddr) | HeaderBad | HeaderTimeout.

(** The stream handed on: untouched, or with its header consumed. *)
Inductive Stream := Bare | Proxied.

Inductive UdpPp :=
  | UdpBare
  | UdpProxied (src : SocketAddr) (hdr_len : Z) (local_command : bool)
  | UdpDrop.

Section pp2.
Context `{NetLib} `{ProxyLib}.

(** Durations are in milliseconds. *)
Record PpConfig := MkPp { pp_from : list IpNet; header_timeout : Z }.

Definition from_config (from : list bytes) (timeout_ms : Z) : outcome (option PpConfig) :=
  match from with
  | [] => Ok None
  | _ =>
      let? nets := parse_cidr_list from in
      Ok (Some {| pp_from := nets; header_timeout := timeout_ms |})
  end.

Definition pp_allows (pp : PpConfig) (peer : IpAddr) : bool :=
  existsb (λ n, net_contains n peer) (pp_from pp).

(** The errors of [from_config] all become [Err(())]; the logging is left out. *)
Definition init (from : list bytes) (timeout_ms : Z) : outcome (option PpConfig) :=
  match from_config from timeout_ms with
  | Ok x => Ok x
  | Err _ => Err (Message "")
  | Panic => Panic
  | OutOfFuel => OutOfFuel
  end.

Definition handshake (tcp_peer : SocketAddr) (pp : option PpConfig) (read : HeaderRead)
    (s : ServerStats) : option (Stream * SocketAddr * bool) * ServerStats :=
  match pp with
  | None => (Some (Bare, tcp_peer, false), s)
  | Some pp =>
      if negb (pp_allows pp (ip tcp_peer)) then (None, bump Funtrusted s)
      else
        match read with
        | HeaderBad => (None, bump Fsignature s)
        | HeaderTimeout => (None, bump Ftimeout s)
        | HeaderOk (Some source) => (Some (Proxied, source, false), bump Faccepted s)
        | HeaderOk None => (Some (Proxied, tcp_peer, true), bump Flocal_command s)
        end
  end.

Definition parse_if_trusted (d : bytes) (peer : SocketAddr) (pp : option PpConfig)
    (s : ServerStats) : UdpPp * ServerStats :=
  match pp with
  | None => (UdpBare, s)
  | Some pp =>
      if negb (pp_allows pp (ip peer)) then (UdpDrop, bump Funtrusted s)
      else
        match pp_parse d with
        | None => (UdpDrop, bump Fsignature s)
        | Some (Some source, n) => (UdpProxied source n false, bump Faccepted s)
        | Some (None, n) => (UdpProxied peer n true, bump Flocal_command s)
        end
  end.

(** [buf.copy_within(a..b, 0)], which panics unless [a <= b <= buf.len()]. *)
Definition copy_within (buf : bytes) (a b : Z) : outcome bytes :=
  match slice buf a b with
  | Some s => Ok (s ++ drop (length s) buf)
  | None => Panic
  end.

Definition udp_apply (x : UdpPp) (buf : bytes) (n : Z) (peer : SocketAddr)
    : outcome (option (SocketAddr * Z * bool) * bytes) :=
  match x with
  | UdpBare => Ok (Some (peer, n, false), buf)
  | UdpProxied src hdr_len local_command =>
      let? buf := copy_within buf hdr_len n in
      Ok (Some (src, n - hdr_len, local_command), buf)
  | UdpDrop => Ok (None, buf)
  end.

(** The gate of the UDP receive loop: the two calls in sequence on a datagram of [n] bytes
    at the start of the buffer, then the client allowlist. *)
Definition udp_gate (acl : AllowFromAcl) (pp : option PpConfig) (buf : bytes) (n : Z)
    (peer : SocketAddr) (s : ServerStats)
    : outcome (option (SocketAddr * bytes) * ServerStats) :=
  match slice buf 0 n with
  | None => Panic
  | Some d =>
      let '(x, s) := parse_if_trusted d peer pp s in
      let? (r, buf) := udp_apply x buf n peer in
      match r with
      | None => Ok (None, s)
      | Some (src, n, local_command) =>
          if negb (admits acl (ip src) local_command) then Ok (None, s)
          else match slice buf 0 n with
               | Some payload => Ok (Some (src, payload), s)
               | None => Panic
               end
      end
  end.

(** * What passes the gate *)

(** The peers trusted to speak for clients. *)
Definition trusted (from : list bytes) (peer : IpAddr) : Prop :=
  ∃ entry n, entry ∈ from ∧ parse_entry entry = Some n ∧ net_contains n peer = true.

Lemma from_config_spec from t :
  match from_config from t with
  | Ok None => from = []
  | Ok (Some pp) => from ≠ [] ∧ header_timeout pp = t ∧
      ∀ peer, pp_allows pp peer = true ↔ trusted from peer
  | Err _ => ∃ entry, entry ∈ from ∧ parse_entry entry = None
  | _ => False
  end.
Proof.
  destruct from as [|x from]; [done|]. unfold from_config.
  pose proof (parse_cidr_list_spec (x :: from)) as Hs.
  destruct (parse_cidr_list (x :: from)) as [nets| | |]; cbn [obind]; try done; [|by destruct Hs].
  split_and!; [done..|]. intros peer. unfold pp_allows, trusted. cbn [pp_from].
  rewrite existsb_exists. clear -Hs. generalize dependent (x :: from). clear x from.
  induction nets as [|n nets IH]; intros [|e es] Hs; try done.
  - split; [by intros (? & [] & _)|]. by intros (? & ? & ?%elem_of_nil & _).
  - cbn in Hs. injection Hs as He Hs. specialize (IH es Hs). split.
    + intros (m & [<-|Hm] & Hc); [exists e, n; split; [by left|done]|].
      destruct (proj1 IH) as (e' & m' & He' & Hm'); [by exists m|].
      exists e', m'. split; [by right|done].
    + intros (e' & m & [->|He']%elem_of_cons & Hp & Hc).
      * exists n. split; [by left|]. congruence.
      * destruct (proj2 IH) as (m' & Hm' & Hc'); [by exists e', m|].
        exists m'. split; [by right|done].
Qed.

(** The UDP gate never panics and lets a datagram through in three cases only: the
    feature is off and the sender is an admitted client, with the datagram unchanged; or
    the sender is a trusted front-end and the header names a client the allowlist
    admits; or the header is a trusted front-end's own LOCAL command. In the last two
    the DNS payload is exactly what follows the header. So a sender that is not trusted
    cannot speak for another address. At most one counter moves. *)
Theorem udp_gate_spec `{!ProxyLaws} (acl : AllowFromAcl) (from : list bytes) (timeout : Z)
    (pp : option PpConfig) (d rest : bytes) (peer : SocketAddr) (s : ServerStats) :
  from_config from timeout = Ok pp →
  ∃ r s', udp_gate acl pp (d ++ rest) (len d) peer s = Ok (r, s') ∧
  (s' = s ∨ ∃ f, s' = bump f s ∧ from ≠ []) ∧
  match r with
  | Some (src, payload) =>
      (from = [] ∧ src = peer ∧ payload = d ∧ allows acl (ip peer) = true ∧ s' = s) ∨
      (trusted from (ip peer) ∧ ∃ n, payload = drop (Z.to_nat n) d ∧
         ((pp_parse d = Some (Some src, n) ∧ allows acl (ip src) = true ∧ s' = bump Faccepted s) ∨
          (pp_parse d = Some (None, n) ∧ src = peer ∧ s' = bump Flocal_command s)))
  | None =>
      (from = [] ∧ allows acl (ip peer) = false) ∨
      (from ≠ [] ∧ ¬ trusted from (ip peer) ∧ s' = bump Funtrusted s) ∨
      (trusted from (ip peer) ∧ pp_parse d = None ∧ s' = bump Fsignature s) ∨
      (trusted from (ip peer) ∧ ∃ src n, pp_parse d = Some (Some src, n) ∧
         allows acl (ip src) = false ∧ s' = bump Faccepted s)
  end.
Proof.
  intros Hpp. pose proof (from_config_spec from timeout) as Hf. rewrite Hpp in Hf.
  pose proof (len_nonneg d). pose proof (len_nonneg rest). unfold udp_gate.
  assert (Hd : slice (d ++ rest) 0 (len d) = Some d).
  { rewrite slice_Some by len_lia. rewrite Z.sub_0_r, to_nat_len. f_equal.
    exact (take_app_length d rest). }
  rewrite Hd. unfold parse_if_trusted. destruct pp as [pp|].
  - destruct Hf as (Hne & _ & Hf). specialize (Hf (ip peer)).
    destruct (pp_allows pp (ip peer)); cbn [negb].
    + assert (Ht : trusted from (ip peer)) by (by apply Hf).
      destruct (pp_parse d) as [[src n]|] eqn:Hp.
      * pose proof (pp_parse_len _ _ _ Hp) as Hn.
        assert (Hc : copy_within (d ++ rest) n (len d) = Ok (drop (Z.to_nat n) d ++
          drop (length (drop (Z.to_nat n) d)) (d ++ rest))).
        { unfold copy_within. rewrite slice_Some by len_lia.
          rewrite drop_app_le by (unfold len in Hn; lia). rewrite take_app_le by
            (rewrite length_drop; unfold len; lia).
          rewrite firstn_all2 by (rewrite length_drop; unfold len; lia). done. }
        assert (Hsl : slice (drop (Z.to_nat n) d ++ drop (length (drop (Z.to_nat n) d)) (d ++ rest))
          0 (len d - n) = Some (drop (Z.to_nat n) d)).
        { assert (Hl : len (drop (Z.to_nat n) d) = len d - n) by (apply len_drop; lia).
          rewrite slice_Some; [|lia|lia|].
          - rewrite Z.sub_0_r, <- Hl, to_nat_len. f_equal. exact (take_app_length _ _).
          - rewrite len_app, Hl. pose proof (len_nonneg (drop (length (drop (Z.to_nat n) d)) (d ++ rest))). lia. }
        destruct src as [src|]; cbn [udp_apply]; rewrite Hc; cbn [obind]; unfold admits; cbn [orb].
        -- destruct (allows acl (ip src)) eqn:Ha; cbn [negb].
           ++ rewrite Hsl. eexists _, _. split; [done|]. split; [right; by eexists|].
              right. split; [done|]. exists n. split; [done|]. by left.
           ++ eexists _, _. split; [done|]. split; [right; by eexists|].
              right. right. right. split; [done|]. by exists src, n.
        -- cbn [negb]. rewrite Hsl. eexists _, _. split; [done|]. split; [right; by eexists|].
           right. split; [done|]. exists n. split; [done|]. by right.
      * cbn [udp_apply obind]. eexists _, _. split; [done|]. split; [right; by eexists|].
        right. right. by left.
    + assert (Ht : ¬ trusted from (ip peer)) by (by intros ?%Hf).
      cbn [udp_apply obind]. eexists _, _. split; [done|]. split; [right; by eexists|].
      right. by left.
  - subst from. cbn [udp_apply obind]. unfold admits. cbn [orb].
    destruct (allows acl (ip peer)) eqn:Ha; cbn [negb].
    + rewrite Hd. eexists _, _. split; [done|]. split; [by left|]. by left.
    + eexists _, _. split; [done|]. split; [by left|]. by left.
Qed.

(** The stream gate. A connection is kept exactly when the feature is off, or its peer
    is trusted and its header was read in time; the client is then the peer itself, the
    source the header names, or the peer again for a LOCAL command; one counter moves for
    every connection that met the gate, a different one for each outcome. *)
Theorem handshake_spec (from : list bytes) (timeout : Z) (pp : option PpConfig)
    (peer : SocketAddr) (read : HeaderRead) (s : ServerStats) :
  from_config from timeout = Ok pp →
  let '(r, s') := handshake peer pp read s in
  match r with
  | Some (st, src, local_command) =>
      (from = [] ∧ st = Bare ∧ src = peer ∧ local_command = false ∧ s' = s) ∨
      (trusted from (ip peer) ∧ st = Proxied ∧
         ((read = HeaderOk (Some src) ∧ local_command = false ∧ s' = bump Faccepted s) ∨
          (read = HeaderOk None ∧ src = peer ∧ local_command = true ∧
           s' = bump Flocal_command s)))
  | None =>
      from ≠ [] ∧
      ((¬ trusted from (ip peer) ∧ s' = bump Funtrusted s) ∨
       (trusted from (ip peer) ∧ read = HeaderBad ∧ s' = bump Fsignature s) ∨
       (trusted from (ip peer) ∧ read = HeaderTimeout ∧ s' = bump Ftimeout s))
  end.
Proof.
  intros Hpp. pose proof (from_config_spec from timeout) as Hf. rewrite Hpp in Hf.
  unfold handshake. destruct pp as [pp|]; [|by left].
  destruct Hf as (Hne & _ & Hf). specialize (Hf (ip peer)).
  destruct (pp_allows pp (ip peer)); cbn [negb].
  - assert (Ht : trusted from (ip peer)) by (by apply Hf).
    destruct read as [[src|]| |].
    + right. split_and!; [done..|]. by left.
    + right. split_and!; [done..|]. by right.
    + split; [done|]. right. by left.
    + split; [done|]. by right; right.
  - split; [done|]. left. split; [by intros ?%Hf|done].
Qed.
End pp2.

(** A header of 16 bytes starting with 13 that names 192.0.2.1 port 7 unless its second
    byte is zero. *)
#[local] Instance sample_proxy : ProxyLib := λ d,
  match d with
  | 13 :: x :: _ =>
      if 16 <=? len d
      then Some (if x =? 0 then None else Some (MkSock (V4 (Ipv4 192 0 2 1)) 7), 16)
      else None
  | _ => None
  end.
Lemma sample_proxy_laws : ProxyLaws.
Proof.
  intros d src n Hp. unfold pp_parse, sample_proxy in Hp.
  destruct d as [|z [|x d]]; [done| |]; repeat case_match; simplify_eq;
    match goal with H : (16 <=? _) = true |- _ => apply Z.leb_le in H end; lia.
Qed.

Definition sample_peer : SocketAddr := MkSock (V4 (Ipv4 10 0 0 2)) 5000.
Definition sample_datagram : bytes := [13; 1] ++ repeat 0 14 ++ [1; 2; 3].

Lemma udp_gate_spec_witness : ∃ pp,
  @from_config sample_net [str "10.0.0.0/8"] 500 = Ok (Some pp) ∧
  @udp_gate sample_net sample_proxy (@MkAcl sample_net (@MkMatcher sample_net [] [])) (Some pp)
    (sample_datagram ++ [9; 9]) (len sample_datagram) sample_peer (stats_new 0) =
  Ok (Some (MkSock (V4 (Ipv4 192 0 2 1)) 7, [1; 2; 3]), bump Faccepted (stats_new 0)) ∧
  @trusted sample_net [str "10.0.0.0/8"] (ip sample_peer).
Proof.
  set (pp := @MkPp sample_net [(V4 (Ipv4 10 0 0 0), 1)] 500).
  set (acl := @MkAcl sample_net (@MkMatcher sample_net [] [])).
  assert (Hpp : @from_config sample_net [str "10.0.0.0/8"] 500 = Ok (Some pp))
    by reflexivity.
  assert (Hg : @udp_gate sample_net sample_proxy acl (Some pp) (sample_datagram ++ [9; 9])
    (len sample_datagram) sample_peer (stats_new 0) =
    Ok (Some (MkSock (V4 (Ipv4 192 0 2 1)) 7, [1; 2; 3]), bump Faccepted (stats_new 0)))
    by reflexivity.
  exists pp. split; [exact Hpp|]. split; [exact Hg|].
  destruct (@udp_gate_spec sample_net sample_proxy sample_proxy_laws acl _ _ _ sample_datagram
    [9; 9] sample_peer (stats_new 0) Hpp) as (r & s' & He & _ & Hr).
  rewrite Hg in He. injection He as <- <-.
  destruct Hr as [(Hn & _)|(Ht & _)]; [discriminate Hn|exact Ht].
Defined.

Lemma handshake_spec_witness : ∃ pp,
  @from_config sample_net [str "10.0.0.0/8"] 500 = Ok (Some pp) ∧
  @handshake sample_net sample_peer (Some pp) HeaderTimeout (stats_new 0) =
    (None, bump Ftimeout (stats_new 0)) ∧
  ([str "10.0.0.0/8"] ≠ []).
Proof.
  set (pp := @MkPp sample_net [(V4 (Ipv4 10 0 0 0), 1)] 500).
  assert (Hpp : @from_config sample_net [str "10.0.0.0/8"] 500 = Ok (Some pp))
    by reflexivity.
  exists pp. split; [exact Hpp|]. split; [vm_compute; reflexivity|].
  pose proof (@handshake_spec sample_net _ _ _ sample_peer HeaderTimeout (stats_new 0) Hpp) as Hh.
  exact (proj1 Hh).
Defined.

(** Trust is decided on the address as the socket reports it. On a dual-stack socket an
    IPv4 front-end appears as an IPv4-mapped IPv6 address, and is not trusted although
    the network that lists it, and the client allowlist, do cover it. *)
Theorem trust_is_not_canonical :
  let pp := @MkPp sample_net [(V4 (Ipv4 10 0 0 0), 1)] 500 in
  let acl := @MkAcl sample_net (@MkMatcher sample_net [(V4 (Ipv4 10 0 0 0), 1)] []) in
  let mapped := V6 (to_ipv6_mapped (Ipv4 10 0 0 2)) in
  @from_config sample_net [str "10.0.0.0/8"] 500 = Ok (Some pp) ∧
  @acl_from_entries sample_net [str "10.0.0.0/8"] = Ok acl ∧
  @pp_allows sample_net pp (V4 (Ipv4 10 0 0 2)) = true ∧
  @pp_allows sample_net pp mapped = false ∧ @allows sample_net acl mapped = true.
Proof. split; [reflexivity|]. split; [reflexivity|]. split_and!; reflexivity. Qed.
