(* ===== verification/Zones.v ===== *)
(** The local zones of [src/src/config.rs] ([ZoneMap], [build_zone_map]) and the forwarding
    rules of [src/src/system_dns.rs]. *)
From S2P Require Import Prelude Net Ip Text Question Record Domains.
Open Scope outcome_scope.

(** [str::to_uppercase], by its behaviour on ASCII text, as [Lowercase] in the prelude. *)
Class Uppercase := to_uppercase : bytes → bytes.

Record ZoneRecord := MkZone { domain : bytes; record_type : bytes; value : bytes; ttl : Z }.

Abbreviation node := (gmap QueryType.t (list DnsRecord.t)).
Abbreviation bucket := (gmap bytes node).
Record ZoneMap := MkZoneMap { exact : bucket; wildcard : bucket }.

Definition zone_empty : ZoneMap := {| exact := ∅; wildcard := ∅ |}.

(** * Building *)

(** [splitn(2, ' ')] into two parts. *)
Definition split_two (s : bytes) : option (bytes * bytes) :=
  match after 32 s with Some r => Some (before 32 s, r) | None => None end.

(** The record a zone entry describes, for the name [d]. *)
Definition zone_record (d : bytes) (ty : bytes) (z : ZoneRecord)
    : outcome (QueryType.t * DnsRecord.t) :=
  if bool_decide (ty = str "A") then
    match parse_ipv4 (value z) with
    | Some addr => Ok (QueryType.A, DnsRecord.A d addr (ttl z))
    | None => Err (Message "invalid A record value")
    end
  else if bool_decide (ty = str "AAAA") then
    match parse_ipv6 (value z) with
    | Some addr => Ok (QueryType.AAAA, DnsRecord.AAAA d addr (ttl z))
    | None => Err (Message "invalid AAAA record value")
    end
  else if bool_decide (ty = str "CNAME") then
    Ok (QueryType.CNAME, DnsRecord.CNAME d (value z) (ttl z))
  else if bool_decide (ty = str "PTR") then
    Ok (QueryType.PTR, DnsRecord.PTR d (value z) (ttl z))
  else if bool_decide (ty = str "NS") then
    Ok (QueryType.NS, DnsRecord.NS d (value z) (ttl z))
  else if bool_decide (ty = str "MX") then
    match split_two (value z) with
    | None => Err (Message "MX value must be 'priority host'")
    | Some (p, host) =>
        match parse_uint 65535 p with
        | Some priority => Ok (QueryType.MX, DnsRecord.MX d priority host (ttl z))
        | None => Err (Message "invalid MX priority")
        end
    end
  else Err (Message "unsupported record type").

(** [entry(domain).or_default().entry(qtype).or_default().push(record)]. *)
Definition push_record (d : bytes) (q : QueryType.t) (r : DnsRecord.t) (b : bucket) : bucket :=
  let n : node := default ∅ (b !! d) in
  <[d := <[q := default [] (n !! q) ++ [r]]> n]> b.

Section build.
Context `{Lowercase} `{Uppercase}.

(** The name of a zone entry, and whether it is a wildcard. *)
Definition zone_key (z : ZoneRecord) : outcome (bool * bytes) :=
  let raw := trim_end_byte 46 (to_lowercase (domain z)) in
  let '(is_wildcard, key) :=
    match strip_prefix (str "*.") raw with Some k => (true, k) | None => (false, raw) end in
  if bool_decide (key = []) || contains 42 key then Err (Message "invalid wildcard zone")
  else Ok (is_wildcard, key).

(** One turn of the loop: the bucket, name, type and record of an entry. *)
Definition zone_entry (z : ZoneRecord) : outcome (bool * bytes * QueryType.t * DnsRecord.t) :=
  let? (w, d) := zone_key z in
  let? (q, r) := zone_record d (to_uppercase (record_type z)) z in
  Ok (w, d, q, r).
Definition add_entry (m : ZoneMap) (e : bool * bytes * QueryType.t * DnsRecord.t) : ZoneMap :=
  let '(w, d, q, r) := e in
  if w then {| exact := exact m; wildcard := push_record d q r (wildcard m) |}
  else {| exact := push_record d q r (exact m); wildcard := wildcard m |}.

Fixpoint build_from (zones : list ZoneRecord) (m : ZoneMap) : outcome ZoneMap :=
  match zones with
  | [] => Ok m
  | z :: zones => let? e := zone_entry z in build_from zones (add_entry m e)
  end.
Definition build_zone_map (zones : list ZoneRecord) : outcome ZoneMap :=
  build_from zones zone_empty.
End build.

(** * Lookup *)

(** What a node answers for a type: its records, else its aliases, else no data. *)
Definition node_answer (n : node) (q : QueryType.t) : list DnsRecord.t :=
  match n !! q with
  | Some rrs => rrs
  | None =>
      if bool_decide (q ≠ QueryType.CNAME)
      then match n !! QueryType.CNAME with Some cnames => cnames | None => [] end
      else []
  end.

Fixpoint wildcard_lookup (fuel : nat) (rest qname : bytes) (q : QueryType.t) (b : bucket)
    : option (list DnsRecord.t) :=
  match fuel with
  | O => None
  | S fuel =>
      match after 46 rest with
      | None => None
      | Some parent =>
          if bool_decide (parent = []) then None
          else match b !! parent with
               | Some n => Some (map (set_domain qname) (node_answer n q))
               | None => wildcard_lookup fuel parent qname q b
               end
      end
  end.
Definition zone_lookup (qname : bytes) (q : QueryType.t) (m : ZoneMap)
    : option (list DnsRecord.t) :=
  match exact m !! qname with
  | Some n => Some (node_answer n q)
  | None => wildcard_lookup (S (length qname)) qname qname q (wildcard m)
  end.

Definition zone_is_empty (m : ZoneMap) : bool :=
  bool_decide (exact m = ∅) && bool_decide (wildcard m = ∅).

(** * The zones as the configuration lists them *)

Abbreviation entry := (bool * bytes * QueryType.t * DnsRecord.t)%type.

(** The records of a name, in the order of the file. *)
Definition at_name (w : bool) (d : bytes) (es : list entry) : list (QueryType.t * DnsRecord.t) :=
  omap (λ e : entry, let '(w', d', q, r) := e in
    if decide (w' = w ∧ d' = d) then Some (q, r) else None) es.
Definition of_type (q : QueryType.t) (rs : list (QueryType.t * DnsRecord.t)) : list DnsRecord.t :=
  omap (λ x : QueryType.t * DnsRecord.t, if decide (fst x = q) then Some (snd x) else None) rs.
(** The answer of a name that has the records [rs]. *)
Definition answer_of (rs : list (QueryType.t * DnsRecord.t)) (q : QueryType.t) : list DnsRecord.t :=
  match of_type q rs with
  | [] => if decide (q = QueryType.CNAME) then [] else of_type QueryType.CNAME rs
  | l => l
  end.

(** The bucket holds, for every name, exactly its records. *)
Definition represents (w : bool) (es : list entry) (b : bucket) : Prop :=
  ∀ d, match b !! d with
       | Some n => at_name w d es ≠ [] ∧
           ∀ q, n !! q = match of_type q (at_name w d es) with [] => None | l => Some l end
       | None => at_name w d es = []
       end.

Lemma at_name_snoc w d es w' d' q r : at_name w d (es ++ [(w', d', q, r)]) =
  at_name w d es ++ (if decide (w' = w ∧ d' = d) then [(q, r)] else []).
Proof. unfold at_name. rewrite omap_app. cbn. by case_decide. Qed.
Lemma of_type_snoc q rs q' r : of_type q (rs ++ [(q', r)]) =
  of_type q rs ++ (if decide (q' = q) then [r] else []).
Proof. unfold of_type. rewrite omap_app. cbn. by case_decide. Qed.

Lemma push_represents w es b d q r : represents w es b →
  represents w (es ++ [(w, d, q, r)]) (push_record d q r b).
Proof.
  intros Hb d'. unfold push_record. rewrite at_name_snoc. specialize (Hb d').
  destruct (decide (d = d')) as [->|Hne].
  - rewrite lookup_insert_eq, decide_True by done. split; [by destruct (at_name w d' es)|].
    intros q'. rewrite of_type_snoc.
    assert (Hn : ∀ k, (default ∅ (b !! d') : node) !! k =
      match of_type k (at_name w d' es) with [] => None | l => Some l end).
    { intros k. destruct (b !! d') as [n|]; [apply Hb|]. rewrite Hb. done. }
    destruct (decide (q = q')) as [->|Hq].
    + rewrite lookup_insert_eq, Hn. by destruct (of_type q' (at_name w d' es)).
    + rewrite lookup_insert_ne, Hn, app_nil_r by done. done.
  - rewrite lookup_insert_ne, decide_False, app_nil_r by naive_solver. done.
Qed.

Lemma skip_represents w es b w' d q r : w' ≠ w → represents w es b →
  represents w (es ++ [(w', d, q, r)]) b.
Proof.
  intros Hw Hb d'. specialize (Hb d'). rewrite at_name_snoc, decide_False, app_nil_r by naive_solver.
  done.
Qed.

Lemma node_answer_of w es b d n q : represents w es b → b !! d = Some n →
  node_answer n q = answer_of (at_name w d es) q.
Proof.
  intros Hb Hn. specialize (Hb d). rewrite Hn in Hb. destruct Hb as [_ Hb].
  unfold node_answer, answer_of. rewrite !Hb. destruct (of_type q (at_name w d es)); [|done].
  destruct (decide (q = QueryType.CNAME)) as [->|Hq].
  - by rewrite bool_decide_eq_false_2 by naive_solver.
  - rewrite bool_decide_eq_true_2 by done. by destruct (of_type QueryType.CNAME (at_name w d es)).
Qed.

(** How the zones answer a question: a name with records of its own answers from them;
    else the wildcard of the closest enclosing name that has one; else no zone answers. *)
Inductive zone_answer (es : list entry) (qname : bytes) (q : QueryType.t)
    : option (list DnsRecord.t) → Prop :=
  | answer_exact : at_name false qname es ≠ [] →
      zone_answer es qname q (Some (answer_of (at_name false qname es) q))
  | answer_wildcard s : at_name false qname es = [] →
      proper_suffix s qname → s ≠ [] → at_name true s es ≠ [] →
      (∀ s', proper_suffix s' qname → s' ≠ [] → at_name true s' es ≠ [] → len s' ≤ len s) →
      zone_answer es qname q (Some (map (set_domain qname) (answer_of (at_name true s es) q)))
  | answer_none : at_name false qname es = [] →
      (∀ s, proper_suffix s qname → s ≠ [] → at_name true s es = []) →
      zone_answer es qname q None.

Lemma wildcard_lookup_spec es b qname q fuel rest : represents true es b →
  (length rest < fuel)%nat →
  match wildcard_lookup fuel rest qname q b with
  | Some rrs => ∃ s, proper_suffix s rest ∧ s ≠ [] ∧ at_name true s es ≠ [] ∧
      (∀ s', proper_suffix s' rest → s' ≠ [] → at_name true s' es ≠ [] → len s' ≤ len s) ∧
      rrs = map (set_domain qname) (answer_of (at_name true s es) q)
  | None => ∀ s, proper_suffix s rest → s ≠ [] → at_name true s es = []
  end.
Proof.
  intros Hb. revert rest. induction fuel as [|fuel IH]; intros rest Hf; [lia|].
  cbn [wildcard_lookup]. destruct (after 46 rest) as [p|] eqn:Ha.
  2: { intros s Hs. by apply proper_suffix_none in Hs. }
  pose proof (after_shorter _ _ _ Ha). case_bool_decide as Hp.
  { intros s [->|Hs]%(proper_suffix_after _ _ s Ha) Hne; [done|].
    subst p. by apply proper_suffix_none in Hs. }
  pose proof (Hb p) as Hbp. destruct (b !! p) as [n|] eqn:Hn.
  - exists p. split_and!; [apply (proper_suffix_after _ _ p Ha); by left|done|by destruct Hbp| |].
    + intros s' [->|Hs']%(proper_suffix_after _ _ s' Ha) _ _; [lia|].
      apply proper_suffix_len in Hs'. lia.
    + by rewrite (node_answer_of true es b p n q Hb Hn).
  - specialize (IH p ltac:(lia)). destruct (wildcard_lookup fuel p qname q b) as [rrs|].
    + destruct IH as (s & H1 & H2 & H3 & H4 & H5). exists s.
      split_and!; [apply (proper_suffix_after _ _ s Ha); by right|done|done| |done].
      intros s' [->|Hs']%(proper_suffix_after _ _ s' Ha) Hne Hat; [done|by apply H4].
    + intros s [->|Hs]%(proper_suffix_after _ _ s Ha) Hne; [done|by apply IH].
Qed.

Lemma zone_lookup_answer es m qname q : represents false es (exact m) →
  represents true es (wildcard m) → zone_answer es qname q (zone_lookup qname q m).
Proof.
  intros He Hw. unfold zone_lookup. pose proof (He qname) as Hq.
  destruct (exact m !! qname) as [n|] eqn:Hn.
  - rewrite (node_answer_of false es _ qname n q He Hn). apply answer_exact. by destruct Hq.
  - pose proof (wildcard_lookup_spec es (wildcard m) qname q (S (length qname)) qname Hw
      ltac:(lia)) as Hs.
    destruct (wildcard_lookup _ _ _ _ _) as [rrs|]; [|by apply answer_none].
    destruct Hs as (s & ? & ? & ? & ? & ->). by apply answer_wildcard.
Qed.

Lemma zone_lookup_empty qname q : zone_lookup qname q zone_empty = None.
Proof.
  unfold zone_lookup. cbn [exact wildcard zone_empty]. rewrite lookup_empty.
  assert (Hw : ∀ fuel rest, wildcard_lookup fuel rest qname q ∅ = None); [|apply Hw].
  intros fuel. induction fuel as [|fuel IH]; intros rest; [done|].
  cbn [wildcard_lookup]. destruct (after 46 rest); [|done]. case_bool_decide; [done|].
  by rewrite lookup_empty.
Qed.

Section zones.
Context `{Lowercase} `{Uppercase}.

Lemma zone_record_typed d ty z q r : zone_record d ty z = Ok (q, r) →
  Record.domain r = d ∧ query_type r = q ∧ Record.ttl r = ttl z.
Proof.
  unfold zone_record. intros Hr. repeat (case_match; simplify_eq); done.
Qed.

Definition entry_ok (e : entry) : Prop :=
  let '(w, d, q, r) := e in Record.domain r = d ∧ query_type r = q ∧ d ≠ [] ∧ 42 ∉ d.

Lemma zone_entry_ok z e : zone_entry z = Ok e → entry_ok e.
Proof.
  unfold zone_entry. destruct (zone_key z) as [[w d]| | |] eqn:Hk; cbn [obind]; try done.
  destruct (zone_record d _ z) as [[q r]| | |] eqn:Hr; cbn [obind]; try done.
  intros He. apply (inj Ok) in He as <-. apply zone_record_typed in Hr as (? & ? & _).
  unfold zone_key in Hk. case_match; case_if; simplify_eq; bool_prop;
    (split_and!; [done|done|done|]; intros Hin; apply contains_elem in Hin; congruence).
Qed.

Lemma build_from_represents zones : ∀ es m, represents false es (exact m) →
  represents true es (wildcard m) →
  match build_from zones m with
  | Ok m' => ∃ es', Forall2 (λ z e, zone_entry z = Ok e) zones es' ∧
      represents false (es ++ es') (exact m') ∧ represents true (es ++ es') (wildcard m')
  | Err _ => Exists (λ z, is_err (zone_entry z) = true) zones
  | _ => False
  end.
Proof.
  induction zones as [|z zones IH]; intros es m He Hw; cbn [build_from].
  - exists []. rewrite app_nil_r. by split_and!.
  - assert (Hz : match zone_entry z with Ok _ | Err _ => True | _ => False end).
    { unfold zone_entry, zone_key, zone_record. by repeat (case_match; simplify_eq; cbn [obind] in *). }
    destruct (zone_entry z) as [[[[w d] q] r]|e| |] eqn:Hze; try done; cbn [obind].
    + specialize (IH (es ++ [(w, d, q, r)]) (add_entry m (w, d, q, r))).
      destruct (build_from zones (add_entry m (w, d, q, r))) as [m'| | |] eqn:Hbm.
      * destruct IH as (es' & H1 & H2 & H3).
        1,2: destruct w; cbn; first [by apply push_represents|by apply skip_represents].
        exists ((w, d, q, r) :: es'). rewrite <- !app_assoc in *. split_and!; [by constructor|done|done].
      * right. apply IH; destruct w; cbn; first [by apply push_represents|by apply skip_represents].
      * apply IH; destruct w; cbn; first [by apply push_represents|by apply skip_represents].
      * apply IH; destruct w; cbn; first [by apply push_represents|by apply skip_represents].
    + left. by rewrite Hze.
Qed.

Lemma at_name_typed es w d : Forall entry_ok es →
  Forall (λ x : QueryType.t * DnsRecord.t, Record.domain (snd x) = d ∧ query_type (snd x) = fst x)
    (at_name w d es).
Proof.
  unfold at_name. induction 1 as [|[[[w' d'] q] r] es (H1 & H2 & _) Hes IH]; [constructor|].
  cbn. case_decide as Hd; cbn; [|done]. constructor; [|done]. cbn. by destruct Hd as [_ <-].
Qed.

Lemma of_type_In q rs r : r ∈ of_type q rs → (q, r) ∈ rs.
Proof.
  unfold of_type. intros ([q' r'] & Hin & Hr)%list_elem_of_omap. cbn in Hr. case_decide; simplify_eq.
  by cbn in *; subst.
Qed.

Lemma answer_of_typed d rs q :
  Forall (λ x : QueryType.t * DnsRecord.t, Record.domain (snd x) = d ∧ query_type (snd x) = fst x) rs →
  Forall (λ r, Record.domain r = d ∧ (query_type r = q ∨ query_type r = QueryType.CNAME))
    (answer_of rs q).
Proof.
  intros Hrs. rewrite Forall_forall in Hrs. apply Forall_forall. intros r Hr.
  assert (Hin : (q, r) ∈ rs ∨ (QueryType.CNAME, r) ∈ rs).
  { unfold answer_of in Hr. destruct (of_type q rs) eqn:Hq.
    - case_decide; [by apply elem_of_nil in Hr|]. right. by apply of_type_In.
    - left. apply of_type_In. by rewrite Hq. }
  destruct Hin as [Hin|Hin]; destruct (Hrs _ Hin) as [H1 H2]; cbn in *; auto.
Qed.

Lemma zone_lookup_named es m qname q rrs :
  (∃ zones, Forall2 (λ z e, zone_entry z = Ok e) zones es) →
  zone_answer es qname q (zone_lookup qname q m) → zone_lookup qname q m = Some rrs →
  Forall (λ r, Record.domain r = qname ∧ (query_type r = q ∨ query_type r = QueryType.CNAME)) rrs.
Proof.
  intros [zones Hes] Ha Hl. rewrite Hl in Ha.
  assert (Hok : Forall entry_ok es).
  { clear -Hes. induction Hes; constructor; [by eapply zone_entry_ok|done]. }
  inversion Ha; subst.
  - by apply answer_of_typed, at_name_typed.
  - apply Forall_map. eapply Forall_impl; [by apply (answer_of_typed s), at_name_typed|].
    intros r [_ Hq]. cbn in *. split; [by destruct r|]. by destruct r.
Qed.

Lemma build_zone_map_answers zones :
  match build_zone_map zones with
  | Ok m => ∃ es, Forall2 (λ z e, zone_entry z = Ok e) zones es ∧
      ∀ qname q, zone_answer es qname q (zone_lookup qname q m)
  | Err _ => Exists (λ z, is_err (zone_entry z) = true) zones
  | _ => False
  end.
Proof.
  unfold build_zone_map. pose proof (build_from_represents zones [] zone_empty) as Hb.
  assert (Hr : ∀ w, represents w [] (∅ : bucket)) by (intros w d; by rewrite lookup_empty).
  specialize (Hb (Hr false) (Hr true)).
  destruct (build_from zones zone_empty) as [m| | |]; try done.
  destruct Hb as (es & Hes & He & Hw). cbn [app] in *. exists es. split; [done|].
  intros qname q. by apply (zone_lookup_answer es m qname q He Hw).
Qed.

(** The local zones. Building the map fails exactly on a configuration with a bad entry;
    the map that is built answers every question as the list of entries says: from the
    records of the name in file order, an alias standing in for a missing type, or from the
    wildcard of the closest enclosing name; a name some zone owns is always answered, if
    only with no data, so that it never leaks upstream. Every record answered carries the
    question's name, and its type or an alias. *)
Theorem zone_lookup_spec (zones : list ZoneRecord) :
  match build_zone_map zones with
  | Ok m => ∃ es, Forall2 (λ z e, zone_entry z = Ok e) zones es ∧
      ∀ qname q, zone_answer es qname q (zone_lookup qname q m) ∧
        ∀ rrs, zone_lookup qname q m = Some rrs →
          Forall (λ r, Record.domain r = qname ∧
                       (query_type r = q ∨ query_type r = QueryType.CNAME)) rrs
  | Err _ => Exists (λ z, is_err (zone_entry z) = true) zones
  | _ => False
  end.
Proof.
  pose proof (build_zone_map_answers zones) as Hb.
  destruct (build_zone_map zones) as [m| | |]; try done.
  destruct Hb as (es & Hes & Ha). exists es. split; [done|]. intros qname q. split; [done|].
  intros rrs. eapply zone_lookup_named; eauto.
Qed.
End zones.

(** Two zones: a host with an alias below a wildcard. *)
Definition sample_zones : list ZoneRecord :=
  [{| domain := str "*.Lab.home."; record_type := str "a"; value := str "10.0.0.9"; ttl := 60 |};
   {| domain := str "www.lab.home"; record_type := str "cname"; value := str "nas.lab.home";
      ttl := 60 |}].

Lemma zone_lookup_spec_witness : ∃ m es,
  @build_zone_map lowercase_ascii ascii_upper sample_zones = Ok m ∧
  zone_answer es (str "nas.lab.home") QueryType.A
    (Some [DnsRecord.A (str "nas.lab.home") (Ipv4 10 0 0 9) 60]) ∧
  zone_lookup (str "www.lab.home") QueryType.A m =
    Some [DnsRecord.CNAME (str "www.lab.home") (str "nas.lab.home") 60] ∧
  zone_lookup (str "lab.home") QueryType.A m = None.
Proof.
  pose proof (@zone_lookup_spec lowercase_ascii ascii_upper sample_zones) as Hs.
  assert (Hc : match @build_zone_map lowercase_ascii ascii_upper sample_zones with
    | Ok m => zone_lookup (str "nas.lab.home") QueryType.A m =
          Some [DnsRecord.A (str "nas.lab.home") (Ipv4 10 0 0 9) 60] ∧
        zone_lookup (str "www.lab.home") QueryType.A m =
          Some [DnsRecord.CNAME (str "www.lab.home") (str "nas.lab.home") 60] ∧
        zone_lookup (str "lab.home") QueryType.A m = None
    | _ => False
    end) by (split; [|split]; reflexivity).
  destruct (@build_zone_map lowercase_ascii ascii_upper sample_zones) as [m| | |]; try contradiction.
  destruct Hs as (es & _ & Ha). destruct Hc as (H1 & H2 & H3).
  exists m, es. split; [reflexivity|]. split; [|split; [exact H2|exact H3]].
  destruct (Ha (str "nas.lab.home") QueryType.A) as [Hz _]. rewrite H1 in Hz. exact Hz.
Defined.

(** * Forwarding rules *)

(** [A] is the type of upstream pools. *)
Record ForwardingRule (A : Type) := MkRule { suffix : bytes; dot_suffix_text : bytes; upstream : A }.
Arguments MkRule {A} _ _ _.
Arguments suffix {A} _.
Arguments dot_suffix_text {A} _.
Arguments upstream {A} _.

Definition rule_new {A} (suffix : bytes) (upstream : A) : ForwardingRule A :=
  {| suffix := suffix; dot_suffix_text := 46 :: suffix; upstream := upstream |}.

Fixpoint match_forwarding_rule {A} (domain : bytes) (rules : list (ForwardingRule A)) : option A :=
  match rules with
  | [] => None
  | rule :: rules =>
      if bool_decide (domain = suffix rule) || ends_with (dot_suffix_text rule) domain
      then Some (upstream rule) else match_forwarding_rule domain rules
  end.

Lemma ends_with_spec p s : ends_with p s = true ↔ ∃ a, s = a ++ p.
Proof.
  unfold ends_with. rewrite starts_with_spec. split.
  - intros (r & Hr). exists (reverse r). apply (f_equal reverse) in Hr.
    by rewrite reverse_app, !reverse_involutive in Hr.
  - intros (a & ->). exists (reverse a). by rewrite reverse_app.
Qed.

(** Conditional forwarding uses the first rule whose suffix is the name itself or one of
    its ancestors on a label boundary, and none when no rule covers the name. *)
Theorem match_forwarding_rule_spec {A} (d : bytes) (rs : list (bytes * A)) :
  match match_forwarding_rule d (map (λ x, rule_new (fst x) (snd x)) rs) with
  | Some u => ∃ before s after, rs = before ++ (s, u) :: after ∧ dot_suffix s d ∧
      Forall (λ x, ¬ dot_suffix (fst x) d) before
  | None => Forall (λ x, ¬ dot_suffix (fst x) d) rs
  end.
Proof.
  induction rs as [|[s u] rs IH]; [constructor|]. cbn [map match_forwarding_rule].
  assert (Hm : bool_decide (d = suffix (rule_new (fst (s, u)) (snd (s, u)))) ||
      ends_with (dot_suffix_text (rule_new (fst (s, u)) (snd (s, u)))) d = true ↔ dot_suffix s d).
  { cbn. rewrite orb_true_iff, bool_decide_eq_true, ends_with_spec. unfold dot_suffix, proper_suffix.
    naive_solver. }
  destruct (_ || _).
  - exists [], s, rs. split_and!; [done|by apply Hm|constructor].
  - assert (Hn : ¬ dot_suffix s d) by (by intros ?%Hm).
    destruct (match_forwarding_rule d _) as [v|].
    + destruct IH as (b & s' & a & -> & Hs & Hb). exists ((s, u) :: b), s', a.
      split_and!; [done|done|by constructor].
    + by constructor.
Qed.
