(* ===== verification/Peers.v ===== *)
(** The peer store of [src/src/lan.rs]: services announced by other machines of the local
    network, forgotten after a timeout. *)
From S2P Require Import Prelude Net.

(** Instants and durations are in nanoseconds. *)
Record PeerStore := MkPeers { peers : gmap bytes (IpAddr * Z * Z); timeout : Z }.

(** [elapsed] and [duration_since], zero when the clock went back. *)
Definition since (now seen : Z) : Z := Z.max 0 (now - seen).

Definition peers_new (timeout_secs : Z) : PeerStore :=
  {| peers := ∅; timeout := timeout_secs * 1000000000 |}.
Definition with_peers (m : gmap bytes (IpAddr * Z * Z)) (s : PeerStore) : PeerStore :=
  {| peers := m; timeout := timeout s |}.

Section store.
Context `{Lowercase}.

(** The body of the loop of [update]. *)
Definition update_one (now : Z) (host : IpAddr) (x : bool * PeerStore) (svc : bytes * Z)
    : bool * PeerStore :=
  let '(changed, s) := x in
  let key := to_lowercase (fst svc) in
  (changed || bool_decide (peers s !! key = None),
   with_peers (<[key := (host, snd svc, now)]> (peers s)) s).
Definition peer_update (now : Z) (host : IpAddr) (services : list (bytes * Z)) (s : PeerStore)
    : bool * PeerStore :=
  fold_left (update_one now host) services (false, s).

Definition peer_lookup (now : Z) (name : bytes) (s : PeerStore)
    : option (IpAddr * Z) * PeerStore :=
  let key := to_lowercase name in
  match peers s !! key with
  | None => (None, s)
  | Some (host, port, seen) =>
      if timeout s <? since now seen then (None, with_peers (delete key (peers s)) s)
      else (Some (host, port), s)
  end.

(** [retain(|_, (_, _, seen)| now.duration_since(seen) < timeout)]. *)
Definition retain_fresh (now : Z) (s : PeerStore) : PeerStore :=
  with_peers (filter (λ kv : bytes * (IpAddr * Z * Z), since now (snd (snd kv)) < timeout s)
                (peers s)) s.
Definition peer_list (now : Z) (s : PeerStore) : list (bytes * IpAddr * Z * Z) * PeerStore :=
  let s := retain_fresh now s in
  (map (λ '(name, (host, port, seen)), (name, host, port, since now seen / 1000000000))
     (map_to_list (peers s)), s).
Definition peer_names (now : Z) (s : PeerStore) : list bytes * PeerStore :=
  let s := retain_fresh now s in (map fst (map_to_list (peers s)), s).
Definition peer_clear (s : PeerStore) : PeerStore := with_peers ∅ s.

(** The last announcement of a key in a list. *)
Definition announced (key : bytes) (services : list (bytes * Z)) : option Z :=
  fold_left (λ acc svc, if bool_decide (to_lowercase (fst svc) = key) then Some (snd svc) else acc)
    services None.

Lemma announced_snoc key svcs svc : announced key (svcs ++ [svc]) =
  if bool_decide (to_lowercase (fst svc) = key) then Some (snd svc) else announced key svcs.
Proof. unfold announced. by rewrite fold_left_app. Qed.

Lemma peer_update_spec now host svcs s :
  let '(changed, s') := peer_update now host svcs s in
  timeout s' = timeout s ∧
  (∀ key, peers s' !! key = match announced key svcs with
                            | Some port => Some (host, port, now)
                            | None => peers s !! key
                            end) ∧
  (changed = true ↔ ∃ key, is_Some (announced key svcs) ∧ peers s !! key = None).
Proof.
  unfold peer_update. induction svcs as [|svc svcs IH] using rev_ind.
  - cbn. split_and!; [done|done|]. split; [done|]. by intros (k & [? ?] & _).
  - rewrite fold_left_app. cbn [fold_left].
    destruct (fold_left (update_one now host) svcs (false, s)) as [ch s'].
    destruct IH as (Ht & Hp & Hc). cbn [update_one]. split_and!; [done| |].
    + intros key. cbn [peers with_peers]. rewrite announced_snoc. case_bool_decide as Hk.
      * by rewrite Hk, lookup_insert_eq.
      * by rewrite lookup_insert_ne.
    + rewrite orb_true_iff, Hc, bool_decide_eq_true, Hp. split.
      * intros [(k & Ha & Hn)|Hn].
        -- exists k. rewrite announced_snoc. split; [|done]. by case_bool_decide.
        -- exists (to_lowercase (fst svc)). rewrite announced_snoc, bool_decide_eq_true_2 by done.
           split; [done|]. by destruct (announced _ svcs).
      * intros (k & Ha & Hn). rewrite announced_snoc in Ha. case_bool_decide as Hk.
        -- subst k. destruct (announced (to_lowercase (fst svc)) svcs) eqn:He; [|by right].
           left. eexists. split; [by rewrite He|done].
        -- left. by exists k.
Qed.

(** The peer store. After an announcement every announced name (lower-cased, the last
    port of a repeated name counting) resolves to the announcing host until the timeout
    has passed, all other names resolve as before, and the result tells whether some name
    was new; a lookup after the timeout finds nothing and forgets the peer. *)
Theorem peer_store_spec (now later : Z) (host : IpAddr) (svcs : list (bytes * Z))
    (s : PeerStore) (name : bytes) : now ≤ later →
  let '(changed, s1) := peer_update now host svcs s in
  let '(r, s2) := peer_lookup later name s1 in
  (changed = true ↔ ∃ key, is_Some (announced key svcs) ∧ peers s !! key = None) ∧
  match announced (to_lowercase name) svcs with
  | Some port =>
      r = (if later - now <=? timeout s then Some (host, port) else None) ∧
      (r = None → peers s2 !! to_lowercase name = None)
  | None => r = fst (peer_lookup later name s)
  end ∧
  (∀ key, key ≠ to_lowercase name → peers s2 !! key = peers s1 !! key).
Proof.
  intros Hl. pose proof (peer_update_spec now host svcs s) as Hu.
  destruct (peer_update now host svcs s) as [changed s1]. destruct Hu as (Ht & Hp & Hc).
  unfold peer_lookup at 1. pose proof (Hp (to_lowercase name)) as Hn.
  destruct (announced (to_lowercase name) svcs) as [port|].
  - rewrite Hn, Ht. unfold since. replace (Z.max 0 (later - now)) with (later - now) by lia.
    destruct (Z.ltb_spec (timeout s) (later - now)), (Z.leb_spec (later - now) (timeout s)); try lia.
    + split_and!; [done|done| |].
      * intros _. apply lookup_delete_eq.
      * intros key Hk. by apply lookup_delete_ne.
    + by split_and!.
  - rewrite Hn. unfold peer_lookup. destruct (peers s !! to_lowercase name) as [[[h p] t]|].
    + rewrite Ht. destruct (timeout s <? since later t).
      * split_and!; [done|done|]. intros key Hk. by apply lookup_delete_ne.
      * by split_and!.
    + by split_and!.
Qed.
End store.

Lemma peer_store_spec_witness :
  fst (@peer_lookup lowercase_ascii 30000000000 (str "Printer")
    (snd (@peer_update lowercase_ascii 0 (V4 (Ipv4 10 0 0 5)) [(str "printer", 631)] (peers_new 30))))
  = Some (V4 (Ipv4 10 0 0 5), 631).
Proof.
  pose proof (@peer_store_spec lowercase_ascii 0 30000000000 (V4 (Ipv4 10 0 0 5))
    [(str "printer", 631)] (peers_new 30) (str "Printer") ltac:(vm_compute; discriminate)) as Hs.
  destruct (@peer_update lowercase_ascii 0 (V4 (Ipv4 10 0 0 5)) [(str "printer", 631)] (peers_new 30))
    as [ch s1]. cbn [snd]. destruct (@peer_lookup lowercase_ascii 30000000000 (str "Printer") s1)
    as [r s2]. destruct Hs as (_ & [Hr _] & _). exact Hr.
Defined.
