(* ===== verification/Forward.v ===== *)
(** [src/src/forward.rs]: upstream servers, hedged requests and failover. The network is an
    argument: what each attempt comes to, and when. *)
From S2P Require Import Prelude Net Ip Text Stats Srtt.
Open Scope outcome_scope.

(** HTTP clients, TLS connectors and the target-key cache are handles without state of
    their own here; an ODoH upstream is known by its target host. *)
Inductive Upstream :=
  | Udp (addr : SocketAddr)
  | Tcp (addr : SocketAddr)
  | Doh (url : bytes)
  | Dot (addr : SocketAddr) (tls_name : option bytes)
  | Odoh (relay_url target_path target_host : bytes).

Definition upstream_transport (u : Upstream) : UpstreamTransport.t :=
  match u with
  | Udp _ => UpstreamTransport.Udp
  | Tcp _ => UpstreamTransport.Tcp
  | Doh _ => UpstreamTransport.Doh
  | Dot _ _ => UpstreamTransport.Dot
  | Odoh _ _ _ => UpstreamTransport.Odoh
  end.

Definition tracked_key (u : Upstream) : option key :=
  match u with
  | Udp a | Tcp a | Dot a _ => Some (ip a, upstream_transport u)
  | Doh _ | Odoh _ _ _ => None
  end.

(** [PartialEq for Upstream]. *)
Definition upstream_eqb (a b : Upstream) : bool :=
  match a, b with
  | Udp a, Udp b | Tcp a, Tcp b => bool_decide (a = b)
  | Doh a, Doh b => bool_decide (a = b)
  | Dot a _, Dot b _ => bool_decide (a = b)
  | Odoh ra pa ca, Odoh rb pb cb => bool_decide (ra = rb) && bool_decide (pa = pb) && bool_decide (ca = cb)
  | _, _ => false
  end.

(** * Addresses of upstreams *)

Definition parse_upstream_addr (s : bytes) (default_port : Z) : outcome SocketAddr :=
  match parse_socket s with
  | Some addr => Ok addr
  | None =>
      match parse_ip s with
      | Some ip => Ok (MkSock ip default_port)
      | None => Err (Message "invalid upstream address")
      end
  end.

(** Building the TLS connector does not fail. *)
Definition parse_upstream (s : bytes) (default_port : Z) : outcome Upstream :=
  if starts_with (str "https://") s then Ok (Doh s)
  else
    match strip_prefix (str "tls://") s with
    | Some rest =>
        let '(addr_part, tls_name) :=
          match after 35 rest with Some n => (before 35 rest, Some n) | None => (rest, None) end in
        let? addr := parse_upstream_addr addr_part 853 in
        Ok (Dot addr tls_name)
    | None =>
        match strip_prefix (str "tcp://") s with
        | Some rest => let? addr := parse_upstream_addr rest default_port in Ok (Tcp addr)
        | None => let? addr := parse_upstream_addr s default_port in Ok (Udp addr)
        end
    end.
Fixpoint parse_upstream_list (addrs : list bytes) (default_port : Z) : outcome (list Upstream) :=
  match addrs with
  | [] => Ok []
  | s :: addrs =>
      let? u := parse_upstream s default_port in
      let? us := parse_upstream_list addrs default_port in
      Ok (u :: us)
  end.

(** * The pool *)

Record UpstreamPool := MkPool { primary : list Upstream; fallback : list Upstream }.

Definition preferred (p : UpstreamPool) : option Upstream :=
  match head (primary p) with Some u => Some u | None => head (fallback p) end.
Definition set_primary (us : list Upstream) (p : UpstreamPool) : UpstreamPool :=
  {| primary := us; fallback := fallback p |}.

(** Decimal digits of a port. *)
Fixpoint show_digits (fuel : nat) (n : Z) : bytes :=
  match fuel with
  | O => []
  | S fuel => (if n <? 10 then [] else show_digits fuel (n / 10)) ++ [48 + n mod 10]
  end.
Definition show_u16 (n : Z) : bytes := show_digits 5 n.

Definition maybe_update_primary (new_addr : bytes) (port : Z) (p : UpstreamPool)
    : bool * UpstreamPool :=
  match parse_socket (new_addr ++ 58 :: show_u16 port) with
  | None => (false, p)
  | Some sock =>
      let u := Udp sock in
      if match preferred p with Some v => upstream_eqb v u | None => false end then (false, p)
      else (true, {| primary := [u]; fallback := fallback p |})
  end.

(** * Hedging

    The calls race: the order in which their results and the hedge delay are observed is the
    argument. A result is a message or an error. *)
Abbreviation result := (error + bytes)%type.

Inductive event := DelayElapsed | PrimaryDone (r : result) | SecondaryDone (r : result).

(** The loop of phase two, with the errors seen so far; [None] while it still waits. A branch
    of the select is disabled once its call has failed. *)
Fixpoint hedge_loop (perr serr : option error) (es : list event) : option result :=
  match es with
  | [] => None
  | e :: es =>
      match e with
      | DelayElapsed => hedge_loop perr serr es
      | PrimaryDone r =>
          match perr with
          | Some _ => hedge_loop perr serr es
          | None =>
              match r with
              | inr m => Some (inr m)
              | inl e => match serr with
                         | Some se => Some (inl se)
                         | None => hedge_loop (Some e) serr es
                         end
              end
          end
      | SecondaryDone r =>
          match serr with
          | Some _ => hedge_loop perr serr es
          | None =>
              match r with
              | inr m => Some (inr m)
              | inl e => match perr with
                         | Some pe => Some (inl pe)
                         | None => hedge_loop perr (Some e) es
                         end
              end
          end
      end
  end.
(** Phase one, in which the secondary has not been asked yet. *)
Fixpoint forward_with_hedging (es : list event) : option result :=
  match es with
  | [] => None
  | PrimaryDone r :: _ => Some r
  | DelayElapsed :: es => hedge_loop None None es
  | SecondaryDone _ :: es => forward_with_hedging es
  end.

(** * Failover *)

Definition candidate_rtt (now : Z) (srtt : SrttCache) (u : Upstream) : Z :=
  match tracked_key u with Some (ip, t) => get now ip t srtt | None => 0 end.

(** The upstreams in the order they are tried. *)
Definition failover_order (now : Z) (pool : UpstreamPool) (srtt : SrttCache) : list Upstream :=
  let candidates := sort_by_key snd (map (λ u, (u, candidate_rtt now srtt u)) (primary pool)) in
  let has_fallback := negb (bool_decide (fallback pool = [])) in
  map fst (List.filter (λ c, negb has_fallback || (snd c <? PRIMARY_SKIP_SRTT_MS)) candidates)
  ++ fallback pool.

Section failover.
Context (keys : srtt_map → list key).
(** What the [n]-th attempt, begun at an instant, comes to, and how many milliseconds it
    takes. *)
Context (ask : nat → Upstream → Z → result * Z).

(** The loop: the result, the instant and the table at the end. *)
Fixpoint try_upstreams (n : nat) (us : list Upstream) (now : Z) (srtt : SrttCache)
    (last_err : option error) : result * Z * SrttCache :=
  match us with
  | [] => (inl (default (Message "no upstream configured") last_err), now, srtt)
  | u :: us =>
      let '(r, ms) := ask n u now in
      let later := now + ms * 1000000 in
      match r with
      | inr m =>
          (inr m, later,
           match tracked_key u with
           | Some (ip, t) => record_rtt keys later ip t ms srtt
           | None => srtt
           end)
      | inl e =>
          try_upstreams (S n) us later
            match tracked_key u with
            | Some (ip, t) => record_failure keys later ip t srtt
            | None => srtt
            end (Some e)
      end
  end.
Definition forward_with_failover_raw (now : Z) (pool : UpstreamPool) (srtt : SrttCache)
    : result * Z * SrttCache :=
  try_upstreams 0 (failover_order now pool srtt) now srtt None.
End failover.

(** * What hedging guarantees *)

(** The secondary answers only after it was asked. *)
Fixpoint causal (asked : bool) (es : list event) : Prop :=
  match es with
  | [] => True
  | DelayElapsed :: es => causal true es
  | SecondaryDone _ :: es => asked = true ∧ causal asked es
  | PrimaryDone _ :: es => causal asked es
  end.
(** Every call that is made completes, once. *)
Definition is_primary (e : event) : bool := match e with PrimaryDone _ => true | _ => false end.
Definition is_secondary (e : event) : bool := match e with SecondaryDone _ => true | _ => false end.
Definition is_delay (e : event) : bool := match e with DelayElapsed => true | _ => false end.
Definition complete (es : list event) : Prop :=
  length (List.filter is_primary es) = 1%nat ∧
  length (List.filter is_secondary es) = 1%nat ∧ length (List.filter is_delay es) = 1%nat.

Definition results (es : list event) : list result :=
  omap (λ e, match e with PrimaryDone r | SecondaryDone r => Some r | DelayElapsed => None end) es.

Lemma event_count es : length es =
  (length (List.filter is_primary es) + length (List.filter is_secondary es) +
   length (List.filter is_delay es))%nat.
Proof. induction es as [|[] es IH]; cbn; lia. Qed.

(** Hedging. When the primary completes before the delay its result is the answer,
    whatever it is; otherwise the answer is the first success of the two calls in the order
    they complete, and if both fail the error of the one that failed first. With every
    call completing, there always is an answer. *)
Theorem hedging_spec (es : list event) : causal false es → complete es →
  ∃ r, forward_with_hedging es = Some r ∧
  ((∃ a b, es = a ++ PrimaryDone r :: b ∧ DelayElapsed ∉ a) ∨
   (∃ a b r1 r2, es = a ++ DelayElapsed :: b ∧ results a = [] ∧ results b = [r1; r2] ∧
      r = match r1, r2 with inr _, _ => r1 | inl _, inr _ => r2 | inl _, inl _ => r1 end)).
Proof.
  intros Hc (Hp & Hs & Hd). pose proof (event_count es) as Hl.
  destruct es as [|e1 [|e2 [|e3 [|e4 es]]]]; cbn [length] in Hl; try lia.
  destruct e1 as [|r1|r1], e2 as [|r2|r2], e3 as [|r3|r3]; cbn in Hp, Hs, Hd, Hc; try lia;
    try (by destruct Hc as [? _]); clear Hp Hs Hd Hl Hc.
  - exists (match r2, r3 with inr _, _ => r2 | inl _, inr _ => r3 | inl _, inl _ => r2 end).
    split; [by destruct r2, r3|]. right. by exists [], [PrimaryDone r2; SecondaryDone r3], r2, r3.
  - exists (match r2, r3 with inr _, _ => r2 | inl _, inr _ => r3 | inl _, inl _ => r2 end).
    split; [by destruct r2, r3|]. right. by exists [], [SecondaryDone r2; PrimaryDone r3], r2, r3.
  - exists r1. split; [done|]. left. exists [], [DelayElapsed; SecondaryDone r3].
    split; [done|]. apply not_elem_of_nil.
Qed.

(** * What failover guarantees *)

(** The upstreams that were tried, with the attempt number and the instant it began. *)
Fixpoint attempts (ask : nat → Upstream → Z → result * Z) (n : nat) (us : list Upstream) (now : Z)
    : list (nat * Upstream * Z) :=
  match us with
  | [] => []
  | u :: us =>
      (n, u, now) ::
      match fst (ask n u now) with
      | inr _ => []
      | inl _ => attempts ask (S n) us (now + snd (ask n u now) * 1000000)
      end
  end.
(** What an attempt tells the round-trip table. *)
Definition report (keys : srtt_map → list key) (ask : nat → Upstream → Z → result * Z)
    (srtt : SrttCache) (a : nat * Upstream * Z) : SrttCache :=
  let '(n, u, now) := a in
  match tracked_key u with
  | None => srtt
  | Some (ip, t) =>
      let later := now + snd (ask n u now) * 1000000 in
      match fst (ask n u now) with
      | inr _ => record_rtt keys later ip t (snd (ask n u now)) srtt
      | inl _ => record_failure keys later ip t srtt
      end
  end.

Lemma try_upstreams_spec keys ask us : ∀ n now srtt last_err,
  let '(r, _, srtt') := try_upstreams keys ask n us now srtt last_err in
  let tried := attempts ask n us now in
  srtt' = fold_left (report keys ask) tried srtt ∧
  map (λ a, snd (fst a)) tried `prefix_of` us ∧
  match r with
  | inr m => ∃ before a, tried = before ++ [a] ∧ fst (ask (fst (fst a)) (snd (fst a)) (snd a)) = inr m ∧
      Forall (λ a, ∃ e, fst (ask (fst (fst a)) (snd (fst a)) (snd a)) = inl e) before
  | inl e => map (λ a, snd (fst a)) tried = us ∧
      match last tried with
      | None => e = default (Message "no upstream configured") last_err
      | Some a => fst (ask (fst (fst a)) (snd (fst a)) (snd a)) = inl e
      end ∧
      Forall (λ a, ∃ e, fst (ask (fst (fst a)) (snd (fst a)) (snd a)) = inl e) tried
  end.
Proof.
  induction us as [|u us IH]; intros n now srtt last_err; cbn [try_upstreams attempts].
  - cbn. split_and!; [done|done|done|done|constructor].
  - destruct (ask n u now) as [r ms] eqn:Ha. cbn [fst snd]. destruct r as [e|m].
    + set (srtt1 := match tracked_key u with Some (ip, t) => _ | None => srtt end).
      specialize (IH (S n) (now + ms * 1000000) srtt1 (Some e)).
      destruct (try_upstreams keys ask (S n) us (now + ms * 1000000) srtt1 (Some e)) as [[r' ?] srtt'].
      set (tl := attempts ask (S n) us (now + ms * 1000000)) in *.
      destruct IH as (H1 & H2 & H3). cbn [fold_left map fst snd].
      assert (Hrep : report keys ask srtt (n, u, now) = srtt1)
        by (unfold report; rewrite Ha; cbn [fst snd]; unfold srtt1; by destruct (tracked_key u) as [[]|]).
      rewrite Hrep. split; [done|]. split; [by apply prefix_cons|].
      destruct r' as [e'|m'].
      * destruct H3 as (H3 & H4 & H5). split; [by f_equal|]. split.
        -- destruct tl as [|a tl]; [cbn in *; by rewrite Ha, H4|]. rewrite last_cons_cons. destruct (last (a :: tl)) eqn:Hlast; [exact H4|]. by apply last_None in Hlast.
        -- constructor; [|done]. cbn. rewrite Ha. by exists e.
      * destruct H3 as (b & a & -> & H4 & H5). exists ((n, u, now) :: b), a.
        split_and!; [done|done|]. constructor; [|done]. cbn. rewrite Ha. by exists e.
    + cbn. split_and!; [|by apply prefix_cons, prefix_nil|].
      * unfold report. rewrite Ha. cbn [fst snd]. by destruct (tracked_key u) as [[]|].
      * exists [], (n, u, now). split_and!; [done|cbn; by rewrite Ha|constructor].
Qed.

(** The answer of a failover is the answer of one of its attempts. *)
Lemma failover_bytes keys ask :
  (∀ n u now, match fst (ask n u now) with inr w => all_bytes w | inl _ => True end) →
  ∀ now pool srtt w later table,
  forward_with_failover_raw keys ask now pool srtt = (inr w, later, table) → all_bytes w.
Proof.
  intros Hask now pool srtt w later table. unfold forward_with_failover_raw.
  generalize (failover_order now pool srtt). intros us. generalize 0%nat, (@None error), now, srtt.
  induction us as [|u us IH]; intros n last t tb; cbn; [done|].
  pose proof (Hask n u t) as Hn. destruct (ask n u t) as [[e|m] ms]; cbn in Hn |- *; [apply IH|].
  by intros [= <- _ _].
Qed.

Lemma map_filter {A B} (f : A → B) (P : B → bool) l :
  List.filter P (map f l) = map f (List.filter (λ x, P (f x)) l).
Proof. induction l as [|x l IH]; [done|]. cbn. destruct (P (f x)); cbn; by rewrite IH. Qed.
Lemma filter_Permutation {A} (P : A → bool) l k : l ≡ₚ k → List.filter P l ≡ₚ List.filter P k.
Proof.
  induction 1 as [|x l k H IH|x y l|l1 l2 l3 H1 IH1 H2 IH2]; cbn.
  - done.
  - destruct (P x); [by apply Permutation_skip|done].
  - destruct (P x), (P y); try done. apply Permutation_swap.
  - by rewrite IH1.
Qed.
Lemma filter_sorted {A} (R : A → A → Prop) (P : A → bool) l :
  StronglySorted R l → StronglySorted R (List.filter P l).
Proof.
  induction 1 as [|x l Hl IH Hx]; cbn; [constructor|]. destruct (P x); [|done]. constructor; [done|].
  apply Forall_forall. intros y Hy. apply list_elem_of_In, filter_In in Hy as [Hy _].
  rewrite Forall_forall in Hx. by apply Hx, list_elem_of_In.
Qed.
Lemma map_sorted {A B} (R : B → B → Prop) (f : A → B) l :
  StronglySorted (λ x y, R (f x) (f y)) l → StronglySorted R (map f l).
Proof.
  induction 1 as [|x l Hl IH Hx]; cbn; [constructor|]. constructor; [done|]. by apply Forall_map.
Qed.

(** The primaries that are tried. *)
Lemma failover_prims now pool srtt :
  let prims := map fst (List.filter (λ c : Upstream * Z,
    negb (negb (bool_decide (fallback pool = []))) || (snd c <? PRIMARY_SKIP_SRTT_MS))
    (sort_by_key snd (map (λ u, (u, candidate_rtt now srtt u)) (primary pool)))) in
  StronglySorted (λ u v, candidate_rtt now srtt u ≤ candidate_rtt now srtt v) prims ∧
  prims ≡ₚ List.filter (λ u, bool_decide (fallback pool = []) ||
                             (candidate_rtt now srtt u <? PRIMARY_SKIP_SRTT_MS)) (primary pool).
Proof.
  set (f := λ u, (u, candidate_rtt now srtt u)). cbv zeta.
  set (cs := sort_by_key snd (map f (primary pool))).
  assert (Hp : cs ≡ₚ map f (primary pool)) by apply sort_by_key_perm.
  assert (Hf : Forall (λ c, snd c = candidate_rtt now srtt (fst c)) cs).
  { rewrite Hp. apply Forall_map, Forall_true. done. }
  rewrite negb_involutive. split.
  - apply map_sorted, filter_sorted. pose proof (sort_by_key_sorted snd (map f (primary pool))) as Hs.
    fold cs in Hs. clear Hp. induction Hs as [|c cs' Hs IH Hc]; [constructor|].
    apply Forall_cons in Hf as [Hf1 Hf]. constructor; [by apply IH|].
    rewrite Forall_forall in *. intros c' Hc'. rewrite <- Hf1, <- (Hf c' Hc'). by apply Hc.
  - rewrite (filter_Permutation _ _ _ Hp), map_filter, map_map. cbn [fst snd f].
    by rewrite map_id.
Qed.

(** Failover. The upstreams are tried one after the other, primaries fastest first (in
    the configured order among equals) then fallbacks, a primary whose estimate is at or
    above the skip threshold being left out only when there is a fallback; the answer is
    that of the first one that succeeds, and none after it is asked; when all fail, or
    there is none, the answer is the last error. Exactly the attempts made are reported to
    the round-trip table, with their outcome. *)
Theorem failover_spec (keys : srtt_map → list key) (ask : nat → Upstream → Z → result * Z)
    (now : Z) (pool : UpstreamPool) (srtt : SrttCache) :
  let '(r, _, srtt') := forward_with_failover_raw keys ask now pool srtt in
  let order := failover_order now pool srtt in
  let tried := attempts ask 0 order now in
  let answer a := fst (ask (fst (fst a)) (snd (fst a)) (snd a)) in
  (∃ prims, order = prims ++ fallback pool ∧
     StronglySorted (λ u v, candidate_rtt now srtt u ≤ candidate_rtt now srtt v) prims ∧
     prims ≡ₚ List.filter (λ u, bool_decide (fallback pool = []) ||
                                (candidate_rtt now srtt u <? PRIMARY_SKIP_SRTT_MS)) (primary pool)) ∧
  srtt' = fold_left (report keys ask) tried srtt ∧
  map (λ a, snd (fst a)) tried `prefix_of` order ∧
  match r with
  | inr m => ∃ before a, tried = before ++ [a] ∧ answer a = inr m ∧
      Forall (λ a, ∃ e, answer a = inl e) before
  | inl e => map (λ a, snd (fst a)) tried = order ∧
      match last tried with
      | None => e = Message "no upstream configured"
      | Some a => answer a = inl e
      end ∧
      Forall (λ a, ∃ e, answer a = inl e) tried
  end.
Proof.
  unfold forward_with_failover_raw.
  pose proof (try_upstreams_spec keys ask (failover_order now pool srtt) 0 now srtt None) as Ht.
  destruct (try_upstreams keys ask 0 _ now srtt None) as [[r ?] srtt']. cbv zeta in Ht |- *.
  destruct Ht as (H1 & H2 & H3). split; [|split; [done|split; [done|]]].
  - unfold failover_order. eexists. split; [reflexivity|]. apply failover_prims.
  - destruct r as [e|m].
    + destruct H3 as (H3 & H4 & H5). split; [done|]. split; [by destruct (last _)|done].
    + destruct H3 as (b & a & H3 & H4 & H5). by exists b, a.
Qed.

Lemma hedging_spec_witness :
  causal false [DelayElapsed; PrimaryDone (inl EndOfBuffer); SecondaryDone (inr [1])] ∧
  forward_with_hedging [DelayElapsed; PrimaryDone (inl EndOfBuffer); SecondaryDone (inr [1])]
    = Some (inr [1]).
Proof.
  set (es := [DelayElapsed; PrimaryDone (inl EndOfBuffer); SecondaryDone (inr [1])]).
  assert (Hc : causal false es) by (split; [reflexivity|exact I]).
  assert (Hk : complete es) by (split; [reflexivity|split; reflexivity]).
  split; [exact Hc|]. destruct (hedging_spec es Hc Hk) as (r & Hr & _). rewrite Hr.
  vm_compute in Hr. congruence.
Defined.
