(* ===== verification/Shape.v ===== *)
(** The end of the pipeline of [src/src/ctx.rs]: shaping a response for its client and
    serialising it, with the fallbacks for responses that do not fit or cannot be encoded. *)
From S2P Require Import Prelude Net Wire Cache Svcb Rebind Buffer Question Header Record Packet.
Open Scope outcome_scope.

Definition is_dnssec_record (r : DnsRecord.t) : bool :=
  match query_type r with
  | QueryType.RRSIG | QueryType.DNSKEY | QueryType.DS | QueryType.NSEC | QueryType.NSEC3 => true
  | _ => false
  end.

Definition with_sections (an au ad : list DnsRecord.t) (p : DnsPacket) : DnsPacket :=
  {| header := header p; questions := questions p; answers := an; authorities := au;
     resources := ad; edns := edns p |}.

Definition strip_dnssec_records (p : DnsPacket) : DnsPacket :=
  let keep := List.filter (λ r, negb (is_dnssec_record r)) in
  with_sections (keep (answers p)) (keep (authorities p)) (keep (resources p)) p.

(** The closure of [strip_svcb_ipv6_hints]. *)
Definition strip_hint (r : DnsRecord.t) : outcome DnsRecord.t :=
  match r with
  | DnsRecord.UNKNOWN domain qtype data ttl =>
      if (qtype =? to_num QueryType.HTTPS) || (qtype =? to_num QueryType.SVCB) then
        match strip_ipv6hint data with
        | Ok new_data => Ok (DnsRecord.UNKNOWN domain qtype new_data ttl)
        | Err _ => Ok r
        | Panic => Panic
        | OutOfFuel => OutOfFuel
        end
      else Ok r
  | _ => Ok r
  end.
Fixpoint strip_hints (rs : list DnsRecord.t) : outcome (list DnsRecord.t) :=
  match rs with
  | [] => Ok []
  | r :: rs => let? r := strip_hint r in let? rs := strip_hints rs in Ok (r :: rs)
  end.
(** [for_each_record_mut] over the three sections, in order. *)
Definition strip_svcb_ipv6_hints (p : DnsPacket) : outcome DnsPacket :=
  let? an := strip_hints (answers p) in
  let? au := strip_hints (authorities p) in
  let? ad := strip_hints (resources p) in
  Ok (with_sections an au ad p).

Definition client_do (query : DnsPacket) : bool :=
  match edns query with Some e => do_bit e | None => false end.
Definition with_do (v : bool) (e : EdnsOpt) : EdnsOpt :=
  {| udp_payload_size := udp_payload_size e; extended_rcode := extended_rcode e;
     version := version e; do_bit := v; options := options e |}.

Definition with_header (h : DnsHeader) (p : DnsPacket) : DnsPacket :=
  {| header := h; questions := questions p; answers := answers p; authorities := authorities p;
     resources := resources p; edns := edns p |}.
Definition with_aa (v : bool) (h : DnsHeader) : DnsHeader :=
  MkHeader (id h) (recursion_desired h) (truncated_message h) v (opcode h) (response h)
    (rescode h) (checking_disabled h) (authed_data h) (Header.z h) (recursion_available h)
    (Header.questions h) (Header.answers h) (authoritative_entries h) (resource_entries h).
Definition with_tc (v : bool) (h : DnsHeader) : DnsHeader :=
  MkHeader (id h) (recursion_desired h) v (authoritative_answer h) (opcode h) (response h)
    (rescode h) (checking_disabled h) (authed_data h) (Header.z h) (recursion_available h)
    (Header.questions h) (Header.answers h) (authoritative_entries h) (resource_entries h).
Definition with_rescode (c : ResultCode) (h : DnsHeader) : DnsHeader :=
  MkHeader (id h) (recursion_desired h) (truncated_message h) (authoritative_answer h) (opcode h)
    (response h) c (checking_disabled h) (authed_data h) (Header.z h) (recursion_available h)
    (Header.questions h) (Header.answers h) (authoritative_entries h) (resource_entries h).

Definition with_ra (v : bool) (h : DnsHeader) : DnsHeader :=
  MkHeader (id h) (recursion_desired h) (truncated_message h) (authoritative_answer h) (opcode h)
    (response h) (rescode h) (checking_disabled h) (authed_data h) (Header.z h) v
    (Header.questions h) (Header.answers h) (authoritative_entries h) (resource_entries h).
Definition with_ad (v : bool) (h : DnsHeader) : DnsHeader :=
  MkHeader (id h) (recursion_desired h) (truncated_message h) (authoritative_answer h) (opcode h)
    (response h) (rescode h) (checking_disabled h) v (Header.z h) (recursion_available h)
    (Header.questions h) (Header.answers h) (authoritative_entries h) (resource_entries h).

Definition shape_response_for_client (query : DnsPacket) (filter_aaaa : bool) (p : DnsPacket)
    : outcome DnsPacket :=
  let p := with_header (with_aa false (header p)) p in
  let? p :=
    (if negb (client_do query) then
       let p := strip_dnssec_records p in
       if filter_aaaa then strip_svcb_ipv6_hints p else Ok p
     else Ok p) in
  Ok {| header := header p; questions := questions p; answers := answers p;
        authorities := authorities p; resources := resources p;
        edns := match edns query with
                | Some _ => Some (with_do (client_do query) (default default_edns (edns p)))
                | None => None
                end |}.

(** [packet.write(&mut BytePacketBuffer::new())]. *)
Definition write_new (p : DnsPacket) : outcome unit * BytePacketBuffer := Packet.write p Buffer.new.

(** The buffer to send, and the response as the caller's variable is left. *)
Definition serialize_with_fallback (response query : DnsPacket) (filter_aaaa : bool)
    : outcome (BytePacketBuffer * DnsPacket) :=
  match write_new response with
  | (Ok _, buf) => Ok (buf, response)
  | (Err _, buf) =>
      if overflowed buf then
        let tc := response_from query (rescode (header response)) in
        let tc := with_header (with_tc true (header tc)) tc in
        let? tc := shape_response_for_client query filter_aaaa tc in
        match write_new tc with
        | (Ok _, out) => Ok (out, response)
        | (Err e, _) => Err e
        | (Panic, _) => Panic
        | (OutOfFuel, _) => OutOfFuel
        end
      else
        let response := with_header (with_rescode SERVFAIL (header response)) response in
        let servfail := response_from query SERVFAIL in
        let? servfail := shape_response_for_client query filter_aaaa servfail in
        match write_new servfail with
        | (Ok _, out) => Ok (out, response)
        | (Err e, _) => Err e
        | (Panic, _) => Panic
        | (OutOfFuel, _) => OutOfFuel
        end
  | (Panic, _) => Panic
  | (OutOfFuel, _) => OutOfFuel
  end.

(** * Shaping *)

(** The record carries no IPv6 hint. *)
Definition hint_free (r : DnsRecord.t) : Prop :=
  match r with
  | DnsRecord.UNKNOWN _ qtype data _ => qtype = 64 ∨ qtype = 65 → v6_free data
  | _ => True
  end.

Lemma strip_hint_spec r : data_bytes r →
  ∃ r', strip_hint r = Ok r' ∧ hint_free r' ∧ same_but_hints r r' ∧ strip_hint r' = Ok r' ∧
    is_dnssec_record r' = is_dnssec_record r.
Proof.
  intros Hb. destruct r; try (eexists; split; [reflexivity|];
    exact (conj I (conj (or_introl eq_refl) (conj eq_refl eq_refl)))).
  cbn [data_bytes] in Hb. cbn [strip_hint to_num].
  destruct ((qtype =? 65) || (qtype =? 64)) eqn:Hq.
  - assert (Ht : qtype = 64 ∨ qtype = 65) by (apply orb_true_iff in Hq; lia).
    destruct (strip_ipv6hint_step data Hb) as [(out & Ho & Hn & Hf)|(Hn & Hf)].
    + rewrite Ho. eexists. split; [reflexivity|]. cbn [strip_hint to_num]. rewrite Hq, Hn.
      split_and!; [by intros _| |done|done]. right. by exists domain, qtype, data, out, ttl.
    + rewrite Hn. eexists. split; [reflexivity|]. cbn [strip_hint to_num]. rewrite Hq, Hn.
      split_and!; [by intros _|by left|done|done].
  - eexists. split; [reflexivity|]. cbn [strip_hint to_num]. rewrite Hq.
    split_and!; [|by left|done|done]. cbn. apply orb_false_iff in Hq. lia.
Qed.

Lemma strip_hints_spec rs : Forall data_bytes rs →
  ∃ rs', strip_hints rs = Ok rs' ∧ Forall hint_free rs' ∧ Forall2 same_but_hints rs rs' ∧
    strip_hints rs' = Ok rs'.
Proof.
  induction 1 as [|r rs Hr Hrs (rs' & E & F & S & I)]; [by exists []|].
  destruct (strip_hint_spec r Hr) as (r' & E1 & F1 & S1 & I1 & D1).
  exists (r' :: rs'). cbn [strip_hints]. rewrite E1, E, I1, I. cbn [obind].
  split_and!; [done|by constructor|by constructor|done].
Qed.

Lemma filter_twice {A} (f : A → bool) l : List.filter f (List.filter f l) = List.filter f l.
Proof. apply filter_all, filter_Forall_true. Qed.

(** What shaping makes of a section. *)
Definition shaped_section (do_ filter_aaaa : bool) (rs rs' : list DnsRecord.t) : Prop :=
  if do_ then rs' = rs
  else
    Forall (λ r, is_dnssec_record r = false) rs' ∧
    Forall2 same_but_hints (List.filter (λ r, negb (is_dnssec_record r)) rs) rs' ∧
    (filter_aaaa = true → Forall hint_free rs') ∧
    (filter_aaaa = false → rs' = List.filter (λ r, negb (is_dnssec_record r)) rs).

Lemma strip_section rs : Forall data_bytes rs →
  ∃ rs', strip_hints (List.filter (λ r, negb (is_dnssec_record r)) rs) = Ok rs' ∧
    shaped_section false true rs rs' ∧
    List.filter (λ r, negb (is_dnssec_record r)) rs' = rs' ∧ strip_hints rs' = Ok rs'.
Proof.
  intros Hb. set (ks := List.filter _ rs).
  assert (Hk : Forall data_bytes ks).
  { apply Forall_forall. intros r Hr%list_elem_of_In. apply filter_In in Hr as [Hr _].
    rewrite Forall_forall in Hb. by apply Hb, list_elem_of_In. }
  destruct (strip_hints_spec ks Hk) as (rs' & E & F & S & I).
  assert (Hd : Forall (λ r, is_dnssec_record r = false) ks).
  { eapply Forall_impl; [apply filter_Forall_true|]. intros r Hr. cbv beta in *.
    by apply negb_true_iff in Hr. }
  exists rs'. split; [done|].
  assert (Hd' : Forall (λ r, is_dnssec_record r = false) rs').
  { clear -S Hd. induction S as [|r r' ks rs' Hs S IH]; [constructor|].
    apply Forall_cons in Hd as [Hd Hds]. constructor; [|by apply IH].
    destruct Hs as [->|(d & t & x & x' & ttl & _ & -> & ->)]; [done|]. exact Hd. }
  split_and!; [by split_and!| |done].
  apply filter_all. eapply Forall_impl; [exact Hd'|]. intros r Hr. cbv beta in *. by rewrite Hr.
Qed.

Lemma mirror_none {A B} (o : option A) (x : B) :
  match o with Some _ => Some x | None => None end = None ↔ o = None.
Proof. destruct o; split; by intros. Qed.

(** The outcome of shaping, used below and by the query pipeline. *)
Lemma shape_response_cases (query p : DnsPacket) (filter_aaaa : bool) : packet_bytes p →
  ∃ p', shape_response_for_client query filter_aaaa p = Ok p' ∧
    header p' = with_aa false (header p) ∧ questions p' = questions p ∧
    shaped_section (client_do query) filter_aaaa (answers p) (answers p') ∧
    shaped_section (client_do query) filter_aaaa (authorities p) (authorities p') ∧
    shaped_section (client_do query) filter_aaaa (resources p) (resources p') ∧
    (edns p' = None ↔ edns query = None) ∧
    (∀ e, edns p' = Some e → do_bit e = client_do query ∧
       e = with_do (client_do query) (default default_edns (edns p))) ∧
    shape_response_for_client query filter_aaaa p' = Ok p'.
Proof.
  intros (B1 & B2 & B3). unfold shape_response_for_client.
  destruct (client_do query) eqn:Hdo; cbn [negb obind].
  - eexists. split; [reflexivity|]. cbn. split_and!; try done.
    + apply mirror_none.
    + intros e. destruct (edns query); [intros [= <-]|done]. split; [done|]. done.
    + f_equal. destruct p as [h q a1 a2 a3 e]. cbn. f_equal. by destruct (edns query).
  - destruct filter_aaaa; cbn [obind].
    + unfold strip_svcb_ipv6_hints, strip_dnssec_records. cbn [answers authorities resources with_sections with_header].
      destruct (strip_section _ B1) as (a1 & E1 & S1 & F1 & I1).
      destruct (strip_section _ B2) as (a2 & E2 & S2 & F2 & I2).
      destruct (strip_section _ B3) as (a3 & E3 & S3 & F3 & I3).
      rewrite E1, E2, E3. cbn [obind]. eexists. split; [reflexivity|]. cbn -[shaped_section].
      do 2 (split; [done|]). split; [exact S1|]. split; [exact S2|]. split; [exact S3|].
      split; [apply mirror_none|]. split.
      * intros e. destruct (edns query); [intros [= <-]|done]. done.
      * rewrite F1, F2, F3, I1, I2, I3. cbn. f_equal. f_equal. by destruct (edns query).
    + eexists. split; [reflexivity|]. cbn -[shaped_section].
      assert (Hsec : ∀ rs, shaped_section false false rs
        (List.filter (λ r, negb (is_dnssec_record r)) rs)).
      { intros rs. split_and!; [|by apply Forall_Forall2_diag, Forall_true; left|done|done].
        - eapply Forall_impl; [apply filter_Forall_true|]. intros r Hr. cbv beta in *.
          by apply negb_true_iff in Hr. }
      do 2 (split; [done|]). do 3 (split; [apply Hsec|]). split; [apply mirror_none|]. split.
      * intros e. destruct (edns query); [intros [= <-]|done]. done.
      * rewrite !filter_twice. f_equal. f_equal. by destruct (edns query).
Qed.

(** A property of records that their hints do not matter to survives shaping, and any
    property does when no hint is stripped. *)
Lemma shaped_Forall (P : DnsRecord.t → Prop) do_ filter_aaaa rs rs' :
  Forall P rs → shaped_section do_ filter_aaaa rs rs' →
  (∀ r r', same_but_hints r r' → P r → P r') ∨ do_ = true ∨ filter_aaaa = false → Forall P rs'.
Proof.
  intros HP Hs Hc. unfold shaped_section in Hs. destruct do_; [by subst|].
  destruct Hs as (_ & Hs & _ & Hf).
  assert (HPf : Forall P (List.filter (λ r, negb (is_dnssec_record r)) rs)).
  { apply Forall_forall. intros r [Hr _]%list_elem_of_In%filter_In. rewrite Forall_forall in HP.
    by apply HP, list_elem_of_In. }
  destruct Hc as [Hc|[Hc|Hc]]; [|done|by rewrite Hf].
  clear -Hs HPf Hc. induction Hs as [|r r' ks ks' Hr Hs IH]; [constructor|].
  apply Forall_cons_1 in HPf as [H1 H2]. constructor; [by eapply Hc|by apply IH].
Qed.

(** Shaping keeps the fields of a packet in range. *)
Lemma strip_hint_ok r r' : record_ok r → strip_hint r = Ok r' → record_ok r'.
Proof.
  intros Hr. destruct r; cbn [strip_hint]; try by intros [= <-].
  destruct (_ || _); [|by intros [= <-]]. destruct Hr as (Hd & Ht & Hq & Ho & Hb).
  destruct (strip_ipv6hint data) as [out|e| |] eqn:E; [| |done|done].
  - intros [= <-]. split; [done|]. split; [done|]. cbn. split_and!; [done..|].
    by eapply strip_ipv6hint_bytes.
  - intros [= <-]. split; [done|]. split; [done|]. by split_and!.
Qed.
Lemma strip_hints_ok rs : ∀ rs', Forall record_ok rs → strip_hints rs = Ok rs' → Forall record_ok rs'.
Proof.
  induction rs as [|r rs IH]; intros rs' Hrs; cbn [strip_hints]; [by intros [= <-]|].
  apply Forall_cons_1 in Hrs as [Hr Hrs].
  destruct (strip_hint r) as [r1|e| |] eqn:E1; cbn [obind]; try done.
  destruct (strip_hints rs) as [rs1|e| |] eqn:E2; cbn [obind]; try done.
  intros [= <-]. constructor; [by eapply strip_hint_ok|by eapply IH].
Qed.
Lemma keep_ok {A} (P : A → Prop) f l : Forall P l → Forall P (List.filter f l).
Proof.
  rewrite !Forall_forall. intros Hl x [Hx _]%list_elem_of_In%filter_In. by apply Hl, list_elem_of_In.
Qed.
Lemma shape_fields query filter_aaaa p p' : packet_fields p →
  shape_response_for_client query filter_aaaa p = Ok p' → packet_fields p'.
Proof.
  intros (Hh & Hq & Ha & Hn & Hd & He). unfold shape_response_for_client.
  assert (Ho : edns_ok (match edns query with
    | Some _ => Some (with_do (client_do query) (default default_edns (edns p))) | None => None end)).
  { destruct (edns query); [|done]. cbn. destruct (edns p) as [e0|]; cbn; [apply He|].
    split_and!; by constructor || (unfold is_u16, is_byte; lia). }
  destruct (client_do query); cbn [negb obind].
  { intros [= <-]. by split_and!. }
  destruct filter_aaaa; cbn [obind].
  2: { intros [= <-]. split_and!; try done; by apply keep_ok. }
  unfold strip_svcb_ipv6_hints, strip_dnssec_records. cbn [answers authorities resources with_sections with_header].
  destruct (strip_hints _) as [an|e| |] eqn:E1; cbn [obind]; try done.
  destruct (strip_hints (List.filter _ (authorities p))) as [au|e| |] eqn:E2; cbn [obind]; try done.
  destruct (strip_hints (List.filter _ (resources p))) as [ad|e| |] eqn:E3; cbn [obind]; try done.
  intros [= <-]. split_and!; try done; (eapply strip_hints_ok; [|eassumption]); by apply keep_ok.
Qed.

(** Shaping a response for its client, whatever the response. It always succeeds; the
    answer is never marked authoritative; a client that did not set DO gets no DNSSEC
    record and, when IPv6 is filtered, no IPv6 hint, the other records staying as they are
    and in order, while a DO client gets every record; OPT is present exactly when the
    client sent one, with its DO bit; and shaping twice changes nothing. *)
Theorem shape_response_spec (query p : DnsPacket) (filter_aaaa : bool) : packet_bytes p →
  ∃ p', shape_response_for_client query filter_aaaa p = Ok p' ∧
    header p' = with_aa false (header p) ∧ questions p' = questions p ∧
    shaped_section (client_do query) filter_aaaa (answers p) (answers p') ∧
    shaped_section (client_do query) filter_aaaa (authorities p) (authorities p') ∧
    shaped_section (client_do query) filter_aaaa (resources p) (resources p') ∧
    (edns p' = None ↔ edns query = None) ∧
    (∀ e, edns p' = Some e → do_bit e = client_do query ∧
       e = with_do (client_do query) (default default_edns (edns p))) ∧
    shape_response_for_client query filter_aaaa p' = Ok p'.
Proof. apply shape_response_cases. Qed.

(** * Serialising *)

(** Writing into a fresh buffer. *)
Lemma write_new_spec p :
  match packet_wire p with
  | Some w =>
      (len w ≤ BUF_SIZE ∧ write_new p = (Ok tt, push w Buffer.new) ∧
         filled (push w Buffer.new) = Ok w) ∨
      (BUF_SIZE < len w ∧ ∃ b, write_new p = (Err EndOfBuffer, b) ∧ overflowed b = true)
  | None => ∃ e b, write_new p = (Err e, b)
  end.
Proof.
  pose proof (emits_packet p) as He. destruct (packet_wire p) as [w|] eqn:Hw.
  - destruct (Z.le_gt_cases (len w) BUF_SIZE) as [Hl|Hl].
    + left. destruct (write_filled p w Hw Hl) as [H1 H2]. exact (conj Hl (conj H1 H2)).
    + right. refine (conj Hl _). apply emits_unit in He.
      destruct (He Buffer.new new_in_bounds) as [_ Hf]. apply Hf. exact Hl.
  - exact (He Buffer.new new_in_bounds).
Qed.

(** A reply without records: the query's questions, and an OPT if it had one. *)
Definition bare_reply (query : DnsPacket) (rc : ResultCode) (tc : bool) : DnsPacket :=
  {| header := with_tc tc (header (response_from query rc)); questions := questions query;
     answers := []; authorities := []; resources := [];
     edns := match edns query with
             | Some _ => Some (with_do (client_do query) default_edns)
             | None => None
             end |}.

Lemma shape_bare query rc tc filter_aaaa :
  shape_response_for_client query filter_aaaa
    (with_header (with_tc tc (header (response_from query rc))) (response_from query rc)) =
  Ok (bare_reply query rc tc).
Proof.
  unfold shape_response_for_client, bare_reply.
  by destruct (client_do query), filter_aaaa.
Qed.

Lemma bare_reply_wire query rc tc qw : cat_all question_wire (questions query) = Some qw →
  ∃ w, packet_wire (bare_reply query rc tc) = Some w ∧ len w ≤ 12 + len qw + 11.
Proof.
  intros Hq. unfold packet_wire, bare_reply. cbn [questions answers authorities resources edns].
  rewrite Hq. unfold cat. cbn [cat_all mbind option_bind app].
  eexists. split; [reflexivity|].
  rewrite !len_app, len_header_wire. destruct (edns query); cbn [edns_wire options default_edns with_do];
    rewrite ?len_app, ?len_be16, ?len_be32; len_lia.
Qed.

(** Not even a reply without records fits: the questions alone are too long. *)
Definition unanswerable (query : DnsPacket) : Prop :=
  match packet_wire (bare_reply query SERVFAIL false) with
  | Some w => BUF_SIZE < len w
  | None => True
  end.
Lemma bare_reply_unanswerable query rc tc :
  match packet_wire (bare_reply query rc tc) with Some w => BUF_SIZE < len w | None => True end →
  unanswerable query.
Proof.
  unfold unanswerable, packet_wire, bare_reply. cbn [questions answers authorities resources edns header].
  destruct (cat_all question_wire (questions query)) as [qw|]; [|done]. unfold cat. cbn [cat_all mbind option_bind app].
  by rewrite !len_app, !len_header_wire.
Qed.

(** The message sent, for any response and query: the response's encoding or that of a bare
    reply; an error only when that bare reply cannot be written. *)
Lemma serialize_cases resp query filter_aaaa :
  match serialize_with_fallback resp query filter_aaaa with
  | Ok (buf, _) => ∃ w p, filled buf = Ok w ∧ len w ≤ BUF_SIZE ∧ packet_wire p = Some w ∧
      (p = resp ∨ ∃ rc tc, p = bare_reply query rc tc)
  | Err _ => ∃ rc tc, match packet_wire (bare_reply query rc tc) with
                      | Some w => BUF_SIZE < len w
                      | None => True
                      end
  | _ => False
  end.
Proof.
  assert (Hbare : ∀ rc tc v, match (match write_new (bare_reply query rc tc) with
    | (Ok _, out) => Ok (out, v) | (Err e, _) => Err e | (Panic, _) => Panic
    | (OutOfFuel, _) => OutOfFuel end : outcome (BytePacketBuffer * DnsPacket)) with
    | Ok (buf, _) => ∃ w p, filled buf = Ok w ∧ len w ≤ BUF_SIZE ∧ packet_wire p = Some w ∧
        (p = resp ∨ ∃ rc tc, p = bare_reply query rc tc)
    | Err _ => ∃ rc tc, match packet_wire (bare_reply query rc tc) with
                        | Some w => BUF_SIZE < len w | None => True end
    | _ => False end).
  { intros rc tc v. pose proof (write_new_spec (bare_reply query rc tc)) as Hn.
    destruct (packet_wire (bare_reply query rc tc)) as [w|] eqn:Hw.
    - destruct Hn as [(Hl & -> & Hf)|(Hl & b & -> & _)].
      + exists w, (bare_reply query rc tc). split; [done|]. split; [done|]. split; [done|].
        right. by exists rc, tc.
      + exists rc, tc. by rewrite Hw.
    - destruct Hn as (e & b & ->). exists rc, tc. by rewrite Hw. }
  unfold serialize_with_fallback. pose proof (write_new_spec resp) as Hn.
  destruct (packet_wire resp) as [rw|] eqn:Hrw.
  - destruct Hn as [(Hl & -> & Hf)|(Hl & b & -> & ->)].
    + exists rw, resp. split; [done|]. split; [done|]. split; [done|]. by left.
    + cbv zeta. rewrite shape_bare. apply Hbare.
  - destruct Hn as (e & b & ->). destruct (overflowed b); cbv zeta.
    + rewrite shape_bare. apply Hbare.
    + pose proof (shape_bare query SERVFAIL false filter_aaaa) as Hs.
      change (with_header (with_tc false (header (response_from query SERVFAIL)))
        (response_from query SERVFAIL)) with (response_from query SERVFAIL) in Hs.
      rewrite Hs. apply Hbare.
Qed.

(** Serialising a response for a query whose questions fit in a message. It never
    fails: the response's own encoding is sent when it fits; when it is too long (or an
    unencodable name comes after what already overflows), an empty reply with TC set and
    the response's code; when it holds a name without encoding, an empty SERVFAIL, and the
    caller's response code becomes SERVFAIL with it. *)
Theorem serialize_spec (resp query : DnsPacket) (filter_aaaa : bool) (qw : bytes) :
  cat_all question_wire (questions query) = Some qw → 12 + len qw + 11 ≤ BUF_SIZE →
  ∃ buf resp' w, serialize_with_fallback resp query filter_aaaa = Ok (buf, resp') ∧
    filled buf = Ok w ∧ len w ≤ BUF_SIZE ∧
    match packet_wire resp with
    | Some rw =>
        resp' = resp ∧
        if decide (len rw ≤ BUF_SIZE) then w = rw
        else packet_wire (bare_reply query (rescode (header resp)) true) = Some w
    | None =>
        (resp' = resp ∧ packet_wire (bare_reply query (rescode (header resp)) true) = Some w) ∨
        (resp' = with_header (with_rescode SERVFAIL (header resp)) resp ∧
         packet_wire (bare_reply query SERVFAIL false) = Some w)
    end.
Proof.
  intros Hq Hl.
  assert (Hbare : ∀ rc tc, ∃ w, packet_wire (bare_reply query rc tc) = Some w ∧
    len w ≤ BUF_SIZE ∧ write_new (bare_reply query rc tc) = (Ok tt, push w Buffer.new) ∧
    filled (push w Buffer.new) = Ok w).
  { intros rc tc. destruct (bare_reply_wire query rc tc qw Hq) as (w & Hw & Hwl).
    exists w. split; [done|]. split; [lia|].
    pose proof (write_new_spec (bare_reply query rc tc)) as Hn. rewrite Hw in Hn.
    destruct Hn as [(_ & H1 & H2)|[Hlt _]]; [by split|lia]. }
  unfold serialize_with_fallback. pose proof (write_new_spec resp) as Hn.
  destruct (packet_wire resp) as [rw|].
  - destruct Hn as [(Hrl & Hwr & Hf)|(Hgt & b & Hwr & Ho)]; rewrite Hwr.
    + eexists _, resp, rw. split; [reflexivity|]. split_and!; [exact Hf|done|done|].
      by rewrite decide_True.
    + rewrite Ho. cbv zeta. rewrite shape_bare. cbn [obind].
      destruct (Hbare (rescode (header resp)) true) as (w & Hw & Hwl & Hww & Hwf).
      rewrite Hww. eexists _, resp, w. split; [reflexivity|]. split_and!; [exact Hwf|done|done|].
      rewrite decide_False by lia. exact Hw.
  - destruct Hn as (e & b & Hwr). rewrite Hwr. destruct (overflowed b).
    + cbv zeta. rewrite shape_bare. cbn [obind].
      destruct (Hbare (rescode (header resp)) true) as (w & Hw & Hwl & Hww & Hwf).
      rewrite Hww. eexists _, resp, w. split; [reflexivity|]. split_and!; [exact Hwf|done|].
      left. by split.
    + cbv zeta. pose proof (shape_bare query SERVFAIL false filter_aaaa) as Hs.
      replace (with_header (with_tc false (header (response_from query SERVFAIL)))
        (response_from query SERVFAIL)) with (response_from query SERVFAIL) in Hs by reflexivity.
      rewrite Hs. cbn [obind].
      destruct (Hbare SERVFAIL false) as (w & Hw & Hwl & Hww & Hwf).
      rewrite Hww. eexists _, _, w. split; [reflexivity|]. split_and!; [exact Hwf|done|].
      right. by split.
Qed.

Lemma shape_response_spec_witness :
  packet_bytes sample_answer ∧ ∃ p',
  shape_response_for_client (query 7 (str "evil.example") QueryType.A) true sample_answer = Ok p' ∧
  Forall hint_free (answers p') ∧ edns p' = None.
Proof.
  assert (Hb : packet_bytes sample_answer).
  { assert (Hd : all_bytes sample_svcb) by (apply (bool_decide_unpack _); vm_compute; exact I).
    split; [|split; constructor]. unfold sample_answer. cbn [answers].
    apply Forall_cons; split; [exact I|]. apply Forall_cons; split; [exact I|].
    apply Forall_singleton. exact Hd. }
  split; [exact Hb|].
  destruct (shape_response_spec (query 7 (str "evil.example") QueryType.A) sample_answer true Hb)
    as (p' & He & _ & _ & Ha & _ & _ & Hn & _).
  exists p'. split; [exact He|]. split.
  - destruct Ha as (_ & _ & Hf & _). exact (Hf eq_refl).
  - apply Hn. reflexivity.
Defined.

(** A response whose alias target has no encoding. *)
Definition sample_unencodable : DnsPacket :=
  with_sections [DnsRecord.CNAME (str "a.b") (str "bad\") 60] [] []
    (response_from (query 7 (str "a.b") QueryType.A) NOERROR).

Lemma serialize_spec_witness : packet_wire sample_unencodable = None ∧
  ∃ buf w, serialize_with_fallback sample_unencodable (query 7 (str "a.b") QueryType.A) false =
    Ok (buf, with_header (with_rescode SERVFAIL (header sample_unencodable)) sample_unencodable) ∧
  filled buf = Ok w ∧ len w ≤ BUF_SIZE.
Proof.
  split; [vm_compute; reflexivity|].
  assert (Hq : cat_all question_wire (questions (query 7 (str "a.b") QueryType.A)) =
    Some [1; 97; 1; 98; 0; 0; 1; 0; 1]) by (vm_compute; reflexivity).
  destruct (serialize_spec sample_unencodable (query 7 (str "a.b") QueryType.A) false _ Hq)
    as (buf & r & w & He & Hf & Hl & Hm); [vm_compute; discriminate|].
  exists buf, w. split; [|split; [exact Hf|exact Hl]]. rewrite He. f_equal. f_equal.
  destruct (packet_wire sample_unencodable) as [?|] eqn:Hw;
    [exfalso; vm_compute in Hw; discriminate|].
  destruct Hm as [[Hr Hwt]|[Hr _]]; [|exact Hr]. exfalso.
  assert (Hs : match serialize_with_fallback sample_unencodable (query 7 (str "a.b") QueryType.A) false
    with Ok (_, r) => rescode (header r) | _ => NOERROR end = SERVFAIL) by (vm_compute; reflexivity).
  rewrite He, Hr in Hs. vm_compute in Hs. discriminate.
Defined.
