(* ===== verification/Coalesce.v ===== *)
(** In-flight coalescing ([acquire_inflight], [resolve_coalesced], [InflightGuard] of
    [src/src/ctx.rs]): concurrent calls for one key share one resolution. The calls are tasks
    that interleave at their awaits and at the locks; every interleaving is a list of events. *)
From S2P Require Import Prelude Net Stats Shape Question Header Record Packet.

Abbreviation key := (bytes * QueryType.t)%type.

(** The map's senders, by the identity of their broadcast channel. *)
Abbreviation InflightMap := (gmap key nat).

Inductive Disposition := Leader (tx : nat) | Follower (rx : nat).

(** Under the lock of the map; [fresh] is the identity of the channel created. *)
Definition acquire_inflight (fresh : nat) (k : key) (m : InflightMap) : Disposition * InflightMap :=
  match m !! k with
  | Some tx => (Follower tx, m)
  | None => (Leader fresh, <[k := fresh]> m)
  end.
(** [InflightGuard::drop]. *)
Definition guard_drop (k : key) (m : InflightMap) : InflightMap := delete k m.

(** What a coalesced call returns: response, path, and the error message. *)
Abbreviation answer := (DnsPacket * QueryPath.t * option error)%type.

(** What the leader broadcasts. *)
Definition broadcast (r : error + DnsPacket) : option DnsPacket :=
  match r with inr resp => Some resp | inl _ => None end.
Definition leader_answer (query : DnsPacket) (leader_path : QueryPath.t) (r : error + DnsPacket)
    : answer :=
  match r with
  | inr resp => (resp, leader_path, None)
  | inl e => (response_from query SERVFAIL, QueryPath.UpstreamError, Some e)
  end.
(** [rx.recv()]: a value, or nothing because the sender is gone. *)
Definition follower_answer (query : DnsPacket) (v : option (option DnsPacket)) : answer :=
  match v with
  | Some (Some resp) =>
      (with_header (with_id (id (header query)) (header resp)) resp, QueryPath.Coalesced, None)
  | _ => (response_from query SERVFAIL, QueryPath.UpstreamError, None)
  end.

(** * The interleaved calls *)

(** A call's arguments. *)
Record call := MkCall { c_key : key; c_query : DnsPacket; c_path : QueryPath.t }.

(** Where a call is: before the lock, resolving, between dropping its guard and sending,
    waiting on a channel, returned, or dropped by its caller (or unwound by a panic). *)
Inductive task :=
  | Start
  | Leading (ch : nat)
  | Publishing (ch : nat) (r : error + DnsPacket)
  | Waiting (ch : nat)
  | Done (a : answer)
  | Gone.

(** A channel: open, with a value sent, or without senders. *)
Inductive channel := Open | Sent (v : option DnsPacket) | Closed.

Record state := MkState {
  inflight : InflightMap;
  channels : list channel;
  tasks : list (call * task)
}.
Definition initial : state := {| inflight := ∅; channels := []; tasks := [] |}.

Inductive event :=
  | Arrive (c : call)
  | Acquire (i : nat)
  | Resolved (i : nat) (r : error + DnsPacket)
  | Publish (i : nat)
  | Receive (i : nat)
  | Drop (i : nat).

Definition set_task (i : nat) (c : call) (t : task) (s : state) : state :=
  {| inflight := inflight s; channels := channels s; tasks := <[i := (c, t)]> (tasks s) |}.
Definition set_inflight (m : InflightMap) (s : state) : state :=
  {| inflight := m; channels := channels s; tasks := tasks s |}.
Definition set_channel (ch : nat) (v : channel) (s : state) : state :=
  {| inflight := inflight s; channels := <[ch := v]> (channels s); tasks := tasks s |}.

Definition acquire (i : nat) (c : call) (s : state) : state :=
  match acquire_inflight (length (channels s)) (c_key c) (inflight s) with
  | (Follower rx, _) => set_task i c (Waiting rx) s
  | (Leader tx, m) =>
      set_task i c (Leading tx)
        {| inflight := m; channels := channels s ++ [Open]; tasks := tasks s |}
  end.

(** One event; [None] when it cannot happen. The leader's result ends its await; the guard is
    dropped with it. Between that and the send there is no await, so no drop. *)
Definition step (e : event) (s : state) : option state :=
  match e with
  | Arrive c =>
      Some {| inflight := inflight s; channels := channels s; tasks := tasks s ++ [(c, Start)] |}
  | Acquire i =>
      match tasks s !! i with Some (c, Start) => Some (acquire i c s) | _ => None end
  | Resolved i r =>
      match tasks s !! i with
      | Some (c, Leading ch) =>
          Some (set_task i c (Publishing ch r) (set_inflight (guard_drop (c_key c) (inflight s)) s))
      | _ => None
      end
  | Publish i =>
      match tasks s !! i with
      | Some (c, Publishing ch r) =>
          Some (set_task i c (Done (leader_answer (c_query c) (c_path c) r))
                  (set_channel ch (Sent (broadcast r)) s))
      | _ => None
      end
  | Receive i =>
      match tasks s !! i with
      | Some (c, Waiting ch) =>
          match channels s !! ch with
          | Some (Sent v) => Some (set_task i c (Done (follower_answer (c_query c) (Some v))) s)
          | Some Closed => Some (set_task i c (Done (follower_answer (c_query c) None)) s)
          | _ => None
          end
      | _ => None
      end
  | Drop i =>
      match tasks s !! i with
      | Some (c, Start) | Some (c, Waiting _) => Some (set_task i c Gone s)
      | Some (c, Leading ch) =>
          Some (set_task i c Gone
                  (set_channel ch Closed (set_inflight (guard_drop (c_key c) (inflight s)) s)))
      | _ => None
      end
  end.

Fixpoint run (es : list event) (s : state) : option state :=
  match es with
  | [] => Some s
  | e :: es => match step e s with Some s => run es s | None => None end
  end.
Definition reachable (s : state) : Prop := ∃ es, run es initial = Some s.

(** * The invariant *)

Definition owns (t : task) (ch : nat) : Prop :=
  match t with Leading c | Publishing c _ => c = ch | _ => False end.

(** A call of key [k] resolved to [r] and told its followers. *)
Definition led (ts : list (call * task)) (k : key) (r : error + DnsPacket) : Prop :=
  ∃ j c, ts !! j = Some (c, Done (leader_answer (c_query c) (c_path c) r)) ∧ c_key c = k.
Definition answered (ts : list (call * task)) (c : call) (a : answer) : Prop :=
  (∃ r, a = leader_answer (c_query c) (c_path c) r) ∨
  a = follower_answer (c_query c) None ∨
  (∃ r, led ts (c_key c) r ∧ a = follower_answer (c_query c) (Some (broadcast r))).
(** What a waiting call may find on its channel. *)
Definition served (s : state) (k : key) (ch : nat) : Prop :=
  match channels s !! ch with
  | Some Open => ∃ j c t, tasks s !! j = Some (c, t) ∧ owns t ch ∧ c_key c = k
  | Some (Sent v) => ∃ r, led (tasks s) k r ∧ v = broadcast r
  | Some Closed => True
  | None => False
  end.

Record inv (s : state) : Prop := {
  inv_map k ch : inflight s !! k = Some ch ↔
    ∃ i c, tasks s !! i = Some (c, Leading ch) ∧ c_key c = k;
  inv_owner i j ci ti cj tj ch : tasks s !! i = Some (ci, ti) → tasks s !! j = Some (cj, tj) →
    owns ti ch → owns tj ch → i = j;
  inv_open i c t ch : tasks s !! i = Some (c, t) → owns t ch → channels s !! ch = Some Open;
  inv_waiting i c ch : tasks s !! i = Some (c, Waiting ch) → served s (c_key c) ch;
  inv_done i c a : tasks s !! i = Some (c, Done a) → answered (tasks s) c a
}.

Lemma led_app ts l k r : led ts k r → led (ts ++ l) k r.
Proof. intros (j & c & Hj & Hk). exists j, c. split; [by apply lookup_app_l_Some|done]. Qed.
Lemma led_insert ts i c t u k r : ts !! i = Some (c, t) → (∀ a, t ≠ Done a) →
  led ts k r → led (<[i := (c, u)]> ts) k r.
Proof.
  intros Hi Hn (j & cj & Hj & Hk). exists j, cj. split; [|done].
  destruct (decide (i = j)) as [->|]; [|by rewrite list_lookup_insert_ne].
  rewrite Hj in Hi. injection Hi as -> <-. by destruct (Hn _ eq_refl).
Qed.
Lemma answered_mono ts us c a : (∀ k r, led ts k r → led us k r) →
  answered ts c a → answered us c a.
Proof. intros Hm [?|[?|(r & H & ->)]]; [by left|by right; left|right; right]. eauto. Qed.

(** Looking a task up after one was replaced. *)
Lemma lookup_task i c t (ts : list (call * task)) j cj tj old : ts !! i = Some old →
  <[i := (c, t)]> ts !! j = Some (cj, tj) →
  (j = i ∧ cj = c ∧ tj = t) ∨ (j ≠ i ∧ ts !! j = Some (cj, tj)).
Proof.
  intros Hi Hj. destruct (decide (j = i)) as [->|Hn].
  - left. rewrite list_lookup_insert_eq in Hj by (by apply lookup_lt_Some in Hi).
    by injection Hj as -> ->.
  - right. by rewrite list_lookup_insert_ne in Hj.
Qed.

Lemma inv_initial : inv initial.
Proof.
  split; cbn; intros; try by rewrite lookup_nil in *.
  split; [by rewrite lookup_empty|]. intros (i & c & H & _). by rewrite lookup_nil in H.
Qed.

Lemma served_app s k ch l t : served s k ch →
  served {| inflight := inflight s; channels := channels s ++ l; tasks := tasks s ++ t |} k ch.
Proof.
  unfold served. cbn. destruct (channels s !! ch) as [v|] eqn:Hch; [|done].
  rewrite (lookup_app_l_Some _ _ _ _ Hch). destruct v as [|v|]; [| |done].
  - intros (j & c & u & Hj & Ho & Hk). exists j, c, u. split; [by apply lookup_app_l_Some|done].
  - intros (r & Hl & ->). exists r. split; [by apply led_app|done].
Qed.

Lemma inv_arrive s c : inv s →
  inv {| inflight := inflight s; channels := channels s; tasks := tasks s ++ [(c, Start)] |}.
Proof.
  intros [Hm Ho Hp Hw Hd].
  assert (Hold : ∀ j cj tj, (tasks s ++ [(c, Start)]) !! j = Some (cj, tj) → tj ≠ Start →
    tasks s !! j = Some (cj, tj)).
  { intros j cj tj Hj Hne. apply lookup_app_Some in Hj as [Hj|[_ Hj]]; [done|].
    apply list_lookup_singleton_Some in Hj as [_ Hj]. by injection Hj as _ <-. }
  split; cbn.
  - intros k ch. rewrite Hm. split; intros (i & ci & Hi & Hk); exists i, ci; (split; [|done]).
    + by apply lookup_app_l_Some.
    + by apply Hold.
  - intros i j ci ti cj tj ch Hi Hj Oi Oj.
    apply Hold in Hi; [|by intros ->]. apply Hold in Hj; [|by intros ->]. eauto.
  - intros i ci t ch Hi Oi. apply Hold in Hi; [|by intros ->]. eauto.
  - intros i ci ch Hi. apply Hold in Hi; [|done]. apply Hw in Hi.
    apply (served_app s _ _ [] [(c, Start)]) in Hi. by rewrite app_nil_r in Hi.
  - intros i ci a Hi. apply Hold in Hi; [|done]. eapply answered_mono; [|eauto].
    intros. by apply led_app.
Qed.

(** A task that owns no channel and is not done moves to another such state. *)
Lemma inv_move i c t u s : inv s → tasks s !! i = Some (c, t) →
  (∀ ch, ¬ owns t ch) → (∀ a, t ≠ Done a) → (∀ ch, ¬ owns u ch) →
  (∀ ch, u = Waiting ch → served s (c_key c) ch) →
  (∀ a, u = Done a → answered (tasks s) c a) → inv (set_task i c u s).
Proof.
  intros [Hm Ho Hp Hw Hd] Hi Ht Htd Hu Huw Hud. unfold set_task.
  assert (Hlen : (i < length (tasks s))%nat) by by eapply lookup_lt_Some.
  assert (Hsv : ∀ k ch, served s k ch →
    served {| inflight := inflight s; channels := channels s; tasks := <[i := (c, u)]> (tasks s) |} k ch).
  { intros k ch. unfold served. cbn. destruct (channels s !! ch) as [[|v|]|]; try done.
    - intros (j & cj & tj & Hj & Hoj & Hk). exists j, cj, tj. split; [|done].
      destruct (decide (i = j)) as [->|]; [|by rewrite list_lookup_insert_ne].
      rewrite Hj in Hi. injection Hi as -> ->. by destruct (Ht ch).
    - intros (r & Hl & ->). exists r. split; [|done]. by eapply led_insert. }
  split; cbn.
  - intros k ch. rewrite Hm. split; intros (j & cj & Hj & Hk); exists j, cj; (split; [|done]).
    + destruct (decide (i = j)) as [->|]; [|by rewrite list_lookup_insert_ne].
      rewrite Hj in Hi. injection Hi as -> <-. by destruct (Ht ch).
    + destruct (lookup_task _ _ _ _ _ _ _ _ Hi Hj) as [(-> & _ & <-)|[_ ?]]; [|done].
      by destruct (Hu ch).
  - intros j1 j2 c1 t1 c2 t2 ch H1 H2 O1 O2.
    destruct (lookup_task _ _ _ _ _ _ _ _ Hi H1) as [(_ & _ & ->)|[_ H1']]; [by destruct (Hu ch)|].
    destruct (lookup_task _ _ _ _ _ _ _ _ Hi H2) as [(_ & _ & ->)|[_ H2']]; [by destruct (Hu ch)|].
    eauto.
  - intros j cj tj ch Hj Oj.
    destruct (lookup_task _ _ _ _ _ _ _ _ Hi Hj) as [(_ & _ & ->)|[_ Hj']]; [by destruct (Hu ch)|].
    eauto.
  - intros j cj ch Hj. apply Hsv.
    destruct (lookup_task _ _ _ _ _ _ _ _ Hi Hj) as [(_ & -> & <-)|[_ Hj']]; eauto.
  - intros j cj a Hj. eapply answered_mono; [intros k r; by eapply led_insert|].
    destruct (lookup_task _ _ _ _ _ _ _ _ Hi Hj) as [(_ & -> & <-)|[_ Hj']]; eauto.
Qed.

Lemma inv_acquire i c s : inv s → tasks s !! i = Some (c, Start) → inv (acquire i c s).
Proof.
  intros Hinv Hi. unfold acquire, acquire_inflight.
  destruct (inflight s !! c_key c) as [rx|] eqn:Hk.
  { eapply inv_move; try done; try by intros ? [].
    intros ch [= <-]. destruct Hinv as [Hm Ho Hp Hw Hd].
    apply Hm in Hk as (j & cj & Hj & Hkj). unfold served.
    rewrite (Hp _ _ _ _ Hj eq_refl). by exists j, cj, (Leading rx). }
  destruct Hinv as [Hm Ho Hp Hw Hd]. unfold set_task. cbn.
  assert (Hfresh : ∀ j cj tj, tasks s !! j = Some (cj, tj) → ¬ owns tj (length (channels s))).
  { intros j cj tj Hj Oj. pose proof (Hp _ _ _ _ Hj Oj) as Hl%lookup_lt_Some. lia. }
  split; cbn.
  - intros k ch. split.
    + destruct (decide (c_key c = k)) as [<-|Hne].
      * rewrite lookup_insert_eq. intros [= <-]. exists i, c. split; [|done].
        apply list_lookup_insert_eq. by eapply lookup_lt_Some.
      * rewrite lookup_insert_ne by done. intros (j & cj & Hj & Hkj)%Hm. exists j, cj.
        split; [|done]. rewrite list_lookup_insert_ne; [done|]. intros ->. by rewrite Hi in Hj.
    + intros (j & cj & Hj & Hkj).
      destruct (lookup_task _ _ _ _ _ _ _ _ Hi Hj) as [(_ & -> & [= ->])|[_ Hj']].
      * by rewrite Hkj, lookup_insert_eq.
      * rewrite lookup_insert_ne; [apply Hm; eauto|]. intros He. rewrite He in Hk.
        assert (inflight s !! k = Some ch) by (apply Hm; eauto). congruence.
  - intros j1 j2 c1 t1 c2 t2 ch H1 H2 O1 O2.
    destruct (lookup_task _ _ _ _ _ _ _ _ Hi H1) as [(-> & _ & ->)|[_ H1']];
      destruct (lookup_task _ _ _ _ _ _ _ _ Hi H2) as [(-> & _ & ->)|[_ H2']]; try done.
    + cbn in O1. subst ch. by destruct (Hfresh _ _ _ H2').
    + cbn in O2. subst ch. by destruct (Hfresh _ _ _ H1').
    + eauto.
  - intros j cj tj ch Hj Oj.
    destruct (lookup_task _ _ _ _ _ _ _ _ Hi Hj) as [(_ & _ & ->)|[_ Hj']].
    + cbn in Oj. subst ch. by rewrite lookup_app_r, Nat.sub_diag by done.
    + apply lookup_app_l_Some. eauto.
  - intros j cj ch Hj.
    destruct (lookup_task _ _ _ _ _ _ _ _ Hi Hj) as [(_ & _ & [=])|[_ Hj']].
    apply Hw in Hj'. apply (served_app s _ _ [Open] []) in Hj'. unfold served in *. cbn in *.
    destruct ((channels s ++ [Open]) !! ch) as [[|v|]|]; try done; rewrite app_nil_r in Hj'.
    + destruct Hj' as (l & cl & tl & Hl & Ol & Hkl). exists l, cl, tl. split; [|done].
      rewrite list_lookup_insert_ne; [done|]. intros ->. rewrite Hi in Hl. by injection Hl as <- <-.
    + destruct Hj' as (r & Hl & ->). exists r. split; [|done]. by eapply led_insert.
  - intros j cj a Hj. eapply answered_mono; [intros k r; by eapply led_insert|].
    destruct (lookup_task _ _ _ _ _ _ _ _ Hi Hj) as [(_ & _ & [=])|[_ Hj']]. eauto.
Qed.

(** The owner of a channel leaves the resolving stage: its key leaves the map. *)
Lemma inv_map_leave s i c ch u : inv s → tasks s !! i = Some (c, Leading ch) →
  (∀ ch, u ≠ Leading ch) → ∀ k ch', guard_drop (c_key c) (inflight s) !! k = Some ch' ↔
    ∃ j cj, <[i := (c, u)]> (tasks s) !! j = Some (cj, Leading ch') ∧ c_key cj = k.
Proof.
  intros Hinv Hi Hu k ch'. pose proof Hinv as [Hm Ho Hp Hw Hd]. unfold guard_drop.
  assert (Hown : inflight s !! c_key c = Some ch) by (apply Hm; eauto).
  split.
  - intros [Hne (j & cj & Hj & Hk)%Hm]%lookup_delete_Some. exists j, cj. split; [|done].
    rewrite list_lookup_insert_ne; [done|]. intros ->. rewrite Hi in Hj. by injection Hj as ->.
  - intros (j & cj & Hj & Hk).
    destruct (lookup_task _ _ _ _ _ _ _ _ Hi Hj) as [(_ & _ & E)|[Hji Hj']];
      [by destruct (Hu ch')|].
    apply lookup_delete_Some. split; [|apply Hm; eauto]. intros He.
    assert (inflight s !! k = Some ch') by (apply Hm; eauto). rewrite <- He, Hown in H.
    injection H as <-. apply Hji. by eapply (Ho j i _ _ _ _ ch).
Qed.

(** Another task's channel is not the one its owner closes. *)
Lemma other_channel s i c t ch j cj tj ch' : inv s → tasks s !! i = Some (c, t) → owns t ch →
  tasks s !! j = Some (cj, tj) → owns tj ch' → j ≠ i → ch ≠ ch'.
Proof. intros Hinv Hi Ot Hj Oj Hne ->. apply Hne. by eapply (inv_owner s Hinv j i). Qed.

Lemma served_insert s i c t u k ch m : tasks s !! i = Some (c, t) → (∀ a, t ≠ Done a) →
  (∀ ch, owns t ch → owns u ch) → served s k ch →
  served {| inflight := m; channels := channels s; tasks := <[i := (c, u)]> (tasks s) |} k ch.
Proof.
  intros Hi Ht Hu. unfold served. cbn. destruct (channels s !! ch) as [[|v|]|]; try done.
  - intros (j & cj & tj & Hj & Oj & Hk). destruct (decide (i = j)) as [->|].
    + exists j, c, u. rewrite list_lookup_insert_eq by (by eapply lookup_lt_Some).
      rewrite Hj in Hi. injection Hi as -> ->. eauto.
    + exists j, cj, tj. by rewrite list_lookup_insert_ne.
  - intros (r & Hl & ->). exists r. split; [|done]. by eapply led_insert.
Qed.

Lemma inv_resolved i c ch r s : inv s → tasks s !! i = Some (c, Leading ch) →
  inv (set_task i c (Publishing ch r) (set_inflight (guard_drop (c_key c) (inflight s)) s)).
Proof.
  intros Hinv Hi. pose proof Hinv as [Hm Ho Hp Hw Hd]. unfold set_task, set_inflight. cbn.
  split; cbn.
  - by apply (inv_map_leave s i c ch).
  - intros j1 j2 c1 t1 c2 t2 ch' H1 H2 O1 O2.
    destruct (lookup_task _ _ _ _ _ _ _ _ Hi H1) as [(-> & _ & ->)|[_ H1']];
      destruct (lookup_task _ _ _ _ _ _ _ _ Hi H2) as [(-> & _ & ->)|[_ H2']]; try done;
      eauto.
  - intros j cj tj ch' Hj Oj.
    destruct (lookup_task _ _ _ _ _ _ _ _ Hi Hj) as [(_ & _ & ->)|[_ Hj']]; eauto.
  - intros j cj ch' Hj. eapply served_insert; [done..|].
    destruct (lookup_task _ _ _ _ _ _ _ _ Hi Hj) as [(_ & _ & [=])|[_ Hj']]. eauto.
  - intros j cj a Hj. eapply answered_mono; [intros k r'; by eapply led_insert|].
    destruct (lookup_task _ _ _ _ _ _ _ _ Hi Hj) as [(_ & _ & [=])|[_ Hj']]. eauto.
Qed.

(** The owner of a channel ends, by sending on it or by closing it. *)
Lemma inv_end i c t u ch v m s : inv s → tasks s !! i = Some (c, t) → owns t ch →
  (∀ ch, u ≠ Waiting ch) → (∀ ch, ¬ owns u ch) →
  (∀ k ch', m !! k = Some ch' ↔
    ∃ j cj, <[i := (c, u)]> (tasks s) !! j = Some (cj, Leading ch') ∧ c_key cj = k) →
  (v = Closed ∨ ∃ r, v = Sent (broadcast r) ∧ u = Done (leader_answer (c_query c) (c_path c) r)) →
  (∀ a, u = Done a → answered (tasks s) c a) →
  inv {| inflight := m; channels := <[ch := v]> (channels s); tasks := <[i := (c, u)]> (tasks s) |}.
Proof.
  intros Hinv Hi Ot Huw Huo Hmap Hv Hua. pose proof Hinv as [Hm Ho Hp Hw Hd].
  assert (Ht : ∀ a, t ≠ Done a) by (intros a ->; done).
  assert (Hlen : (ch < length (channels s))%nat) by (eapply lookup_lt_Some; eauto).
  assert (Hlt : (i < length (tasks s))%nat) by (by eapply lookup_lt_Some).
  split; cbn; [exact Hmap| | | |].
  - intros j1 j2 c1 t1 c2 t2 ch' H1 H2 O1 O2.
    destruct (lookup_task _ _ _ _ _ _ _ _ Hi H1) as [(_ & _ & ->)|[_ H1']]; [by destruct (Huo ch')|].
    destruct (lookup_task _ _ _ _ _ _ _ _ Hi H2) as [(_ & _ & ->)|[_ H2']]; [by destruct (Huo ch')|].
    eauto.
  - intros j cj tj ch' Hj Oj.
    destruct (lookup_task _ _ _ _ _ _ _ _ Hi Hj) as [(_ & _ & ->)|[Hji Hj']]; [by destruct (Huo ch')|].
    rewrite list_lookup_insert_ne; [eauto|]. eapply (other_channel s i c t ch j); done.
  - intros j cj ch' Hj.
    destruct (lookup_task _ _ _ _ _ _ _ _ Hi Hj) as [(_ & _ & <-)|[Hji Hj']]; [by destruct (Huw ch')|].
    pose proof (Hw _ _ _ Hj') as Hs. unfold served in *. cbn.
    destruct (decide (ch = ch')) as [<-|Hne].
    + rewrite list_lookup_insert_eq by done. rewrite (Hp _ _ _ _ Hi Ot) in Hs.
      destruct Hv as [->|(r & -> & ->)]; [done|]. exists r. split; [|done].
      destruct Hs as (l & cl & tl & Hl & Ol & Hk). exists i, c.
      rewrite list_lookup_insert_eq by done. split; [done|].
      assert (l = i) as -> by (by eapply (Ho l i)). rewrite Hi in Hl. by injection Hl as <- <-.
    + rewrite list_lookup_insert_ne by done. destruct (channels s !! ch') as [[|w|]|]; try done.
      * destruct Hs as (l & cl & tl & Hl & Ol & Hk). exists l, cl, tl. split; [|done].
        rewrite list_lookup_insert_ne; [done|]. intros ->. rewrite Hi in Hl. injection Hl as <- <-.
        destruct t; cbn in Ot, Ol; congruence.
      * destruct Hs as (r & Hl & ->). exists r. split; [|done]. by eapply led_insert.
  - intros j cj a Hj. eapply answered_mono; [intros k r'; by eapply led_insert|].
    destruct (lookup_task _ _ _ _ _ _ _ _ Hi Hj) as [(_ & -> & <-)|[_ Hj']]; eauto.
Qed.

Lemma inv_step e s s' : inv s → step e s = Some s' → inv s'.
Proof.
  intros Hinv Hs. pose proof Hinv as [Hm Ho Hp Hw Hd]. destruct e as [c|i|i r|i|i|i]; cbn [step] in Hs.
  { injection Hs as <-. by apply inv_arrive. }
  all: destruct (tasks s !! i) as [[c t]|] eqn:Hi; [|done]; destruct t as [|ch|ch r'|ch|a|]; try done.
  - injection Hs as <-. by apply inv_acquire.
  - injection Hs as <-. by apply (inv_resolved i c ch).
  - injection Hs as <-. apply (inv_end i c (Publishing ch r') _ ch _ _ s); try done; try (by intros ? []).
    + intros k ch'. split.
      * intros (j & cj & Hj & Hk)%Hm. exists j, cj. split; [|done].
        rewrite list_lookup_insert_ne; [done|]. intros ->. by rewrite Hi in Hj.
      * intros (j & cj & Hj & Hk). apply Hm. exists j, cj. split; [|done].
        by destruct (lookup_task _ _ _ _ _ _ _ _ Hi Hj) as [(_ & _ & [=])|[_ ?]].
    + right. by exists r'.
    + intros a [= <-]. left. by exists r'.
  - pose proof (Hw _ _ _ Hi) as Hsv. unfold served in Hsv.
    destruct (channels s !! ch) as [[|v|]|] eqn:Hch; try done; injection Hs as <-;
      (eapply inv_move; try done; try (by intros ? []); intros a [= <-]; right).
    + destruct Hsv as (r & Hl & ->). right. by exists r.
    + by left.
  - injection Hs as <-. eapply inv_move; try done; by intros ? [].
  - injection Hs as <-. apply (inv_end i c (Leading ch) _ ch _ _ s); try done; try (by intros ? []).
    + by apply (inv_map_leave s i c ch).
    + by left.
  - injection Hs as <-. eapply inv_move; try done; by intros ? [].
Qed.
Lemma inv_run es : ∀ s s', inv s → run es s = Some s' → inv s'.
Proof.
  induction es as [|e es IH]; intros s s' Hi Hr; [by injection Hr as <-|]. cbn in Hr.
  destruct (step e s) as [s1|] eqn:Hs; [|done]. eapply IH; [|done]. by eapply inv_step.
Qed.
Lemma inv_reachable s : reachable s → inv s.
Proof. intros [es H]. eapply inv_run; [apply inv_initial|done]. Qed.

(** * What coalescing guarantees *)


(** The events of the calls already there, other than being dropped. *)
Definition cooperative (e : event) : Prop :=
  match e with Arrive _ | Drop _ => False | _ => True end.
Definition arrives (e : event) : Prop := match e with Arrive _ => True | _ => False end.
Definition finished (t : task) : Prop := match t with Done _ | Gone => True | _ => False end.

(** An upper bound of the events left to a task. *)
Definition weight (t : task) : nat :=
  match t with Start => 3 | Leading _ => 2 | Publishing _ _ | Waiting _ => 1 | Done _ | Gone => 0 end.
Definition total_weight (ts : list (call * task)) : nat :=
  foldr (λ ct n, weight (snd ct) + n)%nat 0%nat ts.
Definition work (s : state) : nat := total_weight (tasks s).

Lemma work_insert i c t u (ts : list (call * task)) : ts !! i = Some (c, t) →
  (total_weight (<[i := (c, u)]> ts) + weight t = total_weight ts + weight u)%nat.
Proof.
  revert i. induction ts as [|[c' t'] ts IH]; intros [|i] Hi; try done.
  - injection Hi as -> ->. cbn. lia.
  - specialize (IH i Hi).
    change (total_weight (<[S i := (c, u)]> ((c', t') :: ts))) with
      (weight t' + total_weight (<[i := (c, u)]> ts))%nat.
    change (total_weight ((c', t') :: ts)) with (weight t' + total_weight ts)%nat. lia.
Qed.
Lemma step_work e s s' : step e s = Some s' → ¬ arrives e → (work s' < work s)%nat.
Proof.
  intros Hs Hn. destruct e as [c|i|i r|i|i|i]; cbn [step] in Hs; [by destruct Hn|..].
  all: destruct (tasks s !! i) as [[c t]|] eqn:Hi; [|done]; destruct t as [|ch|ch r'|ch|a|]; try done.
  all: try (destruct (channels s !! ch) as [[|v|]|]; try done).
  all: injection Hs as <-; unfold work.
  1: unfold acquire; destruct (acquire_inflight _ _ _) as [[tx|rx] m].
  all: unfold set_task; cbn [tasks set_channel set_inflight].
  all: match goal with H : tasks ?s !! ?j = Some (?d, _) |- context [<[?j := (?d, ?u)]> _] =>
         pose proof (work_insert j d _ u (tasks s) H) as Hsum; cbn [weight] in Hsum end; lia.
Qed.

Lemma run_work es : ∀ s s', run es s = Some s' → Forall (λ e, ¬ arrives e) es →
  (length es + work s' ≤ work s)%nat.
Proof.
  induction es as [|e es IH]; intros s s' Hr Ha; cbn in *; [injection Hr as <-; lia|].
  apply Forall_cons_1 in Ha as [He Ha]. destruct (step e s) as [s1|] eqn:Hs; [|done].
  specialize (IH _ _ Hr Ha). pose proof (step_work _ _ _ Hs He). lia.
Qed.

Lemma step_enabled s i c t : inv s → tasks s !! i = Some (c, t) → ¬ finished t →
  ∃ e, cooperative e ∧ is_Some (step e s).
Proof.
  intros [Hm Ho Hp Hw Hd] Hi Hf. destruct t as [|ch|ch r|ch|a|]; try by destruct Hf.
  - exists (Acquire i). cbn. rewrite Hi. eauto.
  - exists (Resolved i (inl NoneValue)). cbn. rewrite Hi. eauto.
  - exists (Publish i). cbn. rewrite Hi. eauto.
  - pose proof (Hw _ _ _ Hi) as Hs. unfold served in Hs.
    destruct (channels s !! ch) as [[|v|]|] eqn:Hch; [| | |done].
    + destruct Hs as (j & cj & tj & Hj & Oj & _). destruct tj as [|ch'|ch' r| | |]; try done.
      * exists (Resolved j (inl NoneValue)). cbn. rewrite Hj. eauto.
      * exists (Publish j). cbn. rewrite Hj. eauto.
    + exists (Receive i). cbn. rewrite Hi, Hch. eauto.
    + exists (Receive i). cbn. rewrite Hi, Hch. eauto.
Qed.

(** C38: no deadlock, no lost wake-up. From any reachable state the calls already there take
    at most [work] events among themselves, drops included; and whenever none of them can take
    one any more, every call has returned or was dropped, and the map is empty. *)
Theorem coalesce_progress (s s' : state) (es : list event) : reachable s →
  run es s = Some s' → Forall (λ e, ¬ arrives e) es →
  (length es ≤ work s)%nat ∧
  ((∀ e, cooperative e → step e s' = None) →
   Forall (λ ct, finished (snd ct)) (tasks s') ∧ inflight s' = ∅).
Proof.
  intros Hr%inv_reachable Hrun Ha. split; [pose proof (run_work _ _ _ Hrun Ha); lia|].
  intros Hmax. pose proof (inv_run _ _ _ Hr Hrun) as Hinv.
  assert (Hall : Forall (λ ct, finished (snd ct)) (tasks s')).
  { apply Forall_lookup. intros i [c t] Hi. cbn.
    destruct t; cbn; try exact I; exfalso;
      (destruct (step_enabled s' i c _ Hinv Hi) as (e & He & [x Hx]); [by intros []|]);
      by rewrite (Hmax e He) in Hx. }
  split; [done|]. apply map_eq. intros k. rewrite lookup_empty.
  destruct (inflight s' !! k) as [ch|] eqn:Hk; [|done]. exfalso.
  apply (inv_map s' Hinv) in Hk as (i & c & Hi & _). by apply (Forall_lookup_1 _ _ _ _ Hall Hi).
Qed.

(** Two clients ask for a name at once; the second waits for the first. *)
Definition sample_call (n : Z) : call :=
  MkCall (str "a.b", QueryType.A) (query n (str "a.b") QueryType.A) QueryPath.Upstream.
Definition sample_reply : DnsPacket := response_from (query 9 (str "a.b") QueryType.A) NOERROR.
Definition sample_events : list event :=
  [Arrive (sample_call 1); Arrive (sample_call 2); Acquire 0; Acquire 1;
   Resolved 0 (inr sample_reply); Publish 0; Receive 1].


Lemma coalesce_progress_witness : ∃ s s',
  run [Arrive (sample_call 1); Arrive (sample_call 2)] initial = Some s ∧
  run (drop 2 sample_events) s = Some s' ∧ (5 ≤ work s)%nat ∧
  Forall (λ ct, finished (snd ct)) (tasks s') ∧ inflight s' = ∅.
Proof.
  destruct (run [Arrive (sample_call 1); Arrive (sample_call 2)] initial) as [s|] eqn:Hr; [|done].
  destruct (run (drop 2 sample_events) s) as [s'|] eqn:Hr'; [|injection Hr as <-; by vm_compute in Hr'].
  exists s, s'. split; [done|]. split; [done|].
  assert (Hs : reachable s) by by eexists.
  destruct (coalesce_progress s s' _ Hs Hr') as [Hl Hf].
  { repeat constructor; intros []. }
  split; [exact Hl|]. apply Hf. injection Hr as <-. vm_compute in Hr'. injection Hr' as <-.
  intros [|[|[|i]]|[|[|i]] r|[|[|i]]|[|[|i]]|] He; try reflexivity; destruct He.
Defined.
