(* ===== verification/Local.v ===== *)
(** The server state and the local stages of the query pipeline of [src/src/ctx.rs]:
    overrides, [localhost], zones, special-use names, the proxy domain, client policies, the
    blocklist and the AAAA filter. *)
From stdpp Require Import gmap.
From S2P Require Import Prelude Net Ip Text Acl Domains Policy Overrides Services Peers Zones Srtt.
From S2P Require Import Stats QueryLog Rebind Forward Cache Question Header Record Packet.
Open Scope outcome_scope.

Inductive UpstreamMode := ModeAuto | ModeForward | ModeRecursive | ModeOdoh.
#[export] Instance UpstreamMode_eq_dec : EqDecision UpstreamMode.
Proof. solve_decision. Defined.

Section ctx.
Context `{NetLib}.

(** [ServerCtx], as far as resolving a query reads or writes it: paths, certificates, the
    health metadata and the API's settings are left out, and so are the durations, which the
    network argument of the resolver embodies. The in-flight map is in [Coalesce]. *)
Record ServerCtx := MkCtx {
  zone_map : ZoneMap;
  cache : DnsCache;
  refreshing : gset (bytes * QueryType.t);
  stats : ServerStats;
  overrides : OverrideStore;
  blocklist : BlocklistStore;
  query_log : QueryLog;
  services : ServiceStore;
  lan_peers : PeerStore;
  forwarding_rules : list (ForwardingRule UpstreamPool);
  upstream_pool : UpstreamPool;
  lan_ip : Ipv4Addr;
  proxy_tld : bytes;
  proxy_tld_suffix : bytes;
  upstream_mode : UpstreamMode;
  root_hints : list SocketAddr;
  srtt : SrttCache;
  dnssec_enabled : bool;
  dnssec_strict : bool;
  filter_aaaa : bool;
  client_policy : ClientPolicySet;
  rebind : RebindFilter
}.

Definition set_lan_peers (v : PeerStore) (c : ServerCtx) : ServerCtx :=
  MkCtx (zone_map c) (cache c) (refreshing c) (stats c) (overrides c) (blocklist c) (query_log c)
    (services c) v (forwarding_rules c) (upstream_pool c) (lan_ip c) (proxy_tld c)
    (proxy_tld_suffix c) (upstream_mode c) (root_hints c) (srtt c) (dnssec_enabled c)
    (dnssec_strict c) (filter_aaaa c) (client_policy c) (rebind c).

Definition set_cache (v : DnsCache) (c : ServerCtx) : ServerCtx :=
  MkCtx (zone_map c) v (refreshing c) (stats c) (overrides c) (blocklist c) (query_log c)
    (services c) (lan_peers c) (forwarding_rules c) (upstream_pool c) (lan_ip c) (proxy_tld c)
    (proxy_tld_suffix c) (upstream_mode c) (root_hints c) (srtt c) (dnssec_enabled c)
    (dnssec_strict c) (filter_aaaa c) (client_policy c) (rebind c).
Definition set_refreshing (v : gset (bytes * QueryType.t)) (c : ServerCtx) : ServerCtx :=
  MkCtx (zone_map c) (cache c) v (stats c) (overrides c) (blocklist c) (query_log c)
    (services c) (lan_peers c) (forwarding_rules c) (upstream_pool c) (lan_ip c) (proxy_tld c)
    (proxy_tld_suffix c) (upstream_mode c) (root_hints c) (srtt c) (dnssec_enabled c)
    (dnssec_strict c) (filter_aaaa c) (client_policy c) (rebind c).
Definition set_stats (v : ServerStats) (c : ServerCtx) : ServerCtx :=
  MkCtx (zone_map c) (cache c) (refreshing c) v (overrides c) (blocklist c) (query_log c)
    (services c) (lan_peers c) (forwarding_rules c) (upstream_pool c) (lan_ip c) (proxy_tld c)
    (proxy_tld_suffix c) (upstream_mode c) (root_hints c) (srtt c) (dnssec_enabled c)
    (dnssec_strict c) (filter_aaaa c) (client_policy c) (rebind c).
Definition set_query_log (v : QueryLog) (c : ServerCtx) : ServerCtx :=
  MkCtx (zone_map c) (cache c) (refreshing c) (stats c) (overrides c) (blocklist c) v
    (services c) (lan_peers c) (forwarding_rules c) (upstream_pool c) (lan_ip c) (proxy_tld c)
    (proxy_tld_suffix c) (upstream_mode c) (root_hints c) (srtt c) (dnssec_enabled c)
    (dnssec_strict c) (filter_aaaa c) (client_policy c) (rebind c).
Definition set_srtt (v : SrttCache) (c : ServerCtx) : ServerCtx :=
  MkCtx (zone_map c) (cache c) (refreshing c) (stats c) (overrides c) (blocklist c) (query_log c)
    (services c) (lan_peers c) (forwarding_rules c) (upstream_pool c) (lan_ip c) (proxy_tld c)
    (proxy_tld_suffix c) (upstream_mode c) (root_hints c) v (dnssec_enabled c)
    (dnssec_strict c) (filter_aaaa c) (client_policy c) (rebind c).
Definition set_overrides (v : OverrideStore) (c : ServerCtx) : ServerCtx :=
  MkCtx (zone_map c) (cache c) (refreshing c) (stats c) v (blocklist c) (query_log c)
    (services c) (lan_peers c) (forwarding_rules c) (upstream_pool c) (lan_ip c) (proxy_tld c)
    (proxy_tld_suffix c) (upstream_mode c) (root_hints c) (srtt c) (dnssec_enabled c)
    (dnssec_strict c) (filter_aaaa c) (client_policy c) (rebind c).
Definition set_blocklist (v : BlocklistStore) (c : ServerCtx) : ServerCtx :=
  MkCtx (zone_map c) (cache c) (refreshing c) (stats c) (overrides c) v (query_log c)
    (services c) (lan_peers c) (forwarding_rules c) (upstream_pool c) (lan_ip c) (proxy_tld c)
    (proxy_tld_suffix c) (upstream_mode c) (root_hints c) (srtt c) (dnssec_enabled c)
    (dnssec_strict c) (filter_aaaa c) (client_policy c) (rebind c).
Definition set_services (v : ServiceStore) (c : ServerCtx) : ServerCtx :=
  MkCtx (zone_map c) (cache c) (refreshing c) (stats c) (overrides c) (blocklist c) (query_log c)
    v (lan_peers c) (forwarding_rules c) (upstream_pool c) (lan_ip c) (proxy_tld c)
    (proxy_tld_suffix c) (upstream_mode c) (root_hints c) (srtt c) (dnssec_enabled c)
    (dnssec_strict c) (filter_aaaa c) (client_policy c) (rebind c).
Definition set_rebind (v : RebindFilter) (c : ServerCtx) : ServerCtx :=
  MkCtx (zone_map c) (cache c) (refreshing c) (stats c) (overrides c) (blocklist c) (query_log c)
    (services c) (lan_peers c) (forwarding_rules c) (upstream_pool c) (lan_ip c) (proxy_tld c)
    (proxy_tld_suffix c) (upstream_mode c) (root_hints c) (srtt c) (dnssec_enabled c)
    (dnssec_strict c) (filter_aaaa c) (client_policy c) v.
Definition set_upstream_pool (v : UpstreamPool) (c : ServerCtx) : ServerCtx :=
  MkCtx (zone_map c) (cache c) (refreshing c) (stats c) (overrides c) (blocklist c) (query_log c)
    (services c) (lan_peers c) (forwarding_rules c) v (lan_ip c) (proxy_tld c)
    (proxy_tld_suffix c) (upstream_mode c) (root_hints c) (srtt c) (dnssec_enabled c)
    (dnssec_strict c) (filter_aaaa c) (client_policy c) (rebind c).
Definition set_lan_ip (v : Ipv4Addr) (c : ServerCtx) : ServerCtx :=
  MkCtx (zone_map c) (cache c) (refreshing c) (stats c) (overrides c) (blocklist c) (query_log c)
    (services c) (lan_peers c) (forwarding_rules c) (upstream_pool c) v (proxy_tld c)
    (proxy_tld_suffix c) (upstream_mode c) (root_hints c) (srtt c) (dnssec_enabled c)
    (dnssec_strict c) (filter_aaaa c) (client_policy c) (rebind c).
End ctx.

(** What a stage answers. *)
Abbreviation local_answer := (DnsPacket * QueryPath.t * DnssecStatus)%type.

Definition push_answers (rs : list DnsRecord.t) (p : DnsPacket) : DnsPacket :=
  {| header := header p; questions := questions p; answers := answers p ++ rs;
     authorities := authorities p; resources := resources p; edns := edns p |}.

Definition answer_record (domain : bytes) (qtype : QueryType.t) (v4 : option Ipv4Addr)
    (v6 : option Ipv6Addr) (ttl : Z) : option DnsRecord.t :=
  match qtype with
  | QueryType.A => match v4 with Some addr => Some (DnsRecord.A domain addr ttl) | None => None end
  | QueryType.AAAA =>
      match v6 with Some addr => Some (DnsRecord.AAAA domain addr ttl) | None => None end
  | _ => None
  end.

(** [s.strip_suffix(p)]. *)
Definition strip_suffix (p s : bytes) : option bytes :=
  match strip_prefix (reverse p) (reverse s) with Some r => Some (reverse r) | None => None end.
(** [s.rsplit('.').next()]: the text after the last dot. *)
Definition last_label (s : bytes) : bytes := reverse (before 46 (reverse s)).

Definition is_special_use_domain (qname : bytes) : bool :=
  if ends_with (str ".in-addr.arpa") qname then
    if ends_with (str ".10.in-addr.arpa") qname
       || ends_with (str ".168.192.in-addr.arpa") qname
       || ends_with (str ".127.in-addr.arpa") qname
       || ends_with (str ".254.169.in-addr.arpa") qname
       || ends_with (str ".0.in-addr.arpa") qname
       || contains_text (str "_dns-sd._udp") qname
    then true
    else if ends_with (str ".172.in-addr.arpa") qname then
      match strip_suffix (str ".172.in-addr.arpa") qname with
      | Some s =>
          match parse_uint 255 (last_label s) with
          | Some octet => (16 <=? octet) && (octet <=? 31)
          | None => false
          end
      | None => false
      end
    else false
  else if bool_decide (qname = str "_dns.resolver.arpa")
          || ends_with (str "._dns.resolver.arpa") qname then true
  else if bool_decide (qname = str "ipv4only.arpa") then true
  else bool_decide (qname = str "local") || ends_with (str ".local") qname.

Definition special_use_response (query : DnsPacket) (qname : bytes) (qtype : QueryType.t)
    : DnsPacket :=
  if bool_decide (qname = str "ipv4only.arpa") then
    push_answers
      match qtype with
      | QueryType.A =>
          [DnsRecord.A qname (Ipv4 192 0 0 170) 300; DnsRecord.A qname (Ipv4 192 0 0 171) 300]
      | QueryType.AAAA =>
          [DnsRecord.AAAA qname (Ipv6 0x64 0xff9b 0 0 0 0 0xc000 0xaa) 300]
      | _ => []
      end (response_from query NOERROR)
  else response_from query NXDOMAIN.

Definition LOCALHOST : Ipv4Addr := Ipv4 127 0 0 1.
Definition LOCALHOST6 : Ipv6Addr := Ipv6 0 0 0 0 0 0 0 1.
Definition UNSPECIFIED : Ipv4Addr := Ipv4 0 0 0 0.
Definition UNSPECIFIED6 : Ipv6Addr := Ipv6 0 0 0 0 0 0 0 0.

(** A response with at most one synthesised record. *)
Definition synthesized (query : DnsPacket) (qname : bytes) (qtype : QueryType.t)
    (v4 : option Ipv4Addr) (v6 : option Ipv6Addr) (ttl : Z) : DnsPacket :=
  push_answers (option_list (answer_record qname qtype v4 v6 ttl)) (response_from query NOERROR).

Section local.
Context `{Lowercase} `{NetLib}.
(** [lan::local_ip_toward]: the source address the operating system would route from. *)
Context (local_ip_toward : IpAddr → option Ipv4Addr).

Definition resolve_proxy_tld (now : Z) (query : DnsPacket) (src_addr : SocketAddr) (qname : bytes)
    (qtype : QueryType.t) (ctx : ServerCtx) : local_answer * ServerCtx :=
  let service_name := default qname (strip_suffix (proxy_tld_suffix ctx) qname) in
  let is_remote := negb (is_loopback (ip src_addr)) in
  match service_lookup service_name (services ctx) with
  | Some _ =>
      let v4 := if is_remote then default (lan_ip ctx) (local_ip_toward (ip src_addr))
                else LOCALHOST in
      let v6 := if bool_decide (v4 = LOCALHOST) then LOCALHOST6 else to_ipv6_mapped v4 in
      ((synthesized query qname qtype (Some v4) (Some v6) 300, QueryPath.Local, Indeterminate), ctx)
  | None =>
      let '(found, peers) := peer_lookup now service_name (lan_peers ctx) in
      let ctx := set_lan_peers peers ctx in
      match found with
      | Some (peer_ip, _) =>
          let '(v4, v6) := match peer_ip with
                           | V4 v4 => (Some v4, Some (to_ipv6_mapped v4))
                           | V6 v6 => (None, Some v6)
                           end in
          ((synthesized query qname qtype v4 v6 300, QueryPath.Local, Indeterminate), ctx)
      | None => ((response_from query NXDOMAIN, QueryPath.Local, Indeterminate), ctx)
      end
  end.

(** The end of the pipeline, after the blocklist. *)
Definition aaaa_stage (query : DnsPacket) (src_addr : SocketAddr) (qtype : QueryType.t)
    (ctx : ServerCtx) : option local_answer :=
  if bool_decide (qtype = QueryType.AAAA)
     && effective_filter_aaaa (client_policy ctx) (ip src_addr) (filter_aaaa ctx)
  then Some (response_from query NOERROR, QueryPath.Local, Indeterminate)
  else None.
Definition sinkhole (query : DnsPacket) (qname : bytes) (qtype : QueryType.t) : local_answer :=
  (synthesized query qname qtype (Some UNSPECIFIED) (Some UNSPECIFIED6) 60, QueryPath.Blocked,
   Indeterminate).
Definition block_stages (now : Z) (query : DnsPacket) (src_addr : SocketAddr) (qname : bytes)
    (qtype : QueryType.t) (ctx : ServerCtx) : option local_answer :=
  let decision :=
    if policies_enabled (client_policy ctx)
    then evaluate now (client_policy ctx) (ip src_addr) qname else Passthrough in
  match decision with
  | Block => Some (sinkhole query qname qtype)
  | _ =>
      let policy_allow := match decision with Allow => true | _ => false end in
      if negb policy_allow && is_blocked now qname (blocklist ctx)
      then Some (sinkhole query qname qtype)
      else aaaa_stage query src_addr qtype ctx
  end.

Definition resolve_local (now : Z) (query : DnsPacket) (src_addr : SocketAddr) (qname : bytes)
    (qtype : QueryType.t) (ctx : ServerCtx) : outcome (option local_answer * ServerCtx) :=
  let? o := override_lookup now qname (overrides ctx) in
  match o with
  | Some record =>
      Ok (Some (push_answers [record] (response_from query NOERROR), QueryPath.Overridden,
                Indeterminate), ctx)
  | None =>
      if bool_decide (qname = str "localhost") || ends_with (str ".localhost") qname then
        Ok (Some (synthesized query qname qtype (Some LOCALHOST) (Some LOCALHOST6) 300,
                  QueryPath.Local, Indeterminate), ctx)
      else
        match zone_lookup qname qtype (zone_map ctx) with
        | Some records =>
            Ok (Some (push_answers records (response_from query NOERROR), QueryPath.Local,
                      Indeterminate), ctx)
        | None =>
            if is_special_use_domain qname
               && bool_decide (match_forwarding_rule qname (forwarding_rules ctx) = None)
            then Ok (Some (special_use_response query qname qtype, QueryPath.Local,
                           Indeterminate), ctx)
            else if negb (bool_decide (proxy_tld_suffix ctx = []))
                    && (ends_with (proxy_tld_suffix ctx) qname
                        || bool_decide (qname = proxy_tld ctx))
            then let '(a, ctx) := resolve_proxy_tld now query src_addr qname qtype ctx in
                 Ok (Some a, ctx)
            else Ok (block_stages now query src_addr qname qtype ctx, ctx)
        end
  end.
End local.

(** * Sound responses *)

(** Responses with all fields in range, which can be cached, shaped and serialised. *)
Abbreviation sound := packet_fields.
Lemma sound_app rs p : sound p → Forall record_ok rs → sound (push_answers rs p).
Proof. intros (? & ? & ? & ? & ? & ?) Hr. split_and!; try done. by apply Forall_app. Qed.
(** A query a response can be made to. *)
Definition query_ok (q : DnsPacket) : Prop := header_ok (header q) ∧ Forall question_ok (questions q).
Lemma response_from_sound q rc : query_ok q → sound (response_from q rc).
Proof.
  intros [(? & _) ?]. split_and!; try done; by constructor.
Qed.

Definition ip_ok (a : IpAddr) : Prop := match a with V4 a => ipv4_ok a | V6 a => ipv6_ok a end.

(** The data the local stages answer from: field ranges, and deadlines of overrides within the
    clock's range. *)
Record locals_ok `{NetLib} (c : ServerCtx) : Prop := {
  lo_overrides : map_Forall (λ _ e, overflows e = false ∧ record_ok (Overrides.record e)) (overrides c);
  lo_zones : ∀ q t rs, all_bytes q → zone_lookup q t (zone_map c) = Some rs → Forall record_ok rs;
  lo_peers : map_Forall (λ _ x, ip_ok (fst (fst x))) (peers (lan_peers c));
  lo_lan : ipv4_ok (lan_ip c)
}.

Section locals.
Context `{Lowercase} `{NetLib}.
Context (local_ip_toward : IpAddr → option Ipv4Addr)
  (local_ip_toward_ok : ∀ a b, local_ip_toward a = Some b → ipv4_ok b).

Lemma mapped_ok a : ipv4_ok a → ipv6_ok (to_ipv6_mapped a).
Proof.
  destruct a as [x y z w]. unfold ipv4_ok, ipv6_ok, octets. rewrite !Forall_cons. unfold is_byte.
  intros (? & ? & ? & ? & _). cbn [to_ipv6_mapped segments].
  repeat (apply Forall_cons_2; [first [by apply Buffer.is_u16_from_be16|unfold is_u16; lia]|]).
  by apply Forall_nil.
Qed.
Lemma answer_record_ok qname qtype v4 v6 t : all_bytes qname → is_u32 t →
  (∀ a, v4 = Some a → ipv4_ok a) → (∀ a, v6 = Some a → ipv6_ok a) →
  Forall record_ok (option_list (answer_record qname qtype v4 v6 t)).
Proof.
  intros Hq Ht H4 H6. unfold answer_record.
  destruct qtype; try apply Forall_nil_2; [destruct v4|destruct v6]; try apply Forall_nil_2;
    (apply Forall_singleton; split; [done|split; [done|cbn; auto]]).
Qed.
Lemma synthesized_sound query qname qtype v4 v6 t : query_ok query → all_bytes qname → is_u32 t →
  (∀ a, v4 = Some a → ipv4_ok a) → (∀ a, v6 = Some a → ipv6_ok a) →
  sound (synthesized query qname qtype v4 v6 t).
Proof. intros. by apply sound_app; [apply response_from_sound|apply answer_record_ok]. Qed.

Lemma special_use_sound query qname qtype : query_ok query → all_bytes qname →
  sound (special_use_response query qname qtype).
Proof.
  intros Hq Hn. unfold special_use_response. case_bool_decide; [|by apply response_from_sound].
  apply sound_app; [by apply response_from_sound|].
  destruct qtype; try apply Forall_nil_2; (repeat apply Forall_cons_2); try apply Forall_nil_2;
    (split; [done|split; [done|]]); apply (bool_decide_unpack _); vm_compute; exact I.
Qed.
Lemma sinkhole_sound query qname qtype : query_ok query → all_bytes qname →
  sound (fst (fst (sinkhole query qname qtype))).
Proof.
  intros Hq Hn. apply synthesized_sound; try done; intros a [= <-];
    apply (bool_decide_unpack _); vm_compute; exact I.
Qed.

(** What the stages leave of the state, whether they answer or not. *)
Definition same_but_peers (c c' : ServerCtx) : Prop := c' = set_lan_peers (lan_peers c') c.
Lemma locals_ok_peers v c : map_Forall (λ _ x, ip_ok (fst (fst x))) (peers v) → locals_ok c →
  locals_ok (set_lan_peers v c).
Proof. intros Hv [? ? ? ?]. by split. Qed.

Lemma proxy_sound now query src qname qtype c : query_ok query → all_bytes qname → locals_ok c →
  let '((resp, path, st), c') := resolve_proxy_tld local_ip_toward now query src qname qtype c in
  sound resp ∧ locals_ok c' ∧ same_but_peers c c' ∧ path = QueryPath.Local ∧ st = Indeterminate.
Proof.
  intros Hq Hn Hc. pose proof Hc as [_ _ Hpeers Hlan]. unfold resolve_proxy_tld.
  assert (Hsame : same_but_peers c c) by by destruct c.
  destruct (service_lookup _ _).
  { set (v4 := if negb _ then _ else LOCALHOST).
    assert (H4 : ipv4_ok v4).
    { unfold v4. destruct (negb _); [|apply (bool_decide_unpack _); vm_compute; exact I].
      destruct (local_ip_toward (ip src)) eqn:E; [by eapply local_ip_toward_ok|done]. }
    split_and!; [|done..]. apply synthesized_sound; try done; [by intros a [= <-]|].
    intros a [= <-]. case_bool_decide; [apply (bool_decide_unpack _); vm_compute; exact I|by apply mapped_ok]. }
  unfold peer_lookup. set (name := to_lowercase _).
  destruct (peers (lan_peers c) !! name) as [[[host port] seen]|] eqn:Hp.
  2: { cbn. split_and!; [by apply response_from_sound|by apply locals_ok_peers|by destruct c|done..]. }
  pose proof (Hpeers _ _ Hp) as Hhost. cbn in Hhost.
  destruct (timeout (lan_peers c) <? since now seen).
  { split_and!; [by apply response_from_sound| |by destruct c|done..].
    apply locals_ok_peers; [|done]. cbn. by apply map_Forall_delete. }
  destruct host as [a|a]; (split_and!; [|by apply locals_ok_peers|by destruct c|done..]);
    apply synthesized_sound; try done; intros b; try intros [= <-]; try done. by apply mapped_ok.
Qed.

Lemma block_stages_sound now query src qname qtype c : query_ok query → all_bytes qname →
  match block_stages now query src qname qtype c with
  | Some (resp, path, st) =>
      sound resp ∧ QueryPath.returns_trusted_local_data path = true ∧ st = Indeterminate
  | None => True
  end.
Proof.
  intros Hq Hn. pose proof (sinkhole_sound query qname qtype Hq Hn) as Hs.
  unfold block_stages, aaaa_stage, sinkhole in *. cbn [fst] in Hs.
  destruct (if policies_enabled _ then _ else _); try destruct (negb _ && _); try done;
    (destruct (_ && _); [split; [by apply response_from_sound|done]|done]).
Qed.

(** The local stages always return, keep the data and answer with sound responses. *)
Lemma resolve_local_sound now query src qname qtype c : query_ok query → all_bytes qname →
  locals_ok c →
  ∃ o c', resolve_local local_ip_toward now query src qname qtype c = Ok (o, c') ∧
    locals_ok c' ∧ same_but_peers c c' ∧
    match o with
    | Some (resp, path, st) =>
        sound resp ∧ QueryPath.returns_trusted_local_data path = true ∧ st = Indeterminate
    | None => True
    end.
Proof.
  intros Hq Hn Hc. pose proof Hc as [Hov Hz _ _]. unfold resolve_local.
  assert (Hsame : same_but_peers c c) by by destruct c.
  assert (Hsane : sane (overrides c)) by (intros d e He; by apply (Hov d e)).
  rewrite (lookup_answer now qname _ Hsane). cbn [obind].
  destruct (Overrides.answer now qname (overrides c)) as [r|] eqn:Ha.
  { eexists _, _. split; [reflexivity|]. split; [done|]. split; [done|].
    split; [|done]. apply sound_app; [by apply response_from_sound|]. apply Forall_singleton.
    unfold Overrides.answer in Ha. destruct (overrides c !! qname) as [e|] eqn:He; [|done].
    case_decide; [done|]. injection Ha as <-. by apply (Hov _ _ He). }
  destruct (_ || _).
  { eexists _, _. split; [reflexivity|]. split; [done|]. split; [done|].
    split; [|done]. apply synthesized_sound; try done; intros a [= <-]; apply (bool_decide_unpack _); vm_compute; exact I. }
  destruct (zone_lookup qname qtype (zone_map c)) as [rs|] eqn:Hl.
  { eexists _, _. split; [reflexivity|]. split; [done|]. split; [done|].
    split; [|done]. apply sound_app; [by apply response_from_sound|by eapply Hz]. }
  destruct (is_special_use_domain qname && _).
  { eexists _, _. split; [reflexivity|]. split; [done|]. split; [done|]. split; [by apply special_use_sound|done]. }
  destruct (negb _ && _).
  { pose proof (proxy_sound now query src qname qtype c Hq Hn Hc) as Hp.
    destruct (resolve_proxy_tld _ _ _ _ _ _ _) as [[[resp path] st] c']. destruct Hp as (? & ? & ? & -> & ->).
    by eexists _, _. }
  eexists _, _. split; [reflexivity|]. split; [done|]. split; [done|]. by apply block_stages_sound.
Qed.

(** A message that bears the id and the questions of [query]. *)
Definition answers_to (query p : DnsPacket) : Prop :=
  id (header p) = id (header query) ∧ questions p = questions query.
Lemma answers_to_response query rc : answers_to query (response_from query rc).
Proof. done. Qed.
Lemma answers_to_push query rs p : answers_to query p → answers_to query (push_answers rs p).
Proof. done. Qed.
(** Whatever a local stage answers, it answers to the query. *)
Lemma resolve_local_answers_to now query src qname qtype c resp path st c' :
  resolve_local local_ip_toward now query src qname qtype c = Ok (Some (resp, path, st), c') →
  answers_to query resp.
Proof.
  unfold resolve_local. destruct (override_lookup _ _ _) as [[r|]|e| |]; cbn [obind]; try done; [by intros [= <-]|].
  destruct (_ || _); [by intros [= <-]|]. destruct (zone_lookup _ _ _); [by intros [= <-]|].
  destruct (_ && _); [unfold special_use_response; by intros [= <-]; case_bool_decide|].
  destruct (_ && _).
  { unfold resolve_proxy_tld. destruct (service_lookup _ _); [by intros [= <-]|].
    destruct (peer_lookup _ _ _) as [[[[a|a] port]|] peers]; by intros [= <-]. }
  unfold block_stages. cbv zeta. match goal with |- context [match ?x with Block => _ | _ => _ end] => set (d := x) end. intros [= Ho _]. revert Ho.
  assert (Hs : ∀ b : bool, (if b then Some (sinkhole query qname qtype) else aaaa_stage query src qtype c) =
    Some (resp, path, st) → answers_to query resp).
  { intros []; [by intros [= <-]|]. unfold aaaa_stage. destruct (_ && _); [by intros [= <-]|done]. }
  destruct d; [by apply (Hs true)|apply Hs..].
Qed.
End locals.

(** * What stays local *)

(** The derived texts of the context are those [serve.rs] computes. *)
Definition ctx_ok `{NetLib} (ctx : ServerCtx) : Prop :=
  Forall (λ r, dot_suffix_text r = 46 :: suffix r) (forwarding_rules ctx) ∧
  proxy_tld_suffix ctx = match proxy_tld ctx with [] => [] | tld => 46 :: tld end.

Lemma ends_with_dot s d : ends_with (46 :: s) d = true ↔ proper_suffix s d.
Proof. rewrite ends_with_spec. done. Qed.
Lemma dot_suffix_test s d :
  bool_decide (d = s) || ends_with (46 :: s) d = true ↔ dot_suffix s d.
Proof. rewrite orb_true_iff, bool_decide_eq_true, ends_with_dot. unfold dot_suffix. naive_solver. Qed.

#[export] Instance dot_suffix_dec s d : base.Decision (dot_suffix s d).
Proof.
  destruct (bool_decide (d = s) || ends_with (46 :: s) d) eqn:E.
  - left. by apply dot_suffix_test.
  - right. intros Hd%dot_suffix_test. congruence.
Defined.

Lemma no_rule_iff {A} (d : bytes) (rs : list (ForwardingRule A)) :
  Forall (λ r, dot_suffix_text r = 46 :: suffix r) rs →
  match_forwarding_rule d rs = None ↔ Forall (λ r, ¬ dot_suffix (suffix r) d) rs.
Proof.
  induction 1 as [|r rs Hr Hrs IH]; cbn [match_forwarding_rule]; [split; constructor|].
  rewrite Hr. pose proof (dot_suffix_test (suffix r) d) as Ht.
  destruct (bool_decide (d = suffix r) || ends_with (46 :: suffix r) d).
  - split; [done|]. intros [Hn _]%Forall_cons_1. destruct Hn. by apply Ht.
  - rewrite IH. split; [|by intros [_ ?]%Forall_cons_1]. intros. constructor; [|done].
    intros Hd%Ht. done.
Qed.

Section local_spec.
Context `{Lowercase} `{NetLib}.
Context (local_ip_toward : IpAddr → option Ipv4Addr).

Lemma proxy_stage_iff ctx qname : ctx_ok ctx →
  negb (bool_decide (proxy_tld_suffix ctx = [])) &&
    (ends_with (proxy_tld_suffix ctx) qname || bool_decide (qname = proxy_tld ctx)) = true ↔
  proxy_tld ctx ≠ [] ∧ dot_suffix (proxy_tld ctx) qname.
Proof.
  intros [_ ->]. destruct (proxy_tld ctx) as [|b tld]; [split; [done|by intros [? _]]|].
  rewrite bool_decide_eq_false_2 by done. cbn [negb andb].
  rewrite orb_comm, dot_suffix_test. naive_solver.
Qed.

Lemma block_stages_none now query src qname qtype ctx :
  block_stages now query src qname qtype ctx = None ↔
  (policies_enabled (client_policy ctx) = true → evaluate now (client_policy ctx) (ip src) qname ≠ Block) ∧
  (blocks now qname (blocklist ctx) →
     policies_enabled (client_policy ctx) = true ∧
     evaluate now (client_policy ctx) (ip src) qname = Allow) ∧
  (qtype = QueryType.AAAA →
     effective_filter_aaaa (client_policy ctx) (ip src) (filter_aaaa ctx) = false).
Proof.
  unfold block_stages, aaaa_stage.
  assert (Ha : (if bool_decide (qtype = QueryType.AAAA) &&
      effective_filter_aaaa (client_policy ctx) (ip src) (filter_aaaa ctx)
      then Some (response_from query NOERROR, QueryPath.Local, Indeterminate) else None) = None ↔
    (qtype = QueryType.AAAA →
     effective_filter_aaaa (client_policy ctx) (ip src) (filter_aaaa ctx) = false)).
  { case_bool_decide; destruct (effective_filter_aaaa _ _ _); naive_solver. }
  rewrite <- is_blocked_iff. destruct (is_blocked now qname (blocklist ctx)),
    (policies_enabled (client_policy ctx)); try destruct (evaluate _ _ _ _);
    cbn [negb andb]; rewrite ?Ha; naive_solver.
Qed.

(** C25: what leaves the machine. A query goes on to the remote stages exactly when nothing
    local owns its name: no unexpired override, not below [localhost], no zone record or
    wildcard, no special-use name (unless a forwarding rule covers it), not in the proxy
    domain, not blocked by the client's policy, not on the blocklist (unless the policy allows
    it), and no AAAA query of a client without IPv6. Nothing is changed then. *)
Theorem resolve_local_remote (now : Z) (query : DnsPacket) (src : SocketAddr) (qname : bytes)
    (qtype : QueryType.t) (ctx ctx' : ServerCtx) : ctx_ok ctx →
  resolve_local local_ip_toward now query src qname qtype ctx = Ok (None, ctx') ↔
  ctx' = ctx ∧
  override_lookup now qname (overrides ctx) = Ok None ∧
  ¬ dot_suffix (str "localhost") qname ∧
  zone_lookup qname qtype (zone_map ctx) = None ∧
  (is_special_use_domain qname = true →
     Exists (λ r, dot_suffix (suffix r) qname) (forwarding_rules ctx)) ∧
  ¬ (proxy_tld ctx ≠ [] ∧ dot_suffix (proxy_tld ctx) qname) ∧
  (policies_enabled (client_policy ctx) = true →
     evaluate now (client_policy ctx) (ip src) qname ≠ Block) ∧
  (blocks now qname (blocklist ctx) →
     policies_enabled (client_policy ctx) = true ∧
     evaluate now (client_policy ctx) (ip src) qname = Allow) ∧
  (qtype = QueryType.AAAA →
     effective_filter_aaaa (client_policy ctx) (ip src) (filter_aaaa ctx) = false).
Proof.
  intros Hok. rewrite <- (block_stages_none now query), <- (proxy_stage_iff ctx qname Hok).
  unfold resolve_local.
  destruct (override_lookup now qname (overrides ctx)) as [[r|]| | |]; cbn [obind];
    [naive_solver| |naive_solver..].
  change (str ".localhost") with (46 :: str "localhost").
  pose proof (dot_suffix_test (str "localhost") qname) as Hl.
  destruct (bool_decide (qname = str "localhost") || _); [naive_solver|].
  destruct (zone_lookup qname qtype (zone_map ctx)); [naive_solver|].
  pose proof (no_rule_iff qname _ (proj1 Hok)) as Hn.
  assert (Hs : is_special_use_domain qname &&
      bool_decide (match_forwarding_rule qname (forwarding_rules ctx) = None) = true ↔
    ¬ (is_special_use_domain qname = true →
       Exists (λ r, dot_suffix (suffix r) qname) (forwarding_rules ctx))).
  { rewrite andb_true_iff, bool_decide_eq_true, Hn.
    assert (Hx : Forall (λ r, ¬ dot_suffix (suffix r) qname) (forwarding_rules ctx) ↔
      ¬ Exists (λ r, dot_suffix (suffix r) qname) (forwarding_rules ctx)).
    { rewrite Forall_forall, Exists_exists. naive_solver. }
    rewrite Hx. destruct (is_special_use_domain qname); naive_solver. }
  destruct (is_special_use_domain qname && _).
  { split; [done|]. intros (_ & _ & _ & _ & Hex & _). by destruct (proj1 Hs eq_refl). }
  assert (Hs' : is_special_use_domain qname = true →
    Exists (λ r, dot_suffix (suffix r) qname) (forwarding_rules ctx)).
  { destruct (decide (Exists (λ r, dot_suffix (suffix r) qname) (forwarding_rules ctx))); [done|].
    intros Hsp. exfalso. assert (Hf : false = true); [|done]. apply Hs. naive_solver. }
  destruct (negb (bool_decide (proxy_tld_suffix ctx = [])) && _).
  { destruct (resolve_proxy_tld _ _ _ _ _ _ _). split; [done|].
    intros (_ & _ & _ & _ & _ & Hp & _). by destruct Hp. }
  split.
  - intros [= Hb <-]. do 2 (split; [done|]). split; [by intros ?%Hl|]. do 2 (split; [done|]).
    split; [done|exact Hb].
  - intros (-> & _ & _ & _ & _ & _ & Hb). by rewrite Hb.
Qed.
End local_spec.

Section answers.
Context `{Lowercase} `{Uppercase} `{NetLib}.
Context (local_ip_toward : IpAddr → option Ipv4Addr).

(** A response built from the query with these answers. *)
Definition local_reply (query : DnsPacket) (rc : ResultCode) (rs : list DnsRecord.t) : DnsPacket :=
  push_answers rs (response_from query rc).
Definition named_typed (qname : bytes) (qtype : QueryType.t) (rs : list DnsRecord.t) : Prop :=
  Forall (λ r, Record.domain r = qname ∧
               (Record.query_type r = qtype ∨ Record.query_type r = QueryType.CNAME)) rs.

Lemma answer_record_named qname qtype v4 v6 ttl :
  named_typed qname qtype (option_list (answer_record qname qtype v4 v6 ttl)).
Proof.
  unfold answer_record. destruct qtype; try constructor; destruct v4, v6; repeat constructor; by left.
Qed.

Lemma special_use_reply query qname qtype : ∃ rc rs,
  special_use_response query qname qtype = local_reply query rc rs ∧
  named_typed qname qtype rs ∧ (rc = NOERROR ∨ rc = NXDOMAIN ∧ rs = []).
Proof.
  unfold special_use_response. case_bool_decide.
  - eexists NOERROR, _. split; [reflexivity|]. split; [|by left].
    destruct qtype; repeat constructor; by left.
  - exists NXDOMAIN, []. split; [|by split; [constructor|right]]. done.
Qed.

Lemma proxy_reply now query src qname qtype ctx : ∃ rc rs,
  resolve_proxy_tld local_ip_toward now query src qname qtype ctx =
    ((local_reply query rc rs, QueryPath.Local, Indeterminate),
     set_lan_peers (lan_peers (snd (resolve_proxy_tld local_ip_toward now query src qname qtype ctx))) ctx) ∧
  named_typed qname qtype rs ∧ (rc = NOERROR ∨ rc = NXDOMAIN ∧ rs = []).
Proof.
  unfold resolve_proxy_tld. destruct (service_lookup _ _).
  - eexists NOERROR, _. split; [by destruct ctx|]. split; [apply answer_record_named|by left].
  - destruct (peer_lookup _ _ _) as [[[[v4|v6] port]|] peers].
    + eexists NOERROR, _. split; [by destruct ctx|]. split; [apply answer_record_named|by left].
    + eexists NOERROR, _. split; [by destruct ctx|]. split; [apply answer_record_named|by left].
    + exists NXDOMAIN, []. split; [by destruct ctx|]. split; [constructor|by right].
Qed.

(** What a local stage answers: a response to this very query, NOERROR or an empty
    NXDOMAIN, from a path the later stages trust; except for overrides, every record bears
    the name asked for and the type asked for (or is an alias); a blocked name has no
    address but the unspecified one; and of the server's state at most an expired LAN peer
    is dropped. *)
Theorem resolve_local_answers (now : Z) (query : DnsPacket) (src : SocketAddr) (qname : bytes)
    (qtype : QueryType.t) (ctx ctx' : ServerCtx) (zones : list ZoneRecord)
    (resp : DnsPacket) (path : QueryPath.t) (status : DnssecStatus) :
  build_zone_map zones = Ok (zone_map ctx) →
  resolve_local local_ip_toward now query src qname qtype ctx = Ok (Some (resp, path, status), ctx') →
  QueryPath.returns_trusted_local_data path = true ∧ status = Indeterminate ∧
  ctx' = set_lan_peers (lan_peers ctx') ctx ∧
  ∃ rc rs, resp = local_reply query rc rs ∧ (rc = NOERROR ∨ rc = NXDOMAIN ∧ rs = []) ∧
    match path with
    | QueryPath.Overridden => ∃ r, rs = [r] ∧ override_lookup now qname (overrides ctx) = Ok (Some r)
    | QueryPath.Blocked =>
        Forall (λ r, r = DnsRecord.A qname (Ipv4 0 0 0 0) 60 ∨
                     r = DnsRecord.AAAA qname (Ipv6 0 0 0 0 0 0 0 0) 60) rs
    | _ => named_typed qname qtype rs
    end.
Proof.
  intros Hz. unfold resolve_local.
  assert (Hctx : ctx = set_lan_peers (lan_peers ctx) ctx) by by destruct ctx.
  assert (Hsink : ∀ q : DnsPacket, ∃ rc rs, fst (fst (sinkhole q qname qtype)) = local_reply q rc rs ∧
    (rc = NOERROR ∨ rc = NXDOMAIN ∧ rs = []) ∧
    Forall (λ r, r = DnsRecord.A qname (Ipv4 0 0 0 0) 60 ∨
                 r = DnsRecord.AAAA qname (Ipv6 0 0 0 0 0 0 0 0) 60) rs).
  { intros q. eexists NOERROR, _. split; [reflexivity|]. split; [by left|].
    destruct qtype; try (by constructor); apply Forall_singleton; [by left|by right]. }
  destruct (override_lookup now qname (overrides ctx)) as [[r|]| | |] eqn:Ho; cbn [obind]; try done.
  { intros [= <- <- <- <-]. do 3 (split; [done|]). exists NOERROR, [r]. split; [done|].
    split; [by left|]. by exists r. }
  destruct (bool_decide _ || _).
  { intros [= <- <- <- <-]. do 3 (split; [done|]). eexists NOERROR, _. split; [reflexivity|].
    split; [by left|]. apply answer_record_named. }
  destruct (zone_lookup qname qtype (zone_map ctx)) as [rrs|] eqn:Hl.
  { intros [= <- <- <- <-]. do 3 (split; [done|]). exists NOERROR, rrs. split; [done|].
    split; [by left|]. pose proof (build_zone_map_answers zones) as Hb. rewrite Hz in Hb.
    destruct Hb as (es & Hes & Ha). eapply zone_lookup_named; eauto. }
  destruct (is_special_use_domain qname && _).
  { intros [= <- <- <- <-]. do 3 (split; [done|]).
    destruct (special_use_reply query qname qtype) as (rc & rs & -> & Hn & Hrc). by exists rc, rs. }
  destruct (negb _ && _).
  { destruct (proxy_reply now query src qname qtype ctx) as (rc & rs & Hp & Hn & Hrc).
    rewrite Hp. intros [= <- <- <- <-]. do 2 (split; [done|]). split; [by destruct ctx|].
    by exists rc, rs. }
  intros Hb. injection Hb as Hb <-.
  unfold block_stages, aaaa_stage in Hb.
  destruct (if policies_enabled _ then _ else _); try destruct (negb _ && _);
    try (destruct (bool_decide _ && _); [|done]); injection Hb as <- <- <-;
    (do 3 (split; [done|])); try (apply Hsink);
    exists NOERROR, []; (split; [by destruct query|]); (split; [by left|constructor]).
Qed.
End answers.

(** * Reverse lookups of private addresses *)

(** The reverse name of an address: its octets backwards below [in-addr.arpa]. *)
Definition reverse_name (a : Ipv4Addr) : bytes :=
  let 'Ipv4 x y z w := a in
  (show_u16 w ++ 46 :: show_u16 z) ++ 46 :: show_u16 y ++ 46 :: show_u16 x ++ str ".in-addr.arpa".

(** Private (RFC 1918), loopback, link-local and this-network addresses. *)
Definition private_v4 (a : Ipv4Addr) : Prop :=
  let 'Ipv4 x y _ _ := a in
  x = 0 ∨ x = 10 ∨ x = 127 ∨ (x = 169 ∧ y = 254) ∨ (x = 172 ∧ 16 ≤ y ≤ 31) ∨ (x = 192 ∧ y = 168).

Lemma show_octet n : is_byte n →
  parse_uint 255 (show_u16 n) = Some n ∧ Forall (λ c, 48 ≤ c ≤ 57) (show_u16 n).
Proof.
  intros Hn.
  assert (Hall : forallb (λ n, bool_decide (parse_uint 255 (show_u16 n) = Some n ∧
    Forall (λ c, 48 ≤ c ≤ 57) (show_u16 n))) (seqZ 0 256) = true) by (vm_compute; reflexivity).
  rewrite forallb_forall in Hall. specialize (Hall n).
  rewrite bool_decide_eq_true in Hall. apply Hall, list_elem_of_In, elem_of_seqZ.
  unfold is_byte in Hn. lia.
Qed.
Lemma show_octet_eq n m : is_byte n → is_byte m → show_u16 n = show_u16 m ↔ n = m.
Proof.
  intros Hn Hm. split; [|by intros ->]. intros He.
  destruct (show_octet n Hn) as [Pn _], (show_octet m Hm) as [Pm _]. rewrite He in Pn. congruence.
Qed.
Lemma digits_no_dot c l : Forall (λ c, 48 ≤ c ≤ 57) l → c = 46 ∨ c = 95 → c ∉ l.
Proof. intros Hl Hc Hin. rewrite Forall_forall in Hl. specialize (Hl c Hin). lia. Qed.

(** The last dot of a text is where it is. *)
Lemma last_dot_inj (a b l k : bytes) : 46 ∉ l → 46 ∉ k → a ++ 46 :: l = b ++ 46 :: k → a = b ∧ l = k.
Proof.
  intros Hl Hk. revert b. induction a as [|x a IH]; intros [|y b] He; cbn in He; simplify_eq; [done| | |].
  - destruct Hl. apply elem_of_app. right. apply list_elem_of_here.
  - destruct Hk. apply elem_of_app. right. apply list_elem_of_here.
  - destruct (IH b) as [-> ->]; done.
Qed.

Lemma ends_with_label (A l X T : bytes) : 46 ∉ l → 46 ∉ X →
  ends_with (46 :: X ++ T) (A ++ 46 :: l ++ T) = true ↔ l = X.
Proof.
  intros Hl HX. rewrite ends_with_spec. split; [|intros ->; by exists A].
  intros (a & He). change (46 :: l ++ T) with ((46 :: l) ++ T) in He.
  change (46 :: X ++ T) with ((46 :: X) ++ T) in He. rewrite !app_assoc in He.
  apply app_inv_tail in He. by apply last_dot_inj in He as [_ ?].
Qed.
Lemma ends_with_labels (A k l Y X T : bytes) : 46 ∉ k → 46 ∉ l → 46 ∉ Y → 46 ∉ X →
  ends_with (46 :: Y ++ 46 :: X ++ T) (A ++ 46 :: k ++ 46 :: l ++ T) = true ↔ k = Y ∧ l = X.
Proof.
  intros Hk Hl HY HX. rewrite ends_with_spec. split; [|intros [-> ->]; by exists A].
  intros (a & He).
  change (46 :: k ++ 46 :: l ++ T) with ((46 :: k) ++ (46 :: l) ++ T) in He.
  change (46 :: Y ++ 46 :: X ++ T) with ((46 :: Y) ++ (46 :: X) ++ T) in He.
  rewrite !app_assoc in He. apply app_inv_tail in He. rewrite <- !app_assoc in He.
  rewrite (app_assoc A), (app_assoc a) in He. apply last_dot_inj in He as [He ->]; [|done..].
  by apply last_dot_inj in He as [_ ->].
Qed.
Lemma strip_suffix_app a p : strip_suffix p (a ++ p) = Some a.
Proof.
  unfold strip_suffix. rewrite reverse_app.
  rewrite (proj2 (strip_prefix_spec (reverse p) (reverse p ++ reverse a) (reverse a))) by done.
  by rewrite reverse_involutive.
Qed.
Lemma last_label_app a l : 46 ∉ l → last_label (a ++ 46 :: l) = l.
Proof.
  intros Hl. unfold last_label. rewrite reverse_app, reverse_cons, <- app_assoc.
  assert (Hb : ∀ s r : bytes, 46 ∉ s → before 46 (s ++ 46 :: r) = s).
  { clear. induction s as [|x s IH]; intros r Hn; [done|]. cbn.
    apply not_elem_of_cons in Hn as [Hx Hn]. destruct (Z.eqb_spec x 46); [done|]. by rewrite IH. }
  cbn [app]. rewrite Hb; [apply reverse_involutive|]. by rewrite elem_of_reverse.
Qed.
Lemma contains_text_head b n s : contains_text (b :: n) s = true → b ∈ s.
Proof.
  induction s as [|x s IH]; cbn [contains_text]; rewrite orb_true_iff.
  - intros [(r & Hr)%starts_with_spec|?]; done.
  - intros [(r & [= -> _])%starts_with_spec|?]; [apply list_elem_of_here|].
    apply list_elem_of_further. by apply IH.
Qed.

(** Which reverse lookups stay local: for every IPv4 address, its reverse name is a
    special-use name exactly when the address is private, loopback, link-local or of network
    zero; in particular exactly the sixteen networks of 172.16.0.0/12 are covered. *)
Theorem reverse_special (a : Ipv4Addr) : ipv4_ok a →
  is_special_use_domain (reverse_name a) = true ↔ private_v4 a.
Proof.
  destruct a as [x y z w]. intros Ha. unfold ipv4_ok in Ha. cbn [octets] in Ha.
  rewrite !Forall_cons, Forall_nil in Ha. destruct Ha as (Hx & Hy & Hz & Hw & _).
  assert (Hnd : ∀ n, is_byte n → 46 ∉ show_u16 n)
    by (intros n Hn; eapply digits_no_dot; [by apply show_octet|by left]).
  assert (Hbyte : ∀ n, 0 ≤ n < 256 → is_byte n) by done.
  cbn [reverse_name private_v4]. set (A := show_u16 w ++ 46 :: show_u16 z). set (T := str ".in-addr.arpa").
  assert (Hone : ∀ n, is_byte n →
    ends_with (46 :: show_u16 n ++ T) (A ++ 46 :: show_u16 y ++ 46 :: show_u16 x ++ T) = true ↔ x = n).
  { intros n Hn. rewrite <- (show_octet_eq x n) by done.
    rewrite <- (ends_with_label (A ++ 46 :: show_u16 y) (show_u16 x) (show_u16 n) T) by auto.
    by rewrite <- app_assoc. }
  assert (Htwo : ∀ n m, is_byte n → is_byte m →
    ends_with (46 :: show_u16 m ++ 46 :: show_u16 n ++ T)
      (A ++ 46 :: show_u16 y ++ 46 :: show_u16 x ++ T) = true ↔ y = m ∧ x = n).
  { intros n m Hn Hm. rewrite ends_with_labels by auto. by rewrite !show_octet_eq. }
  assert (Harpa : ends_with T (A ++ 46 :: show_u16 y ++ 46 :: show_u16 x ++ T) = true).
  { apply ends_with_spec. exists (A ++ 46 :: show_u16 y ++ 46 :: show_u16 x). by rewrite <- app_assoc, <- app_comm_cons, <- app_assoc, <- app_comm_cons. }
  assert (Hsd : contains_text (str "_dns-sd._udp") (A ++ 46 :: show_u16 y ++ 46 :: show_u16 x ++ T) = false).
  { apply not_true_iff_false. intros Hc%contains_text_head.
    assert (Hd : ∀ n, is_byte n → 95 ∉ show_u16 n)
      by (intros n Hn; eapply digits_no_dot; [by apply show_octet|by right]).
    assert (HT : 95 ∉ T).
    { intros Hin%list_elem_of_In. assert (Hf : forallb (λ c, negb (c =? 95)) T = true) by reflexivity.
      rewrite forallb_forall in Hf. by specialize (Hf _ Hin). }
    change (Z.of_N _) with 95 in Hc. unfold A in Hc. rewrite !elem_of_app, !elem_of_cons, !elem_of_app, !elem_of_cons, !elem_of_app in Hc.
    destruct Hc as [[Hc|[Hc|Hc]]|[Hc|[Hc|[Hc|[Hc|Hc]]]]]; try done;
      [exact (Hd w Hw Hc)|exact (Hd z Hz Hc)|exact (Hd y Hy Hc)|exact (Hd x Hx Hc)]. }
  unfold is_special_use_domain. fold T. rewrite Harpa, Hsd, orb_false_r.
  pose proof (Hone 10 ltac:(done)) as H10. pose proof (Hone 127 ltac:(done)) as H127.
  pose proof (Hone 0 ltac:(done)) as H0. pose proof (Hone 172 ltac:(done)) as H172.
  pose proof (Htwo 192 168 ltac:(done) ltac:(done)) as H192.
  pose proof (Htwo 169 254 ltac:(done) ltac:(done)) as H169.
  change (46 :: show_u16 10 ++ T) with (str ".10.in-addr.arpa") in H10.
  change (46 :: show_u16 127 ++ T) with (str ".127.in-addr.arpa") in H127.
  change (46 :: show_u16 0 ++ T) with (str ".0.in-addr.arpa") in H0.
  change (46 :: show_u16 172 ++ T) with (str ".172.in-addr.arpa") in H172.
  change (46 :: show_u16 168 ++ 46 :: show_u16 192 ++ T) with (str ".168.192.in-addr.arpa") in H192.
  change (46 :: show_u16 254 ++ 46 :: show_u16 169 ++ T) with (str ".254.169.in-addr.arpa") in H169.
  destruct (_ || _ || _ || _ || _) eqn:Hor.
  - split; [intros _|done]. rewrite !orb_true_iff, H10, H127, H0, H192, H169 in Hor. lia.
  - rewrite !orb_false_iff, <- !not_true_iff_false, H10, H127, H0, H192, H169 in Hor.
    destruct (ends_with (str ".172.in-addr.arpa") _) eqn:E172.
    + assert (x = 172) as -> by (by apply H172).
      change (46 :: show_u16 172 ++ T) with (str ".172.in-addr.arpa").
      rewrite app_comm_cons, app_assoc, strip_suffix_app, last_label_app by auto.
      rewrite (proj1 (show_octet y Hy)), andb_true_iff, !Z.leb_le. lia.
    + assert (x ≠ 172) by (intros E; by apply H172 in E; rewrite E in E172). split; [done|lia].
Qed.

Lemma reverse_special_witness : ipv4_ok (Ipv4 172 20 1 9) ∧
  is_special_use_domain (str "9.1.20.172.in-addr.arpa") = true.
Proof.
  assert (Ha : ipv4_ok (Ipv4 172 20 1 9)) by (apply (bool_decide_unpack _); vm_compute; exact I).
  split; [exact Ha|]. change (str "9.1.20.172.in-addr.arpa") with (reverse_name (Ipv4 172 20 1 9)).
  apply (reverse_special _ Ha). cbn. lia.
Defined.

(** A small server: one blocked domain, one forwarding rule, the proxy domain [numa]. *)
#[local] Existing Instance sample_net.
#[local] Existing Instance lowercase_ascii.
Definition sample_pool : UpstreamPool :=
  {| primary := [Udp (MkSock (V4 (Ipv4 9 9 9 9)) 53)]; fallback := [] |}.
Definition sample_blocklist : BlocklistStore :=
  {| Domains.domains := {[str "ads.example"]}; allowlist := unpersisted; manual := unpersisted;
     Domains.enabled := true; paused_until := None; list_sources := []; last_refresh := None |}.
Definition sample_ctx : ServerCtx :=
  MkCtx zone_empty (Cache.new 100 60 86400) ∅ (stats_new 0) ∅ sample_blocklist (log_new 10)
    (service_new []) (peers_new 90) [rule_new (str "corp") sample_pool] sample_pool
    (Ipv4 192 168 1 2) (str "numa") (str ".numa") ModeForward [] (srtt_new true) false false false
    {| Policy.rules := [] |}
    {| rebind_enabled := true; ranges := @MkMatcher sample_net [(V4 (Ipv4 192 168 0 0), 2)] [];
       range_strings := [str "192.168.0.0/16"]; rebind_allowlist := unpersisted |}.
Definition sample_client : SocketAddr := MkSock (V4 (Ipv4 192 168 1 50)) 40000.

Lemma sample_ctx_ok : ctx_ok sample_ctx.
Proof. split; [by repeat constructor|done]. Qed.

Lemma resolve_local_remote_witness : ctx_ok sample_ctx ∧
  resolve_local (λ _, None) 0 (query 7 (str "a.example") QueryType.A) sample_client (str "a.example")
    QueryType.A sample_ctx = Ok (None, sample_ctx) ∧
  ¬ blocks 0 (str "a.example") sample_blocklist ∧ ¬ dot_suffix (str "localhost") (str "a.example").
Proof.
  split; [exact sample_ctx_ok|].
  assert (Hr : resolve_local (λ _, None) 0 (query 7 (str "a.example") QueryType.A) sample_client
    (str "a.example") QueryType.A sample_ctx = Ok (None, sample_ctx)) by reflexivity.
  split; [exact Hr|].
  destruct (proj1 (resolve_local_remote _ _ _ _ _ _ _ _ sample_ctx_ok) Hr)
    as (_ & _ & Hl & _ & _ & _ & _ & Hb & _).
  split; [|exact Hl]. intros Hx. by destruct (Hb Hx).
Defined.

Lemma resolve_local_answers_witness : ∃ resp,
  resolve_local (λ _, None) 0 (query 7 (str "x.ads.example") QueryType.A) sample_client
    (str "x.ads.example") QueryType.A sample_ctx =
    Ok (Some (resp, QueryPath.Blocked, Indeterminate), sample_ctx) ∧
  Forall (λ r, r = DnsRecord.A (str "x.ads.example") (Ipv4 0 0 0 0) 60 ∨
               r = DnsRecord.AAAA (str "x.ads.example") (Ipv6 0 0 0 0 0 0 0 0) 60) (answers resp).
Proof.
  eexists. assert (Hr : resolve_local (λ _, None) 0 (query 7 (str "x.ads.example") QueryType.A)
    sample_client (str "x.ads.example") QueryType.A sample_ctx =
    Ok (Some (fst (fst (sinkhole (query 7 (str "x.ads.example") QueryType.A) (str "x.ads.example")
      QueryType.A)), QueryPath.Blocked, Indeterminate), sample_ctx)) by reflexivity.
  split; [exact Hr|].
  assert (Hz : @build_zone_map lowercase_ascii ascii_upper [] = Ok (zone_map sample_ctx)) by reflexivity.
  destruct (@resolve_local_answers lowercase_ascii ascii_upper sample_net _ _ _ _ _ _ _ _ _ _ _ _ Hz Hr)
    as (_ & _ & _ & rc & rs & Heq & _ & Hf).
  rewrite Heq. exact Hf.
Defined.
