(* ===== verification/Async.v ===== *)
(** Asynchronous code. An [async fn] runs between its awaits without interruption and on shared
    state; at an await other tasks may run. Here it is a resumption: a tree of accesses to the
    state of the process and of awaits, whose continuation takes whichever of the awaited
    operations ends first. The state is that of the server ([World]); what the operations come
    to is an argument of every run. *)
From stdpp Require Import gmap.
From S2P Require Import Prelude Net Forward Question Packet Local.

(** * Futures *)

Section futures.
Context {S req rep : Type}.

Inductive fut (A : Type) : Type :=
  | Return (r : outcome A)
  | Get (k : S → fut A)
  | Put (s : S) (k : fut A)
  | Await (q : req) (qs : list req) (k : nat → rep → fut A).
Arguments Return {A} r.
Arguments Get {A} k.
Arguments Put {A} s k.
Arguments Await {A} q qs k.

(** Sequencing; an error ends the function, as [?] does. *)
Fixpoint bind {A B} (t : fut A) (f : A → fut B) : fut B :=
  match t with
  | Return (Ok a) => f a
  | Return (Err e) => Return (Err e)
  | Return Panic => Return Panic
  | Return OutOfFuel => Return OutOfFuel
  | Get k => Get (λ s, bind (k s) f)
  | Put s k => Put s (bind k f)
  | Await q qs k => Await q qs (λ i r, bind (k i r) f)
  end.
Definition ret {A} (a : A) : fut A := Return (Ok a).
Definition fail {A} (e : error) : fut A := Return (Err e).
(** A [match] on the result of a call: its error becomes a value. *)
Fixpoint catch {A} (t : fut A) : fut (error + A) :=
  match t with
  | Return (Ok a) => Return (Ok (inr a))
  | Return (Err e) => Return (Ok (inl e))
  | Return Panic => Return Panic
  | Return OutOfFuel => Return OutOfFuel
  | Get k => Get (λ s, catch (k s))
  | Put s k => Put s (catch k)
  | Await q qs k => Await q qs (λ i r, catch (k i r))
  end.
Definition gets {A} (f : S → A) : fut A := Get (λ s, ret (f s)).
Definition modify (f : S → S) : fut unit := Get (λ s, Put (f s) (ret tt)).
(** A synchronous call that may fail or panic, on the current state. *)
Definition update (f : S → outcome S) : fut unit :=
  Get (λ s, match f s with
            | Ok s' => Put s' (ret tt)
            | Err e => fail e
            | Panic => Return Panic
            | OutOfFuel => Return OutOfFuel
            end).
Definition try_get {A} (f : S → outcome A) : fut A := Get (λ s, Return (f s)).

(** The error of the second call is replaced by that of the first. *)
Definition or_error {A} (e : error) (r : outcome A) : outcome A :=
  match r with Err _ => Err e | r => r end.
Fixpoint map_outcome {A B} (f : outcome A → outcome B) (t : fut A) : fut B :=
  match t with
  | Return r => Return (f r)
  | Get k => Get (λ s, map_outcome f (k s))
  | Put s k => Put s (map_outcome f k)
  | Await q qs k => Await q qs (λ i r, map_outcome f (k i r))
  end.

(** [tokio::select!] on two pinned calls in a loop: the first success ends it and drops the
    other; after two failures the error of the first call is returned. *)
Fixpoint first_ok {A} (a : fut A) (b : fut A) {struct a} : fut A :=
  match a with
  | Return (Ok x) => Return (Ok x)
  | Return (Err e) => map_outcome (or_error e) b
  | Return r => Return r
  | Get k => Get (λ s, first_ok (k s) b)
  | Put s k => Put s (first_ok k b)
  | Await qa qas ka =>
      (fix go (b : fut A) : fut A :=
         match b with
         | Return (Err _) => a
         | Return r => Return r
         | Get k => Get (λ s, go (k s))
         | Put s k => Put s (go k)
         | Await qb qbs kb =>
             Await qa (qas ++ qb :: qbs) (λ i r,
               if (i <? Datatypes.S (length qas))%nat then first_ok (ka i r) b
               else go (kb (i - Datatypes.S (length qas))%nat r))
         end) b
  end.

(** A call alone until the timer [z] ends, then raced with a second one. *)
Fixpoint hedge {A} (z : req) (a b : fut A) : fut A :=
  match a with
  | Return r => Return r
  | Get k => Get (λ s, hedge z (k s) b)
  | Put s k => Put s (hedge z k b)
  | Await qa qas ka =>
      Await qa (qas ++ [z]) (λ i r,
        if (i <? Datatypes.S (length qas))%nat then hedge z (ka i r) b else first_ok a b)
  end.

(** * Runs

    A run is driven by what ends at each await, with what result, and how the state looks
    when the task resumes. *)
Record moment := MkMoment { pick : nat; answer : rep; resume : S → S }.

Fixpoint run {A} (t : fut A) (env : nat → list req → moment) (n : nat) (s : S)
    : outcome A * S :=
  match t with
  | Return r => (r, s)
  | Get k => run (k s) env n s
  | Put s k => run k env n s
  | Await q qs k =>
      let m := env n (q :: qs) in
      run (k (pick m) (answer m)) env (Datatypes.S n) (resume m s)
  end.

(** A run that also tells the number of the await it comes to next. *)
Fixpoint run_to {A} (t : fut A) (env : nat → list req → moment) (n : nat) (s : S)
    : outcome A * (nat * S) :=
  match t with
  | Return r => (r, (n, s))
  | Get k => run_to (k s) env n s
  | Put s k => run_to k env n s
  | Await q qs k =>
      let m := env n (q :: qs) in
      run_to (k (pick m) (answer m)) env (Datatypes.S n) (resume m s)
  end.
Lemma run_run_to {A} (t : fut A) env : ∀ n s,
  run t env n s = (fst (run_to t env n s), snd (snd (run_to t env n s))).
Proof. induction t as [r|k IH|s' k IH|q qs k IH]; intros n s; [done|apply IH|apply IH|apply IH]. Qed.

(** What comes after [t], once it has returned [r]. *)
Definition and_then {A B} (f : A → fut B) (env : nat → list req → moment)
    (x : outcome A * (nat * S)) : outcome B * (nat * S) :=
  match x with
  | (Ok a, (n, s)) => run_to (f a) env n s
  | (Err e, z) => (Err e, z)
  | (Panic, z) => (Panic, z)
  | (OutOfFuel, z) => (OutOfFuel, z)
  end.
Lemma run_to_bind {A B} (t : fut A) (f : A → fut B) env : ∀ n s,
  run_to (bind t f) env n s = and_then f env (run_to t env n s).
Proof.
  induction t as [r|k IH|s' k IH|q qs k IH]; intros n s; [by destruct r|apply IH|apply IH|apply IH].
Qed.
Definition caught {A} (r : outcome A) : outcome (error + A) :=
  match r with Ok a => Ok (inr a) | Err e => Ok (inl e) | Panic => Panic | OutOfFuel => OutOfFuel end.
Lemma run_to_catch {A} (t : fut A) env : ∀ n s,
  run_to (catch t) env n s = (caught (fst (run_to t env n s)), snd (run_to t env n s)).
Proof.
  induction t as [r|k IH|s' k IH|q qs k IH]; intros n s; [by destruct r|apply IH|apply IH|apply IH].
Qed.

(** * Reasoning

    [safe I fits Q t s]: from state [s], the invariant [I] holds whenever other tasks can run,
    if they leave it so; replies fit the requests; and the result satisfies [Q]. *)
Section safe.
Context (I : S → Prop) (fits : req → rep → Prop).

Fixpoint safe {A} (Q : outcome A → Prop) (t : fut A) (s : S) : Prop :=
  match t with
  | Return r => I s ∧ Q r
  | Get k => safe Q (k s) s
  | Put s k => safe Q k s
  | Await q0 qs k =>
      I s ∧ ∀ i q r s', (q0 :: qs) !! i = Some q → fits q r → I s' → safe Q (k i r) s'
  end.

Lemma fut_mono {A} (P Q : outcome A → Prop) t s :
  (∀ r, P r → Q r) → safe P t s → safe Q t s.
Proof.
  intros Hpq. revert s. induction t as [r|k IH|s' k IH|q0 qs k IH]; cbn; intros s.
  - intros []; eauto.
  - apply IH.
  - apply IH.
  - intros [Hi Hk]. split; [done|]. intros i q r s1 Hq Hf H1. eapply IH, Hk; eauto.
Qed.
Lemma fut_bind {A B} (P : outcome A → Prop) (Q : outcome B → Prop) (t : fut A) f s :
  safe P t s →
  (∀ a s, P (Ok a) → I s → safe Q (f a) s) →
  (∀ e, P (Err e) → Q (Err e)) → (P Panic → Q Panic) → (P OutOfFuel → Q OutOfFuel) →
  safe Q (bind t f) s.
Proof.
  intros Ht Hf He Hp Ho. revert s Ht.
  induction t as [r|k IH|s' k IH|q0 qs k IH]; cbn; intros s.
  - intros [Hi HP]. destruct r; cbn; [by apply Hf|split; eauto..].
  - apply IH.
  - apply IH.
  - intros [Hi Hk]. split; [done|]. intros i q r s1 Hq Hft H1. eapply IH, Hk; eauto.
Qed.
Lemma safe_catch {A} (P : outcome A → Prop) (Q : outcome (error + A) → Prop) t s :
  safe P t s → (∀ a, P (Ok a) → Q (Ok (inr a))) → (∀ e, P (Err e) → Q (Ok (inl e))) →
  (P Panic → Q Panic) → (P OutOfFuel → Q OutOfFuel) → safe Q (catch t) s.
Proof.
  intros Ht Ha He Hp Ho. revert s Ht.
  induction t as [r|k IH|s' k IH|q0 qs k IH]; cbn; intros s.
  - intros [Hi HP]. destruct r; cbn; (split; [done|]); eauto.
  - apply IH.
  - apply IH.
  - intros [Hi Hk]. split; [done|]. intros i q r s1 Hq Hft H1. eapply IH, Hk; eauto.
Qed.
Lemma safe_map {A B} (P : outcome A → Prop) (Q : outcome B → Prop) f t s :
  safe P t s → (∀ r, P r → Q (f r)) → safe Q (map_outcome f t) s.
Proof.
  intros Ht Hf. revert s Ht. induction t as [r|k IH|s' k IH|q0 qs k IH]; cbn; intros s.
  - intros []; eauto.
  - apply IH.
  - apply IH.
  - intros [Hi Hk]. split; [done|]. intros i q r s1 Hq Hft H1. eapply IH, Hk; eauto.
Qed.

Lemma or_error_post {A} (Q : outcome A → Prop) e r : Q (Err e) → Q r → Q (or_error e r).
Proof. by destruct r. Qed.
(** A task that waits does not depend on the state it left. *)
Lemma safe_await {A} (Q : outcome A → Prop) q0 qs k s s' :
  safe Q (Await q0 qs k) s → I s' → safe Q (Await q0 qs k) s'.
Proof. by intros [_ Hk]. Qed.

Lemma safe_first_ok {A} (Q : outcome A → Prop) (a b : fut A) s :
  safe Q a s → (∀ s, I s → safe Q b s) → safe Q (first_ok a b) s.
Proof.
  revert b s. induction a as [r|k IH|s' k IH|qa qas ka IH]; intros b s Ha Hb.
  - destruct Ha as [Hi Hr]. destruct r; cbn; try done.
    eapply safe_map; [by apply Hb|]. intros r. by apply or_error_post.
  - cbn. by apply IH.
  - cbn. by apply IH.
  - assert (Hi : I s) by apply Ha. specialize (Hb s Hi).
    assert (Hgo : ∀ b s, safe Q b s → safe Q (first_ok (Await qa qas ka) b) s); [|by apply Hgo].
    clear b Hb. induction b as [r|k IHb|s' k IHb|qb qbs kb IHb]; intros s1 Hb.
    + destruct Hb as [Hi1 Hr]. destruct r; try done. by apply (safe_await _ _ _ _ s).
    + cbn. by apply IHb.
    + cbn. by apply IHb.
    + pose proof Hb as [Hi1 Hkb]. destruct Ha as [_ Hka]. cbn -[Nat.ltb]. split; [done|].
      intros i q r s2 Hq Hf H2. destruct (Nat.ltb_spec i (Datatypes.S (length qas))).
      * rewrite app_comm_cons, lookup_app_l in Hq by done. apply IH; [by eapply Hka|].
        intros s3 H3. by apply (safe_await _ _ _ _ s1).
      * rewrite app_comm_cons, lookup_app_r in Hq by done. apply IHb. by eapply Hkb.
Qed.

Lemma safe_hedge {A} (Q : outcome A → Prop) z (a b : fut A) s :
  safe Q a s → (∀ s, I s → safe Q b s) → safe Q (hedge z a b) s.
Proof.
  intros Ha Hb. revert s Ha. induction a as [r|k IH|s' k IH|qa qas ka IH]; intros s Ha; cbn -[Nat.ltb].
  - done.
  - by apply IH.
  - by apply IH.
  - pose proof Ha as [Hi Hka]. split; [done|]. intros i q r s1 Hq Hf H1.
    destruct (Nat.ltb_spec i (Datatypes.S (length qas))).
    + rewrite app_comm_cons, lookup_app_l in Hq by done. by eapply IH, Hka.
    + apply (safe_first_ok Q (Await qa qas ka) b); [by apply (safe_await _ _ _ _ s)|done].
Qed.

(** Every run of a safe task, with fitting replies and other tasks that keep the invariant,
    ends with the invariant and the postcondition. *)
Definition env_ok (env : nat → list req → moment) : Prop :=
  ∀ n q qs, (∃ q', (q :: qs) !! pick (env n (q :: qs)) = Some q' ∧ fits q' (answer (env n (q :: qs)))) ∧
    ∀ s, I s → I (resume (env n (q :: qs)) s).
Lemma safe_run {A} (Q : outcome A → Prop) (t : fut A) env : env_ok env →
  ∀ n s, safe Q t s → let '(r, s') := run t env n s in I s' ∧ Q r.
Proof.
  intros Henv. induction t as [r|k IH|s' k IH|q0 qs k IH]; cbn; intros n s Ht.
  - done.
  - by apply IH.
  - by apply IH.
  - destruct Ht as [Hi Hk]. destruct (Henv n q0 qs) as [(q & Hq & Hf) Hr].
    apply IH. eapply Hk; eauto.
Qed.
Lemma safe_run_to {A} (Q : outcome A → Prop) (t : fut A) env n s : env_ok env → safe Q t s →
  I (snd (snd (run_to t env n s))) ∧ Q (fst (run_to t env n s)).
Proof. intros He Ht. pose proof (safe_run Q t env He n s Ht) as Hr. by rewrite run_run_to in Hr. Qed.
End safe.
End futures.
Arguments Return {S req rep A} r.
Arguments Get {S req rep A} k.
Arguments Put {S req rep A} s k.
Arguments Await {S req rep A} q qs k.
Arguments fut : clear implicits.
Arguments MkMoment {S rep} pick answer resume.
Arguments pick {S rep} m.
Arguments answer {S rep} m.
Arguments resume {S rep} m s.

Declare Scope fut_scope.
Delimit Scope fut_scope with fut.
Notation "'let*' x ':=' m 'in' k" := (bind m (fun x => k))
  (at level 10, x pattern, m at level 100, k at level 200) : fut_scope.

(** * The process *)

(** What the server's tasks wait for: an exchange with one server, a failover over a pool
    (whose loop and hedging are in [Forward]), a timer, the broadcast of a leader, bytes from
    and to the peer of a connection. *)
Inductive request :=
  | Exchange (u : Upstream) (msg : bytes)
  | Failover (pool : UpstreamPool) (msg : bytes)
  | Sleep (ms : Z)
  | Recv (ch : nat)
  | ReadExact (n : Z)
  | WriteAll (out : bytes).
Inductive reply :=
  | Data (r : result)
  | Attempts (ask : nat → Upstream → Z → result * Z)
  | Elapsed
  | Received (v : option (option DnsPacket))
  | BytesRead (v : option bytes)
  | Written (ok : bool).

Definition result_bytes (r : result) : Prop :=
  match r with inr w => all_bytes w | inl _ => True end.
(** What leaders broadcast: nothing, or a response that can be sent on. *)
Definition message_ok (v : option DnsPacket) : Prop :=
  match v with Some p => sound p | None => True end.
Definition fits (q : request) (r : reply) : Prop :=
  match q, r with
  | Exchange _ _, Data d => result_bytes d
  | Failover _ _, Attempts ask => ∀ n u now, result_bytes (fst (ask n u now)) ∧ 0 ≤ snd (ask n u now)
  | Sleep _, Elapsed => True
  | Recv _, Received v => match v with Some v => message_ok v | None => True end
  | ReadExact n, BytesRead v => match v with Some d => len d = n ∧ all_bytes d | None => True end
  | WriteAll _, Written _ => True
  | _, _ => False
  end.

Section world.
Context `{Acl.NetLib}.

(** The shared state: the server's context, the statics of [recursive.rs], the in-flight map
    with the next channel, the refreshes in the background, and the clock. *)
Record World := MkWorld {
  ctx : ServerCtx;
  query_id : Z;
  udp_failures : Z;
  udp_disabled : bool;
  inflight : gmap (bytes * QueryType.t) nat;
  next_channel : nat;
  sent : list (nat * option DnsPacket);
  spawned : list (bytes * QueryType.t);
  clock : Z
}.

Definition set_ctx (c : ServerCtx) (w : World) : World :=
  MkWorld c (query_id w) (udp_failures w) (udp_disabled w) (inflight w) (next_channel w)
    (sent w) (spawned w) (clock w).
Definition set_udp (failures : Z) (disabled : bool) (w : World) : World :=
  MkWorld (ctx w) (query_id w) failures disabled (inflight w) (next_channel w)
    (sent w) (spawned w) (clock w).
Definition set_query_id (v : Z) (w : World) : World :=
  MkWorld (ctx w) v (udp_failures w) (udp_disabled w) (inflight w) (next_channel w)
    (sent w) (spawned w) (clock w).
Definition set_cache (v : Cache.DnsCache) (w : World) : World :=
  set_ctx (Local.set_cache v (ctx w)) w.
Definition set_srtt (v : Srtt.SrttCache) (w : World) : World :=
  set_ctx (Local.set_srtt v (ctx w)) w.

Abbreviation async A := (fut World request reply A).

(** Waiting for a single operation. *)
Definition exchange (u : Upstream) (msg : bytes) : async result :=
  Await (Exchange u msg) [] (λ _ r, ret match r with Data d => d | _ => inl NoneValue end).
End world.
