(* ===== verification/Recursive.v ===== *)
(** Recursive resolution, [src/src/recursive.rs]: walking the delegations from the root with
    query minimisation, glue and name-server caching, alias chasing, hedged queries and the
    fallback from UDP to TCP. The network is what each await of [Async] comes to. *)
From stdpp Require Import gmap.
From S2P Require Import Prelude Net Ip Text Acl Domains Srtt Stats Forward Cache Local Shape Buffer.
From S2P Require Import Question Header Record Packet Async.
Open Scope outcome_scope.
Open Scope fut_scope.

Definition MAX_REFERRAL_DEPTH : Z := 10.
Definition MAX_CNAME_DEPTH : Z := 8.
Definition UDP_FAIL_THRESHOLD : Z := 3.

(** * Reading responses *)

Definition dns_addr (ip : IpAddr) : SocketAddr := MkSock ip 53.
Definition record_to_addr (r : DnsRecord.t) : option SocketAddr :=
  match r with
  | DnsRecord.A _ addr _ => Some (dns_addr (V4 addr))
  | DnsRecord.AAAA _ addr _ => Some (dns_addr (V6 addr))
  | _ => None
  end.

Definition extract_cname_target (p : DnsPacket) (qname : bytes) : option bytes :=
  head (omap (λ r, match r with
                   | DnsRecord.CNAME domain host _ =>
                       if eq_ignore_ascii_case domain qname then Some host else None
                   | _ => None
                   end) (answers p)).
Definition ns_host (r : DnsRecord.t) : option bytes :=
  match r with DnsRecord.NS _ host _ => Some host | _ => None end.
Definition is_ns (r : DnsRecord.t) : bool := match r with DnsRecord.NS _ _ _ => true | _ => false end.
Definition extract_ns_from_records (rs : list DnsRecord.t) : list bytes := omap ns_host rs.
Definition extract_ns_names (p : DnsPacket) : list bytes := omap ns_host (authorities p).
Definition referral_zone (p : DnsPacket) : option bytes :=
  head (omap (λ r, match r with DnsRecord.NS domain _ _ => Some domain | _ => None end)
          (authorities p)).

(** Only at the root is the query minimised, to the last label. *)
Definition minimize_query (qname : bytes) (qtype : QueryType.t) (current_zone : bytes)
    : bytes * QueryType.t :=
  if bool_decide (current_zone ≠ str ".") then (qname, qtype)
  else match after 46 (reverse qname) with
       | Some r => if bool_decide (r = []) then (qname, qtype) else (last_label qname, QueryType.NS)
       | None => (qname, qtype)
       end.

Definition glue_addrs_for (p : DnsPacket) (ns_name : bytes) : list SocketAddr :=
  omap record_to_addr
    (List.filter (λ r, match r with
                       | DnsRecord.A domain _ _ | DnsRecord.AAAA domain _ _ =>
                           eq_ignore_ascii_case domain ns_name
                       | _ => false
                       end) (resources p)).

Fixpoint parse_root_hints (hints : list bytes) : list SocketAddr :=
  match hints with
  | [] => []
  | s :: hints =>
      match parse_ip s with
      | Some ip => MkSock ip 53 :: parse_root_hints hints
      | None => parse_root_hints hints
      end
  end.

(** * Reading the cache *)

Section reading.
Context (now : Z) (c : DnsCache).

Definition addrs_from_cache (name : bytes) : outcome (list SocketAddr) :=
  (let? a := lookup now c name QueryType.A in
   let? aaaa := lookup now c name QueryType.AAAA in
   let addrs o := match o with Some p => omap record_to_addr (answers p) | None => [] end in
   Ok (addrs a ++ addrs aaaa))%outcome.
Fixpoint all_addrs_from_cache (names : list bytes) : outcome (list SocketAddr) :=
  match names with
  | [] => Ok []
  | n :: names =>
      (let? a := addrs_from_cache n in let? l := all_addrs_from_cache names in Ok (a ++ l))%outcome
  end.

(** The loop over the ancestors of the name, from the name itself. *)
Fixpoint closest_ns (fuel : nat) (zone : bytes) (root_hints : list SocketAddr)
    : outcome (bytes * list SocketAddr) :=
  match fuel with
  | O => OutOfFuel
  | S fuel =>
      (let? cached := lookup now c zone QueryType.NS in
       let? addrs :=
         match cached with
         | Some p =>
             all_addrs_from_cache
               (extract_ns_from_records (if existsb is_ns (answers p) then answers p else authorities p))
         | None => Ok []
         end in
       if bool_decide (addrs ≠ []) then Ok (zone, addrs)
       else match after 46 zone with
            | Some rest => closest_ns fuel rest root_hints
            | None => Ok (str ".", root_hints)
            end)%outcome
  end.
Definition find_closest_ns (qname : bytes) (root_hints : list SocketAddr)
    : outcome (bytes * list SocketAddr) := closest_ns (S (length qname)) qname root_hints.
End reading.

(** * Writing the cache *)

Definition make_glue_packet : DnsPacket :=
  let h := Header.new in
  {| header := MkHeader (id h) (recursion_desired h) (truncated_message h) (authoritative_answer h)
       (opcode h) true NOERROR (checking_disabled h) (authed_data h) (Header.z h)
       (recursion_available h) (Header.questions h) (Header.answers h) (authoritative_entries h)
       (resource_entries h);
     questions := []; answers := []; authorities := []; resources := []; edns := None |}.
Definition glue_packet (rs : list DnsRecord.t) : DnsPacket := push_answers rs make_glue_packet.

Section writing.
Context `{Lowercase} (iter : Entries → list visit) (now : Z).

(** [cache.insert] for a packet with these answers, unless there are none. *)
Definition insert_glue (name : bytes) (q : QueryType.t) (rs : list DnsRecord.t) (c : DnsCache)
    : outcome DnsCache :=
  match rs with [] => Ok c | _ => insert iter now name q (glue_packet rs) c end.

(** The glue of a name, under that name. *)
Definition glue_a (ns_name : bytes) (r : DnsRecord.t) : option DnsRecord.t :=
  match r with
  | DnsRecord.A domain addr ttl =>
      if eq_ignore_ascii_case domain ns_name then Some (DnsRecord.A ns_name addr ttl) else None
  | _ => None
  end.
Definition glue_aaaa (ns_name : bytes) (r : DnsRecord.t) : option DnsRecord.t :=
  match r with
  | DnsRecord.AAAA domain addr ttl =>
      if eq_ignore_ascii_case domain ns_name then Some (DnsRecord.AAAA ns_name addr ttl) else None
  | _ => None
  end.
Fixpoint cache_glue (p : DnsPacket) (ns_names : list bytes) (c : DnsCache) : outcome DnsCache :=
  match ns_names with
  | [] => Ok c
  | n :: ns_names =>
      (let? c := insert_glue n QueryType.A (omap (glue_a n) (resources p)) c in
       let? c := insert_glue n QueryType.AAAA (omap (glue_aaaa n) (resources p)) c in
       cache_glue p ns_names c)%outcome
  end.

(** The domain a DS record or a signature over one is filed under. *)
Definition ds_key (r : DnsRecord.t) : option bytes :=
  match r with
  | DnsRecord.DS domain _ _ _ _ _ => Some (to_lowercase domain)
  | DnsRecord.RRSIG domain type_covered _ _ _ _ _ _ _ _ _ =>
      if bool_decide (Question.from_num type_covered = QueryType.DS)
      then Some (to_lowercase domain) else None
  | _ => None
  end.
Fixpoint file_under (key : bytes) (r : DnsRecord.t) (l : list (bytes * list DnsRecord.t))
    : list (bytes * list DnsRecord.t) :=
  match l with
  | [] => [(key, [r])]
  | (k, rs) :: l => if bool_decide (k = key) then (k, rs ++ [r]) :: l else (k, rs) :: file_under key r l
  end.
Definition ds_by_domain (rs : list DnsRecord.t) : list (bytes * list DnsRecord.t) :=
  fold_left (λ l r, match ds_key r with Some k => file_under k r l | None => l end) rs [].
Fixpoint insert_ds (l : list (bytes * list DnsRecord.t)) (c : DnsCache) : outcome DnsCache :=
  match l with
  | [] => Ok c
  | (d, rs) :: l => (let? c := insert_glue d QueryType.DS rs c in insert_ds l c)%outcome
  end.
Definition cache_ds_from_authority (p : DnsPacket) (c : DnsCache) : outcome DnsCache :=
  insert_ds (ds_by_domain (authorities p)) c.

Definition cache_ns_delegation (zone : bytes) (p : DnsPacket) (c : DnsCache) : outcome DnsCache :=
  insert_glue zone QueryType.NS (List.filter is_ns (authorities p)) c.
End writing.

(** * Queries *)

Section resolver.
Context `{Lowercase} `{NetLib} (iter : Entries → list visit) (keys : srtt_map → list Srtt.key).
Abbreviation async A := (fut World request reply A).

(** [QUERY_ID.fetch_add(1)]. *)
Definition next_id : async Z :=
  Get (λ w, Put (set_query_id (as_u16 (query_id w + 1)) w) (ret (query_id w))).

Definition encode (p : DnsPacket) : outcome bytes :=
  match write_new p with
  | (Ok _, b) => filled b
  | (Err e, _) => Err e
  | (Panic, _) => Panic
  | (OutOfFuel, _) => OutOfFuel
  end.
Definition parse_reply (r : result) : outcome DnsPacket :=
  match r with inl e => Err e | inr data => fst (from_buffer (from_bytes data)) end.
Definition forward_to (u : Upstream) (query : DnsPacket) : async DnsPacket :=
  let* msg := Return (encode query) in
  let* r := exchange u msg in
  Return (parse_reply r).
Definition forward_udp (query : DnsPacket) (server : SocketAddr) : async DnsPacket :=
  forward_to (Udp server) query.
Definition forward_tcp (query : DnsPacket) (server : SocketAddr) : async DnsPacket :=
  forward_to (Tcp server) query.

(** [start.elapsed().as_millis() as u64]. *)
Definition elapsed_ms (start : Z) (w : World) : Z :=
  as_u64 (Z.max 0 (clock w - start) / 1000000).
Definition report_rtt (server : SocketAddr) (t : UpstreamTransport.t) (start : Z) (w : World) : World :=
  set_srtt (record_rtt keys (clock w) (ip server) t (elapsed_ms start w) (srtt (ctx w))) w.
Definition report_failure (server : SocketAddr) (t : UpstreamTransport.t) (w : World) : World :=
  set_srtt (record_failure keys (clock w) (ip server) t (srtt (ctx w))) w.

Definition tcp_with_srtt (query : DnsPacket) (server : SocketAddr) (start : Z) : async DnsPacket :=
  let* r := catch (forward_tcp query server) in
  match r with
  | inr resp =>
      let* _ := modify (report_rtt server UpstreamTransport.Tcp start) in ret resp
  | inl e => let* _ := modify (report_failure server UpstreamTransport.Tcp) in fail e
  end.

Definition iterative_query (id : Z) (qname : bytes) (qtype : QueryType.t) : DnsPacket :=
  let q := Packet.query id qname qtype in
  {| header := with_rd false (header q); questions := questions q; answers := answers q;
     authorities := authorities q; resources := resources q;
     edns := Some (with_do true default_edns) |}.
Definition is_ipv6 (a : SocketAddr) : bool := match ip a with V6 _ => true | V4 _ => false end.

Definition send_query (qname : bytes) (qtype : QueryType.t) (server : SocketAddr)
    : async DnsPacket :=
  let* id := next_id in
  let query := iterative_query id qname qtype in
  let* start := gets clock in
  if is_ipv6 server then tcp_with_srtt query server start
  else
    let* disabled := gets udp_disabled in
    if disabled : bool then tcp_with_srtt query server start
    else
      let* r := catch (forward_udp query server) in
      match r with
      | inr resp =>
          if truncated_message (header resp) then tcp_with_srtt query server start
          else
            let* _ := modify (λ w, set_udp 0 (udp_disabled w) w) in
            let* _ := modify (report_rtt server UpstreamTransport.Udp start) in
            ret resp
      | inl e =>
          let* fails := gets (λ w, as_u8 (udp_failures w + 1)) in
          let* _ := modify (λ w, set_udp fails (udp_disabled w) w) in
          let* disabled := gets udp_disabled in
          if (UDP_FAIL_THRESHOLD <=? fails) && negb disabled then
            let* _ := modify (λ w, set_udp (udp_failures w) true w) in
            tcp_with_srtt query server start
          else
            let* _ := modify (report_failure server UpstreamTransport.Udp) in
            fail e
      end.

Definition send_query_hedged (qname : bytes) (qtype : QueryType.t) (servers : list SocketAddr)
    : async DnsPacket :=
  match servers with
  | [] => fail (Message "no nameserver available")
  | [server] => send_query qname qtype server
  | primary :: secondary :: _ =>
      let* known := gets (λ w, is_known (ip primary) UpstreamTransport.Udp (srtt (ctx w))) in
      if negb known then
        first_ok (send_query qname qtype primary) (send_query qname qtype secondary)
      else
        let* hedge_ms := gets (λ w, Srtt.get (clock w) (ip primary) UpstreamTransport.Udp (srtt (ctx w)) * 3) in
        hedge (Sleep (Z.max hedge_ms 50)) (send_query qname qtype primary)
          (send_query qname qtype secondary)
  end.

(** * Resolution *)

Definition cached (qname : bytes) (qtype : QueryType.t) : async (option DnsPacket) :=
  try_get (λ w, lookup (clock w) (cache (ctx w)) qname qtype).
(** [f] on the cache, under its write lock. *)
Definition update_cache (f : Z → DnsCache → outcome DnsCache) : async unit :=
  update (λ w, (let? c := f (clock w) (cache (ctx w)) in Ok (set_cache c w))%outcome).
Definition cache_insert (qname : bytes) (qtype : QueryType.t) (p : DnsPacket) : async unit :=
  update_cache (λ now, insert iter now qname qtype p).
Definition sorted (addrs : list SocketAddr) : async (list SocketAddr) :=
  gets (λ w, sort_by_udp_rtt (clock w) (srtt (ctx w)) addrs).

Definition resolve_ns_addrs_from_glue (p : DnsPacket) (ns_names : list bytes)
    : async (list SocketAddr) :=
  let* _ := update_cache (λ now, cache_glue iter now p ns_names) in
  let addrs := concat (map (glue_addrs_for p) ns_names) in
  if bool_decide (addrs = []) then
    try_get (λ w, all_addrs_from_cache (clock w) (cache (ctx w)) ns_names)
  else ret addrs.

Section iterate.
(** The recursive call. *)
Context (self : bytes → QueryType.t → Z → Z → async DnsPacket).
Context (qname : bytes) (qtype : QueryType.t) (referral_depth cname_depth : Z).

(** Name servers without glue: the addresses of the first one that has any. *)
Definition glueless_type (ns_name : bytes) (qt : QueryType.t) : async (list SocketAddr) :=
  let* r := catch (self ns_name qt (referral_depth + 1) cname_depth) in
  ret match r with inr resp => omap record_to_addr (answers resp) | inl _ => [] end.
Fixpoint glueless (ns_names : list bytes) : async (list SocketAddr) :=
  match ns_names with
  | [] => ret []
  | n :: ns_names =>
      let* addrs :=
        if referral_depth <? MAX_REFERRAL_DEPTH then
          let* a := glueless_type n QueryType.A in
          if bool_decide (a ≠ []) then ret a else glueless_type n QueryType.AAAA
        else ret [] in
      if bool_decide (addrs ≠ []) then ret addrs else glueless ns_names
  end.

(** A response with answers to the question itself. *)
Definition answered (response : DnsPacket) : async DnsPacket :=
  let has_target := existsb (λ r, bool_decide (query_type r = qtype)) (answers response) in
  if has_target || bool_decide (qtype = QueryType.CNAME) then
    let* _ := cache_insert qname qtype response in ret response
  else
    match extract_cname_target response qname with
    | Some cname_target =>
        if MAX_CNAME_DEPTH <=? cname_depth then fail (Message "max CNAME depth exceeded")
        else
          let* final := self cname_target qtype 0 (cname_depth + 1) in
          let combined := push_answers (answers final)
            (with_header (with_rescode (rescode (header final)) (header response)) response) in
          let* _ := cache_insert qname qtype combined in ret combined
    | None => let* _ := cache_insert qname qtype response in ret response
    end.

(** The loop over referrals: [n] turns are left. *)
Fixpoint iterate (n : nat) (current_zone : bytes) (ns_addrs : list SocketAddr) (ns_idx : nat)
    : async DnsPacket :=
  match n with
  | O => fail (Message "recursive resolution exhausted")
  | S n =>
      if (length ns_addrs <=? ns_idx)%nat then fail (Message "no nameserver available")
      else
        let '(q_name, q_type) := minimize_query qname qtype current_zone in
        let* r := catch (send_query_hedged q_name q_type (drop ns_idx ns_addrs)) in
        match r with
        | inl _ => iterate n current_zone ns_addrs (ns_idx + Nat.min (length ns_addrs - ns_idx) 2)
        | inr response =>
            if (negb (bool_decide (q_type = qtype)) || negb (eq_ignore_ascii_case q_name qname))
               && (negb (bool_decide (authorities response = []))
                   || negb (bool_decide (answers response = [])))
            then
              let* zone :=
                match referral_zone response with
                | Some zone =>
                    let* _ := update_cache (λ now, cache_ns_delegation iter now zone response) in
                    ret zone
                | None => ret current_zone
                end in
              let all_ns := match extract_ns_from_records (answers response) with
                            | [] => extract_ns_names response
                            | l => l
                            end in
              let* new_addrs := resolve_ns_addrs_from_glue response all_ns in
              if bool_decide (new_addrs ≠ []) then
                let* new_addrs := sorted new_addrs in iterate n zone new_addrs 0
              else iterate n zone ns_addrs (ns_idx + 1)
            else if bool_decide (answers response ≠ []) then answered response
            else if bool_decide (rescode (header response) = NXDOMAIN)
                    || bool_decide (rescode (header response) = REFUSED) then
              let* _ := cache_insert qname qtype response in ret response
            else
              let zone := default current_zone (referral_zone response) in
              let ns_names := extract_ns_names response in
              if bool_decide (ns_names = []) then ret response
              else
                let* _ := update_cache (λ now c,
                  (let? c := cache_ns_delegation iter now zone response c in
                   cache_ds_from_authority iter now response c)%outcome) in
                let* new_addrs := resolve_ns_addrs_from_glue response ns_names in
                let* new_addrs :=
                  if bool_decide (new_addrs = []) then glueless ns_names else ret new_addrs in
                if bool_decide (new_addrs = []) then fail (Message "could not resolve any NS")
                else let* new_addrs := sorted new_addrs in iterate n zone new_addrs 0
        end
  end.
End iterate.

Fixpoint resolve_iterative (fuel : nat) (qname : bytes) (qtype : QueryType.t)
    (referral_depth cname_depth : Z) : async DnsPacket :=
  match fuel with
  | O => Return OutOfFuel
  | S fuel =>
      if MAX_REFERRAL_DEPTH <? referral_depth then fail (Message "max referral depth exceeded")
      else
        let* c := cached qname qtype in
        match c with
        | Some p => ret p
        | None =>
            let* (zone, ns_addrs) := try_get (λ w,
              find_closest_ns (clock w) (cache (ctx w)) qname (root_hints (ctx w))) in
            let* ns_addrs := sorted ns_addrs in
            iterate (resolve_iterative fuel) qname qtype referral_depth cname_depth
              (Z.to_nat MAX_REFERRAL_DEPTH) zone ns_addrs 0
        end
  end.

(** Every call below nests one level less of aliases, or as many and one level less of
    referrals: nine levels of aliases, of twelve each. *)
Definition RESOLVE_FUEL : nat := Z.to_nat ((MAX_CNAME_DEPTH + 1) * (MAX_REFERRAL_DEPTH + 2)).

Definition resolve_recursive (qname : bytes) (qtype : QueryType.t) (original_query : DnsPacket)
    : async DnsPacket :=
  let* resp := resolve_iterative RESOLVE_FUEL qname qtype 0 0 in
  let h := with_rd (recursion_desired (header original_query))
    (with_ra true (with_id (id (header original_query)) (header resp))) in
  ret {| header := h; questions := questions original_query; answers := answers resp;
         authorities := authorities resp; resources := resources resp; edns := edns resp |}.
(** * Start-up and probes *)

Definition reset_udp_state (w : World) : World := set_udp 0 false w.
Definition root_probe (id : Z) : DnsPacket :=
  let q := Packet.query id (str ".") QueryType.NS in with_header (with_rd false (header q)) q.
Definition probe_udp (root_hints : list SocketAddr) : async unit :=
  let* disabled := gets udp_disabled in
  if negb disabled then ret tt
  else
    match root_hints with
    | [] => ret tt
    | hint :: _ =>
        let* id := next_id in
        let* r := catch (forward_udp (root_probe id) hint) in
        match r with inr _ => modify reset_udp_state | inl _ => ret tt end
    end.

(** The first three hints are tried with the same probe. *)
Fixpoint probe_hints (probe : DnsPacket) (hints : list SocketAddr) : async bool :=
  match hints with
  | [] => ret false
  | hint :: hints =>
      let* r := catch (forward_udp probe hint) in
      match r with
      | inr resp =>
          if negb (bool_decide (answers resp = [])) || negb (bool_decide (authorities resp = []))
          then ret true else probe_hints probe hints
      | inl _ => probe_hints probe hints
      end
  end.
Definition probe_recursive (root_hints : list SocketAddr) : async bool :=
  let* id := next_id in probe_hints (root_probe id) (take 3 root_hints).

(** The first root server that answers, else the first hint. *)
Fixpoint reachable_root (first : SocketAddr) (hints : list SocketAddr) : async SocketAddr :=
  match hints with
  | [] => ret first
  | hint :: hints =>
      let* r := catch (send_query (str ".") QueryType.NS hint) in
      match r with inr _ => ret hint | inl _ => reachable_root first hints end
  end.
(** One turn of the loop over the top-level domains. *)
Definition prime_tld (root_addr : SocketAddr) (tld : bytes) : async unit :=
  let* r := catch (send_query tld QueryType.NS root_addr) in
  match r with
  | inl _ => ret tt
  | inr response =>
      let ns_names := extract_ns_names response in
      match ns_names with
      | [] => ret tt
      | first_ns_name :: _ =>
          let* _ := update_cache (λ now c,
            (let? c := insert iter now tld QueryType.NS response c in
             let? c := cache_glue iter now response ns_names c in
             cache_ds_from_authority iter now response c)%outcome) in
          match glue_addrs_for response first_ns_name with
          | [] => ret tt
          | ns_addr :: _ =>
              let* r := catch (send_query tld QueryType.DNSKEY ns_addr) in
              match r with
              | inr dnskey_resp => cache_insert tld QueryType.DNSKEY dnskey_resp
              | inl _ => ret tt
              end
          end
      end
  end.
Fixpoint prime_tlds (root_addr : SocketAddr) (tlds : list bytes) : async unit :=
  match tlds with
  | [] => ret tt
  | tld :: tlds => let* _ := prime_tld root_addr tld in prime_tlds root_addr tlds
  end.
Definition prime_tld_cache (root_hints : list SocketAddr) (tlds : list bytes) : async unit :=
  match root_hints, tlds with
  | [], _ | _, [] => ret tt
  | first :: _, _ =>
      let* root_addr := reachable_root first root_hints in
      let* r := catch (send_query (str ".") QueryType.DNSKEY root_addr) in
      let* _ := match r with
                | inr root_dnskey => cache_insert (str ".") QueryType.DNSKEY root_dnskey
                | inl _ => ret tt
                end in
      prime_tlds root_addr tlds
  end.
End resolver.

(** * Safety and termination *)

Section safety.
Context `{Lowercase} `{NetLib} (iter : Entries → list visit) `{!IterOrder iter}
  (keys : srtt_map → list Srtt.key).

(** Settings a client may rely on not changing meanwhile. *)
Definition settings (c : ServerCtx) : Rebind.RebindFilter * bool * bool :=
  (rebind c, dnssec_enabled c, dnssec_strict c).
Context (J : Rebind.RebindFilter * bool * bool → Prop).

(** What resolution keeps of the shared state, and expects others to keep. *)
Record good (w : World) : Prop := {
  g_settings : J (settings (ctx w));
  g_cache : cache_ok (cache (ctx w));
  g_locals : locals_ok (ctx w);
  g_sent : Forall (λ m, message_ok (snd m)) (sent w)
}.
(** The parts of the state it is about. *)
Definition core (w : World) :=
  (cache (ctx w), (zone_map (ctx w), overrides (ctx w), lan_peers (ctx w), lan_ip (ctx w)), sent w,
   settings (ctx w)).
Lemma good_core w w' : core w' = core w → good w → good w'.
Proof.
  unfold core. intros Hw [Gj Gc [? ? ? ?] Gs].
  apply pair_eq in Hw as [Hw Hj]. injection Hw as Hc Hz Ho Hp Hl Hs.
  split; [by rewrite Hj|by rewrite Hc| |by rewrite Hs].
  split; by rewrite ?Hz, ?Ho, ?Hp, ?Hl.
Qed.
(** An [Ok] with fields in range or an [Err]: no panic, no endless recursion. *)
Definition fine (r : outcome DnsPacket) : Prop :=
  match r with Ok p => sound p | Err _ => True | _ => False end.
Definition fine_unit (r : outcome unit) : Prop := r = Ok tt.
Abbreviation safe := (Async.safe good fits).

Lemma encode_returns p : match encode p with Ok _ | Err _ => True | _ => False end.
Proof.
  unfold encode. pose proof (write_new_spec p) as Hw.
  destruct (packet_wire p) as [w|].
  - destruct Hw as [(_ & -> & Hf)|(_ & b & -> & _)]; [by rewrite Hf|done].
  - by destruct Hw as (e & b & ->).
Qed.
Lemma parse_reply_fine r : result_bytes r → fine (parse_reply r).
Proof.
  destruct r as [e|d]; [done|]. cbn. intros Hd.
  pose proof (safe_from_buffer (from_bytes d) (from_bytes_readable d Hd)) as Hs.
  destruct (from_buffer (from_bytes d)) as [[p|e| |] b]; cbn in *; [|done..].
  apply parsed_packet_fields, Hs.
Qed.

Lemma safe_forward_to u query s : good s → safe fine (forward_to u query) s.
Proof.
  intros Hs. unfold forward_to. pose proof (encode_returns query) as He.
  destruct (encode query) as [msg|e| |]; [|cbn; by split|done|done].
  cbn. split; [done|]. intros i q r s' Hq Hf Hs'.
  destruct i as [|i]; [|done]. injection Hq as <-. destruct r as [d| | | | |]; try done.
  cbn. split; [done|]. by apply parse_reply_fine.
Qed.

(** Steps on the shared state that leave the cache alone. *)
Lemma good_set_cache c w : cache_ok c → good w → good (set_cache c w).
Proof. intros Hc [Hj _ [? ? ? ?] Hs]. split; [done|done|by split|done]. Qed.

(** Sequencing after a call whose error ends the function. *)
Lemma safe_then {A} (P : A → Prop) (t : fut World request reply A) (f : A → fut World request reply DnsPacket) s :
  safe (λ r, match r with Ok a => P a | Err _ => True | _ => False end) t s →
  (∀ a s, P a → good s → safe fine (f a) s) → safe fine (bind t f) s.
Proof. intros Ht Hf. by apply (fut_bind _ _ _ _ _ _ _ Ht). Qed.
(** Sequencing after a call whose result is examined. *)
Lemma safe_caught (t : fut World request reply DnsPacket)
    (f : error + DnsPacket → fut World request reply DnsPacket) s :
  safe fine t s → (∀ p s, sound p → good s → safe fine (f (inr p)) s) →
  (∀ e s, good s → safe fine (f (inl e)) s) → safe fine (bind (catch t) f) s.
Proof.
  intros Ht Hr Hl.
  apply (fut_bind _ _ (λ r, match r with Ok (inr p) => sound p | Ok (inl _) => True | _ => False end));
    try done.
  - apply (safe_catch _ _ _ _ _ _ Ht); done.
  - intros [e|p] s' HP Hs'; [by apply Hl|by apply Hr].
Qed.
(** Reading the state. *)
Lemma safe_gets {A B} (g : World → A) (f : A → fut World request reply B) Q s :
  safe Q (f (g s)) s → safe Q (bind (gets g) f) s.
Proof. done. Qed.
Lemma safe_after (g : World → World) (k : fut World request reply DnsPacket) s :
  good s → (∀ w, core (g w) = core w) → (∀ s, good s → safe fine k s) →
  safe fine (let* _ := modify g in k) s.
Proof. intros Hs Hg Hk. cbn. apply Hk. by apply (good_core s). Qed.

Lemma safe_tcp query server start s : good s → safe fine (tcp_with_srtt keys query server start) s.
Proof.
  intros Hs. unfold tcp_with_srtt. apply safe_caught; [by apply safe_forward_to| |].
  - intros p s' Hp Hs'. apply safe_after; [done..|]. by intros.
  - intros e s' Hs'. apply safe_after; [done..|]. by intros.
Qed.

Lemma safe_send_query qname qtype server s : good s → safe fine (send_query keys qname qtype server) s.
Proof.
  intros Hs. unfold send_query, next_id. cbn [bind]. cbn [Async.safe].
  set (w := set_query_id _ s). assert (Hw : good w) by by apply (good_core s).
  apply safe_gets. destruct (is_ipv6 server); [by apply safe_tcp|].
  apply safe_gets. destruct (udp_disabled w); [by apply safe_tcp|].
  apply safe_caught; [by apply safe_forward_to| |].
  - intros p s' Hp Hs'. destruct (truncated_message (header p)); [by apply safe_tcp|].
    apply safe_after; [done..|]. intros s1 H1. apply safe_after; [done..|]. by intros.
  - intros e s' Hs'. apply safe_gets. apply safe_after; [done..|]. intros s1 H1. apply safe_gets.
    destruct (_ && _).
    + apply safe_after; [done..|]. intros s2 H2. by apply safe_tcp.
    + apply safe_after; [done..|]. by intros.
Qed.

Lemma safe_hedged qname qtype servers s : good s →
  safe fine (send_query_hedged keys qname qtype servers) s.
Proof.
  intros Hs. unfold send_query_hedged. destruct servers as [|a [|b l]].
  - by split.
  - by apply safe_send_query.
  - apply safe_gets. destruct (negb _).
    + apply safe_first_ok; [by apply safe_send_query|]. intros. by apply safe_send_query.
    + apply safe_gets. apply safe_hedge; [by apply safe_send_query|]. intros. by apply safe_send_query.
Qed.

(** Sequencing after a step that cannot fail. *)
Definition returns_ok {A} (P : A → Prop) (r : outcome A) : Prop :=
  match r with Ok a => P a | _ => False end.
Lemma safe_seq {A B} (P : A → Prop) (Q : outcome B → Prop) (t : fut World request reply A)
    (f : A → fut World request reply B) s :
  safe (returns_ok P) t s → (∀ a s, P a → good s → safe Q (f a) s) → safe Q (bind t f) s.
Proof. intros Ht Hf. by apply (fut_bind _ _ _ _ _ _ _ Ht). Qed.

(** ** Cache updates *)

Definition updates (f : Z → DnsCache → outcome DnsCache) : Prop :=
  ∀ now c, cache_ok c → ∃ c', f now c = Ok c' ∧ cache_ok c'.
Lemma safe_update f s : updates f → good s → safe (returns_ok (λ _, True)) (update_cache f) s.
Proof.
  intros Hf Hs. cbn. destruct (Hf (clock s) _ (g_cache _ Hs)) as (c' & -> & Hc').
  split; [by apply good_set_cache|done].
Qed.

Lemma updates_insert q qt p : packet_fields p → updates (λ now, insert iter now q qt p).
Proof. intros Hp now c Hc. by apply insert_with_status_returns. Qed.
Lemma glue_packet_fields rs : Forall record_ok rs → packet_fields (glue_packet rs).
Proof.
  intros Hr. split_and!; try constructor; try done.
Qed.
Lemma updates_insert_glue q qt rs : Forall record_ok rs →
  updates (λ now, insert_glue iter now q qt rs).
Proof.
  intros Hr. destruct rs as [|r rs]; [by intros now c Hc; eexists|].
  by apply updates_insert, glue_packet_fields.
Qed.
Lemma updates_seq f g : updates f → updates g →
  updates (λ now c, (let? c := f now c in g now c)%outcome).
Proof.
  intros Hf Hg now c Hc. destruct (Hf now c Hc) as (c1 & -> & H1). cbn [obind]. by apply Hg.
Qed.

Lemma glue_a_ok n r r' : all_bytes n → record_ok r → glue_a n r = Some r' → record_ok r'.
Proof.
  intros Hn Hr. destruct r; try done. cbn. destruct (eq_ignore_ascii_case _ _); [|done].
  intros [= <-]. destruct Hr as (_ & ? & ?). by split_and!.
Qed.
Lemma glue_aaaa_ok n r r' : all_bytes n → record_ok r → glue_aaaa n r = Some r' → record_ok r'.
Proof.
  intros Hn Hr. destruct r; try done. cbn. destruct (eq_ignore_ascii_case _ _); [|done].
  intros [= <-]. destruct Hr as (_ & ? & ?). by split_and!.
Qed.
Lemma Forall_omap {A B} (P : A → Prop) (Q : B → Prop) (f : A → option B) l :
  (∀ x y, P x → f x = Some y → Q y) → Forall P l → Forall Q (omap f l).
Proof.
  intros Hf. induction 1 as [|x l Hx Hl IH]; cbn; [constructor|].
  destruct (f x) as [y|] eqn:E; [|done]. constructor; [by eapply Hf|done].
Qed.
Lemma updates_glue p names : Forall record_ok (resources p) → Forall all_bytes names →
  updates (λ now, cache_glue iter now p names).
Proof.
  intros Hr. induction 1 as [|n names Hn Hnames IH]; [by intros now c Hc; eexists|].
  cbn [cache_glue]. apply updates_seq; [|apply updates_seq; [|exact IH]].
  - apply updates_insert_glue. eapply Forall_omap; [|exact Hr]. intros x y. by apply glue_a_ok.
  - apply updates_insert_glue. eapply Forall_omap; [|exact Hr]. intros x y. by apply glue_aaaa_ok.
Qed.

Lemma file_under_ok k r l : record_ok r → Forall (λ x, Forall record_ok (snd x)) l →
  Forall (λ x, Forall record_ok (snd x)) (file_under k r l).
Proof.
  intros Hr. induction 1 as [|[k' rs] l Hrs Hl IH]; cbn; [constructor; [by apply Forall_singleton|constructor]|].
  case_bool_decide; constructor; try done. cbn. apply Forall_app. split; [done|by constructor].
Qed.
Lemma ds_by_domain_ok rs : Forall record_ok rs → Forall (λ x, Forall record_ok (snd x)) (ds_by_domain rs).
Proof.
  unfold ds_by_domain. assert (Hnil : Forall (λ x : bytes * list DnsRecord.t, Forall record_ok (snd x)) [])
    by constructor.
  revert Hnil. generalize (@nil (bytes * list DnsRecord.t)).
  induction rs as [|r rs IH]; intros l Hl Hrs; cbn; [done|]. apply Forall_cons_1 in Hrs as [Hr Hrs].
  apply IH; [|done]. destruct (ds_key r); [by apply file_under_ok|done].
Qed.
Lemma updates_ds p : Forall record_ok (authorities p) →
  updates (λ now, cache_ds_from_authority iter now p).
Proof.
  intros Ha. unfold cache_ds_from_authority. pose proof (ds_by_domain_ok _ Ha) as Hl.
  induction Hl as [|[d rs] l Hrs Hl IH]; [by intros now c Hc; eexists|].
  cbn [insert_ds]. apply updates_seq; [by apply updates_insert_glue|done].
Qed.
Lemma updates_delegation zone p : Forall record_ok (authorities p) →
  updates (λ now, cache_ns_delegation iter now zone p).
Proof.
  intros Ha. apply updates_insert_glue. apply Forall_forall. intros r Hr.
  apply list_elem_of_In, filter_In in Hr as [Hr _]. rewrite Forall_forall in Ha.
  by apply Ha, list_elem_of_In.
Qed.

(** ** Reading the cache *)

Lemma addrs_from_cache_returns now c n : cache_ok c → ∃ l, addrs_from_cache now c n = Ok l.
Proof.
  intros Hc. unfold addrs_from_cache.
  destruct (lookup_returns now c n QueryType.A Hc) as (r1 & -> & _). cbn [obind].
  destruct (lookup_returns now c n QueryType.AAAA Hc) as (r2 & -> & _). cbn [obind]. eauto.
Qed.
Lemma all_addrs_returns now c names : cache_ok c → ∃ l, all_addrs_from_cache now c names = Ok l.
Proof.
  intros Hc. induction names as [|n names [l IH]]; cbn; [by eexists|].
  destruct (addrs_from_cache_returns now c n Hc) as [a ->]. cbn. rewrite IH. cbn. eauto.
Qed.
Lemma closest_ns_returns now c hints fuel : ∀ zone, cache_ok c → (length zone < fuel)%nat →
  ∃ z l, closest_ns now c fuel zone hints = Ok (z, l).
Proof.
  induction fuel as [|fuel IH]; intros zone Hc Hf; [lia|]. cbn [closest_ns].
  destruct (lookup_returns now c zone QueryType.NS Hc) as (r & -> & _). cbn [obind].
  assert (Ha : ∃ l, match r with
    | Some p => all_addrs_from_cache now c
        (extract_ns_from_records (if existsb is_ns (answers p) then answers p else authorities p))
    | None => Ok [] end = Ok l).
  { destruct r; [by apply all_addrs_returns|by eexists]. }
  destruct Ha as [l ->]. cbn [obind]. case_bool_decide; [by eexists _, _|].
  destruct (after 46 zone) as [rest|] eqn:Hr; [|by eexists _, _].
  apply IH; [done|]. apply after_shorter in Hr. lia.
Qed.

Lemma safe_glue_addrs p names s : Forall record_ok (resources p) → Forall all_bytes names → good s →
  safe (returns_ok (λ _, True)) (resolve_ns_addrs_from_glue iter p names) s.
Proof.
  intros Hr Hn Hs. unfold resolve_ns_addrs_from_glue.
  eapply safe_seq; [apply safe_update; [by apply updates_glue|done]|]. intros _ s1 _ H1.
  case_bool_decide; [|by split]. cbn.
  destruct (all_addrs_returns (clock s1) (cache (ctx s1)) names (g_cache _ H1)) as [l ->]. by split.
Qed.

Lemma ns_hosts_bytes rs : Forall record_ok rs → Forall all_bytes (omap ns_host rs).
Proof.
  apply Forall_omap. intros r h (_ & _ & Hr). destruct r; try done. cbn. by intros [= <-].
Qed.

(** ** Resolution *)

(** The nesting left below a call. *)
Definition nesting (referral_depth cname_depth : Z) : Z :=
  (MAX_CNAME_DEPTH - cname_depth) * (MAX_REFERRAL_DEPTH + 2) + (MAX_REFERRAL_DEPTH + 1 - referral_depth).

Section step.
Context (self : bytes → QueryType.t → Z → Z → fut World request reply DnsPacket).
Context (qname : bytes) (qtype : QueryType.t) (rd cd : Z).
Hypothesis Hrd : 0 ≤ rd ≤ MAX_REFERRAL_DEPTH.
Hypothesis Hcd : 0 ≤ cd ≤ MAX_CNAME_DEPTH.
Hypothesis Hself : ∀ q t rd' cd' s, 0 ≤ rd' ≤ MAX_REFERRAL_DEPTH + 1 → 0 ≤ cd' ≤ MAX_CNAME_DEPTH →
  nesting rd' cd' < nesting rd cd → good s → safe fine (self q t rd' cd') s.

Lemma safe_glueless_type n qt s : good s →
  safe (returns_ok (λ _, True)) (glueless_type self rd cd n qt) s.
Proof.
  intros Hs. unfold glueless_type.
  apply (safe_seq (λ _, True)); [|by intros].
  eapply safe_catch; [apply (Hself n qt (rd + 1) cd s); unfold nesting; try lia; done|done..].
Qed.
Lemma safe_glueless names : ∀ s, good s → safe (returns_ok (λ _, True)) (glueless self rd cd names) s.
Proof.
  induction names as [|n names IH]; intros s Hs; [by split|]. cbn [glueless].
  apply (safe_seq (λ _, True)).
  - destruct (rd <? MAX_REFERRAL_DEPTH); [|by split].
    apply (safe_seq (λ _, True)); [by apply safe_glueless_type|]. intros a s1 _ G1.
    case_bool_decide; [by split|by apply safe_glueless_type].
  - intros a s1 _ G1. case_bool_decide; [by split|by apply IH].
Qed.

Lemma safe_insert_then p q s : sound p → sound q → good s →
  safe fine (let* _ := cache_insert iter qname qtype p in ret q) s.
Proof.
  intros Hp Hq Hs. eapply safe_seq; [apply safe_update; [by apply updates_insert|done]|].
  by intros.
Qed.

Lemma safe_answered response s : sound response → good s →
  safe fine (answered iter self qname qtype cd response) s.
Proof.
  intros Hp Hs. unfold answered. destruct (_ || _); [by apply safe_insert_then|].
  destruct (extract_cname_target response qname) as [target|]; [|by apply safe_insert_then].
  destruct (Z.leb_spec MAX_CNAME_DEPTH cd) as [|Hlt]; [by split|].
  apply (safe_then sound).
  - apply Hself; unfold nesting, MAX_CNAME_DEPTH, MAX_REFERRAL_DEPTH in *; try lia; done.
  - intros final s1 Hf G1. apply safe_insert_then; [| |done];
      destruct Hp as (? & ? & ? & ? & ? & ?), Hf as (? & ? & ? & _);
      (split_and!; try done; by apply Forall_app).
Qed.

Lemma safe_iterate n : ∀ zone addrs idx s, good s →
  safe fine (iterate iter keys self qname qtype rd cd n zone addrs idx) s.
Proof.
  induction n as [|n IH]; intros zone addrs idx s Hs; [by split|]. cbn [iterate].
  destruct (_ <=? _)%nat; [by split|]. destruct (minimize_query qname qtype zone) as [q_name q_type].
  apply safe_caught; [by apply safe_hedged| |intros; by apply IH].
  intros p s1 Hp G1. pose proof Hp as (_ & _ & Han & Hau & Had & _).
  pose proof (ns_hosts_bytes _ Hau) as Hns.
  destruct (_ && _).
  { apply (safe_seq (λ _, True)).
    - destruct (referral_zone p); [|by split].
      eapply safe_seq; [apply safe_update; [by apply updates_delegation|done]|]. by intros.
    - intros zone' s2 _ G2. apply (safe_seq (λ _, True)).
      + apply safe_glue_addrs; [done| |done].
        pose proof (ns_hosts_bytes _ Han) as Hns'. unfold extract_ns_from_records in *.
        destruct (omap ns_host (answers p)); [exact Hns|exact Hns'].
      + intros new s3 _ G3. case_bool_decide; [|by apply IH]. apply safe_gets. by apply IH. }
  case_bool_decide; [by apply safe_answered|].
  destruct (_ || _); [by apply safe_insert_then|].
  case_bool_decide; [by split|].
  eapply safe_seq; [apply safe_update; [|done]|].
  { apply updates_seq; [by apply updates_delegation|by apply updates_ds]. }
  intros _ s2 _ G2. eapply safe_seq; [by apply safe_glue_addrs|]. intros new s3 _ G3.
  apply (safe_seq (λ _, True)).
  - case_bool_decide; [by apply safe_glueless|by split].
  - intros new' s4 _ G4. case_bool_decide; [by split|]. apply safe_gets. by apply IH.
Qed.
End step.

Lemma safe_resolve fuel : ∀ qname qtype rd cd s,
  0 ≤ rd ≤ MAX_REFERRAL_DEPTH + 1 → 0 ≤ cd ≤ MAX_CNAME_DEPTH → nesting rd cd < Z.of_nat fuel →
  good s → safe fine (resolve_iterative iter keys fuel qname qtype rd cd) s.
Proof.
  induction fuel as [|fuel IH]; intros qname qtype rd cd s Hrd Hcd Hn Hs.
  { exfalso. unfold nesting, MAX_CNAME_DEPTH, MAX_REFERRAL_DEPTH in *. lia. }
  cbn [resolve_iterative]. destruct (Z.ltb_spec MAX_REFERRAL_DEPTH rd) as [|Hle]; [by split|].
  apply (safe_seq (λ r, match r with Some p => sound p | None => True end)).
  { cbn. destruct (lookup_returns (clock s) (cache (ctx s)) qname qtype (g_cache _ Hs)) as (r & -> & Hr).
    split; [done|]. destruct r; [by apply parsed_packet_fields|done]. }
  intros [p|] s1 Hp G1; [by split|].
  apply (safe_seq (λ _, True)).
  { unfold try_get. cbn [Async.safe]. split; [done|].
    destruct (closest_ns_returns (clock s1) (cache (ctx s1)) (root_hints (ctx s1))
      (Datatypes.S (length qname)) qname (g_cache _ G1) ltac:(lia)) as (z & l & Hz).
    unfold find_closest_ns. by rewrite Hz. }
  intros [zone addrs] s2 _ G2. apply safe_gets. apply safe_iterate; [lia|lia| |done].
  intros q t rd' cd' s' Hrd' Hcd' Hlt Hs'. apply IH; [done|done|lia|done].
Qed.

(** What [resolve_recursive] returns to its caller. *)
Definition for_client (query : DnsPacket) (r : outcome DnsPacket) : Prop :=
  match r with
  | Ok p => id (header p) = id (header query) ∧ questions p = questions query ∧
      recursion_available (header p) = true ∧
      recursion_desired (header p) = recursion_desired (header query) ∧
      Forall record_ok (answers p) ∧ Forall record_ok (authorities p) ∧
      Forall record_ok (resources p) ∧ (query_ok query → sound p)
  | Err _ => True
  | _ => False
  end.
Lemma safe_resolve_recursive qname qtype query s : good s →
  safe (for_client query) (resolve_recursive iter keys qname qtype query) s.
Proof.
  intros Hs. unfold resolve_recursive.
  eapply fut_bind; [apply (safe_resolve RESOLVE_FUEL); try done|..]; try done.
  intros p s1 (Hh & _ & ? & ? & ? & ?) G1. split; [done|]. split_and!; try done.
  intros [(Hid & _) Hq]. destruct Hh as (_ & ? & ?). by split_and!.
Qed.

(** C8: recursive resolution always ends, and without a panic: whatever the servers reply,
    fail to reply, or when, whichever of the pending calls ends first, and whatever other tasks
    do to the shared cache (within its invariant) at any await. The call returns an error, or a
    response to the client's own question, under its id, with all record fields in range,
    and the cache's invariant holds at the end. Nested resolutions (aliases, name servers
    without glue) never exceed the fuel of the definition. *)
Theorem resolve_recursive_total (qname : bytes) (qtype : QueryType.t) (query : DnsPacket)
    (env : nat → list request → moment) (n : nat) (w : World) :
  env_ok good fits env → good w →
  let '(r, w') := run (resolve_recursive iter keys qname qtype query) env n w in
  good w' ∧ for_client query r.
Proof. intros He Hw. by apply (safe_run good fits), safe_resolve_recursive. Qed.
(** ** Start-up and probes *)

(** A call whose error is examined, in a function without errors of its own. *)
Lemma safe_tried {B} (Q : outcome B → Prop) (t : fut World request reply DnsPacket) f s :
  safe fine t s → (∀ p s, sound p → good s → safe Q (f (inr p)) s) →
  (∀ e s, good s → safe Q (f (inl e)) s) → safe Q (bind (catch t) f) s.
Proof.
  intros Ht Hr Hl.
  apply (safe_seq (λ r, match r with inr p => sound p | inl _ => True end)).
  - by apply (safe_catch _ _ _ _ _ _ Ht).
  - intros [e|p] s' HP Hs'; [by apply Hl|by apply Hr].
Qed.
Lemma safe_next_id {B} (Q : outcome B → Prop) (f : Z → fut World request reply B) s :
  good s → (∀ id s, good s → safe Q (f id) s) → safe Q (bind next_id f) s.
Proof. intros Hs Hf. cbn. apply Hf. by apply (good_core s). Qed.

Lemma safe_probe_udp hints s : good s → safe (returns_ok (λ _, True)) (probe_udp hints) s.
Proof.
  intros Hs. unfold probe_udp. apply safe_gets. destruct (negb _); [by split|].
  destruct hints as [|h hints]; [by split|]. apply safe_next_id; [done|]. intros id s1 G1.
  apply safe_tried; [by apply safe_forward_to| |by split].
  intros p s2 _ G2. cbn. split; [by apply (good_core s2)|done].
Qed.
Lemma safe_probe_recursive hints s : good s → safe (returns_ok (λ _, True)) (probe_recursive hints) s.
Proof.
  intros Hs. unfold probe_recursive. apply safe_next_id; [done|]. intros id s1 G1.
  revert s1 G1. induction (take 3 hints) as [|h l IH]; intros s1 G1; [by split|]. cbn [probe_hints].
  apply safe_tried; [by apply safe_forward_to| |by intros; apply IH].
  intros p s2 _ G2. destruct (_ || _); [by split|by apply IH].
Qed.
Lemma safe_cache_insert q qt p s : sound p → good s →
  safe (returns_ok (λ _, True)) (cache_insert iter q qt p) s.
Proof. intros Hp Hs. apply safe_update; [by apply updates_insert|done]. Qed.
Lemma safe_prime_tld root tld s : good s → safe (returns_ok (λ _, True)) (prime_tld iter keys root tld) s.
Proof.
  intros Hs. unfold prime_tld. apply safe_tried; [by apply safe_send_query| |by split].
  intros p s1 Hp G1. pose proof Hp as (_ & _ & _ & Hau & Had & _).
  pose proof (ns_hosts_bytes _ Hau) as Hns. unfold extract_ns_names.
  destruct (omap ns_host (authorities p)) as [|n names]; [by split|].
  apply (safe_seq (λ _, True)).
  { apply safe_update; [|done]. apply updates_seq; [by apply updates_insert|].
    apply updates_seq; [by apply updates_glue|by apply updates_ds]. }
  intros _ s2 _ G2. destruct (glue_addrs_for p n) as [|a l]; [by split|].
  apply safe_tried; [by apply safe_send_query| |by split]. intros. by apply safe_cache_insert.
Qed.
Lemma safe_prime_tld_cache hints tlds s : good s →
  safe (returns_ok (λ _, True)) (prime_tld_cache iter keys hints tlds) s.
Proof.
  intros Hs. unfold prime_tld_cache. destruct hints as [|first hints]; [by split|].
  destruct tlds as [|tld tlds]; [by split|].
  apply (safe_seq (λ _, True)).
  { revert s Hs. induction (first :: hints) as [|h l IH]; intros s Hs; [by split|]. cbn [reachable_root].
    apply safe_tried; [by apply safe_send_query|by split|]. intros. by apply IH. }
  intros root s1 _ G1. apply safe_tried; [by apply safe_send_query|..].
  - intros p s2 Hp G2. apply (safe_seq (λ _, True)); [by apply safe_cache_insert|].
    intros _ s3 _ G3. revert s3 G3. induction (tld :: tlds) as [|d l IH]; intros s3 G3; [by split|].
    cbn [prime_tlds]. apply (safe_seq (λ _, True)); [by apply safe_prime_tld|]. intros. by apply IH.
  - intros e s2 G2. cbn [bind ret]. revert s2 G2.
    induction (tld :: tlds) as [|d l IH]; intros s3 G3; [by split|].
    cbn [prime_tlds]. apply (safe_seq (λ _, True)); [by apply safe_prime_tld|]. intros. by apply IH.
Qed.
End safety.

(** * An example network *)

#[local] Existing Instance sample_net.
#[local] Existing Instance lowercase_ascii.

(** Replies by server and question; the first of the pending calls ends first, and no other
    task runs. *)
Definition sample_env (net : SocketAddr → bytes → result) (n : nat) (rs : list request)
    : @moment World reply :=
  {| pick := 0%nat;
     answer := match rs with
               | Exchange u msg :: _ =>
                   Data match u with Udp a | Tcp a => net a msg | _ => inl NoneValue end
               | Failover _ _ :: _ => Attempts (λ _ _ _, (inl NoneValue, 0))
               | Recv _ :: _ => Received None
               | ReadExact _ :: _ => BytesRead None
               | WriteAll _ :: _ => Written false
               | _ => Elapsed
               end;
     resume := λ w, w |}.
Lemma sample_env_ok J net : (∀ a msg, result_bytes (net a msg)) → env_ok (good J) fits (sample_env net).
Proof.
  intros Hnet n q qs. split; [|done]. exists q. split; [done|].
  destruct q as [u msg|pool msg|ms|ch|m|out]; cbn; [|by intros|done..].
  destruct u; cbn; try done; apply Hnet.
Qed.

(** A root server and the server of the zone [test], with glue. *)
Definition root_server : SocketAddr := MkSock (V4 (Ipv4 198 41 0 4)) 53.
Definition test_server : SocketAddr := MkSock (V4 (Ipv4 10 0 0 1)) 53.
Definition referral : DnsPacket :=
  with_sections [] [DnsRecord.NS (str "test") (str "ns.test") 3600]
    [DnsRecord.A (str "ns.test") (Ipv4 10 0 0 1) 3600] (glue_packet []).
Definition final_answer : DnsPacket :=
  glue_packet [DnsRecord.A (str "www.test") (Ipv4 192 0 2 7) 300].
Definition to_result (o : outcome bytes) : result := match o with Ok w => inr w | _ => inl NoneValue end.
Definition sample_referral : result := Eval vm_compute in to_result (encode referral).
Definition sample_final : result := Eval vm_compute in to_result (encode final_answer).
Definition sample_servers (a : SocketAddr) (msg : bytes) : result :=
  if bool_decide (a = root_server) then sample_referral
  else if bool_decide (a = test_server) then sample_final else inl NoneValue.
Definition recursive_ctx : ServerCtx :=
  MkCtx Zones.zone_empty (Cache.new 100 60 86400) ∅ (stats_new 0) ∅ sample_blocklist (QueryLog.log_new 10)
    (Services.service_new []) (Peers.peers_new 90) [] sample_pool (Ipv4 192 168 1 2) (str "numa")
    (str ".numa") ModeRecursive [root_server] (srtt_new true) false false false
    {| Policy.rules := [] |} (rebind sample_ctx).
Definition recursive_world : World := MkWorld recursive_ctx 1 0 false ∅ 0 [] [] 0.

Lemma recursive_world_good : good (λ _, True) recursive_world.
Proof.
  split; [done|apply new_cache_ok; lia| |constructor].
  split; [apply map_Forall_empty|intros q t rs _ Hz; by rewrite Zones.zone_lookup_empty in Hz|apply map_Forall_empty|].
  apply (bool_decide_unpack _); vm_compute; exact I.
Qed.
Lemma resolve_recursive_total_witness :
  env_ok (good (λ _, True)) fits (sample_env sample_servers) ∧ good (λ _, True) recursive_world ∧
  let '(r, w') := run (resolve_recursive iter_list keys_list (str "www.test") QueryType.A
    (query 7 (str "www.test") QueryType.A)) (sample_env sample_servers) 0 recursive_world in
  good (λ _, True) w' ∧ for_client (query 7 (str "www.test") QueryType.A) r ∧
  match r with Ok p => answers p = [DnsRecord.A (str "www.test") (Ipv4 192 0 2 7) 300] | _ => False end.
Proof.
  assert (He : env_ok (good (λ _, True)) fits (sample_env sample_servers)).
  { apply sample_env_ok. intros a msg. unfold sample_servers.
    case_bool_decide; [apply (bool_decide_unpack _); vm_compute; exact I|].
    case_bool_decide; [apply (bool_decide_unpack _); vm_compute; exact I|exact I]. }
  pose proof recursive_world_good as Hw.
  split; [exact He|]. split; [exact Hw|].
  pose proof (resolve_recursive_total iter_list keys_list (λ _, True) (str "www.test") QueryType.A
    (query 7 (str "www.test") QueryType.A) _ 0 _ He Hw) as Ht.
  assert (Hr : match fst (run (resolve_recursive iter_list keys_list (str "www.test") QueryType.A
    (query 7 (str "www.test") QueryType.A)) (sample_env sample_servers) 0 recursive_world) with
    | Ok p => answers p = [DnsRecord.A (str "www.test") (Ipv4 192 0 2 7) 300] | _ => False end)
    by (vm_compute; reflexivity).
  destruct (run _ _ _ _) as [r w']. destruct Ht as [H1 H2]. split; [exact H1|]. split; [exact H2|].
  exact Hr.
Defined.

(** A server of [evil] that refers a name of its zone to name servers of [bank]. *)
Definition evil_server : SocketAddr := MkSock (V4 (Ipv4 6 6 6 6)) 53.
Definition evil_referral : result := Eval vm_compute in to_result (encode
  (with_sections [] [DnsRecord.NS (str "evil") (str "ns.evil") 3600]
    [DnsRecord.A (str "ns.evil") (Ipv4 6 6 6 6) 3600] (glue_packet []))).
Definition bank_referral : result := Eval vm_compute in to_result (encode
  (with_sections [] [DnsRecord.NS (str "bank") (str "ns.bank") 3600]
    [DnsRecord.A (str "ns.bank") (Ipv4 6 6 6 6) 3600] (glue_packet []))).
Definition evil_servers (a : SocketAddr) (msg : bytes) : result :=
  if bool_decide (a = root_server) then evil_referral
  else if bool_decide (a = evil_server) then bank_referral else inl NoneValue.

(** A referral is taken for the zone it names, whoever sent it: a server of [evil] that refers
    [a.evil] to name servers of [bank] becomes the cached name server of [bank], from which
    every later name below it is then resolved. *)
Theorem referral_outside_the_zone :
  find_closest_ns 0 (cache recursive_ctx) (str "www.bank") [root_server] = Ok (str ".", [root_server]) ∧
  let '(_, w) := run (resolve_recursive iter_list keys_list (str "a.evil") QueryType.A
    (query 7 (str "a.evil") QueryType.A)) (sample_env evil_servers) 0 recursive_world in
  find_closest_ns 0 (cache (ctx w)) (str "www.bank") [root_server] = Ok (str "bank", [evil_server]).
Proof. split; vm_compute; reflexivity. Qed.
