(* ===== verification/Canon.v ===== *)
(** Signatures and canonical forms, [src/src/dnssec.rs]: key tags, the keys as the signature
    library takes them, DS digests, the canonical wire form of names and records, the data a
    signature is over and the window it is valid in. *)
From S2P Require Import Prelude Text Buffer Net Question Record.
Open Scope outcome_scope.

(** * What the code takes from outside

    The [ring] crate: verification of a signature (key, message, signature) and digests. *)
Class Crypto := MkCrypto {
  RSA_PKCS1_2048_8192_SHA256 : bytes → bytes → bytes → bool;
  ECDSA_P256_SHA256_FIXED : bytes → bytes → bytes → bool;
  ED25519 : bytes → bytes → bytes → bool;
  SHA1_FOR_LEGACY_USE_ONLY : bytes → bytes;
  SHA256 : bytes → bytes;
  SHA384 : bytes → bytes
}.

(** The system's clock: the nanoseconds since 1970 at an instant, negative before. *)
Class WallClock := unix_time : Z → Z.

(** [Iterator::any] and [map] followed by [collect], for closures that may panic. *)
Fixpoint any_of {A} (f : A → outcome bool) (l : list A) : outcome bool :=
  match l with
  | [] => Ok false
  | x :: l => let? b := f x in if b : bool then Ok true else any_of f l
  end.
Fixpoint map_all {A B} (f : A → outcome B) (l : list A) : outcome (list B) :=
  match l with
  | [] => Ok []
  | x :: l => let? y := f x in let? ys := map_all f l in Ok (y :: ys)
  end.

(** * Keys *)

(** The loop over the bytes of the RDATA: [even] is whether the index is. *)
Fixpoint sum_words (ac : Z) (even : bool) (rdata : bytes) : Z :=
  match rdata with
  | [] => ac
  | byte :: rdata =>
      sum_words (as_u32 (ac + if even then Z.shiftl byte 8 else byte)) (negb even) rdata
  end.
Definition key_rdata (flags protocol algorithm : Z) (public_key : bytes) : bytes :=
  [as_u8 (Z.shiftr flags 8); as_u8 (Z.land flags 255); protocol; algorithm] ++ public_key.
Definition compute_key_tag (flags protocol algorithm : Z) (public_key : bytes) : Z :=
  let ac := sum_words 0 true (key_rdata flags protocol algorithm public_key) in
  let ac := as_u32 (ac + Z.land (Z.shiftr ac 16) 0xFFFF) in
  as_u16 (Z.land ac 0xFFFF).

Definition asn1_length (n : Z) : bytes :=
  if n <? 128 then [as_u8 n]
  else if n <? 256 then [0x81; as_u8 n]
  else [0x82; as_u8 (Z.shiftr n 8); as_u8 (Z.land n 255)].
(** The bytes from the first that is not zero. *)
Fixpoint strip_zeros (l : bytes) : bytes :=
  match l with [] => [0] | b :: r => if b =? 0 then strip_zeros r else l end.
Definition asn1_integer (l : bytes) : bytes :=
  let stripped := strip_zeros l in
  let needs_pad := match stripped with b :: _ => negb (Z.land b 0x80 =? 0) | [] => false end in
  let n := len stripped + if needs_pad then 1 else 0 in
  [0x02] ++ asn1_length n ++ (if needs_pad then [0] else []) ++ stripped.

Definition slice_or_panic (l : bytes) (a b : Z) : outcome bytes :=
  match slice l a b with Some s => Ok s | None => Panic end.
Definition rsa_dnskey_to_der (public_key : bytes) : outcome bytes :=
  match public_key with
  | [] => none
  | b0 :: r =>
      let? (exp_len, exp_start) :=
        if b0 =? 0 then
          match r with b1 :: b2 :: _ => Ok (from_be16 b1 b2, 3) | _ => none end
        else Ok (b0, 1) in
      if len public_key <? exp_start + exp_len then none
      else
        let? exponent := slice_or_panic public_key exp_start (exp_start + exp_len) in
        let? modulus := slice_or_panic public_key (exp_start + exp_len) (len public_key) in
        if bool_decide (modulus = []) then none
        else
          let mod_der := asn1_integer modulus in
          let exp_der := asn1_integer exponent in
          Ok ([0x30] ++ asn1_length (len mod_der + len exp_der) ++ mod_der ++ exp_der)
  end.

(** * Names *)

(** The loop over the labels of a wire name, from index [i]. *)
Fixpoint lower_labels (fuel : nat) (wire : bytes) (i : Z) : outcome bytes :=
  match fuel with
  | O => OutOfFuel
  | S fuel =>
      match index wire i with
      | None => Ok wire
      | Some label_len =>
          if label_len =? 0 then Ok wire
          else
            let i := i + 1 in
            let end_ := i + label_len in
            let? label := slice_or_panic wire i end_ in
            lower_labels fuel
              (take (Z.to_nat i) wire ++ ascii_lower label ++ drop (Z.to_nat end_) wire) end_
      end
  end.
Definition name_to_wire (name : bytes) : outcome bytes :=
  match write_qname name Buffer.new with
  | (Ok _, b) => let? wire := filled b in lower_labels (S (length wire)) wire 0
  | (OutOfFuel, _) => OutOfFuel
  | (_, _) => Panic
  end.

(** * Records *)

Definition record_rdata_canonical (r : DnsRecord.t) : outcome bytes :=
  match r with
  | DnsRecord.A _ addr _ => Ok (octets addr)
  | DnsRecord.AAAA _ addr _ => Ok (flat_map be16 (segments addr))
  | DnsRecord.NS _ host _ | DnsRecord.CNAME _ host _ | DnsRecord.PTR _ host _ => name_to_wire host
  | DnsRecord.MX _ priority host _ => let? w := name_to_wire host in Ok (be16 priority ++ w)
  | DnsRecord.DNSKEY _ flags protocol algorithm public_key _ =>
      Ok (be16 flags ++ [protocol] ++ [algorithm] ++ public_key)
  | DnsRecord.DS _ key_tag algorithm digest_type digest _ =>
      Ok (be16 key_tag ++ [algorithm] ++ [digest_type] ++ digest)
  | DnsRecord.NSEC _ next_domain type_bitmap _ =>
      let? w := name_to_wire next_domain in Ok (w ++ type_bitmap)
  | DnsRecord.NSEC3 _ hash_algorithm flags iterations salt next_hashed_owner type_bitmap _ =>
      Ok ([hash_algorithm] ++ [flags] ++ be16 iterations ++ [as_u8 (len salt)] ++ salt
          ++ [as_u8 (len next_hashed_owner)] ++ next_hashed_owner ++ type_bitmap)
  | DnsRecord.SOA _ mname rname serial refresh retry expire minimum _ =>
      let? m := name_to_wire mname in
      let? n := name_to_wire rname in
      Ok (m ++ n ++ be32 serial ++ be32 refresh ++ be32 retry ++ be32 expire ++ be32 minimum)
  | DnsRecord.UNKNOWN _ _ data _ => Ok data
  | DnsRecord.RRSIG _ _ _ _ _ _ _ _ _ _ _ => Ok []
  end.

Definition record_to_canonical_wire (original_ttl : Z) (r : DnsRecord.t) : outcome bytes :=
  let? owner := name_to_wire (domain r) in
  let? rdata := record_rdata_canonical r in
  Ok (owner ++ be16 (to_num (query_type r)) ++ be16 1 ++ be32 original_ttl
      ++ be16 (as_u16 (len rdata)) ++ rdata).

Definition build_signed_data (rrsig : DnsRecord.t) (rrset : list DnsRecord.t) : outcome bytes :=
  match rrsig with
  | DnsRecord.RRSIG _ type_covered algorithm labels original_ttl expiration inception key_tag
      signer_name _ _ =>
      let? signer := name_to_wire signer_name in
      let? records := map_all (record_to_canonical_wire original_ttl) rrset in
      Ok (be16 type_covered ++ [algorithm] ++ [labels] ++ be32 original_ttl ++ be32 expiration
          ++ be32 inception ++ be16 key_tag ++ signer ++ concat (sort_strings records))
  | _ => Ok []
  end.

(** * The checks *)

Definition wrapping_sub32 (a b : Z) : Z := as_u32 (a - b).
Definition time_window (now expiration inception : Z) : bool :=
  let inception_ok := wrapping_sub32 now inception <? 2 ^ 31 in
  let expiration_ok := wrapping_sub32 expiration now <? 2 ^ 31 in
  (inception_ok || (inception <=? as_u32 (now + 300))) && expiration_ok.
Definition is_rrsig_time_valid `{WallClock} (now expiration inception : Z) : bool :=
  time_window (as_u32 (Z.max 0 (unix_time now) / 1000000000)) expiration inception.

Section checks.
Context `{Crypto}.

Definition verify_rsa_sha256 (public_key signed_data sig : bytes) : outcome bool :=
  match rsa_dnskey_to_der public_key with
  | Ok der => Ok (RSA_PKCS1_2048_8192_SHA256 der signed_data sig)
  | Err _ => Ok false
  | Panic => Panic
  | OutOfFuel => OutOfFuel
  end.
Definition verify_ecdsa_p256 (public_key signed_data sig : bytes) : bool :=
  if negb (len public_key =? 64) || negb (len sig =? 64) then false
  else ECDSA_P256_SHA256_FIXED (0x04 :: public_key) signed_data sig.
Definition verify_ed25519 (public_key signed_data sig : bytes) : bool :=
  if negb (len public_key =? 32) || negb (len sig =? 64) then false
  else ED25519 public_key signed_data sig.
Definition verify_signature (algorithm : Z) (public_key signed_data sig : bytes) : outcome bool :=
  match algorithm with
  | 8 => verify_rsa_sha256 public_key signed_data sig
  | 13 => Ok (verify_ecdsa_p256 public_key signed_data sig)
  | 15 => Ok (verify_ed25519 public_key signed_data sig)
  | _ => Ok false
  end.

Definition verify_ds (ds dnskey : DnsRecord.t) (owner : bytes) : outcome bool :=
  match ds, dnskey with
  | DnsRecord.DS _ ds_tag ds_algo digest_type digest _,
    DnsRecord.DNSKEY _ flags protocol dk_algo public_key _ =>
      if negb (compute_key_tag flags protocol dk_algo public_key =? ds_tag)
         || negb (dk_algo =? ds_algo) then Ok false
      else
        let? owner_wire := name_to_wire owner in
        let input := owner_wire ++ key_rdata flags protocol dk_algo public_key in
        Ok match digest_type with
           | 2 => bool_decide (SHA256 input = digest)
           | 4 => bool_decide (SHA384 input = digest)
           | _ => false
           end
  | _, _ => Ok false
  end.

Definition same_dnskey (a b : DnsRecord.t) : bool :=
  match a, b with
  | DnsRecord.DNSKEY _ _ _ aa ak _, DnsRecord.DNSKEY _ _ _ ba bk _ =>
      (aa =? ba) && bool_decide (ak = bk)
  | _, _ => false
  end.

Context `{WallClock}.

Definition rrsig_verified_by (now : Z) (rrsig dk : DnsRecord.t) (rrset : list DnsRecord.t)
    : outcome bool :=
  match rrsig, dk with
  | DnsRecord.RRSIG _ _ algorithm _ _ expiration inception key_tag _ signature _,
    DnsRecord.DNSKEY _ flags protocol dk_algo public_key _ =>
      if (dk_algo =? algorithm) && (compute_key_tag flags protocol dk_algo public_key =? key_tag)
         && is_rrsig_time_valid now expiration inception
      then
        let? data := build_signed_data rrsig rrset in
        verify_signature algorithm public_key data signature
      else Ok false
  | _, _ => Ok false
  end.

(** Is this record a signature over the type? *)
Definition covers_type (t : QueryType.t) (r : DnsRecord.t) : bool :=
  match r with
  | DnsRecord.RRSIG _ type_covered _ _ _ _ _ _ _ _ _ => bool_decide (from_num type_covered = t)
  | _ => false
  end.
Definition verify_rrset_signed (now : Z) (records : list DnsRecord.t) (rrset_type : QueryType.t)
    (signing_keys : list DnsRecord.t) : outcome bool :=
  let rrset := List.filter (λ r, bool_decide (query_type r = rrset_type)) records in
  if bool_decide (rrset = []) then Ok false
  else
    any_of (λ r,
      if covers_type rrset_type r then any_of (λ dk, rrsig_verified_by now r dk rrset) signing_keys
      else Ok false) records.
End checks.

(** * Canonical names *)

Definition or_panic {A} (o : option A) : outcome A := match o with Some a => Ok a | None => Panic end.

(** The canonical form of a name (RFC 4034, section 6.2): its labels in lower case, on the
    wire; the encoder has room for 4096 bytes. *)
Definition canonical_wire (s : bytes) : option bytes :=
  ls ← name_labels s;
  let w := wire_name (map ascii_lower ls) in
  if len w <=? BUF_SIZE then Some w else None.

Lemma len_wire_label l : len (wire_label l) = 1 + len l.
Proof. apply len_cons. Qed.
Lemma len_ascii_lower l : len (ascii_lower l) = len l.
Proof. apply len_map. Qed.
Lemma wire_label_lower l : wire_label (ascii_lower l) = len l :: ascii_lower l.
Proof. unfold wire_label. by rewrite len_ascii_lower. Qed.
Lemma len_wire_name_lower ls : len (wire_name (map ascii_lower ls)) = len (wire_name ls).
Proof.
  unfold wire_name. rewrite !len_app. f_equal. induction ls as [|l ls IH]; [done|].
  cbn [map flat_map]. by rewrite !len_app, IH, !len_wire_label, len_ascii_lower.
Qed.

Lemma lower_labels_spec ls : ∀ fuel pre, Forall label_ok ls → (length ls < fuel)%nat →
  lower_labels fuel (pre ++ wire_name ls) (len pre) = Ok (pre ++ wire_name (map ascii_lower ls)).
Proof.
  induction ls as [|l ls IH]; intros fuel pre Hok Hf; (destruct fuel as [|fuel]; [cbn in Hf; lia|]);
    cbn [lower_labels]; pose proof (len_nonneg pre).
  - rewrite (index_drop (pre ++ wire_name []) (len pre) 0 []); [done|lia|].
    rewrite to_nat_len, drop_app_length. done.
  - apply Forall_cons in Hok as [Hl Hls]. pose proof Hl as [Hl1 _].
    rewrite wire_name_cons.
    rewrite (index_drop _ (len pre) (len l) (l ++ wire_name ls));
      [|done|by rewrite to_nat_len, drop_app_length].
    destruct (Z.eqb_spec (len l) 0); [lia|].
    assert (Hsl : slice (pre ++ len l :: l ++ wire_name ls) (len pre + 1) (len pre + 1 + len l) = Some l).
    { rewrite slice_Some; [|lia..|len_lia].
      replace (len pre + 1 + len l - (len pre + 1)) with (len l) by lia.
      rewrite (cons_middle (len l) pre (l ++ _)), app_assoc, drop_app_length' by (rewrite length_app; cbn; unfold len; lia).
      by rewrite to_nat_len, take_app_length. }
    unfold slice_or_panic. rewrite Hsl. cbn [obind].
    replace (take (Z.to_nat (len pre + 1)) _) with (pre ++ [len l]).
    2: { rewrite (cons_middle (len l) pre (l ++ _)), app_assoc, take_app_length'; [done|].
         rewrite length_app. cbn. unfold len. lia. }
    replace (drop (Z.to_nat (len pre + 1 + len l)) _) with (wire_name ls).
    2: { replace (pre ++ len l :: l ++ wire_name ls) with ((pre ++ len l :: l) ++ wire_name ls)
           by (rewrite <- app_assoc; done).
         rewrite drop_app_length'; [done|]. rewrite length_app. cbn. unfold len. lia. }
    replace ((pre ++ [len l]) ++ ascii_lower l ++ wire_name ls)
      with ((pre ++ len l :: ascii_lower l) ++ wire_name ls) by (rewrite <- !app_assoc; done).
    replace (len pre + 1 + len l) with (len (pre ++ len l :: ascii_lower l)).
    2: { rewrite len_app, len_cons, len_ascii_lower. lia. }
    rewrite IH by (done || (cbn in Hf; lia)).
    cbn [map]. rewrite wire_name_cons, len_ascii_lower, <- app_assoc. done.
Qed.

Lemma filled_push_new w : len w ≤ BUF_SIZE → filled (push w Buffer.new) = Ok w.
Proof.
  intros Hw. unfold filled. pose proof (len_push w _ new_in_bounds) as Hl.
  specialize (Hl ltac:(cbn [pos Buffer.new]; lia)). pose proof (len_nonneg w).
  rewrite slice_Some; [|cbn [push pos Buffer.new]; lia..|rewrite Hl; cbn [push pos Buffer.new]; lia].
  pose proof (take_push w _ new_in_bounds ltac:(cbn [pos Buffer.new]; lia)) as Ht.
  rewrite Z.sub_0_r, drop_0, Ht. by rewrite take_0.
Qed.

Lemma name_to_wire_outcome s : name_to_wire s = or_panic (canonical_wire s).
Proof.
  unfold name_to_wire, canonical_wire. pose proof (write_qname_outcome s) as Hw.
  destruct (name_labels s) as [ls|] eqn:Hn; cbn [mbind option_bind].
  2: { destruct (Hw _ new_in_bounds) as (e & b & ->). done. }
  rewrite len_wire_name_lower. destruct (Hw _ new_in_bounds) as [Hok Hfull].
  change (pos Buffer.new) with 0 in *. rewrite Z.add_0_l in *.
  destruct (Z.leb_spec (len (wire_name ls)) BUF_SIZE).
  - rewrite Hok by done. rewrite filled_push_new by done. cbn [obind].
    apply (lower_labels_spec ls _ []); [by eapply name_labels_ok|].
    pose proof (wire_name_count ls). unfold len in *. lia.
  - destruct Hfull as (b & -> & _); [lia|done].
Qed.

Definition writable (s : bytes) : bool := match canonical_wire s with Some _ => true | None => false end.

Lemma name_wire_canon s ls : all_bytes s → name_labels s = Some ls →
  name_labels (canon_name s) = Some (map ascii_lower ls).
Proof.
  intros Hs Hn. unfold canon_name. rewrite Hn.
  apply name_labels_text; [by eapply name_labels_ok|by eapply name_labels_bytes].
Qed.
Lemma map_lower_idem ls : map ascii_lower (map ascii_lower ls) = map ascii_lower ls.
Proof.
  rewrite map_map. apply map_ext. intros l. unfold ascii_lower. rewrite map_map. apply map_ext.
  apply to_ascii_lowercase_idem.
Qed.
Lemma canonical_wire_canon s : all_bytes s → canonical_wire (canon_name s) = canonical_wire s.
Proof.
  intros Hs. unfold canonical_wire. destruct (name_labels s) as [ls|] eqn:Hn.
  - rewrite (name_wire_canon s ls) by done. cbn [mbind option_bind]. by rewrite map_lower_idem.
  - unfold canon_name. by rewrite Hn, ?Hn.
Qed.
(** Encoding a name gives the wire image of its normal form, or panics. *)
Lemma name_to_wire_cases s : all_bytes s →
  (∃ w, name_to_wire s = Ok w ∧ name_wire (canon_name s) = Some w ∧ writable s = true) ∨
  (name_to_wire s = Panic ∧ writable s = false).
Proof.
  intros Hs. rewrite name_to_wire_outcome. unfold writable.
  destruct (canonical_wire s) as [w|] eqn:Hw; [left|by right]. exists w.
  split; [done|]. split; [|done]. unfold canonical_wire in Hw. unfold name_wire.
  destruct (name_labels s) as [ls|] eqn:Hn; [|done]. rewrite (name_wire_canon s ls) by done.
  cbn [mbind option_bind] in Hw. destruct (_ <=? _); [|done]. by injection Hw as <-.
Qed.

(** * Canonical records *)

Definition is_rrsig (r : DnsRecord.t) : bool :=
  match r with DnsRecord.RRSIG _ _ _ _ _ _ _ _ _ _ _ => true | _ => false end.
(** The names that the canonical form of a record encodes. *)
Definition names (r : DnsRecord.t) : list bytes :=
  domain r :: match r with
    | DnsRecord.NS _ host _ | DnsRecord.CNAME _ host _ | DnsRecord.PTR _ host _
    | DnsRecord.MX _ _ host _ => [host]
    | DnsRecord.SOA _ mname rname _ _ _ _ _ _ => [mname; rname]
    | DnsRecord.NSEC _ next_domain _ _ => [next_domain]
    | _ => []
    end.
Definition writable_record (r : DnsRecord.t) : bool := forallb writable (names r).
(** The record a signature is over: names in normal form, the original TTL. *)
Definition signed_form (t : Z) (r : DnsRecord.t) : DnsRecord.t := canon_record (set_ttl t r).

Lemma names_bytes r : record_ok r → Forall all_bytes (names r).
Proof. intros (Hd & _ & Hr). constructor; [done|]. destruct r; repeat constructor; apply Hr || done. Qed.

Lemma record_canonical t r : record_ok r → is_rrsig r = false →
  record_to_canonical_wire t r =
  if writable_record r then or_panic (record_wire (signed_form t r)) else Panic.
Proof.
  intros Hr Hs. pose proof (names_bytes r Hr) as Hn. unfold record_to_canonical_wire, writable_record.
  pose proof (Forall_inv Hn) as Hd. apply Forall_inv_tail in Hn.
  destruct (name_to_wire_cases _ Hd) as [(w & -> & Hw & Hwr)|[-> Hwr]];
    unfold names; cbn [forallb]; rewrite Hwr; [|done]. clear Hd Hwr. cbn [obind andb].
  destruct r; try discriminate; cbn [record_rdata_canonical obind];
    repeat match goal with
    | H : Forall all_bytes (?n :: ?l) |- _ =>
        apply Forall_cons in H as [? H];
        destruct (name_to_wire_cases n ltac:(done)) as [(? & -> & ? & Hwr)|[-> Hwr]]; cbn [forallb obind];
        rewrite Hwr; clear Hwr; cbn [andb obind]; [|done]
    end.
  all: cbn [forallb andb]; try done.
  all: unfold signed_form, record_wire, rr_header_wire, type_num;
    cbn [set_ttl canon_record Record.domain query_type Record.ttl rdata_wire] in *;
    repeat match goal with H : name_wire _ = Some _ |- _ => rewrite H; clear H end.
  all: unfold or_panic, prefixed, cat; cbn [mbind option_bind].
  all: rewrite <- ?app_assoc, ?app_nil_r; try done.
Qed.

(** * Signed data *)

#[export] Instance lex_le_antisymm : AntiSymm (=) lex_le.
Proof.
  intros a. unfold lex_le. induction a as [|x a IH]; intros [|y b]; cbn; try done.
  destruct (Z.ltb_spec x y), (Z.ltb_spec y x), (Z.eqb_spec x y), (Z.eqb_spec y x); try lia; cbn; try done.
  intros Hab Hba. f_equal; [done|by apply IH].
Qed.
Lemma sort_strings_unique l k : l ≡ₚ k → sort_strings l = sort_strings k.
Proof.
  intros Hp. apply (StronglySorted_unique lex_le); [apply sort_strings_sorted..|].
  by rewrite !sort_strings_perm.
Qed.

(** A map over calls that return or panic is one over options. *)
Lemma map_all_or_panic {A B} (f : A → outcome B) (g : A → option B) l :
  Forall (λ x, f x = or_panic (g x)) l → map_all f l = or_panic (mapM g l).
Proof.
  induction 1 as [|x l Hx Hl IH]; [done|]. cbn. rewrite Hx. destruct (g x); [|done]. cbn.
  rewrite IH. by destruct (mapM g l).
Qed.
Lemma mapM_perm {A B} (g : A → option B) l k : l ≡ₚ k →
  match mapM g l, mapM g k with
  | Some u, Some v => u ≡ₚ v
  | None, None => True
  | _, _ => False
  end.
Proof.
  induction 1 as [|x l k Hp IH|x y l|l k m Hp IH1 Hq IH2]; cbn.
  - done.
  - destruct (g x); [|done]. cbn. destruct (mapM g l), (mapM g k); try done. by constructor.
  - destruct (g x), (g y); cbn; try done; destruct (mapM g l); try done. constructor.
  - destruct (mapM g l), (mapM g k), (mapM g m); try done. by etrans.
Qed.

(** The image of a record in the signed data, if its names can be encoded. *)
Definition signed_image (t : Z) (r : DnsRecord.t) : option bytes :=
  if writable_record r then record_wire (signed_form t r) else None.
(** The part of a signature record that is signed. *)
Definition signature_prefix (rrsig : DnsRecord.t) : option bytes :=
  match rrsig with
  | DnsRecord.RRSIG _ type_covered algorithm labels original_ttl expiration inception key_tag
      signer_name _ _ =>
      signer ← canonical_wire signer_name;
      Some (be16 type_covered ++ [algorithm] ++ [labels] ++ be32 original_ttl ++ be32 expiration
            ++ be32 inception ++ be16 key_tag ++ signer)
  | _ => None
  end.
Definition original_ttl (rrsig : DnsRecord.t) : Z :=
  match rrsig with DnsRecord.RRSIG _ _ _ _ t _ _ _ _ _ _ => t | _ => 0 end.

Lemma signed_data_image rrsig rrset : is_rrsig rrsig = true →
  Forall (λ r, record_ok r ∧ is_rrsig r = false) rrset →
  build_signed_data rrsig rrset =
  or_panic (p ← signature_prefix rrsig; ws ← mapM (signed_image (original_ttl rrsig)) rrset;
            Some (p ++ concat (sort_strings ws))).
Proof.
  intros Hs Hr. destruct rrsig; try discriminate. cbn [build_signed_data signature_prefix original_ttl].
  rewrite name_to_wire_outcome. destruct (canonical_wire signer_name); [|done]. cbn [or_panic obind].
  rewrite (map_all_or_panic _ (signed_image original_ttl0)).
  - cbn [mbind option_bind]. destruct (mapM _ rrset); [|done]. cbn. by rewrite <- ?app_assoc.
  - eapply Forall_impl; [exact Hr|]. intros r [Hok Hf]. cbn. rewrite record_canonical by done.
    unfold signed_image. by destruct (writable_record r).
Qed.

Lemma canon_record_ok t r : is_u32 t → record_ok r → record_ok (signed_form t r).
Proof.
  intros Ht (Hd & _ & Hr).
  assert (Hc : ∀ s, all_bytes s → all_bytes (canon_name s)).
  { intros s Hs. unfold canon_name. destruct (name_labels s) as [ls|] eqn:Hn; [|done].
    apply name_text_bytes. by eapply name_labels_bytes. }
  destruct r; cbn in *; (split; [by apply Hc|]); (split; [done|]); cbn in *; naive_solver.
Qed.
Lemma writable_signed_form t r : record_ok r → writable_record (signed_form t r) = writable_record r.
Proof.
  intros Hr. pose proof (names_bytes r Hr) as Hn. unfold writable_record, writable.
  assert (Hm : is_rrsig r = true ∨ names (signed_form t r) = map canon_name (names r))
    by (destruct r; by (left + right)).
  destruct Hm as [Hm|Hm].
  - destruct r; try discriminate. apply Forall_inv in Hn. cbn [Record.domain] in Hn.
    unfold signed_form, names. cbn [set_ttl canon_record Record.domain forallb]. by rewrite canonical_wire_canon.
  - rewrite Hm. clear Hm. induction Hn as [|s l Hs Hl IH]; [done|].
    cbn [map forallb]. by rewrite canonical_wire_canon, IH.
Qed.

Lemma signed_form_idem t r : record_ok r → signed_form t (signed_form t r) = signed_form t r.
Proof.
  intros Hr. pose proof (names_bytes r Hr) as Hn. destruct Hr as (Hd & _ & Hr).
  destruct r; unfold names in Hn; cbn in *; unfold signed_form; cbn;
    repeat match goal with H : Forall _ (_ :: _) |- _ => apply Forall_cons in H as [? H] end;
    rewrite ?canon_name_idem by (done || apply Hr); done.
Qed.
(** The same set of records: in any order, whatever the remaining TTLs, and whatever letter
    case and escapes the texts of their names use. *)
Definition same_rrset (t : Z) (l k : list DnsRecord.t) : Prop :=
  map (signed_form t) l ≡ₚ map (signed_form t) k.
Lemma images_form t l : Forall record_ok l → is_u32 t →
  mapM (signed_image t) l =
  mapM (λ r, if writable_record r then record_wire r else None) (map (signed_form t) l).
Proof.
  intros Hl Ht. induction Hl as [|r l Hr Hl IH]; [done|]. cbn [mapM map].
  rewrite writable_signed_form by done. by rewrite IH.
Qed.

Lemma mapM_Some_forall {A B} (p : A → bool) (f : A → option B) l v :
  mapM (λ x, if p x then f x else None) l = Some v → mapM f l = Some v.
Proof.
  revert v. induction l as [|x l IH]; intros v; cbn; [done|]. destruct (p x); [|done].
  destruct (f x); [|done]. cbn. destruct (mapM _ l) eqn:E; [|done]. by rewrite (IH _ eq_refl).
Qed.

(** C24: the data a signature is checked over is canonical. It is the signature's own fields
    followed by the wire images of the records, names in normal form and with the original
    TTL, sorted as byte strings; so the order in which a server sends the records, their
    remaining TTLs, letter case and escapes make no difference. Building it panics when, and
    only when, a name in it cannot be encoded. *)
Theorem signed_data_canonical (rrsig : DnsRecord.t) (l k : list DnsRecord.t) :
  is_rrsig rrsig = true → record_ok rrsig →
  Forall (λ r, record_ok r ∧ is_rrsig r = false) l →
  Forall (λ r, record_ok r ∧ is_rrsig r = false) k →
  same_rrset (original_ttl rrsig) l k →
  build_signed_data rrsig l = build_signed_data rrsig k ∧
  match build_signed_data rrsig l with
  | Ok d => ∃ p ws vs, signature_prefix rrsig = Some p ∧ d = p ++ concat ws ∧
      StronglySorted lex_le ws ∧ ws ≡ₚ vs ∧
      mapM (λ r, record_wire (signed_form (original_ttl rrsig) r)) l = Some vs
  | Panic => signature_prefix rrsig = None ∨ mapM (signed_image (original_ttl rrsig)) l = None
  | _ => False
  end.
Proof.
  intros Hs Ho Hl Hk Hsame. rewrite !signed_data_image by done.
  assert (Ht : is_u32 (original_ttl rrsig)) by (destruct rrsig; try discriminate; apply Ho).
  assert (Hok : ∀ l, Forall (λ r, record_ok r ∧ is_rrsig r = false) l → Forall record_ok l)
    by (intros m Hm; eapply Forall_impl; [exact Hm|]; by intros r []).
  set (t := original_ttl rrsig) in *.
  assert (Hp : match mapM (signed_image t) l, mapM (signed_image t) k with
    | Some u, Some v => u ≡ₚ v | None, None => True | _, _ => False end).
  { rewrite !images_form by auto. by apply mapM_perm. }
  destruct (signature_prefix rrsig) as [p|]; cbn [mbind option_bind or_panic]; [|by auto].
  destruct (mapM (signed_image t) l) as [u|] eqn:Hu, (mapM (signed_image t) k) as [v|]; try done;
    cbn [mbind option_bind or_panic]; [|by auto].
  split; [by rewrite (sort_strings_unique u v)|]. exists p, (sort_strings u), u.
  split; [done|]. split; [done|]. split; [apply sort_strings_sorted|].
  split; [apply sort_strings_perm|]. by eapply mapM_Some_forall.
Qed.
Definition sample_rrsig : DnsRecord.t := DnsRecord.RRSIG (str "www") 1 15 1 300 9 8 7 (str "www") [] 300.
Definition sample_rrset : list DnsRecord.t :=
  [DnsRecord.A (str "WWW") (Ipv4 192 0 2 9) 17; DnsRecord.A (str "www") (Ipv4 192 0 2 1) 300].
Definition sample_rrset' : list DnsRecord.t :=
  [DnsRecord.A (str "www") (Ipv4 192 0 2 1) 5; DnsRecord.A (str "w\119w") (Ipv4 192 0 2 9) 6].
Lemma signed_data_canonical_witness :
  build_signed_data sample_rrsig sample_rrset = build_signed_data sample_rrsig sample_rrset' ∧
  match build_signed_data sample_rrsig sample_rrset with Ok d => len d = 61 | _ => False end.
Proof.
  destruct (signed_data_canonical sample_rrsig sample_rrset sample_rrset') as [He _];
    [reflexivity| | | | |split; [exact He|vm_compute; reflexivity]].
  - apply (bool_decide_unpack _). vm_compute. exact I.
  - apply (bool_decide_unpack _). vm_compute. exact I.
  - apply (bool_decide_unpack _). vm_compute. exact I.
  - unfold same_rrset. vm_compute. apply Permutation_swap.
Defined.

(** * Key tags *)

(** The sum of the 16-bit words of the RDATA (RFC 4034, appendix B), exactly. *)
Fixpoint word_sum (l : bytes) : Z :=
  match l with
  | [] => 0
  | [a] => a * 256
  | a :: b :: l => a * 256 + b + word_sum l
  end.

Lemma two_step_ind {A} (P : list A → Prop) :
  P [] → (∀ a, P [a]) → (∀ a b l, P l → P (a :: b :: l)) → ∀ l, P l.
Proof.
  intros H0 H1 H2 l. assert (P l ∧ ∀ a, P (a :: l)) as []; [|done].
  induction l as [|b l [IH1 IH2]]; [by split|]. split; [done|]. intros a. by apply H2.
Qed.
Lemma word_sum_bound l : all_bytes l → 0 ≤ word_sum l ≤ (len l + 1) * 32768.
Proof.
  intros Hl. revert Hl. induction l as [|a|a b l IH] using two_step_ind; intros Hl.
  - done.
  - apply Forall_inv in Hl. unfold is_byte in Hl. cbn [word_sum]. unfold len. cbn [length]. lia.
  - apply Forall_cons in Hl as [Ha Hl]. apply Forall_cons in Hl as [Hb Hl].
    specialize (IH Hl). unfold is_byte in *. cbn [word_sum]. rewrite !len_cons. lia.
Qed.
Lemma sum_words_exact l : ∀ ac, all_bytes l → 0 ≤ ac → ac + (len l + 1) * 32768 < 2 ^ 32 →
  sum_words ac true l = ac + word_sum l.
Proof.
  induction l as [|a|a b l IH] using two_step_ind; intros ac Hl Hac Hb.
  - cbn. lia.
  - apply Forall_inv in Hl. unfold is_byte in Hl. cbn [sum_words word_sum].
    rewrite Z.shiftl_mul_pow2 by lia. unfold len in Hb. cbn [length] in Hb.
    unfold as_u32. rewrite Z.mod_small; lia.
  - pose proof (word_sum_bound _ Hl) as Hw.
    apply Forall_cons in Hl as [Ha Hl]. apply Forall_cons in Hl as [Hb' Hl].
    unfold is_byte in *. cbn [sum_words word_sum negb] in *. rewrite !len_cons in Hb, Hw.
    pose proof (len_nonneg l). rewrite Z.shiftl_mul_pow2 by lia. change (2 ^ 8) with 256.
    unfold as_u32. rewrite (Z.mod_small (ac + a * 256)) by lia. rewrite Z.mod_small by lia.
    rewrite IH by (done || lia). lia.
Qed.

(** A key tag is the 16-bit sum of RFC 4034: the words of the DNSKEY's RDATA added up, the
    carries above 16 bits added once, and the low 16 bits taken. For every key a message can
    carry, the 32-bit accumulator of the loop never wraps, and the tag is a 16-bit number. *)
Theorem key_tag_exact (flags protocol algorithm : Z) (public_key : bytes) :
  is_u16 flags → is_byte protocol → is_byte algorithm → all_bytes public_key →
  len public_key < 2 ^ 16 →
  let words := word_sum (be16 flags ++ [protocol; algorithm] ++ public_key) in
  0 ≤ words ∧ words + words / 2 ^ 16 < 2 ^ 32 ∧
  compute_key_tag flags protocol algorithm public_key = (words + words / 2 ^ 16) mod 2 ^ 16 ∧
  is_u16 (compute_key_tag flags protocol algorithm public_key).
Proof.
  intros Hf Hp Ha Hk Hl words.
  assert (Hr : key_rdata flags protocol algorithm public_key = be16 flags ++ [protocol; algorithm] ++ public_key).
  { unfold key_rdata, be16. rewrite (as_u8_small (Z.land _ _)) by apply land_255_byte. done. }
  assert (Hb : all_bytes (be16 flags ++ [protocol; algorithm] ++ public_key))
    by (unfold be16; cbn [app]; do 4 (apply Forall_cons_2; [by auto with numa|]); done).
  pose proof (word_sum_bound _ Hb) as Hw. fold words in Hw.
  rewrite !len_app in Hw. change (len (be16 flags)) with 2 in Hw. change (len [protocol; algorithm]) with 2 in Hw.
  assert (Hq : 0 ≤ words / 2 ^ 16 < 2 ^ 16) by div_lia.
  split; [lia|]. split; [lia|].
  assert (Ht : compute_key_tag flags protocol algorithm public_key = (words + words / 2 ^ 16) mod 2 ^ 16).
  2: { split; [done|]. rewrite Ht. unfold is_u16. apply Z.mod_pos_bound. lia. }
  unfold compute_key_tag. rewrite Hr, sum_words_exact; [|done|done|].
  2: { rewrite !len_app. change (len (be16 flags)) with 2. change (len [protocol; algorithm]) with 2. lia. }
  rewrite Z.add_0_l. fold words. rewrite Z.shiftr_div_pow2 by lia.
  change 0xFFFF with (Z.ones 16). rewrite !Z.land_ones by lia.
  rewrite (Z.mod_small (words / 2 ^ 16)) by done. unfold as_u16, as_u32.
  rewrite Z.mod_mod by lia. rewrite (Z.mod_small _ (2 ^ 32)) by lia. done.
Qed.
Lemma key_tag_exact_witness :
  is_u16 257 ∧ compute_key_tag 257 3 8 [1; 2; 3] = (word_sum [1; 1; 3; 8; 1; 2; 3]) mod 2 ^ 16.
Proof.
  destruct (key_tag_exact 257 3 8 [1; 2; 3]) as (_ & _ & -> & _);
    [by unfold is_u16|by unfold is_byte|by unfold is_byte|
     apply (bool_decide_unpack _); vm_compute; exact I|done|]. by split.
Defined.

(** * RSA keys in DER

    A reader of the subset of DER that a PKCS#1 public key uses: lengths in one to three
    bytes, and integers that are not negative and take no more bytes than they need. *)
Definition der_length (l : bytes) : option (Z * bytes) :=
  match l with
  | 0x81 :: a :: r => Some (a, r)
  | 0x82 :: a :: b :: r => Some (a * 256 + b, r)
  | n :: r => if n <? 128 then Some (n, r) else None
  | [] => None
  end.
Definition der_value (tag : Z) (l : bytes) : option (bytes * bytes) :=
  match l with
  | t :: r =>
      if t =? tag then
        '(n, r) ← der_length r;
        if n <=? len r then Some (take (Z.to_nat n) r, drop (Z.to_nat n) r) else None
      else None
  | [] => None
  end.
Definition be_value (l : bytes) : Z := fold_left (λ acc b, acc * 256 + b) l 0.
Definition der_uint (l : bytes) : option Z :=
  match l with
  | [] => None
  | a :: r =>
      if 128 <=? a then None
      else if (a =? 0) && match r with b :: _ => b <? 128 | [] => false end then None
      else Some (be_value l)
  end.
Definition der_public_key (l : bytes) : option (Z * Z) :=
  '(c, r) ← der_value 0x30 l;
  '(m, c) ← der_value 0x02 c;
  '(e, c) ← der_value 0x02 c;
  n ← der_uint m; x ← der_uint e;
  match r, c with [], [] => Some (n, x) | _, _ => None end.

(** RFC 3110: the exponent's length in one byte, or in two after a zero; the exponent; the
    modulus, which is not empty. *)
Definition split_key (n : Z) (r : bytes) : option (bytes * bytes) :=
  if len r <=? n then None else Some (take (Z.to_nat n) r, drop (Z.to_nat n) r).
Definition rfc3110 (key : bytes) : option (bytes * bytes) :=
  match key with
  | [] => None
  | 0 :: r => match r with a :: b :: r => split_key (a * 256 + b) r | _ => None end
  | n :: r => split_key n r
  end.

Lemma der_length_asn1 n r : 0 ≤ n < 2 ^ 16 → der_length (asn1_length n ++ r) = Some (n, r).
Proof.
  intros Hn. unfold asn1_length. destruct (Z.ltb_spec n 128).
  - rewrite as_u8_small by (unfold is_byte; lia). cbn [app].
    assert (n ≠ 0x81 ∧ n ≠ 0x82) as [H1 H2] by lia.
    unfold der_length. destruct (Z.ltb_spec n 128) as [_|]; [|lia].
    repeat case_match; try lia; congruence.
  - destruct (Z.ltb_spec n 256).
    + rewrite as_u8_small by (unfold is_byte; lia). done.
    + cbn [app der_length]. rewrite land_255, Z.shiftr_div_pow2 by lia. unfold as_u8.
      rewrite (Z.mod_small (n / 2 ^ 8)) by div_lia. do 2 f_equal. div_lia.
Qed.
Lemma der_value_app tag c r : len c < 2 ^ 16 →
  der_value tag (tag :: asn1_length (len c) ++ c ++ r) = Some (c, r).
Proof.
  intros Hc. unfold der_value. rewrite Z.eqb_refl. pose proof (len_nonneg c).
  rewrite der_length_asn1 by lia. cbn [mbind option_bind].
  destruct (Z.leb_spec (len c) (len (c ++ r))); [|len_lia].
  by rewrite to_nat_len, take_app_length, drop_app_length.
Qed.
Lemma der_value_end tag c : len c < 2 ^ 16 →
  der_value tag (tag :: asn1_length (len c) ++ c) = Some (c, []).
Proof. intros Hc. rewrite <- (app_nil_r (asn1_length _ ++ _)), <- app_assoc. by apply der_value_app. Qed.

Lemma strip_zeros_value l : be_value (strip_zeros l) = be_value l.
Proof.
  induction l as [|b l IH]; [done|]. cbn [strip_zeros]. destruct (Z.eqb_spec b 0) as [->|]; [|done].
  by rewrite IH.
Qed.
Lemma strip_zeros_bytes l : all_bytes l → all_bytes (strip_zeros l).
Proof.
  induction 1 as [|b l Hb Hl IH]; cbn; [by repeat constructor|]. destruct (b =? 0); [done|by constructor].
Qed.
Lemma strip_zeros_len l : 1 ≤ len (strip_zeros l) ≤ len l + 1.
Proof.
  induction l as [|b l IH]; cbn [strip_zeros]; [done|].
  destruct (b =? 0); rewrite !len_cons; pose proof (len_nonneg l); lia.
Qed.
Lemma strip_zeros_head l : strip_zeros l = [0] ∨ ∃ b r, strip_zeros l = b :: r ∧ b ≠ 0.
Proof.
  induction l as [|b l IH]; cbn; [by left|]. destruct (Z.eqb_spec b 0); [done|]. right. eauto.
Qed.
Lemma land_128 b : is_byte b → (Z.land b 0x80 =? 0) = (b <? 128).
Proof.
  intros Hb. unfold is_byte in Hb. change (Z.land b 0x80) with (Z.land b (2 ^ 7)).
  destruct (Z.ltb_spec b 128) as [Hlt|Hge].
  - apply Z.eqb_eq, Z.bits_inj'. intros i Hi.
    rewrite Z.land_spec, Z.pow2_bits_eqb, Z.bits_0 by lia.
    destruct (Z.eqb_spec 7 i) as [<-|]; [|apply andb_false_r].
    by rewrite (testbit_small b 7 7) by lia.
  - apply Z.eqb_neq. intros Hz. apply (f_equal (λ z, Z.testbit z 7)) in Hz.
    rewrite Z.land_spec, Z.pow2_bits_eqb, Z.bits_0, Z.eqb_refl, andb_true_r in Hz by lia.
    replace b with (Z.lor (Z.shiftl 1 7) (b - 128)) in Hz.
    + rewrite Z.lor_spec, Z.shiftl_spec in Hz by lia. done.
    + rewrite lor_shiftl_add by lia. lia.
Qed.
(** An integer as the code writes it is read back. *)
Lemma asn1_integer_value l : all_bytes l → len l < 2 ^ 16 - 2 →
  ∃ c, asn1_integer l = 0x02 :: asn1_length (len c) ++ c ∧ len c ≤ len l + 2 ∧
    der_uint c = Some (be_value l).
Proof.
  intros Hl Hlen. unfold asn1_integer. pose proof (strip_zeros_len l) as Hn.
  pose proof (strip_zeros_bytes l Hl) as Hb. rewrite <- (strip_zeros_value l).
  destruct (strip_zeros_head l) as [->|(b & r & Hr & Hne)]; [exists [0]; split_and!; try done; len_lia|].
  rewrite Hr in *. pose proof (Forall_inv Hb) as Hbb. rewrite land_128 by done.
  unfold is_byte in Hbb.
  destruct (Z.ltb_spec b 128) as [Hlt|Hge]; cbn [negb app].
  - exists (b :: r). rewrite Z.add_0_r. split; [done|]. split; [lia|]. unfold der_uint.
    destruct (Z.leb_spec 128 b); [lia|]. by destruct (Z.eqb_spec b 0).
  - exists (0 :: b :: r). rewrite (len_cons 0), Z.add_comm. split; [done|]. split; [lia|].
    unfold der_uint. cbn [Z.leb andb]. by destruct (Z.ltb_spec b 128); [lia|].
Qed.

Lemma split_key_slices pre n r : 0 ≤ n →
  (if len (pre ++ r) <? len pre + n then none
   else
     (let? e := slice_or_panic (pre ++ r) (len pre) (len pre + n) in
      let? m := slice_or_panic (pre ++ r) (len pre + n) (len (pre ++ r)) in
      if bool_decide (m = []) then none
      else
        let mod_der := asn1_integer m in
        let exp_der := asn1_integer e in
        Ok ([0x30] ++ asn1_length (len mod_der + len exp_der) ++ mod_der ++ exp_der))) =
  match split_key n r with
  | None => none
  | Some (e, m) =>
      Ok ([0x30] ++ asn1_length (len (asn1_integer m) + len (asn1_integer e)) ++ asn1_integer m ++ asn1_integer e)
  end.
Proof.
  intros Hn. unfold split_key. rewrite len_app. pose proof (len_nonneg pre). pose proof (len_nonneg r).
  destruct (Z.ltb_spec (len pre + len r) (len pre + n)); destruct (Z.leb_spec (len r) n); try done; try lia.
  - unfold slice_or_panic. rewrite !slice_Some by (rewrite ?len_app; lia). cbn [obind].
    replace (len pre + len r - (len pre + n)) with 0 by lia. done.
  - unfold slice_or_panic. rewrite !slice_Some by (rewrite ?len_app; lia). cbn [obind].
    replace (len pre + n - len pre) with n by lia.
    rewrite to_nat_len, drop_app_length.
    replace (Z.to_nat (len pre + n)) with (length pre + Z.to_nat n)%nat by (unfold len; lia).
    rewrite <- drop_drop, drop_app_length.
    rewrite (take_ge (drop (Z.to_nat n) r)) by (rewrite length_drop; unfold len in *; lia).
    rewrite bool_decide_eq_false_2; [done|]. intros Hd%(f_equal length).
    rewrite length_drop in Hd. cbn in Hd. unfold len in *. lia.
Qed.

Lemma key_der_read m e : all_bytes m → all_bytes e → len m + len e < 2 ^ 15 →
  der_public_key ([0x30] ++ asn1_length (len (asn1_integer m) + len (asn1_integer e))
                  ++ asn1_integer m ++ asn1_integer e) = Some (be_value m, be_value e).
Proof.
  intros Hm He Hl. pose proof (len_nonneg m). pose proof (len_nonneg e).
  destruct (asn1_integer_value m Hm) as (cm & -> & Hml & Hmv); [lia|].
  destruct (asn1_integer_value e He) as (ce & -> & Hel & Hev); [lia|].
  assert (Hal : ∀ x, len (asn1_length x) ≤ 3) by (intros x; unfold asn1_length; by repeat case_if).
  pose proof (Hal (len cm)). pose proof (Hal (len ce)).
  rewrite <- len_app. unfold der_public_key.
  cbn [app]. rewrite der_value_end by len_lia. cbn [mbind option_bind].
  rewrite <- app_assoc. rewrite der_value_app by lia. cbn [mbind option_bind].
  rewrite der_value_end by lia. cbn [mbind option_bind].
  by rewrite Hmv, Hev.
Qed.

(** An RSA key of a DNSKEY record is handed to the signature library as what it is: the
    DER encoding reads back, by a strict reader, as the modulus and exponent that RFC 3110 puts
    in the record, nothing left over; and it is refused exactly when the record is too short
    for its own length field or has no modulus. No slice of the key is out of range. *)
Theorem rsa_key_der (key : bytes) : all_bytes key → len key < 2 ^ 15 →
  match rfc3110 key with
  | Some (exponent, modulus) =>
      ∃ der, rsa_dnskey_to_der key = Ok der ∧
        der_public_key der = Some (be_value modulus, be_value exponent)
  | None => rsa_dnskey_to_der key = none
  end.
Proof.
  intros Hk Hl.
  assert (Hs : ∀ pre n r, key = pre ++ r → 0 ≤ n →
    rsa_dnskey_to_der key =
      match split_key n r with
      | None => none
      | Some (e, m) => Ok ([0x30] ++ asn1_length (len (asn1_integer m) + len (asn1_integer e))
                           ++ asn1_integer m ++ asn1_integer e)
      end →
    match split_key n r with
    | Some (e, m) => ∃ der, rsa_dnskey_to_der key = Ok der ∧
        der_public_key der = Some (be_value m, be_value e)
    | None => rsa_dnskey_to_der key = none
    end).
  { intros pre n r -> Hn Hd. unfold split_key in *. destruct (Z.leb_spec (len r) n); [done|].
    eexists. split; [exact Hd|]. apply Forall_app in Hk as [_ Hr]. rewrite len_app in Hl.
    pose proof (len_nonneg pre).
    apply key_der_read; [by apply Forall_drop|by apply Forall_take|].
    rewrite len_drop, len_take by lia. lia. }
  destruct key as [|b0 r]; [done|]. apply Forall_cons in Hk as [Hb0 Hr].
  unfold rfc3110. destruct (Z.eq_dec b0 0) as [->|Hne].
  - destruct r as [|b1 [|b2 r]]; [done..|].
    apply Forall_cons in Hr as [Hb1 Hr]. apply Forall_cons in Hr as [Hb2 Hr].
    apply (Hs [0; b1; b2]); [done|unfold is_byte in *; lia|].
    unfold rsa_dnskey_to_der. cbn [Z.eqb obind].
    unfold from_be16. rewrite lor_shiftl_add by (unfold is_byte in *; lia). change (2 ^ 8) with 256.
    apply (split_key_slices [0; b1; b2]). unfold is_byte in *. lia.
  - assert (H0 : match b0 with 0 => match r with a :: b :: r => split_key (a * 256 + b) r | _ => None end
                 | _ => split_key b0 r end = split_key b0 r) by (by destruct b0).
    rewrite H0. clear H0. unfold is_byte in Hb0. apply (Hs [b0]); [done|lia|].
    unfold rsa_dnskey_to_der. destruct (Z.eqb_spec b0 0); [done|]. cbn [obind].
    apply (split_key_slices [b0]). lia.
Qed.
Lemma rsa_key_der_witness : all_bytes [1; 3; 0; 200; 5] ∧
  rfc3110 [1; 3; 0; 200; 5] = Some ([3], [0; 200; 5]) ∧
  ∃ der, rsa_dnskey_to_der [1; 3; 0; 200; 5] = Ok der ∧
    der_public_key der = Some (200 * 256 + 5, 3).
Proof.
  assert (Hb : all_bytes [1; 3; 0; 200; 5]) by (apply (bool_decide_unpack _); vm_compute; exact I).
  split; [exact Hb|]. split; [reflexivity|]. exact (rsa_key_der [1; 3; 0; 200; 5] Hb eq_refl).
Defined.

(** * The validity window *)

Lemma wrapping_sub32_serial a b : - 2 ^ 31 ≤ a - b < 2 ^ 31 →
  (wrapping_sub32 (as_u32 a) (as_u32 b) <? 2 ^ 31) = (b <=? a).
Proof.
  intros Hd. unfold wrapping_sub32, as_u32. rewrite <- Zminus_mod.
  destruct (Z.leb_spec b a).
  - rewrite Z.mod_small by lia. destruct (Z.ltb_spec (a - b) (2 ^ 31)); [done|lia].
  - rewrite <- (Z_mod_plus_full (a - b) 1 (2 ^ 32)), Z.mod_small by lia.
    destruct (Z.ltb_spec (a - b + 1 * 2 ^ 32) (2 ^ 31)); [lia|done].
Qed.

(** The validity window of a signature, for times [now], [inception] and [expiration] in
    seconds that the code only sees modulo 2^32. Dates within 68 years of now are told apart
    whatever the wrap-around, so a signature counts from five minutes before its inception
    until its expiration; but the allowance for skewed clocks is a plain comparison of the
    wrapped numbers: up to five minutes before the counter wraps, a signature of any inception
    after the wrap counts as begun. *)
Theorem rrsig_window (now inception expiration : Z) :
  - 2 ^ 31 ≤ now - inception < 2 ^ 31 → - 2 ^ 31 ≤ expiration - now < 2 ^ 31 →
  0 ≤ now → now + 300 < 2 ^ 32 → 0 ≤ inception →
  time_window (as_u32 now) (as_u32 expiration) (as_u32 inception) =
  (if inception <? 2 ^ 32 then inception - 300 <=? now else true) && (now <=? expiration).
Proof.
  intros Hi He Hn Hw H0. unfold time_window. rewrite !wrapping_sub32_serial by lia. f_equal.
  replace (as_u32 (as_u32 now + 300)) with (now + 300)
    by (unfold as_u32; rewrite (Z.mod_small now), Z.mod_small; lia).
  destruct (Z.ltb_spec inception (2 ^ 32)).
  - unfold as_u32. rewrite Z.mod_small by lia.
    destruct (Z.leb_spec inception now), (Z.leb_spec inception (now + 300)), (Z.leb_spec (inception - 300) now);
      try done; lia.
  - unfold as_u32. rewrite <- (Z_mod_plus_full inception (-1) (2 ^ 32)), Z.mod_small by lia.
    destruct (Z.leb_spec (inception + -1 * 2 ^ 32) (now + 300)); [by rewrite orb_true_r|lia].
Qed.
Lemma rrsig_window_witness :
  time_window (as_u32 (2 ^ 32 - 100000)) (as_u32 (2 ^ 32 + 200000)) (as_u32 (2 ^ 32 + 100000)) = true ∧
  time_window (as_u32 1000) (as_u32 2000) (as_u32 1301) = false.
Proof.
  split.
  - rewrite (rrsig_window (2 ^ 32 - 100000) (2 ^ 32 + 100000) (2 ^ 32 + 200000)) by lia. reflexivity.
  - rewrite (rrsig_window 1000 1301 2000) by lia. reflexivity.
Defined.
