(* ===== verification/Denial.v ===== *)
(** Denial of existence, the second half of [src/src/dnssec.rs]: type bitmaps, the canonical
    order of names, NSEC and NSEC3 records, and whether the authority section of a negative
    response proves it. Names and hashes that a zone denies are the gaps of a ring; the proofs
    share one theory of rings over an order. *)
From S2P Require Import Prelude Text Buffer Net Cache Header Question Record Packet Canon.
Open Scope outcome_scope.

(** * Record sets and the signatures over them *)

Definition rrset : Type := bytes * QueryType.t * list DnsRecord.t.

Section sets.
Context `{Lowercase}.

Fixpoint add_to_group (d : bytes) (q : QueryType.t) (r : DnsRecord.t) (groups : list rrset) : list rrset :=
  match groups with
  | [] => [(d, q, [r])]
  | (d', q', rs) :: groups =>
      if bool_decide (d' = d) && bool_decide (q' = q) then (d', q', rs ++ [r]) :: groups
      else (d', q', rs) :: add_to_group d q r groups
  end.
Definition group_rrsets (records : list DnsRecord.t) : list rrset :=
  fold_left (λ groups r,
    if is_rrsig r then groups
    else add_to_group (to_lowercase (domain r)) (query_type r) r groups) records [].
End sets.

Definition covers_rrset (name : bytes) (qtype : QueryType.t) (r : DnsRecord.t) : bool :=
  eq_ignore_ascii_case (domain r) name && covers_type qtype r.
Definition matching_rrsigs_for (all_rrsigs : list DnsRecord.t) (name : bytes) (qtype : QueryType.t)
    : list DnsRecord.t := List.filter (covers_rrset name qtype) all_rrsigs.

(** * Type bitmaps *)

(** The loop over the windows, from the suffix of the bitmap at the cursor. *)
Fixpoint bitmap_windows (fuel : nat) (bitmap : bytes) (window byte_offset bit : Z) : outcome bool :=
  match fuel with
  | O => OutOfFuel
  | S fuel =>
      match bitmap with
      | w :: bmap_len :: rest =>
          if len rest <? bmap_len then Ok false
          else if (w =? window) && (byte_offset <? bmap_len) then
            match index rest byte_offset with
            | Some b => Ok (negb (Z.land b (Z.shiftr 0x80 bit) =? 0))
            | None => Panic
            end
          else bitmap_windows fuel (drop (Z.to_nat bmap_len) rest) window byte_offset bit
      | _ => Ok false
      end
  end.
Definition type_bitmap_contains (bitmap : bytes) (qtype : Z) : outcome bool :=
  let target_bit := qtype mod 256 in
  bitmap_windows (S (length bitmap)) bitmap (qtype / 256) (target_bit / 8) (target_bit mod 8).

(** * The canonical order *)

Definition nonempty (l : bytes) : bool := negb (bool_decide (l = [])).
(** [s.split('.').filter(|l| !l.is_empty())]. *)
Definition dot_labels (s : bytes) : list bytes := List.filter nonempty (split_on 46 s).

(** [Iterator::cmp]. *)
Fixpoint list_cmp {A} (cmp : A → A → comparison) (a b : list A) : comparison :=
  match a, b with
  | [], [] => Eq
  | [], _ => Lt
  | _, [] => Gt
  | x :: a, y :: b => match cmp x y with Eq => list_cmp cmp a b | c => c end
  end.
Fixpoint zip_cmp (a b : list bytes) : comparison :=
  match a, b with
  | la :: a, lb :: b =>
      match list_cmp Z.compare (ascii_lower la) (ascii_lower lb) with
      | Eq => zip_cmp a b
      | other => other
      end
  | _, _ => Eq
  end.
Definition canonical_dns_name_order (a b : bytes) : comparison :=
  match zip_cmp (rev (dot_labels a)) (rev (dot_labels b)) with
  | Eq => Nat.compare (length (dot_labels a)) (length (dot_labels b))
  | other => other
  end.

(** * NSEC *)

Definition is_gt (c : comparison) : bool := match c with Gt => true | _ => false end.
Definition is_lt (c : comparison) : bool := match c with Lt => true | _ => false end.
Definition nsec_covers_name (owner next qname : bytes) : bool :=
  let on := canonical_dns_name_order owner next in
  let qo := canonical_dns_name_order qname owner in
  let qn := canonical_dns_name_order qname next in
  if is_lt on then is_gt qo && is_lt qn else is_gt qo || is_lt qn.

Definition is_nsec (r : DnsRecord.t) : bool := match r with DnsRecord.NSEC _ _ _ _ => true | _ => false end.
Definition is_nsec3 (r : DnsRecord.t) : bool :=
  match r with DnsRecord.NSEC3 _ _ _ _ _ _ _ _ => true | _ => false end.

(** The loop over the suffixes of the labels, from the whole name. *)
Fixpoint closest_of (labels : list bytes) (zone_nsecs : list DnsRecord.t) : option bytes :=
  match labels with
  | [] => None
  | _ :: labels' =>
      let candidate := join [46] labels in
      if existsb (λ r, is_nsec r && eq_ignore_ascii_case (domain r) candidate) zone_nsecs
      then Some candidate else closest_of labels' zone_nsecs
  end.
Definition closest_encloser (qname : bytes) (zone_nsecs : list DnsRecord.t) : option bytes :=
  closest_of (dot_labels qname) zone_nsecs.

(** Neither the type nor CNAME is in the bitmap. *)
Definition type_absent (bitmap : bytes) (qtype : Z) : outcome bool :=
  let? has := type_bitmap_contains bitmap qtype in
  if has : bool then Ok false
  else let? cname := type_bitmap_contains bitmap (to_num QueryType.CNAME) in Ok (negb cname).
Definition nsec_proves_nodata (owner qname bitmap : bytes) (qtype : Z) : outcome bool :=
  if eq_ignore_ascii_case owner qname then type_absent bitmap qtype else Ok false.

(** * NSEC3 *)

Definition MAX_NSEC3_ITERATIONS : Z := 500.

(** The loop of iterated hashing: [n] rounds are left. *)
Fixpoint rehash `{Crypto} (n : nat) (salt hash : bytes) : bytes :=
  match n with
  | O => hash
  | S n => rehash n salt (SHA1_FOR_LEGACY_USE_ONLY (hash ++ salt))
  end.
Definition nsec3_hash `{Crypto} (name : bytes) (algorithm iterations : Z) (salt : bytes)
    : outcome (option bytes) :=
  if negb (algorithm =? 1) then Ok None
  else if MAX_NSEC3_ITERATIONS <? iterations then Ok None
  else
    let? wire_name := name_to_wire name in
    Ok (Some (rehash (Z.to_nat iterations) salt (SHA1_FOR_LEGACY_USE_ONLY (wire_name ++ salt)))).

(** The table of [base32hex_decode]; 255 marks a byte that is no digit. *)
Definition LUT (ch : Z) : Z :=
  if (48 <=? ch) && (ch <=? 57) then ch - 48
  else if (65 <=? ch) && (ch <=? 86) then ch - 55
  else if (97 <=? ch) && (ch <=? 118) then ch - 87
  else 0xFF.
Fixpoint base32hex_go (input : bytes) (bits bit_count : Z) (output : bytes) : option bytes :=
  match input with
  | [] => Some output
  | ch :: input =>
      if ch =? 61 then Some output
      else if 128 <=? ch then None
      else
        let val := LUT ch in
        if val =? 0xFF then None
        else
          let bits := Z.lor (as_u64 (Z.shiftl bits 5)) val in
          let bit_count := bit_count + 5 in
          if 8 <=? bit_count then
            let bit_count := bit_count - 8 in
            base32hex_go input (Z.land bits (Z.shiftl 1 bit_count - 1)) bit_count
              (output ++ [as_u8 (Z.shiftr bits bit_count)])
          else base32hex_go input bits bit_count output
  end.
Definition base32hex_decode (input : bytes) : option bytes := base32hex_go input 0 0 [].
Definition nsec3_owner_hash (domain : bytes) : option bytes := base32hex_decode (before 46 domain).

Definition bytes_lt (a b : bytes) : bool := is_lt (list_cmp Z.compare a b).
Definition nsec3_hash_in_range (owner_hash next_hash target_hash : bytes) : bool :=
  if bytes_lt owner_hash next_hash
  then bytes_lt owner_hash target_hash && bytes_lt target_hash next_hash
  else bytes_lt owner_hash target_hash || bytes_lt target_hash next_hash.
Definition nsec3_any_covers (decoded : list (bytes * DnsRecord.t)) (target : bytes) : bool :=
  existsb (λ '(oh, r), match r with
    | DnsRecord.NSEC3 _ _ _ _ _ next_hashed_owner _ _ => nsec3_hash_in_range oh next_hashed_owner target
    | _ => false
    end) decoded.

(** * The proof of a negative response *)

Section denial.
Context `{Lowercase} `{Crypto} `{WallClock} (now : Z) (cache : DnsCache).

Definition key_verifies (rrsig : DnsRecord.t) (data : bytes) (dk : DnsRecord.t) : outcome bool :=
  match rrsig, dk with
  | DnsRecord.RRSIG _ _ algorithm _ _ _ _ key_tag _ signature _,
    DnsRecord.DNSKEY _ flags protocol dk_algo public_key _ =>
      if negb (dk_algo =? algorithm) then Ok false
      else if negb (compute_key_tag flags protocol dk_algo public_key =? key_tag) then Ok false
      else verify_signature algorithm public_key data signature
  | _, _ => Ok false
  end.
(** One turn of the loop over the record sets: is this one signed? *)
Definition authority_signed (all_rrsigs : list DnsRecord.t) (set : rrset) : outcome bool :=
  let '(name, qtype, records) := set in
  match head (matching_rrsigs_for all_rrsigs name qtype) with
  | Some (DnsRecord.RRSIG _ _ _ _ _ expiration inception _ signer_name _ _ as rrsig) =>
      if negb (is_rrsig_time_valid now expiration inception) then Ok false
      else
        let? cached := Cache.lookup now cache signer_name QueryType.DNSKEY in
        match cached with
        | None => Ok false
        | Some pkt =>
            let? signed_data := build_signed_data rrsig records in
            any_of (key_verifies rrsig signed_data) (answers pkt)
        end
  | Some _ => Ok true
  | None => Ok false
  end.
Fixpoint all_signed (all_rrsigs : list DnsRecord.t) (sets : list rrset) : outcome bool :=
  match sets with
  | [] => Ok true
  | set :: sets =>
      let? b := authority_signed all_rrsigs set in
      if b : bool then all_signed all_rrsigs sets else Ok false
  end.
Definition verify_authority_rrsigs (authorities all_rrsigs : list DnsRecord.t)
    (denial_type : QueryType.t) : outcome bool :=
  let sets := group_rrsets
    (List.filter (λ r, bool_decide (query_type r = denial_type)) authorities) in
  let? signed := all_signed all_rrsigs sets in
  Ok (signed && negb (bool_decide (sets = []))).

(** The NSEC branch, once the signatures are verified. *)
Definition nsec_nxdomain (nsecs : list DnsRecord.t) (qname : bytes) : bool :=
  let covers name r := match r with
    | DnsRecord.NSEC domain next_domain _ _ => nsec_covers_name domain next_domain name
    | _ => false
    end in
  let name_covered := existsb (covers qname) nsecs in
  let wildcard_denied :=
    match closest_encloser qname nsecs with
    | Some ce =>
        let wildcard := str "*." ++ ce in
        existsb (λ r, covers wildcard r || (is_nsec r && eq_ignore_ascii_case (domain r) wildcard)) nsecs
    | None => true
    end in
  name_covered && wildcard_denied.
Definition nsec_nodata (nsecs : list DnsRecord.t) (qname : bytes) (qtype : Z) : outcome bool :=
  any_of (λ r, match r with
    | DnsRecord.NSEC domain _ type_bitmap _ => nsec_proves_nodata domain qname type_bitmap qtype
    | _ => Ok false
    end) nsecs.

(** The NSEC3 branch, with the parameters of the first record. *)
Definition decode_owners (nsec3s : list DnsRecord.t) : list (bytes * DnsRecord.t) :=
  omap (λ r, if is_nsec3 r then (λ h, (h, r)) <$> nsec3_owner_hash (domain r) else None) nsec3s.
Fixpoint suffixes {A} (l : list A) : list (list A) :=
  match l with [] => [] | _ :: l' => l :: suffixes l' end.

Section nsec3.
Context (hash_algorithm iterations : Z) (salt : bytes) (decoded : list (bytes * DnsRecord.t)).

(** The loop over the possible closest enclosers: the suffix of the labels at [i], the hash
    of the suffix before it, and those of the suffixes from [i]. *)
Fixpoint nsec3_nxdomain (nc : option bytes) (names : list (list bytes)) (hashes : list (option bytes))
    : outcome bool :=
  match names, hashes with
  | labels :: names, ce :: hashes =>
      let next := nsec3_nxdomain ce names hashes in
      match ce with
      | None => next
      | Some ce_hash =>
          if negb (existsb (λ '(oh, _), bool_decide (oh = ce_hash)) decoded) then next
          else
            match nc with
            | None => next
            | Some nc_hash =>
                if negb (nsec3_any_covers decoded nc_hash) then next
                else
                  let? wc := nsec3_hash (str "*." ++ join [46] labels) hash_algorithm iterations salt in
                  match wc with
                  | None => next
                  | Some wc_hash => if nsec3_any_covers decoded wc_hash then Ok true else next
                  end
            end
      end
  | _, _ => Ok false
  end.
Definition nsec3_proves_nxdomain (qname : bytes) : outcome bool :=
  let names := suffixes (dot_labels qname) in
  let? ancestor_hashes := map_all (λ l, nsec3_hash (join [46] l) hash_algorithm iterations salt) names in
  match names, ancestor_hashes with
  | _ :: names, first :: hashes => nsec3_nxdomain first names hashes
  | _, _ => Ok false
  end.
Definition nsec3_proves_nodata (qname_hash : bytes) (qtype : Z) : outcome bool :=
  any_of (λ '(oh, r), match r with
    | DnsRecord.NSEC3 _ _ _ _ _ _ type_bitmap _ =>
        if bool_decide (oh = qname_hash) then type_absent type_bitmap qtype else Ok false
    | _ => Ok false
    end) decoded.
End nsec3.

Definition secure_if (b : bool) : DnssecStatus := if b then Secure else Bogus.
Definition validate_denial (authorities all_rrsigs : list DnsRecord.t) (qname : bytes) (qtype : Z)
    (is_nxdomain : bool) : outcome DnssecStatus :=
  let nsecs := List.filter is_nsec authorities in
  if negb (bool_decide (nsecs = [])) then
    let? signed := verify_authority_rrsigs authorities all_rrsigs QueryType.NSEC in
    if negb signed then Ok Indeterminate
    else if is_nxdomain then Ok (secure_if (nsec_nxdomain nsecs qname))
    else let? proven := nsec_nodata nsecs qname qtype in Ok (secure_if proven)
  else
    let nsec3s := List.filter is_nsec3 authorities in
    match nsec3s with
    | [] => Ok Indeterminate
    | first :: _ =>
        let? signed := verify_authority_rrsigs authorities all_rrsigs QueryType.NSEC3 in
        if negb signed then Ok Indeterminate
        else
          match first with
          | DnsRecord.NSEC3 _ hash_algorithm _ iterations salt _ _ _ =>
              let? qname_hash := nsec3_hash qname hash_algorithm iterations salt in
              match qname_hash with
              | None => Ok Indeterminate
              | Some qname_hash =>
                  let decoded := decode_owners nsec3s in
                  let? proven :=
                    if is_nxdomain then nsec3_proves_nxdomain hash_algorithm iterations salt decoded qname
                    else nsec3_proves_nodata decoded qname_hash qtype in
                  Ok (secure_if proven)
              end
          | _ => Ok Indeterminate
          end
    end.
End denial.

(** * Type bitmaps: a reference encoder *)

(** One byte of a window: eight types, the first in the highest bit. *)
Definition byte_of (f : Z → bool) : Z :=
  foldr (λ j acc, Z.lor (if f j then Z.shiftr 0x80 j else 0) acc) 0 [0; 1; 2; 3; 4; 5; 6; 7].
Definition bitmap_byte (types : list Z) (w i : Z) : Z :=
  byte_of (λ j, bool_decide (w * 256 + i * 8 + j ∈ types)).
(** A window's 32 bytes without trailing zeros; windows without types are left out. *)
Definition window_bytes (types : list Z) (w : Z) : bytes :=
  trim_end_byte 0 (map (bitmap_byte types w) (seqZ 0 32)).
Definition bitmap_block (types : list Z) (w : Z) : bytes :=
  match window_bytes types w with [] => [] | bs => w :: len bs :: bs end.
(** RFC 4034, section 4.1.2. *)
Definition encode_bitmap (types : list Z) : bytes := flat_map (bitmap_block types) (seqZ 0 256).

Lemma byte_of_bit f j : 0 ≤ j < 8 → negb (Z.land (byte_of f) (Z.shiftr 0x80 j) =? 0) = f j.
Proof.
  intros Hj. unfold byte_of. cbn [foldr].
  assert (j ∈ [0; 1; 2; 3; 4; 5; 6; 7]) as Hin by (rewrite !elem_of_cons; lia).
  repeat (apply elem_of_cons in Hin as [->|Hin]);
    destruct (f 0), (f 1), (f 2), (f 3), (f 4), (f 5), (f 6), (f 7); try done.
  all: by apply elem_of_nil in Hin.
Qed.

Lemma drop_while_split c l : ∃ k, l = replicate k c ++ drop_while c l.
Proof.
  induction l as [|b l [k IH]]; [by exists O|]. cbn. destruct (Z.eqb_spec b c) as [->|].
  - exists (S k). cbn. by f_equal.
  - by exists O.
Qed.
Lemma trim_end_split c l : ∃ k, l = trim_end_byte c l ++ replicate k c.
Proof.
  destruct (drop_while_split c (reverse l)) as [k Hk]. exists k. unfold trim_end_byte.
  rewrite <- (reverse_involutive l) at 1. rewrite Hk at 1. by rewrite reverse_app, reverse_replicate.
Qed.

Lemma bitmap_windows_returns fuel : ∀ bitmap w off bit, (length bitmap < fuel)%nat → 0 ≤ off →
  ∃ b, bitmap_windows fuel bitmap w off bit = Ok b.
Proof.
  induction fuel as [|fuel IH]; intros bitmap w off bit Hf Hoff; [lia|]. cbn [bitmap_windows].
  destruct bitmap as [|a [|n rest]]; [by eexists..|].
  destruct (Z.ltb_spec (len rest) n); [by eexists|].
  destruct (_ =? _); cbn [andb]; [destruct (Z.ltb_spec off n)|].
  - destruct (index_is_Some rest off) as [b ->]; [lia|]. by eexists.
  - apply IH; [|done]. rewrite length_drop. cbn in Hf. lia.
  - apply IH; [|done]. rewrite length_drop. cbn in Hf. lia.
Qed.
Lemma type_bitmap_returns bitmap qtype : ∃ b, type_bitmap_contains bitmap qtype = Ok b.
Proof.
  apply bitmap_windows_returns; [lia|]. apply Z.div_pos; [|lia]. apply Z.mod_pos_bound. lia.
Qed.
Lemma type_absent_returns bitmap qtype : ∃ b, type_absent bitmap qtype = Ok b.
Proof.
  unfold type_absent. destruct (type_bitmap_returns bitmap qtype) as [[] ->]; [by eexists|]. cbn [obind].
  destruct (type_bitmap_returns bitmap (to_num QueryType.CNAME)) as [b ->]. by eexists.
Qed.

Section bitmap.
Context (types : list Z) (t : Z) (Ht : 0 ≤ t).
Abbreviation w := (t / 256).
Abbreviation off := (t mod 256 / 8).
Abbreviation bit := (t mod 256 mod 8).

Lemma bitmap_offsets : 0 ≤ off < 32 ∧ 0 ≤ bit < 8 ∧ w * 256 + off * 8 + bit = t.
Proof. div_lia. Qed.
Lemma window_byte_member b : index (map (bitmap_byte types w) (seqZ 0 32)) off = Some b →
  negb (Z.land b (Z.shiftr 0x80 bit) =? 0) = bool_decide (t ∈ types).
Proof.
  destruct bitmap_offsets as (Ho & Hb & Ht'). rewrite index_lookup by lia.
  change (map ?f ?l) with (f <$> l). rewrite list_lookup_fmap, lookup_seqZ_lt by lia.
  intros [= <-].
  rewrite Z.add_0_l, Z2Nat.id by lia. unfold bitmap_byte. rewrite byte_of_bit by done. by rewrite Ht'.
Qed.
(** A byte inside the trimmed window is that of the full one; outside, it is zero. *)
Lemma trimmed_byte b : index (window_bytes types w) off = Some b →
  negb (Z.land b (Z.shiftr 0x80 bit) =? 0) = bool_decide (t ∈ types).
Proof.
  intros Hi. apply window_byte_member. pose proof (index_nonneg _ _ _ Hi) as Hr.
  rewrite index_lookup in * by lia. unfold window_bytes in *.
  destruct (trim_end_split 0 (map (bitmap_byte types w) (seqZ 0 32))) as [k Hk]. rewrite Hk.
  by apply lookup_app_l_Some.
Qed.
Lemma beyond_trimmed : len (window_bytes types w) ≤ off → t ∉ types.
Proof.
  intros Hl. destruct bitmap_offsets as (Ho & _). apply (bool_decide_eq_false (t ∈ types)).
  rewrite <- (window_byte_member 0); [by rewrite Z.land_0_l|].
  destruct (trim_end_split 0 (map (bitmap_byte types w) (seqZ 0 32))) as [k Hk].
  rewrite Hk, index_lookup by lia. unfold window_bytes, len in Hl. rewrite lookup_app_r by lia.
  apply lookup_replicate. split; [done|]. apply (f_equal length) in Hk.
  rewrite length_app, length_map, length_seqZ, length_replicate in Hk. lia.
Qed.

Lemma bitmap_windows_blocks ws : ∀ fuel, NoDup ws → (length (flat_map (bitmap_block types) ws) < fuel)%nat →
  bitmap_windows fuel (flat_map (bitmap_block types) ws) w off bit =
  Ok (bool_decide (w ∈ ws) && bool_decide (t ∈ types)).
Proof.
  destruct bitmap_offsets as (Ho & Hb & _).
  induction ws as [|w' ws IH]; intros fuel Hnd Hf; [by destruct fuel; [cbn in Hf; lia|]|].
  apply NoDup_cons in Hnd as [Hw' Hnd]. cbn [flat_map] in *. unfold bitmap_block at 1.
  pose proof (Z.eqb_spec w' w) as Hww. unfold bitmap_block in Hf at 1.
  destruct (window_bytes types w') as [|b0 bs] eqn:Hwb.
  { cbn [app] in *. rewrite IH by done. f_equal.
    destruct Hww as [->|]; [|by rewrite (bool_decide_ext (w ∈ w' :: ws) (w ∈ ws)) by (rewrite elem_of_cons; naive_solver)].
    rewrite bool_decide_eq_false_2 by done. symmetry. apply andb_false_intro2, bool_decide_eq_false_2.
    apply beyond_trimmed. rewrite Hwb, len_nil. lia. }
  destruct fuel as [|fuel]; [lia|]. cbn [app bitmap_windows].
  set (block := b0 :: bs) in *. change (b0 :: bs ++ ?r) with (block ++ r).
  destruct (Z.ltb_spec (len (block ++ flat_map (bitmap_block types) ws)) (len block)); [len_lia|].
  rewrite to_nat_len, drop_app_length.
  assert (Hrest : bitmap_windows fuel (flat_map (bitmap_block types) ws) w off bit =
    Ok (bool_decide (w ∈ ws) && bool_decide (t ∈ types))).
  { apply IH; [done|]. rewrite length_app in Hf. cbn in Hf. lia. }
  destruct Hww as [->|Hne]; cbn [andb].
  - rewrite (bool_decide_eq_true_2 (w ∈ w :: ws)) by apply list_elem_of_here. cbn [andb].
    destruct (Z.ltb_spec off (len block)).
    + destruct (index_is_Some block off) as [b Hi]; [lia|].
      assert (index (block ++ flat_map (bitmap_block types) ws) off = Some b) as ->.
      { rewrite index_lookup in * by lia. by apply lookup_app_l_Some. }
      f_equal. apply trimmed_byte. by rewrite Hwb.
    + rewrite Hrest. rewrite bool_decide_eq_false_2 by done. cbn. f_equal. symmetry.
      apply bool_decide_eq_false_2, beyond_trimmed. by rewrite Hwb.
  - rewrite Hrest. do 2 f_equal. apply bool_decide_ext. rewrite elem_of_cons. naive_solver.
Qed.

Lemma bitmap_contains : t < 2 ^ 16 →
  type_bitmap_contains (encode_bitmap types) t = Ok (bool_decide (t ∈ types)).
Proof.
  intros Hlt. unfold type_bitmap_contains, encode_bitmap.
  rewrite bitmap_windows_blocks by (apply NoDup_seqZ || lia).
  rewrite bool_decide_eq_true_2; [done|]. apply elem_of_seqZ. div_lia.
Qed.
End bitmap.

(** * Orders given by a comparison *)

Class TotalCmp {A} (cmp : A → A → comparison) : Prop := {
  cmp_flip a b : cmp b a = CompOpp (cmp a b);
  cmp_eq_l a b c : cmp a b = Eq → cmp a c = cmp b c;
  cmp_lt_trans a b c : cmp a b = Lt → cmp b c = Lt → cmp a c = Lt
}.

#[export] Instance Z_compare_total : TotalCmp Z.compare.
Proof.
  split.
  - intros a b. apply Z.compare_antisym.
  - by intros a b c ->%Z.compare_eq_iff.
  - intros a b c. rewrite !Z.compare_lt_iff. lia.
Qed.

Section order.
Context {A} (cmp : A → A → comparison) `{!TotalCmp cmp}.

Lemma cmp_refl a : cmp a a = Eq.
Proof. pose proof (cmp_flip (cmp := cmp) a a) as Hf. by destruct (cmp a a). Qed.
Lemma cmp_eq_r a b c : cmp a b = Eq → cmp c a = cmp c b.
Proof. intros Hab. rewrite (cmp_flip (cmp := cmp) a c), (cmp_flip (cmp := cmp) b c). by rewrite (cmp_eq_l (cmp := cmp) a b c). Qed.
Lemma cmp_gt a b : cmp a b = Gt ↔ cmp b a = Lt.
Proof. rewrite (cmp_flip (cmp := cmp) a b). by destruct (cmp a b). Qed.

#[export] Instance list_cmp_total : TotalCmp (list_cmp cmp).
Proof.
  split.
  - induction a as [|x a IH]; intros [|y b]; cbn; try done.
    rewrite (cmp_flip (cmp := cmp) x y). destruct (cmp x y); cbn; [apply IH|done|done].
  - induction a as [|x a IH]; intros [|y b] [|z c]; cbn; try done; destruct (cmp x y) eqn:E; try done.
    intros Hab. rewrite (cmp_eq_l (cmp := cmp) x y z E). destruct (cmp y z); [by apply IH|done|done].
  - induction a as [|x a IH]; intros [|y b] [|z c]; cbn; try done.
    destruct (cmp x y) eqn:E; [|destruct (cmp y z) eqn:F|done].
    + rewrite (cmp_eq_l (cmp := cmp) x y z E). destruct (cmp y z); [apply IH|done|done].
    + by rewrite <- (cmp_eq_r y z x F), E.
    + by rewrite (cmp_lt_trans (cmp := cmp) x y z E F).
    + done.
Qed.

(** ** Rings

    The elements of an ascending list, each followed by the next and the last by the first. *)
Definition ascending : list A → Prop := StronglySorted (λ a b, cmp a b = Lt).
Fixpoint ring_from (first : A) (l : list A) : list (A * A) :=
  match l with
  | [] => []
  | x :: l' => (x, match l' with y :: _ => y | [] => first end) :: ring_from first l'
  end.
Definition ring (l : list A) : list (A * A) := match l with [] => [] | x :: _ => ring_from x l end.
(** The gap between an element and the next one; around the end it is the rest. *)
Definition gap (o n q : A) : bool :=
  if is_lt (cmp o n) then is_gt (cmp q o) && is_lt (cmp q n) else is_gt (cmp q o) || is_lt (cmp q n).

Lemma ring_from_split first l o n : (o, n) ∈ ring_from first l →
  ∃ l1 l2, l = l1 ++ o :: l2 ∧ n = match l2 with y :: _ => y | [] => first end.
Proof.
  induction l as [|x l IH]; cbn; [by intros ?%elem_of_nil|]. rewrite elem_of_cons.
  intros [[= -> ->]|Hin]; [by exists [], l|]. destruct (IH Hin) as (l1 & l2 & -> & ->).
  by exists (x :: l1), l2.
Qed.
Lemma ascending_app l1 o l2 : ascending (l1 ++ o :: l2) →
  Forall (λ x, cmp x o = Lt) l1 ∧ Forall (λ x, cmp o x = Lt) l2 ∧ ascending l2.
Proof.
  intros Ha. induction l1 as [|x l1 IH]; cbn in Ha; apply StronglySorted_inv in Ha as [Ha Hf].
  - split; [constructor|]. by split.
  - destruct (IH Ha) as (H1 & H2 & H3). split; [|done]. constructor; [|done].
    rewrite Forall_forall in Hf. apply Hf. set_solver.
Qed.
Lemma ne_of_lt q x : cmp q x = Lt ∨ cmp q x = Gt → cmp q x ≠ Eq.
Proof. by intros [->| ->]. Qed.

(** What lies in a gap of the ring is no element of it. *)
Lemma gap_not_element l o n q : ascending l → (o, n) ∈ ring l → gap o n q = true →
  Forall (λ x, cmp q x ≠ Eq) l.
Proof.
  destruct l as [|first l]; [done|]. intros Ha Hin.
  apply ring_from_split in Hin as (l1 & l2 & Hl & Hn).
  rewrite Hl in Ha |- *. destruct (ascending_app _ _ _ Ha) as (H1 & H2 & H3).
  assert (Hafter : cmp q o = Gt → Forall (λ x, cmp q x ≠ Eq) (l1 ++ [o])).
  { intros Hq. apply Forall_app. split; [|apply Forall_singleton; by rewrite Hq].
    eapply Forall_impl; [exact H1|]. intros x Hx. apply ne_of_lt. right. apply cmp_gt in Hq.
    apply cmp_gt. by apply (cmp_lt_trans (cmp := cmp) x o q). }
  rewrite cons_middle, app_assoc, Forall_app. unfold gap.
  destruct l2 as [|y l2]; subst n.
  - assert (Hf : cmp first o = Lt ∨ first = o).
    { destruct l1 as [|x l1]; [by injection Hl; right|]. injection Hl as -> _. left. by apply Forall_inv in H1. }
    assert (Hno : is_lt (cmp o first) = false).
    { destruct Hf as [Hf| ->]; [apply cmp_gt in Hf; by rewrite Hf|by rewrite cmp_refl]. }
    rewrite Hno. intros Hg. split; [|constructor].
    apply orb_true_iff in Hg as [Hg|Hg].
    + apply Hafter. by destruct (cmp q o).
    + assert (Hq : cmp q first = Lt) by by destruct (cmp q first).
      assert (Hfa : Forall (λ x, cmp first x = Lt ∨ first = x) (l1 ++ [o])).
      { rewrite <- Hl in Ha |- *. apply StronglySorted_inv in Ha as [_ Ha]. constructor; [by right|].
        eapply Forall_impl; [exact Ha|]. by left. }
      eapply Forall_impl; [exact Hfa|]. intros x [Hx|<-]; apply ne_of_lt; left; [|done].
      by apply (cmp_lt_trans (cmp := cmp) q first x).
  - pose proof (Forall_inv H2) as Hoy. rewrite Hoy. cbn. intros [Hq1 Hq2]%andb_prop.
    assert (cmp q y = Lt) as Hqy by by destruct (cmp q y).
    split; [apply Hafter; by destruct (cmp q o)|]. apply StronglySorted_inv in H3 as [_ H3].
    constructor; [apply ne_of_lt; by left|]. eapply Forall_impl; [exact H3|].
    intros x Hx. apply ne_of_lt. left. by apply (cmp_lt_trans (cmp := cmp) q y x).
Qed.

(** And everything else lies in one. *)
Lemma gap_exists_from first l q : ascending l → Forall (λ x, cmp q x ≠ Eq) l →
  (∃ x, head l = Some x ∧ cmp q x = Gt) → (∀ x, last l = Some x → is_lt (cmp x first) = false) →
  ∃ o n, (o, n) ∈ ring_from first l ∧ gap o n q = true.
Proof.
  induction l as [|x l IH]; intros Ha Hq (x0 & Hx & Hgt) Hlast; [done|]. injection Hx as <-.
  apply StronglySorted_inv in Ha as [Ha Hxs]. apply Forall_cons in Hq as [Hqx Hq].
  destruct l as [|y l].
  - exists x, first. split; [by apply list_elem_of_here|]. unfold gap.
    rewrite Hlast by done. by rewrite Hgt.
  - destruct (cmp q y) eqn:E.
    + by apply Forall_inv in Hq.
    + exists x, y. split; [by apply list_elem_of_here|]. unfold gap.
      apply Forall_inv in Hxs. by rewrite Hxs, Hgt, E.
    + destruct (IH Ha Hq) as (o & n & Hon & Hg); [by exists y|by apply Hlast|].
      exists o, n. split; [by apply list_elem_of_further|done].
Qed.
Lemma gap_exists l q : l ≠ [] → ascending l → Forall (λ x, cmp q x ≠ Eq) l →
  ∃ o n, (o, n) ∈ ring l ∧ gap o n q = true.
Proof.
  destruct l as [|first l]; [done|]. intros _ Ha Hq. cbn [ring].
  assert (Hlast : ∀ x, last (first :: l) = Some x → is_lt (cmp x first) = false).
  { intros x Hx. apply last_Some_elem_of, elem_of_cons in Hx as [->|Hx]; [by rewrite cmp_refl|].
    apply StronglySorted_inv in Ha as [_ Hf]. rewrite Forall_forall in Hf.
    pose proof (Hf x Hx) as Hlt. apply cmp_gt in Hlt. by rewrite Hlt. }
  destruct (cmp q first) eqn:E; [by apply Forall_inv in Hq| |].
  - destruct (last (first :: l)) as [o|] eqn:Hl; [|by apply last_None in Hl].
    pose proof (Hlast o eq_refl) as Hno. exists o, first. apply last_Some in Hl as [l' Hl'].
    split; [|unfold gap; by rewrite Hno, E, orb_true_r].
    rewrite Hl'. clear. generalize first. intros f. induction l' as [|x l' IH]; cbn; [by apply list_elem_of_here|].
    by apply list_elem_of_further.
  - by apply gap_exists_from; [..|exists first|].
Qed.
Lemma ring_partition l q : l ≠ [] → ascending l →
  existsb (λ '(o, n), gap o n q) (ring l) = negb (existsb (λ x, match cmp q x with Eq => true | _ => false end) l).
Proof.
  intros Hne Ha. apply eq_true_iff_eq. rewrite negb_true_iff, <- not_true_iff_false, !existsb_exists. split.
  - intros ([o n] & Hin & Hg) (x & Hx & Hc). apply list_elem_of_In in Hin, Hx.
    pose proof (gap_not_element l o n q Ha Hin Hg) as Hf. rewrite Forall_forall in Hf.
    specialize (Hf x Hx). by destruct (cmp q x).
  - intros Hno. destruct (gap_exists l q Hne Ha) as (o & n & Hin & Hg).
    + apply Forall_forall. intros x Hx Hc. apply Hno. exists x. rewrite Hc. split; [by apply list_elem_of_In|done].
    + exists (o, n). split; [by apply list_elem_of_In|done].
Qed.
End order.

(** * The canonical order of names *)

Abbreviation byte_order := (list_cmp Z.compare).
(** Labels from the root down, in lower case. *)
Definition order_key (ls : list bytes) : list bytes := map ascii_lower (rev ls).

Lemma zip_cmp_lexicographic a : ∀ b,
  match zip_cmp a b with Eq => Nat.compare (length a) (length b) | c => c end =
  list_cmp byte_order (map ascii_lower a) (map ascii_lower b).
Proof.
  induction a as [|x a IH]; intros [|y b]; cbn; try done.
  destruct (byte_order (ascii_lower x) (ascii_lower y)); [apply IH|done|done].
Qed.
Lemma name_order_key a b : canonical_dns_name_order a b =
  list_cmp byte_order (order_key (dot_labels a)) (order_key (dot_labels b)).
Proof.
  unfold canonical_dns_name_order, order_key. rewrite <- zip_cmp_lexicographic. by rewrite !length_rev.
Qed.
#[export] Instance name_order_total : TotalCmp canonical_dns_name_order.
Proof.
  split; intros *; rewrite !name_order_key; [apply cmp_flip|apply cmp_eq_l|apply cmp_lt_trans].
Qed.
Lemma list_cmp_eq {A} (cmp : A → A → comparison) a : (∀ x y, cmp x y = Eq → x = y) →
  ∀ b, list_cmp cmp a b = Eq → a = b.
Proof.
  intros Hc. induction a as [|x a IH]; intros [|y b]; cbn; try done.
  destruct (cmp x y) eqn:E; try done. intros Hab. f_equal; [by apply Hc|by apply IH].
Qed.
Lemma byte_order_eq a b : byte_order a b = Eq ↔ a = b.
Proof.
  split; [apply list_cmp_eq; intros x y; apply Z.compare_eq_iff|]. intros ->. apply (cmp_refl byte_order).
Qed.
Lemma name_order_eq a b : canonical_dns_name_order a b = Eq ↔
  map ascii_lower (dot_labels a) = map ascii_lower (dot_labels b).
Proof.
  rewrite name_order_key. unfold order_key. split.
  - intros H%list_cmp_eq; [|intros x y; apply byte_order_eq]. rewrite !map_rev in H.
    by apply (f_equal (@rev _)) in H; rewrite !rev_involutive in H.
  - intros H. rewrite !map_rev, H. apply (cmp_refl (list_cmp byte_order)).
Qed.

(** ** On texts without escapes these are the labels of the name *)

Lemma split_on_cons c s : ∃ x xs, split_on c s = x :: xs.
Proof. destruct s as [|b s]; cbn; [by eexists _, _|]. destruct (b =? c), (split_on c s); by eexists _, _. Qed.
Lemma labels_of_plain s : ∀ cur,
  labels_of cur (map (λ b, if b =? 46 then None else Some b) s) =
  List.filter nonempty (match split_on 46 s with x :: xs => (cur ++ x) :: xs | [] => [] end).
Proof.
  assert (Hfl : ∀ cur l, flush cur ++ List.filter nonempty l = List.filter nonempty (cur :: l))
    by (by intros [|]).
  induction s as [|b s IH]; intros cur; cbn [map labels_of split_on].
  - rewrite app_nil_r. rewrite <- Hfl. by rewrite app_nil_r.
  - destruct (Z.eqb_spec b 46) as [->|Hb]; cbn [labels_of].
    + rewrite IH, app_nil_r, <- Hfl. destruct (split_on_cons 46 s) as (x & xs & ->). done.
    + rewrite IH. destruct (split_on_cons 46 s) as (x & xs & ->). by rewrite <- app_assoc.
Qed.
Lemma tokens_plain s : 92 ∉ s → tokens s = Some (map (λ b, if b =? 46 then None else Some b) s).
Proof.
  induction s as [|b s IH]; [done|]. rewrite not_elem_of_cons. intros [Hb Hs].
  rewrite tokens_unfold. cbn [lex map]. destruct (Z.eqb_spec b 46) as [->|].
  - by rewrite IH.
  - destruct (Z.eqb_spec b 92); [congruence|]. by rewrite IH.
Qed.
Lemma name_labels_plain s ls : 92 ∉ s → name_labels s = Some ls → dot_labels s = ls.
Proof.
  intros Hs. unfold name_labels. rewrite tokens_plain by done. cbn [mbind option_bind].
  case_decide; [|done]. intros [= <-]. rewrite labels_of_plain. unfold dot_labels.
  by destruct (split_on_cons 46 s) as (x & xs & ->).
Qed.

(** The order of names used for denial is a total order, and on names without escapes it
    is the canonical order of RFC 4034, section 6.1: the labels on the wire, from the root
    down, in lower case and compared as byte strings, a name before those below it. *)
Theorem canonical_order_rfc (a b : bytes) (la lb : list bytes) :
  92 ∉ a → 92 ∉ b → name_labels a = Some la → name_labels b = Some lb →
  canonical_dns_name_order a b = list_cmp byte_order (order_key la) (order_key lb) ∧
  canonical_dns_name_order b a = CompOpp (canonical_dns_name_order a b) ∧
  (canonical_dns_name_order a b = Eq ↔ map ascii_lower la = map ascii_lower lb) ∧
  ∀ c, canonical_dns_name_order a b = Lt → canonical_dns_name_order b c = Lt →
    canonical_dns_name_order a c = Lt.
Proof.
  intros Ha Hb Hla Hlb. pose proof (name_labels_plain a la Ha Hla) as <-.
  pose proof (name_labels_plain b lb Hb Hlb) as <-.
  split; [apply name_order_key|]. split; [apply cmp_flip|]. split; [apply name_order_eq|].
  intros c. apply cmp_lt_trans.
Qed.
Lemma canonical_order_rfc_witness :
  canonical_dns_name_order (str "Example.com") (str "a.example.COM") = Lt ∧
  canonical_dns_name_order (str "a.example.COM") (str "Example.com") = Gt.
Proof.
  destruct (canonical_order_rfc (str "Example.com") (str "a.example.COM") [str "Example"; str "com"]
    [str "a"; str "example"; str "COM"]) as (H1 & H2 & _);
    [by apply (bool_decide_unpack _); vm_compute..|by vm_compute|by vm_compute|].
  rewrite H2, H1. by vm_compute.
Defined.
(** A dot that belongs to a label is taken for a separator. *)
Example order_splits_escapes :
  name_labels (str "a\.b") = Some [str "a.b"] ∧ dot_labels (str "a\.b") = [str "a\"; str "b"].
Proof. by vm_compute. Qed.

(** ** Gaps *)

Lemma nsec_covers_gap o n q : nsec_covers_name o n q = gap canonical_dns_name_order o n q.
Proof. done. Qed.
Lemma nsec3_range_gap o n q : nsec3_hash_in_range o n q = gap byte_order o n q.
Proof.
  unfold nsec3_hash_in_range, bytes_lt, gap.
  rewrite (cmp_flip (cmp := byte_order) o q). by destruct (byte_order o q).
Qed.

(** The NSEC records of a zone deny exactly the names it does not have. With the owners in
    canonical order, each record naming the next owner and the last one the first, a name is
    covered by some record if and only if it is not an owner, whatever its letter case. *)
Theorem nsec_chain_partition (owners : list bytes) (qname : bytes) :
  owners ≠ [] → ascending canonical_dns_name_order owners →
  existsb (λ '(owner, next), nsec_covers_name owner next qname) (ring owners) =
  negb (existsb (λ o, bool_decide (map ascii_lower (dot_labels qname) = map ascii_lower (dot_labels o))) owners).
Proof.
  intros Hne Ha. pose proof (ring_partition canonical_dns_name_order owners qname Hne Ha) as Hp.
  etrans; [exact Hp|]. f_equal. clear. induction owners as [|o l IH]; [done|]. cbn [existsb]. rewrite IH. f_equal.
  pose proof (name_order_eq qname o) as He. case_bool_decide as Hb.
  - by rewrite (proj2 He Hb).
  - destruct (canonical_dns_name_order qname o); try done. by destruct Hb; apply He.
Qed.
Lemma nsec_chain_partition_witness :
  existsb (λ '(owner, next), nsec_covers_name owner next (str "M.test"))
    (ring [str "test"; str "a.test"; str "z.test"]) = true.
Proof.
  rewrite nsec_chain_partition; [by vm_compute|done|].
  repeat constructor; by vm_compute.
Defined.

(** * Base 32 with the extended hex alphabet: a reference encoder *)

(** A bit string, the highest bit first, as a number. *)
Definition value (l : list bool) : Z := fold_left (λ acc (b : bool), acc * 2 + if b then 1 else 0) l 0.
Definition bits_of (n : nat) (v : Z) : list bool := map (λ i, Z.testbit v (Z.of_nat i)) (rev (seq 0 n)).
Fixpoint groups5 (l : list bool) : list Z :=
  match l with
  | a :: b :: c :: d :: e :: l => value [a; b; c; d; e] :: groups5 l
  | [] => []
  | l => [value (take 5 (l ++ replicate 4 false))]
  end.
Definition digit (v : Z) : Z := if v <? 10 then 48 + v else 55 + v.
(** RFC 4648, section 7, without padding. *)
Definition base32hex_encode (h : bytes) : bytes := map digit (groups5 (flat_map (bits_of 8) h)).

(** The whole bytes of a bit string. *)
Fixpoint octets_of (l : list bool) : bytes :=
  match l with
  | a :: b :: c :: d :: e :: f :: g :: h :: l => value [a; b; c; d; e; f; g; h] :: octets_of l
  | _ => []
  end.

Lemma value_app a b : value (a ++ b) = value a * 2 ^ len b + value b.
Proof.
  unfold value. rewrite fold_left_app.
  enough (Hacc : ∀ v, fold_left (λ acc (b : bool), acc * 2 + if b then 1 else 0) b v = v * 2 ^ len b + value b)
    by apply Hacc.
  unfold value. induction b as [|x b IH]; intros v.
  - cbn. unfold len. cbn. lia.
  - cbn [fold_left]. rewrite IH, (IH (0 * 2 + _)), len_cons.
    rewrite Z.pow_add_r by (lia || apply len_nonneg). lia.
Qed.
Lemma value_range l : 0 ≤ value l < 2 ^ len l.
Proof.
  induction l as [|b l IH] using rev_ind; [done|]. rewrite value_app, len_app.
  rewrite Z.pow_add_r by apply len_nonneg.
  change (value [b]) with (0 * 2 + if b then 1 else 0). change (len [b]) with 1. destruct b; lia.
Qed.
Lemma value_bits n v : 0 ≤ v < 2 ^ Z.of_nat n → value (bits_of n v) = v.
Proof.
  revert v. induction n as [|n IH]; intros v Hv; [cbn in *; lia|].
  unfold bits_of. rewrite seq_S, rev_app_distr. cbn [rev app map].
  change (?b :: ?l) with ([b] ++ l). rewrite value_app.
  assert (Hlen : len (map (λ i, Z.testbit v (Z.of_nat i)) (rev (seq 0 n))) = Z.of_nat n)
    by (unfold len; by rewrite length_map, length_rev, length_seq).
  rewrite Hlen. rewrite Nat2Z.inj_succ, Z.pow_succ_r in Hv by lia.
  assert (Hlow : value (bits_of n (v mod 2 ^ Z.of_nat n)) = v mod 2 ^ Z.of_nat n)
    by (apply IH, Z.mod_pos_bound; lia).
  replace (map (λ i, Z.testbit v (Z.of_nat i)) (rev (seq 0 n))) with (bits_of n (v mod 2 ^ Z.of_nat n)).
  2: { unfold bits_of. apply map_ext_in. intros i Hi%in_rev%in_seq. apply Z.mod_pow2_bits_low. lia. }
  rewrite Hlow. cbn [Nat.add]. change (value [?b]) with (0 * 2 + if b then 1 else 0).
  rewrite (Z.div_mod v (2 ^ Z.of_nat n)) at 3 by lia.
  rewrite Z.testbit_eqb by lia.
  assert (Hd : v / 2 ^ Z.of_nat n = 0 ∨ v / 2 ^ Z.of_nat n = 1).
  { assert (0 ≤ v / 2 ^ Z.of_nat n < 2) by (split; [apply Z.div_pos; lia|apply Z.div_lt_upper_bound; lia]). lia. }
  destruct Hd as [-> | ->]; [change (0 mod 2 =? 1) with false|change (1 mod 2 =? 1) with true]; lia.
Qed.
Lemma bits_of_length n v : length (bits_of n v) = n.
Proof. unfold bits_of. by rewrite length_map, length_rev, length_seq. Qed.

Lemma eight {A} (l : list A) : length l = 8%nat → ∃ a b c d e f g h, l = [a; b; c; d; e; f; g; h].
Proof. do 8 (destruct l as [|? l]; [done|]). destruct l; [by eexists _, _, _, _, _, _, _, _|done]. Qed.
Lemma octets_of_cons l m : length l = 8%nat → octets_of (l ++ m) = value l :: octets_of m.
Proof. intros (a & b & c & d & e & f & g & h & ->)%eight. done. Qed.
Lemma octets_of_short l : (length l < 8)%nat → octets_of l = [].
Proof. do 8 (destruct l as [|? l]; [done|]). cbn. lia. Qed.
Lemma octets_of_bytes h pad : all_bytes h → (length pad < 8)%nat →
  octets_of (flat_map (bits_of 8) h ++ pad) = h.
Proof.
  intros Hh Hp. induction Hh as [|b h Hb Hh IH]; [by apply octets_of_short|].
  cbn [flat_map]. rewrite <- app_assoc, octets_of_cons, IH by apply bits_of_length.
  f_equal. by apply value_bits.
Qed.
Lemma groups5_bits l : ∃ pad, (length pad < 5)%nat ∧
  flat_map (bits_of 5) (groups5 l) = l ++ pad ∧ Forall (λ v, 0 ≤ v < 32) (groups5 l).
Proof.
  assert (Hb : ∀ k, length k = 5%nat → bits_of 5 (value k) = k).
  { intros k Hk. do 5 (destruct k as [|[] k]; [done| |]); (destruct k; [|done]); done. }
  assert (Hr : ∀ k, length k = 5%nat → 0 ≤ value k < 32)
    by (intros k Hk; pose proof (value_range k) as H; unfold len in H; by rewrite Hk in H).
  enough (Hn : ∀ n l, (length l ≤ n)%nat → ∃ pad, (length pad < 5)%nat ∧
    flat_map (bits_of 5) (groups5 l) = l ++ pad ∧ Forall (λ v, 0 ≤ v < 32) (groups5 l)) by by eapply Hn.
  clear l. induction n as [|n IH]; intros l Hl.
  { destruct l; [|cbn in Hl; lia]. exists []. split; [cbn; lia|done]. }
  destruct l as [|a [|b [|c [|d [|e l]]]]]; [exists []; split; [cbn; lia|done]|..].
  1-4: match goal with |- ∃ pad, _ ∧ _ = ?k ++ pad ∧ _ =>
         exists (replicate (5 - length k) false); split; [cbn; lia|];
         split; [cbn [groups5 flat_map take app replicate]; rewrite Hb by done; done|];
         repeat constructor; by apply Hr end.
  destruct (IH l) as (pad & Hp & He & Hf); [cbn in Hl; lia|]. exists pad. split; [done|].
  cbn [groups5 flat_map]. rewrite He, Hb by done. split; [done|]. constructor; [by apply Hr|done].
Qed.

Lemma LUT_digit v : 0 ≤ v < 32 → (LUT (digit v) = v ∧ LUT (to_ascii_lowercase (digit v)) = v) ∧
  (48 ≤ digit v < 128 ∧ digit v ≠ 61) ∧ 48 ≤ to_ascii_lowercase (digit v) < 128 ∧ to_ascii_lowercase (digit v) ≠ 61.
Proof.
  intros Hv. assert (Hin : v ∈ seqZ 0 32) by (apply elem_of_seqZ; lia).
  clear Hv. revert v Hin. apply Forall_forall. apply (bool_decide_unpack _). vm_compute. exact I.
Qed.

(** The loop of the decoder: [p] are the pending bits. *)
Lemma base32hex_go_bits ds : ∀ p out, (length p < 8)%nat →
  Forall (λ c, 48 ≤ c < 128 ∧ c ≠ 61 ∧ 0 ≤ LUT c < 32) ds →
  base32hex_go ds (value p) (len p) out =
  Some (out ++ octets_of (p ++ flat_map (bits_of 5) (map LUT ds))).
Proof.
  induction ds as [|c ds IH]; intros p out Hp Hds.
  { cbn. by rewrite app_nil_r, octets_of_short, app_nil_r. }
  apply Forall_cons in Hds as [(Hc & Hc61 & Hl) Hds]. cbn [base32hex_go map flat_map].
  destruct (Z.eqb_spec c 61); [done|]. destruct (Z.leb_spec 128 c); [lia|].
  destruct (Z.eqb_spec (LUT c) 0xFF); [lia|]. set (q := bits_of 5 (LUT c)).
  assert (Hq : value q = LUT c) by (apply value_bits; lia).
  assert (Hlq : length q = 5%nat) by apply bits_of_length.
  pose proof (value_range p) as Hvp. assert (Hlp : len p < 8) by (unfold len; lia).
  assert (Hv : Z.lor (as_u64 (value p ≪ 5)) (LUT c) = value (p ++ q)).
  { assert (value p < 2 ^ 8).
    { eapply Z.lt_le_trans; [apply Hvp|]. apply Z.pow_le_mono_r; lia. }
    unfold as_u64. rewrite Z.mod_small by (rewrite Z.shiftl_mul_pow2; lia).
    rewrite lor_shiftl_add by lia. rewrite value_app, Hq. unfold len at 1. by rewrite Hlq. }
  rewrite Hv. replace (len p + 5) with (len (p ++ q)) by (rewrite len_app; unfold len; lia).
  rewrite app_assoc. destruct (Z.leb_spec 8 (len (p ++ q))) as [H8|H8].
  - rewrite <- (take_drop 8 (p ++ q)). set (x := take 8 (p ++ q)). set (y := drop 8 (p ++ q)).
    assert (Hx : length x = 8%nat) by (unfold x; rewrite length_take; unfold len in H8; lia).
    assert (Hy : (length y < 8)%nat) by (unfold y; rewrite length_drop, length_app; lia).
    replace (len (x ++ y) - 8) with (len y) by (rewrite len_app; unfold len; lia).
    pose proof (value_range x) as Hvx. pose proof (value_range y) as Hvy. pose proof (len_nonneg y).
    replace (Z.shiftl 1 (len y) - 1) with (Z.ones (len y)) by (rewrite Z.ones_equiv, Z.shiftl_1_l; lia).
    rewrite Z.land_ones, Z.shiftr_div_pow2, value_app by lia.
    rewrite Z.div_add_l by lia. rewrite (Z.div_small (value y)) by done. rewrite Z.add_0_r.
    rewrite Z.add_comm, Z_mod_plus_full, (Z.mod_small (value y)) by done.
    rewrite as_u8_small by (unfold is_byte; unfold len in Hvx; rewrite Hx in Hvx; done).
    rewrite IH by done. rewrite <- (app_assoc x), (octets_of_cons x) by exact Hx. by rewrite <- app_assoc.
  - rewrite IH; [done| |done]. unfold len in H8. lia.
Qed.

(** The owner of an NSEC3 record is read as the hash it stands for: base 32 with the
    extended hex alphabet in either letter case, up to the first dot, whatever the zone; for a
    hash of any bytes, of whatever length. *)
Theorem nsec3_owner_roundtrip (h zone : bytes) : all_bytes h →
  nsec3_owner_hash (base32hex_encode h ++ 46 :: zone) = Some h ∧
  nsec3_owner_hash (ascii_lower (base32hex_encode h) ++ 46 :: zone) = Some h.
Proof.
  intros Hh. unfold base32hex_encode, nsec3_owner_hash, base32hex_decode, ascii_lower.
  destruct (groups5_bits (flat_map (bits_of 8) h)) as (pad & Hp & He & Hf).
  assert (Hb : ∀ l, Forall (λ c, c ≠ 46) l → before 46 (l ++ 46 :: zone) = l).
  { induction 1 as [|c l Hc Hl IH]; [done|]. cbn. destruct (Z.eqb_spec c 46); [done|]. by rewrite IH. }
  assert (Hgo : ∀ f : Z → Z, (∀ v, 0 ≤ v < 32 → LUT (f v) = v ∧ 48 ≤ f v < 128 ∧ f v ≠ 61) →
    base32hex_go (before 46 (map f (groups5 (flat_map (bits_of 8) h)) ++ 46 :: zone)) 0 0 [] = Some h).
  { intros f Hfd. rewrite Hb.
    2: { apply Forall_map. eapply Forall_impl; [exact Hf|]. intros v Hv.
         destruct (Hfd v Hv) as (_ & ? & ?). lia. }
    change (base32hex_go ?l 0 0 []) with (base32hex_go l (value []) (len (@nil bool)) []).
    rewrite base32hex_go_bits; [|cbn; lia|].
    - cbn [app]. rewrite map_map, (map_ext_in _ (λ v, v)), map_id, He.
      + f_equal. apply octets_of_bytes; [done|lia].
      + intros v Hv%list_elem_of_In. rewrite Forall_forall in Hf. by apply Hfd, Hf.
    - apply Forall_map. eapply Forall_impl; [exact Hf|]. intros v Hv. destruct (Hfd v Hv) as (E & ? & ?).
      rewrite E. split; [done|]. split; [done|exact Hv]. }
  split; [apply Hgo|rewrite map_map; apply (Hgo (λ v, to_ascii_lowercase (digit v)))];
    intros v Hv; destruct (LUT_digit v Hv) as ([Hd Hl] & Hd' & Hl'); [exact (conj Hd Hd')|exact (conj Hl Hl')].
Qed.
Lemma nsec3_owner_roundtrip_witness :
  nsec3_owner_hash (base32hex_encode [0; 255; 17] ++ 46 :: str "test") = Some [0; 255; 17].
Proof. apply (nsec3_owner_roundtrip [0; 255; 17]). apply (bool_decide_unpack _); vm_compute; exact I. Defined.

(** * Record sets *)

Lemma any_of_true {A} (f : A → outcome bool) l : any_of f l = Ok true → ∃ x, x ∈ l ∧ f x = Ok true.
Proof.
  induction l as [|x l IH]; cbn; [done|]. destruct (f x) as [[]|e| |] eqn:E; cbn; try done.
  - intros _. exists x. by split; [apply list_elem_of_here|].
  - intros (y & Hy & Hf)%IH. exists y. split; [by apply list_elem_of_further|done].
Qed.

Section groups.
Context `{Lowercase}.

Definition in_set (records : list DnsRecord.t) (s : rrset) : Prop :=
  let '(d, q, rs) := s in
  rs ≠ [] ∧ Forall (λ r, r ∈ records ∧ is_rrsig r = false ∧ to_lowercase (domain r) = d ∧ query_type r = q) rs.
Lemma add_to_group_sets records d q r groups : r ∈ records → is_rrsig r = false →
  to_lowercase (domain r) = d → query_type r = q → Forall (in_set records) groups →
  Forall (in_set records) (add_to_group d q r groups).
Proof.
  intros Hin Hr Hd Hq Hg. induction Hg as [|[[d' q'] rs] g [Hne Hs] Hg IH]; cbn.
  - constructor; [|constructor]. split; [done|]. by apply Forall_singleton.
  - destruct (_ && _) eqn:E; constructor; try done. bool_prop. simplify_eq.
    split; [by destruct rs|]. apply Forall_app. split; [done|]. by apply Forall_singleton.
Qed.
Lemma add_to_group_has d q r groups x :
  (∃ s, s ∈ groups ∧ x ∈ snd s) ∨ x = r → ∃ s, s ∈ add_to_group d q r groups ∧ x ∈ snd s.
Proof.
  induction groups as [|[[d' q'] rs] g IH]; cbn.
  - intros [(s & Hs & _)| ->]; [by apply elem_of_nil in Hs|]. exists (d, q, [r]). split; [set_solver|]. cbn. set_solver.
  - intros Hx. destruct (_ && _).
    + destruct Hx as [(s & Hs & Hx)| ->]; [|exists (d', q', rs ++ [r]); set_solver].
      apply elem_of_cons in Hs as [->|Hs]; [exists (d', q', rs ++ [r]); set_solver|]. exists s. set_solver.
    + destruct Hx as [(s & Hs & Hx)| ->].
      * apply elem_of_cons in Hs as [->|Hs]; [exists (d', q', rs); set_solver|].
        destruct IH as (s' & Hs' & Hx'); [left; by exists s|]. exists s'. set_solver.
      * destruct IH as (s' & Hs' & Hx'); [by right|]. exists s'. set_solver.
Qed.
(** Grouping keeps every record but the signatures, each under its own name and type. *)
Lemma group_rrsets_spec records : Forall (in_set records) (group_rrsets records) ∧
  ∀ r, r ∈ records → is_rrsig r = false → ∃ s, s ∈ group_rrsets records ∧ r ∈ snd s.
Proof.
  unfold group_rrsets.
  enough (Hgo : ∀ l groups, l ⊆ records → Forall (in_set records) groups →
    let out := fold_left (λ groups r, if is_rrsig r then groups
      else add_to_group (to_lowercase (domain r)) (query_type r) r groups) l groups in
    Forall (in_set records) out ∧
    ∀ r, (r ∈ l ∧ is_rrsig r = false) ∨ (∃ s, s ∈ groups ∧ r ∈ snd s) → ∃ s, s ∈ out ∧ r ∈ snd s).
  { destruct (Hgo records [] ltac:(done) ltac:(constructor)) as [H1 H2]. split; [done|]. intros. apply H2. by left. }
  induction l as [|x l IH]; intros groups Hl Hg; cbn.
  - split; [done|]. intros r [[Hr _]|Hr]; [by apply elem_of_nil in Hr|done].
  - destruct (is_rrsig x) eqn:Hx.
    + destruct (IH groups) as [H1 H2]; [set_solver|done|]. split; [done|]. intros r [[Hr Hs]|Hr]; apply H2; [|by right].
      left. apply elem_of_cons in Hr as [->|Hr]; [congruence|done].
    + destruct (IH (add_to_group (to_lowercase (domain x)) (query_type x) x groups)) as [H1 H2];
        [set_solver|apply add_to_group_sets; [set_solver|done..]|].
      split; [done|]. intros r Hr. apply H2.
      destruct Hr as [[Hr Hs]|Hr]; [apply elem_of_cons in Hr as [->|Hr]|].
      * right. apply add_to_group_has. by right.
      * by left.
      * right. apply add_to_group_has. by left.
Qed.
End groups.

(** * A negative answer that validates is right *)

Section soundness.
Context `{Lowercase} `{Crypto} `{WallClock} (now : Z) (cache : DnsCache).
Context (authorities all_rrsigs : list DnsRecord.t).

Lemma all_signed_each sets : all_signed now cache all_rrsigs sets = Ok true →
  ∀ s, s ∈ sets → authority_signed now cache all_rrsigs s = Ok true.
Proof.
  induction sets as [|s sets IH]; cbn; [by intros _ s ?%elem_of_nil|].
  destruct (authority_signed now cache all_rrsigs s) as [[]|e| |] eqn:E; cbn; try done.
  intros Hs x [->|Hx]%elem_of_cons; [done|by apply IH].
Qed.
(** The record sets of the authority section that are used for denial. *)
Definition denial_sets (q : QueryType.t) : list rrset :=
  group_rrsets (List.filter (λ r, bool_decide (query_type r = q)) authorities).
(** Every record of a type whose signatures verified is in a set that one of them covers. *)
Lemma verified_records q r :
  verify_authority_rrsigs now cache authorities all_rrsigs q = Ok true →
  r ∈ authorities → query_type r = q → is_rrsig r = false →
  ∃ s, s ∈ denial_sets q ∧ r ∈ snd s ∧ authority_signed now cache all_rrsigs s = Ok true.
Proof.
  unfold verify_authority_rrsigs, denial_sets. set (rs := List.filter _ authorities). intros Hv Hr Hq Hs.
  destruct (all_signed now cache all_rrsigs (group_rrsets rs)) as [[]|e| |] eqn:E; cbn in Hv; try done.
  destruct (group_rrsets_spec rs) as [_ Hg]. destruct (Hg r) as (s & Hs1 & Hs2); [|done|].
  { apply list_elem_of_In, filter_In. split; [by apply list_elem_of_In|]. by apply bool_decide_eq_true. }
  exists s. split; [done|]. split; [done|]. by eapply all_signed_each.
Qed.

Lemma dot_labels_lower s : dot_labels (ascii_lower s) = map ascii_lower (dot_labels s).
Proof.
  unfold dot_labels.
  assert (Hs : split_on 46 (ascii_lower s) = map ascii_lower (split_on 46 s)).
  { induction s as [|b s IH]; [done|]. cbn [ascii_lower map split_on] in *. unfold ascii_lower in IH at 1. rewrite IH.
    assert (to_ascii_lowercase b =? 46 = (b =? 46)) as ->.
    { unfold to_ascii_lowercase. destruct (Z.leb_spec 65 b), (Z.leb_spec b 90); cbn; lia. }
    destruct (b =? 46); [done|]. destruct (split_on 46 s); done. }
  rewrite Hs. clear Hs. induction (split_on 46 s) as [|l ls IH]; [done|]. cbn. rewrite IH.
  by destruct l.
Qed.
Lemma ignore_case_order a b : eq_ignore_ascii_case a b = true → canonical_dns_name_order a b = Eq.
Proof.
  unfold eq_ignore_ascii_case. intros Hab. bool_prop. apply name_order_eq.
  by rewrite <- !dot_labels_lower, Hab.
Qed.

Lemma ascending_unique {A B} (cmp : A → A → comparison) `{!TotalCmp cmp} (l : list (A * B)) x y :
  ascending cmp (map fst l) → x ∈ l → y ∈ l → cmp (fst x) (fst y) = Eq → x = y.
Proof.
  induction l as [|z l IH]; [by intros _ ?%elem_of_nil|]. cbn. intros [Ha Hz]%StronglySorted_inv Hx Hy Hc.
  rewrite Forall_map, Forall_forall in Hz.
  apply elem_of_cons in Hx as [->|Hx], Hy as [->|Hy]; [done| | |by apply IH].
  - apply Hz in Hy. cbn in Hy. congruence.
  - apply Hz in Hx. cbn in Hx. apply (cmp_gt cmp) in Hx. congruence.
Qed.

Section nsec.
(** A zone: its owner names in canonical order, each with its types. *)
Context (zone : list (bytes * list Z)).
Hypothesis zone_order : ascending canonical_dns_name_order (map fst zone).

Definition nsec_of (r : DnsRecord.t) : Prop := ∃ o n types ttl,
  (o, types) ∈ zone ∧ (o, n) ∈ ring (map fst zone) ∧ r = DnsRecord.NSEC o n (encode_bitmap types) ttl.

(** The NSEC record of this name, in any letter case, is among those of the answer. *)
Definition shown (n : bytes) : Prop :=
  ∃ r, r ∈ List.filter is_nsec authorities ∧ eq_ignore_ascii_case (domain r) n = true.
(** The closest ancestor shown: the name itself or a parent, and no longer one. *)
Definition closest_shown (qname : bytes) (l : list bytes) : Prop :=
  l ≠ [] ∧ shown (join [46] l) ∧
  ∃ pre, dot_labels qname = pre ++ l ∧
    ∀ pre1 pre2, pre = pre1 ++ pre2 → pre2 ≠ [] → ¬ shown (join [46] (pre2 ++ l)).

Lemma shown_test n : existsb (λ r, is_nsec r && eq_ignore_ascii_case (domain r) n)
  (List.filter is_nsec authorities) = true ↔ shown n.
Proof.
  rewrite existsb_exists. unfold shown. split.
  - intros (r & Hr%list_elem_of_In & [_ He]%andb_true_iff). by exists r.
  - intros (r & Hr & He). exists r. split; [by apply list_elem_of_In|]. rewrite He, andb_true_r.
    by apply list_elem_of_In, filter_In in Hr as [_ ?].
Qed.
Lemma closest_of_shown l : l ≠ [] → shown (join [46] l) → ∀ pre,
  (∀ pre1 pre2, pre = pre1 ++ pre2 → pre2 ≠ [] → ¬ shown (join [46] (pre2 ++ l))) →
  closest_of (pre ++ l) (List.filter is_nsec authorities) = Some (join [46] l).
Proof.
  intros Hl Hs. induction pre as [|x pre IH]; intros Hpre.
  - destruct l as [|y l]; [done|]. cbn [app closest_of]. by rewrite (proj2 (shown_test _) Hs).
  - cbn [app closest_of]. destruct (existsb _ _) eqn:E.
    + exfalso. apply shown_test in E. by apply (Hpre [] (x :: pre)).
    + apply IH. intros pre1 pre2 -> Hne. by apply (Hpre (x :: pre1) pre2).
Qed.

(** What a secure NXDOMAIN says of the zone: the name is no owner; and a wildcard right below the closest ancestor shown
    is one only if its own record is shown too. *)
Definition nothing_there (qname : bytes) : Prop :=
  (∀ o types, (o, types) ∈ zone → canonical_dns_name_order qname o ≠ Eq) ∧
  ∀ l, closest_shown qname l → ∀ o types, (o, types) ∈ zone →
    canonical_dns_name_order (str "*." ++ join [46] l) o = Eq → shown (str "*." ++ join [46] l).
(** What a secure NODATA says of it: nobody by the name has the type, nor an alias. *)
Definition nothing_of_type (qname : bytes) (qtype : Z) : Prop :=
  ∀ o types, (o, types) ∈ zone → canonical_dns_name_order qname o = Eq →
    qtype ∉ types ∧ to_num QueryType.CNAME ∉ types.

Section verified.
Hypothesis all_of_zone : ∀ r, r ∈ List.filter is_nsec authorities → nsec_of r.

Lemma covered_no_owner n : existsb (λ r, match r with
    | DnsRecord.NSEC domain next_domain _ _ => nsec_covers_name domain next_domain n
    | _ => false
    end) (List.filter is_nsec authorities) = true →
  ∀ o types, (o, types) ∈ zone → canonical_dns_name_order n o ≠ Eq.
Proof.
  intros (r & Hr%list_elem_of_In & Hc)%existsb_exists o types Ho.
  destruct (all_of_zone r Hr) as (o' & m & t' & ttl & _ & Hring & ->).
  pose proof (gap_not_element canonical_dns_name_order _ _ _ n zone_order Hring Hc) as Hg.
  rewrite Forall_map, Forall_forall in Hg. by apply (Hg _ Ho).
Qed.
Lemma nsec_nxdomain_sound qname : nsec_nxdomain (List.filter is_nsec authorities) qname = true →
  nothing_there qname.
Proof.
  unfold nsec_nxdomain. intros [Hn Hw]%andb_true_iff. split; [by apply covered_no_owner|].
  intros l (Hl & Hs & pre & Hq & Hpre) o types Ho Heq. unfold closest_encloser in Hw. rewrite Hq in Hw.
  rewrite (closest_of_shown l Hl Hs pre Hpre) in Hw. cbv zeta in Hw.
  apply existsb_exists in Hw as (r & Hr & [Hc|Hc]%orb_true_iff).
  - exfalso. revert Heq. apply (covered_no_owner _) with types; [|done]. apply existsb_exists. by exists r.
  - apply andb_true_iff in Hc as [_ Hc]. exists r. split; [by apply list_elem_of_In|done].
Qed.
Lemma nsec_nodata_sound qname qtype : 0 ≤ qtype < 2 ^ 16 →
  nsec_nodata (List.filter is_nsec authorities) qname qtype = Ok true → nothing_of_type qname qtype.
Proof.
  intros Hqt Hany o types Ho Heq. apply any_of_true in Hany as (r & Hr & Hp).
  destruct (all_of_zone r Hr) as (o' & n & t' & ttl & Ho' & _ & ->).
  unfold nsec_proves_nodata in Hp. destruct (eq_ignore_ascii_case o' qname) eqn:Hi; [|done].
  apply ignore_case_order in Hi.
  assert ((o', t') = (o, types)) as [= -> ->].
  { apply (ascending_unique canonical_dns_name_order zone); [done..|]. cbn.
    by rewrite (cmp_eq_l (cmp := canonical_dns_name_order) o' qname o Hi). }
  unfold type_absent in Hp. rewrite !bitmap_contains in Hp by (done || lia). cbn [obind] in Hp.
  case_bool_decide; [done|]. split; [done|]. injection Hp as Hp. bool_prop. done.
Qed.
End verified.

(** C22: what a negative answer proved by NSEC records says of the zone. If the record
    sets whose signatures verify consist of NSEC records of the zone, then an NXDOMAIN that
    validates as secure is for a name that is no owner of the zone, in any letter case, and a wildcard right below
    its closest ancestor among the records shown is an owner at most when the record of this
    very wildcard is shown; and a NODATA that does is for a type that the name does not have, nor an alias.
    (The record of a wildcard is taken for its denial: see [wildcard_denial_unsound].) *)
Theorem nsec_denial_sound (qname : bytes) (qtype : Z) (is_nxdomain : bool) :
  (∀ s, s ∈ denial_sets QueryType.NSEC → authority_signed now cache all_rrsigs s = Ok true →
     Forall nsec_of (snd s)) →
  List.filter is_nsec authorities ≠ [] → 0 ≤ qtype < 2 ^ 16 →
  validate_denial now cache authorities all_rrsigs qname qtype is_nxdomain = Ok Secure →
  if is_nxdomain then nothing_there qname else nothing_of_type qname qtype.
Proof.
  intros Hsig Hne Hqt Hv. unfold validate_denial in Hv.
  rewrite bool_decide_eq_false_2 in Hv by done. cbn [negb] in Hv.
  destruct (verify_authority_rrsigs _ _ _ _ _) as [[]|e| |] eqn:Hver; try done. cbn [obind negb] in Hv.
  assert (Hz : ∀ r, r ∈ List.filter is_nsec authorities → nsec_of r).
  { intros r [Hr Hn]%list_elem_of_In%filter_In. apply list_elem_of_In in Hr.
    destruct (verified_records QueryType.NSEC r Hver Hr) as (s & Hs1 & Hs2 & Hs3); [by destruct r..|].
    specialize (Hsig s Hs1 Hs3). rewrite Forall_forall in Hsig. by apply Hsig. }
  destruct is_nxdomain.
  - apply nsec_nxdomain_sound; [done|]. by destruct (nsec_nxdomain _ _).
  - apply nsec_nodata_sound; [done..|]. by destruct (nsec_nodata _ _ _) as [[]|e| |].
Qed.
End nsec.

Section nsec3.
(** The hashes of a zone's names in order, with the types at each. *)
Context (hashes : list (bytes * list Z)) (alg iterations : Z) (salt : bytes).
Hypothesis hash_order : ascending byte_order (map fst hashes).

Definition nsec3_of (r : DnsRecord.t) : Prop := ∃ d h next types flags ttl,
  (h, types) ∈ hashes ∧ (h, next) ∈ ring (map fst hashes) ∧ nsec3_owner_hash d = Some h ∧
  r = DnsRecord.NSEC3 d alg flags iterations salt next (encode_bitmap types) ttl.

Lemma decode_owners_of nsec3s : Forall nsec3_of nsec3s →
  Forall (λ '(h, r), ∃ d next types flags ttl, (h, types) ∈ hashes ∧ (h, next) ∈ ring (map fst hashes) ∧
    r = DnsRecord.NSEC3 d alg flags iterations salt next (encode_bitmap types) ttl) (decode_owners nsec3s).
Proof.
  induction 1 as [|r l Hr Hl IH]; [constructor|]. cbn [decode_owners omap list_omap].
  destruct Hr as (d & h & next & types & flags & ttl & Hz & Hring & Ho & ->). cbn [is_nsec3 Record.domain].
  rewrite Ho. cbn. constructor; [|exact IH]. by exists d, next, types, flags, ttl.
Qed.

Section proof.
Context (decoded : list (bytes * DnsRecord.t)).
Hypothesis decoded_of : Forall (λ '(h, r), ∃ d next types flags ttl, (h, types) ∈ hashes ∧
  (h, next) ∈ ring (map fst hashes) ∧
  r = DnsRecord.NSEC3 d alg flags iterations salt next (encode_bitmap types) ttl) decoded.

Lemma covered_hash target : nsec3_any_covers decoded target = true → target ∉ map fst hashes.
Proof.
  intros ([h r] & Hr%list_elem_of_In & Hc)%existsb_exists Hin. rewrite Forall_forall in decoded_of.
  destruct (decoded_of _ Hr) as (d & next & types & flags & ttl & _ & Hring & ->).
  rewrite nsec3_range_gap in Hc.
  pose proof (gap_not_element byte_order _ _ _ target hash_order Hring Hc) as Hg.
  rewrite Forall_forall in Hg. apply (Hg _ Hin), byte_order_eq. done.
Qed.

(** The closest encloser exists, and neither the next closer name nor a wildcard there does. *)
Definition encloser_proof (ls : list bytes) : Prop := ∃ l ce nc wc,
  (∃ l', ls = l' ++ l) ∧ l ≠ ls ∧
  nsec3_hash (join [46] l) alg iterations salt = Ok (Some ce) ∧ ce ∈ map fst hashes ∧
  (∃ x, (∃ l'', ls = l'' ++ x :: l) ∧ nsec3_hash (join [46] (x :: l)) alg iterations salt = Ok (Some nc)) ∧
  nc ∉ map fst hashes ∧
  nsec3_hash (str "*." ++ join [46] l) alg iterations salt = Ok (Some wc) ∧ wc ∉ map fst hashes.

Lemma nxdomain_loop ls : ∀ l nc hs pre x, ls = pre ++ x :: l →
  nsec3_hash (join [46] (x :: l)) alg iterations salt = Ok nc →
  map_all (λ l, nsec3_hash (join [46] l) alg iterations salt) (suffixes l) = Ok hs →
  nsec3_nxdomain alg iterations salt decoded nc (suffixes l) hs = Ok true → encloser_proof ls.
Proof.
  induction l as [|y l IH]; intros nc hs pre x Hls Hnc Hhs; [by injection Hhs as <-|].
  cbn [suffixes map_all] in Hhs.
  destruct (nsec3_hash (join [46] (y :: l)) alg iterations salt) as [ce|e| |] eqn:Hce; try done. cbn [obind] in Hhs.
  destruct (map_all _ (suffixes l)) as [hs'|e| |] eqn:Hhs'; try done. injection Hhs as <-.
  cbn [suffixes nsec3_nxdomain].
  assert (Hnext : nsec3_nxdomain alg iterations salt decoded ce (suffixes l) hs' = Ok true → encloser_proof ls).
  { apply (IH ce hs' (pre ++ [x]) y); [by rewrite <- app_assoc|done|done]. }
  destruct ce as [ce|]; [|done]. destruct (existsb _ decoded) eqn:Hex; cbn [negb]; [|done].
  destruct nc as [nc|]; [|done]. destruct (nsec3_any_covers decoded nc) eqn:Hcov; cbn [negb]; [|done].
  destruct (nsec3_hash (str "*." ++ join [46] (y :: l)) alg iterations salt) as [wc|e| |] eqn:Hwc; try done.
  cbn [obind]. destruct wc as [wc|]; [|done]. destruct (nsec3_any_covers decoded wc) eqn:Hw; [|done]. intros _.
  exists (y :: l), ce, nc, wc. split; [exists (pre ++ [x]); by rewrite <- app_assoc|]. split.
  { intros Heq. apply (f_equal length) in Heq. rewrite Hls, length_app in Heq. cbn in Heq. lia. }
  split; [done|]. split.
  - apply existsb_exists in Hex as ([h r] & Hr%list_elem_of_In & Hb). bool_prop. subst h.
    rewrite Forall_forall in decoded_of. destruct (decoded_of _ Hr) as (d & next & types & flags & ttl & Hin & _).
    apply list_elem_of_In, in_map_iff. exists (ce, types). split; [done|by apply list_elem_of_In].
  - split; [exists x; split; [by exists pre|done]|]. split; [by apply covered_hash|]. split; [done|by apply covered_hash].
Qed.
End proof.

(** C23: a negative answer proved by NSEC3 records is right about the zone. If the record sets
    whose signatures verify consist of NSEC3 records of the zone, an NXDOMAIN that validates as
    secure comes with the closest encloser proof of RFC 5155: an ancestor of the name is
    hashed in the zone, while neither the name one label below it towards the one asked for
    nor the wildcard there is; and a NODATA that does is for a type that the hashed name does
    not have, nor an alias. *)
Theorem nsec3_denial_sound (qname : bytes) (qtype : Z) (is_nxdomain : bool) :
  (∀ s, s ∈ denial_sets QueryType.NSEC3 → authority_signed now cache all_rrsigs s = Ok true →
     Forall nsec3_of (snd s)) →
  List.filter is_nsec authorities = [] → 0 ≤ qtype < 2 ^ 16 →
  validate_denial now cache authorities all_rrsigs qname qtype is_nxdomain = Ok Secure →
  if is_nxdomain then encloser_proof (dot_labels qname)
  else ∃ h types, nsec3_hash qname alg iterations salt = Ok (Some h) ∧ (h, types) ∈ hashes ∧
    qtype ∉ types ∧ to_num QueryType.CNAME ∉ types.
Proof.
  intros Hsig Hne Hqt Hv. unfold validate_denial in Hv.
  rewrite bool_decide_eq_true_2 in Hv by done. cbn [negb] in Hv.
  destruct (List.filter is_nsec3 authorities) as [|first rest] eqn:Hf; [done|].
  destruct (verify_authority_rrsigs _ _ _ _ _) as [[]|e| |] eqn:Hver; try done. cbn [obind negb] in Hv.
  assert (Hz : Forall nsec3_of (first :: rest)).
  { apply Forall_forall. intros r Hr. rewrite <- Hf in Hr. apply list_elem_of_In, filter_In in Hr as [Hr Hn].
    apply list_elem_of_In in Hr.
    destruct (verified_records QueryType.NSEC3 r Hver Hr) as (s & Hs1 & Hs2 & Hs3); [by destruct r..|].
    specialize (Hsig s Hs1 Hs3). rewrite Forall_forall in Hsig. by apply Hsig. }
  pose proof (decode_owners_of _ Hz) as Hdec. apply Forall_inv in Hz as (d & h & next & types & flags & ttl & _ & _ & _ & Hfirst).
  rewrite Hfirst in Hv at 1. cbn iota in Hv.
  destruct (nsec3_hash qname alg iterations salt) as [[qh|]|e| |] eqn:Hq; try done. cbn [obind] in Hv.
  destruct is_nxdomain.
  - unfold nsec3_proves_nxdomain in Hv. destruct (dot_labels qname) as [|x l] eqn:Hl; [done|].
    cbn [suffixes map_all] in Hv.
    destruct (nsec3_hash (join [46] (x :: l)) alg iterations salt) as [nc|e| |] eqn:Hnc; try done. cbn [obind] in Hv.
    destruct (map_all _ (suffixes l)) as [hs|e| |] eqn:Hhs; try done. cbn [obind] in Hv.
    destruct (nsec3_nxdomain _ _ _ _ _ _ _) as [[]|e| |] eqn:Hx; try done.
    eapply (nxdomain_loop _ Hdec (x :: l) l nc hs [] x); done.
  - unfold nsec3_proves_nodata in Hv. destruct (any_of _ _) as [[]|e| |] eqn:Hany; try done.
    apply any_of_true in Hany as ([oh r] & Hr & Hp). rewrite Forall_forall in Hdec.
    destruct (Hdec _ Hr) as (d' & next' & types' & flags' & ttl' & Hin & _ & ->).
    case_bool_decide; [|done]. subst oh. exists qh, types'. split; [done|]. split; [done|].
    unfold type_absent in Hp. rewrite !bitmap_contains in Hp by (done || lia). cbn [obind] in Hp.
    case_bool_decide; [done|]. split; [done|]. injection Hp as Hp. bool_prop. done.
Qed.
End nsec3.
End soundness.

(** * An example zone *)

#[local] Existing Instance lowercase_ascii.

(** Signatures and digests that are checksums, for examples to run with. *)
Definition checksum (l : bytes) : Z := fold_left (λ acc b, (acc * 31 + b) mod 251) l 7.
Definition sample_verify (key data sig : bytes) : bool :=
  bool_decide (sig = replicate 64 (checksum (key ++ data))).
Definition sample_digest (l : bytes) : bytes := [checksum l; checksum (0 :: l)].
Definition sample_crypto : Crypto :=
  MkCrypto sample_verify sample_verify sample_verify sample_digest sample_digest sample_digest.
Definition sample_clock : WallClock := λ _, 1700000000 * NS.
#[local] Existing Instance sample_crypto.
#[local] Existing Instance sample_clock.

(** An Ed25519 key of a zone, and a signature made with it. *)
Definition sample_key (n : Z) : bytes := replicate 32 n.
Definition sample_dnskey (zone : bytes) (n : Z) : DnsRecord.t :=
  DnsRecord.DNSKEY zone 257 3 15 (sample_key n) 3600.
Definition sign (algorithm tag : Z) (key signer owner : bytes) (q : Z) (records : list DnsRecord.t) : DnsRecord.t :=
  let rrsig sig := DnsRecord.RRSIG owner q algorithm 1 3600 1800000000 1600000000 tag signer sig 3600 in
  match build_signed_data (rrsig []) records with
  | Ok data => rrsig (replicate 64 (checksum (key ++ data)))
  | _ => rrsig []
  end.
Definition sample_sign (n : Z) (signer owner : bytes) (q : Z) (records : list DnsRecord.t) : DnsRecord.t :=
  sign 15 (compute_key_tag 257 3 15 (sample_key n)) (sample_key n) signer owner q records.

Definition sample_packet (an au : list DnsRecord.t) : DnsPacket :=
  {| header := Header.new; questions := []; answers := an; authorities := au; resources := []; edns := None |}.
Definition insert_sample (d : bytes) (q : QueryType.t) (rs : list DnsRecord.t) (c : DnsCache) : DnsCache :=
  match insert iter_list 0 d q (sample_packet rs []) c with Ok c => c | _ => c end.
Definition test_cache : DnsCache := Eval vm_compute in
  insert_sample (str "test") QueryType.DNSKEY [sample_dnskey (str "test") 5] (Cache.new 100 60 86400).

(** The zone [test], with a wildcard. *)
Definition test_zone : list (bytes * list Z) :=
  [(str "test", [2; 6; 48]); (str "*.test", [1]); (str "mail.test", [1; 15])].
Definition test_nsec (o n : bytes) (types : list Z) : DnsRecord.t :=
  DnsRecord.NSEC o n (encode_bitmap types) 3600.
Definition nsec_apex : DnsRecord.t := test_nsec (str "test") (str "*.test") [2; 6; 48].
Definition nsec_wild : DnsRecord.t := test_nsec (str "*.test") (str "mail.test") [1].
Definition nsec_mail : DnsRecord.t := test_nsec (str "mail.test") (str "test") [1; 15].
Definition test_sign (owner : bytes) (q : Z) (r : DnsRecord.t) : DnsRecord.t :=
  sample_sign 5 (str "test") owner q [r].
Definition test_rrsigs : list DnsRecord.t := Eval vm_compute in
  [test_sign (str "test") 47 nsec_apex; test_sign (str "*.test") 47 nsec_wild;
   test_sign (str "mail.test") 47 nsec_mail].

Lemma test_zone_order : ascending canonical_dns_name_order (map fst test_zone).
Proof. repeat constructor; by vm_compute. Qed.
Lemma test_zone_records : nsec_of test_zone nsec_apex ∧ nsec_of test_zone nsec_mail ∧ nsec_of test_zone nsec_wild.
Proof.
  split; [|split]; eexists _, _, _, _; (split; [|split; [|reflexivity]]);
    apply (bool_decide_unpack _); vm_compute; exact I.
Qed.
(** The zone [test] without the wildcard. *)
Definition plain_zone : list (bytes * list Z) := [(str "test", [2; 6; 48]); (str "mail.test", [1; 15])].
Definition plain_apex : DnsRecord.t := test_nsec (str "test") (str "mail.test") [2; 6; 48].
Definition plain_rrsigs : list DnsRecord.t := Eval vm_compute in
  [test_sign (str "test") 47 plain_apex; test_sign (str "mail.test") 47 nsec_mail].
Lemma plain_zone_order : ascending canonical_dns_name_order (map fst plain_zone).
Proof. repeat constructor; by vm_compute. Qed.
Lemma plain_zone_records : nsec_of plain_zone plain_apex ∧ nsec_of plain_zone nsec_mail.
Proof.
  split; eexists _, _, _, _; (split; [|split; [|reflexivity]]);
    apply (bool_decide_unpack _); vm_compute; exact I.
Qed.
Lemma nsec_denial_sound_witness :
  (validate_denial 0 test_cache [plain_apex; nsec_mail] plain_rrsigs (str "www.test") 1 true = Ok Secure ∧
   nothing_there [plain_apex; nsec_mail] plain_zone (str "www.test")) ∧
  validate_denial 0 test_cache [nsec_mail] test_rrsigs (str "MAIL.test") 28 false = Ok Secure ∧
  nothing_of_type test_zone (str "MAIL.test") 28.
Proof.
  split.
  - assert (Hv : validate_denial 0 test_cache [plain_apex; nsec_mail] plain_rrsigs (str "www.test") 1 true = Ok Secure)
      by (vm_compute; reflexivity).
    split; [exact Hv|].
    apply (nsec_denial_sound 0 test_cache [plain_apex; nsec_mail] plain_rrsigs plain_zone plain_zone_order
      (str "www.test") 1 true); [|discriminate|lia|exact Hv].
    intros s Hs _. assert (Hsub : denial_sets [plain_apex; nsec_mail] QueryType.NSEC =
      [(str "test", QueryType.NSEC, [plain_apex]); (str "mail.test", QueryType.NSEC, [nsec_mail])])
      by (vm_compute; reflexivity).
    rewrite Hsub in Hs. apply elem_of_cons in Hs as [->|Hs]; [|apply list_elem_of_singleton in Hs as ->];
      (constructor; [apply plain_zone_records|constructor]).
  - assert (Hv : validate_denial 0 test_cache [nsec_mail] test_rrsigs (str "MAIL.test") 28 false = Ok Secure)
      by (vm_compute; reflexivity).
    split; [exact Hv|].
    apply (nsec_denial_sound 0 test_cache [nsec_mail] test_rrsigs test_zone test_zone_order
      (str "MAIL.test") 28 false); [|discriminate|lia|exact Hv].
    intros s Hs _. change (denial_sets [nsec_mail] QueryType.NSEC)
      with [(str "mail.test", QueryType.NSEC, [nsec_mail])] in Hs.
    apply list_elem_of_singleton in Hs as ->. constructor; [apply test_zone_records|constructor].
Defined.

(** For NXDOMAIN, the NSEC records must deny the wildcard too, but the code takes the
    record of the wildcard itself for that, without looking at its types: two genuine records
    of a zone with a wildcard that has addresses make an NXDOMAIN validate as secure for a name
    the wildcard answers. *)
Theorem wildcard_denial_unsound :
  (str "*.test", [1]) ∈ test_zone ∧ Forall (nsec_of test_zone) [nsec_apex; nsec_mail; nsec_wild] ∧
  validate_denial 0 test_cache [nsec_apex; nsec_mail; nsec_wild] test_rrsigs (str "www.test") 1 true = Ok Secure.
Proof.
  split; [apply list_elem_of_further, list_elem_of_here|]. split.
  - destruct test_zone_records as (Ha & Hm & Hw). repeat constructor; done.
  - vm_compute. reflexivity.
Qed.

(** The same zone hashed: its apex and [mail.test]. *)
Definition hashed (n : bytes) : bytes :=
  match nsec3_hash n 1 0 [] with Ok (Some h) => h | _ => [] end.
Definition test_hashes : list (bytes * list Z) :=
  Eval vm_compute in [(hashed (str "test"), [2; 6; 48]); (hashed (str "mail.test"), [1; 15])].
Definition hash_owner (n : bytes) : bytes := base32hex_encode (hashed n) ++ str ".test".
Definition test_nsec3 (o n : bytes) (types : list Z) : DnsRecord.t :=
  DnsRecord.NSEC3 (hash_owner o) 1 0 0 [] (hashed n) (encode_bitmap types) 3600.
Definition nsec3_apex : DnsRecord.t := test_nsec3 (str "test") (str "mail.test") [2; 6; 48].
Definition nsec3_mail : DnsRecord.t := test_nsec3 (str "mail.test") (str "test") [1; 15].
Definition test_rrsigs3 : list DnsRecord.t := Eval vm_compute in
  [test_sign (hash_owner (str "test")) 50 nsec3_apex; test_sign (hash_owner (str "mail.test")) 50 nsec3_mail].

Lemma test_hashes_records : nsec3_of test_hashes 1 0 [] nsec3_apex ∧ nsec3_of test_hashes 1 0 [] nsec3_mail.
Proof.
  split; eexists _, _, _, _, _, _; (split; [|split; [|split; [|reflexivity]]]);
    [..|by vm_compute| | |by vm_compute]; apply (bool_decide_unpack _); vm_compute; exact I.
Qed.
Lemma nsec3_denial_sound_witness :
  validate_denial 0 test_cache [nsec3_apex; nsec3_mail] test_rrsigs3 (str "www.test") 1 true = Ok Secure ∧
  encloser_proof test_hashes 1 0 [] [str "www"; str "test"].
Proof.
  assert (Hv : validate_denial 0 test_cache [nsec3_apex; nsec3_mail] test_rrsigs3 (str "www.test") 1 true = Ok Secure)
    by (vm_compute; reflexivity).
  split; [exact Hv|].
  assert (Hsig : ∀ s, s ∈ denial_sets [nsec3_apex; nsec3_mail] QueryType.NSEC3 →
    authority_signed 0 test_cache test_rrsigs3 s = Ok true → Forall (nsec3_of test_hashes 1 0 []) (snd s)).
  { intros s Hs _. assert (Hsub : denial_sets [nsec3_apex; nsec3_mail] QueryType.NSEC3 =
      [(ascii_lower (hash_owner (str "test")), QueryType.NSEC3, [nsec3_apex]);
       (ascii_lower (hash_owner (str "mail.test")), QueryType.NSEC3, [nsec3_mail])]) by (vm_compute; reflexivity).
    rewrite Hsub in Hs. destruct test_hashes_records as [Ha Hm].
    apply elem_of_cons in Hs as [->|Hs]; [constructor; [exact Ha|constructor]|].
    apply list_elem_of_singleton in Hs as ->. constructor; [exact Hm|constructor]. }
  assert (Ho : ascending byte_order (map fst test_hashes)) by (repeat constructor; vm_compute; reflexivity).
  refine (nsec3_denial_sound 0 test_cache [nsec3_apex; nsec3_mail] test_rrsigs3 test_hashes 1 0 [] Ho
    (str "www.test") 1 true Hsig _ _ Hv); [vm_compute; reflexivity|lia].
Defined.
