(* ===== verification/Dnssec.v ===== *)
(** DNSSEC validation of a response, [src/src/dnssec.rs]: the pinned root keys, fetching keys and
    delegations through the cache and the recursive resolver, the chain of trust from a zone
    up to the root, and the verdict on a response. *)
From stdpp Require Import gmap.
From S2P Require Import Prelude Net Text Acl Srtt Stats Forward Cache Local Buffer Question Header Record.
From S2P Require Import Shape Packet Async Recursive Canon Denial.
Open Scope outcome_scope.
Open Scope fut_scope.

Record ValidationStats := MkValidationStats {
  dnskey_cache_hits : Z;
  dnskey_fetches : Z;
  ds_cache_hits : Z;
  ds_fetches : Z;
  elapsed_ms : Z
}.

Definition MAX_CHAIN_DEPTH : Z := 10.

(** * The trust anchors *)

Definition ROOT_KSK_ALGORITHM : Z := 8.
Definition ROOT_KSK_FLAGS : Z := 257.
Definition ROOT_KSK_2017_PUBLIC_KEY : bytes :=
  [0x03; 0x01; 0x00; 0x01; 0xac; 0xff; 0xb4; 0x09; 0xbc; 0xc9; 0x39; 0xf8; 0x31; 0xf7; 0xa1;
   0xe5; 0xec; 0x88; 0xf7; 0xa5; 0x92; 0x55; 0xec; 0x53; 0x04; 0x0b; 0xe4; 0x32; 0x02; 0x73;
   0x90; 0xa4; 0xce; 0x89; 0x6d; 0x6f; 0x90; 0x86; 0xf3; 0xc5; 0xe1; 0x77; 0xfb; 0xfe; 0x11;
   0x81; 0x63; 0xaa; 0xec; 0x7a; 0xf1; 0x46; 0x2c; 0x47; 0x94; 0x59; 0x44; 0xc4; 0xe2; 0xc0;
   0x26; 0xbe; 0x5e; 0x98; 0xbb; 0xcd; 0xed; 0x25; 0x97; 0x82; 0x72; 0xe1; 0xe3; 0xe0; 0x79;
   0xc5; 0x09; 0x4d; 0x57; 0x3f; 0x0e; 0x83; 0xc9; 0x2f; 0x02; 0xb3; 0x2d; 0x35; 0x13; 0xb1;
   0x55; 0x0b; 0x82; 0x69; 0x29; 0xc8; 0x0d; 0xd0; 0xf9; 0x2c; 0xac; 0x96; 0x6d; 0x17; 0x76;
   0x9f; 0xd5; 0x86; 0x7b; 0x64; 0x7c; 0x3f; 0x38; 0x02; 0x9a; 0xbd; 0xc4; 0x81; 0x52; 0xeb;
   0x8f; 0x20; 0x71; 0x59; 0xec; 0xc5; 0xd2; 0x32; 0xc7; 0xc1; 0x53; 0x7c; 0x79; 0xf4; 0xb7;
   0xac; 0x28; 0xff; 0x11; 0x68; 0x2f; 0x21; 0x68; 0x1b; 0xf6; 0xd6; 0xab; 0xa5; 0x55; 0x03;
   0x2b; 0xf6; 0xf9; 0xf0; 0x36; 0xbe; 0xb2; 0xaa; 0xa5; 0xb3; 0x77; 0x8d; 0x6e; 0xeb; 0xfb;
   0xa6; 0xbf; 0x9e; 0xa1; 0x91; 0xbe; 0x4a; 0xb0; 0xca; 0xea; 0x75; 0x9e; 0x2f; 0x77; 0x3a;
   0x1f; 0x90; 0x29; 0xc7; 0x3e; 0xcb; 0x8d; 0x57; 0x35; 0xb9; 0x32; 0x1d; 0xb0; 0x85; 0xf1;
   0xb8; 0xe2; 0xd8; 0x03; 0x8f; 0xe2; 0x94; 0x19; 0x92; 0x54; 0x8c; 0xee; 0x0d; 0x67; 0xdd;
   0x45; 0x47; 0xe1; 0x1d; 0xd6; 0x3a; 0xf9; 0xc9; 0xfc; 0x1c; 0x54; 0x66; 0xfb; 0x68; 0x4c;
   0xf0; 0x09; 0xd7; 0x19; 0x7c; 0x2c; 0xf7; 0x9e; 0x79; 0x2a; 0xb5; 0x01; 0xe6; 0xa8; 0xa1;
   0xca; 0x51; 0x9a; 0xf2; 0xcb; 0x9b; 0x5f; 0x63; 0x67; 0xe9; 0x4c; 0x0d; 0x47; 0x50; 0x24;
   0x51; 0x35; 0x7b; 0xe1; 0xb5].
Definition ROOT_KSK_2024_PUBLIC_KEY : bytes :=
  [0x03; 0x01; 0x00; 0x01; 0xaf; 0x7a; 0x8d; 0xeb; 0xa4; 0x9d; 0x99; 0x5a; 0x79; 0x2a; 0xef;
   0xc8; 0x02; 0x63; 0xe9; 0x91; 0xef; 0xdb; 0xc8; 0x61; 0x38; 0xa9; 0x31; 0xde; 0xb2; 0xc6;
   0x5d; 0x56; 0x82; 0xea; 0xb5; 0xd3; 0xb0; 0x37; 0x38; 0xe3; 0xdf; 0xdc; 0x89; 0xd9; 0x6d;
   0xa6; 0x4c; 0x86; 0xc0; 0x22; 0x4d; 0x9c; 0xe0; 0x25; 0x14; 0xd2; 0x85; 0xda; 0x30; 0x68;
   0xb1; 0x90; 0x54; 0xe5; 0xe7; 0x87; 0xb2; 0x96; 0x90; 0x58; 0xe9; 0x8e; 0x12; 0x56; 0x6c;
   0x8c; 0x80; 0x8c; 0x40; 0xc0; 0xb7; 0x69; 0xe1; 0xdb; 0x1a; 0x24; 0xa1; 0xbd; 0x9b; 0x31;
   0xe3; 0x03; 0x18; 0x4a; 0x31; 0xfc; 0x7b; 0xb5; 0x6b; 0x85; 0xbb; 0xba; 0x8a; 0xbc; 0x02;
   0xcd; 0x50; 0x40; 0xa4; 0x44; 0xa3; 0x6d; 0x47; 0x69; 0x59; 0x69; 0x84; 0x9e; 0x16; 0xad;
   0x85; 0x6b; 0xb5; 0x8e; 0x8f; 0xac; 0x88; 0x55; 0x22; 0x44; 0x00; 0x31; 0x9b; 0xda; 0xb2;
   0x24; 0xd8; 0x3f; 0xc0; 0xe6; 0x6a; 0xab; 0x32; 0xff; 0x74; 0xbf; 0xea; 0xf0; 0xf9; 0x1c;
   0x45; 0x4e; 0x68; 0x50; 0xa1; 0x29; 0x52; 0x07; 0xbb; 0xd4; 0xcd; 0xde; 0x8f; 0x6f; 0xfb;
   0x08; 0xfa; 0xa9; 0x75; 0x5c; 0x2e; 0x32; 0x84; 0xef; 0xa0; 0x1f; 0x99; 0x39; 0x3e; 0x18;
   0x78; 0x6c; 0xb1; 0x32; 0xf1; 0xe6; 0x6e; 0xbc; 0x65; 0x17; 0x31; 0x8e; 0x1c; 0xe8; 0xa3;
   0xb7; 0x33; 0x7e; 0xbb; 0x54; 0xd0; 0x35; 0xab; 0x57; 0xd9; 0x70; 0x6e; 0xcd; 0x93; 0x50;
   0xd4; 0xaf; 0xac; 0xd8; 0x25; 0xe4; 0x3c; 0x86; 0x68; 0xee; 0xce; 0x89; 0x81; 0x9c; 0xaf;
   0x68; 0x17; 0xaf; 0x62; 0xdc; 0x4f; 0xbd; 0x82; 0xf0; 0xe3; 0x3f; 0x66; 0x47; 0xb2; 0xb6;
   0xbd; 0xa1; 0x75; 0xf1; 0x46; 0x07; 0xf5; 0x9f; 0x46; 0x35; 0x45; 0x1e; 0x6b; 0x27; 0xdf;
   0x28; 0x2e; 0xf7; 0x3d; 0x87].
Definition TRUST_ANCHORS : list DnsRecord.t :=
  map (λ public_key, DnsRecord.DNSKEY (str ".") ROOT_KSK_FLAGS 3 ROOT_KSK_ALGORITHM public_key 172800)
    [ROOT_KSK_2017_PUBLIC_KEY; ROOT_KSK_2024_PUBLIC_KEY].

Definition parent_zone (zone : bytes) : bytes :=
  if bool_decide (zone = str ".") || bool_decide (zone = []) then str "."
  else match after 46 zone with
       | Some parent => if bool_decide (parent = []) then str "." else parent
       | None => str "."
       end.

Definition is_dnskey (r : DnsRecord.t) : bool :=
  match r with DnsRecord.DNSKEY _ _ _ _ _ _ => true | _ => false end.
Definition is_ds (r : DnsRecord.t) : bool :=
  match r with DnsRecord.DS _ _ _ _ _ _ => true | _ => false end.
Fixpoint filter_all {A} (f : A → outcome bool) (l : list A) : outcome (list A) :=
  match l with
  | [] => Ok []
  | x :: l =>
      (let? b := f x in let? k := filter_all f l in Ok (if b : bool then x :: k else k))%outcome
  end.

Section validator.
Context `{Lowercase} `{NetLib} `{Crypto} `{WallClock}.
Context (iter : Entries → list visit) (keys : srtt_map → list Srtt.key).
Abbreviation async A := (fut World request reply A).

(** * Computations with the counters

    The counters are shared through a mutex that no await happens under: state passing. *)
Definition V (A : Type) : Type := ValidationStats → async (A * ValidationStats).
Definition vret {A} (a : A) : V A := λ s, ret (a, s).
Definition vbind {A B} (m : V A) (k : A → V B) : V B := λ s, let* (a, s) := m s in k a s.
Definition lift {A} (m : async A) : V A := λ s, let* a := m in ret (a, s).
Definition count (f : ValidationStats → ValidationStats) : V unit := λ s, ret (tt, f s).
(** A synchronous computation that reads the clock. *)
Definition check {A} (f : Z → outcome A) : V A := lift (try_get (λ w, f (clock w))).
Notation "'let%' x ':=' m 'in' k" := (vbind m (fun x => k))
  (at level 10, x pattern, m at level 100, k at level 200).

Definition count_dnskey_hit (s : ValidationStats) : ValidationStats :=
  MkValidationStats (as_u16 (dnskey_cache_hits s + 1)) (dnskey_fetches s) (ds_cache_hits s) (ds_fetches s) (elapsed_ms s).
Definition count_dnskey_fetch (s : ValidationStats) : ValidationStats :=
  MkValidationStats (dnskey_cache_hits s) (as_u16 (dnskey_fetches s + 1)) (ds_cache_hits s) (ds_fetches s) (elapsed_ms s).
Definition count_ds_hit (s : ValidationStats) : ValidationStats :=
  MkValidationStats (dnskey_cache_hits s) (dnskey_fetches s) (as_u16 (ds_cache_hits s + 1)) (ds_fetches s) (elapsed_ms s).
Definition count_ds_fetch (s : ValidationStats) : ValidationStats :=
  MkValidationStats (dnskey_cache_hits s) (dnskey_fetches s) (ds_cache_hits s) (as_u16 (ds_fetches s + 1)) (elapsed_ms s).

(** * Fetching *)

(** Both fetches: the cached answers, or those of a resolution, which are cached. *)
Definition fetch (qtype : QueryType.t) (hit miss : ValidationStats → ValidationStats) (name : bytes)
    : V (list DnsRecord.t) :=
  let% c := lift (cached name qtype) in
  match c with
  | Some pkt => let% _ := count hit in vret (answers pkt)
  | None =>
      let% _ := count miss in
      let% r := lift (catch (resolve_iterative iter keys RESOLVE_FUEL name qtype 0 0)) in
      match r with
      | inr pkt => let% _ := lift (cache_insert iter name qtype pkt) in vret (answers pkt)
      | inl _ => vret []
      end
  end.
Definition fetch_dnskeys (zone : bytes) : V (list DnsRecord.t) :=
  fetch QueryType.DNSKEY count_dnskey_hit count_dnskey_fetch zone.
Definition fetch_ds (child : bytes) : V (list DnsRecord.t) :=
  fetch QueryType.DS count_ds_hit count_ds_fetch child.

(** * The chain of trust *)

Section chain.
Context (trust_anchors : list DnsRecord.t).

Fixpoint validate_chain (fuel : nat) (zone : bytes) (zone_records : list DnsRecord.t) (depth : Z)
    : V DnssecStatus :=
  match fuel with
  | O => lift (Return OutOfFuel)
  | S fuel =>
      let zone_dnskeys := List.filter is_dnskey zone_records in
      if MAX_CHAIN_DEPTH <? depth then vret Indeterminate
      else if existsb (λ dk, existsb (same_dnskey dk) trust_anchors) zone_dnskeys then
        let% signed := check (λ now, verify_rrset_signed now zone_records QueryType.DNSKEY trust_anchors) in
        vret (if signed : bool then Secure else Bogus)
      else if bool_decide (zone = str ".") || bool_decide (zone = []) then vret Indeterminate
      else
        let parent := parent_zone zone in
        let% ds_response := fetch_ds zone in
        let ds_records := List.filter is_ds ds_response in
        if bool_decide (ds_records = []) then vret Insecure
        else
          let% ksks := check (λ _, filter_all (λ dk, any_of (λ ds, verify_ds ds dk zone) ds_records) zone_dnskeys) in
          if bool_decide (ksks = []) then vret Bogus
          else
            let% signed := check (λ now, verify_rrset_signed now zone_records QueryType.DNSKEY ksks) in
            if negb signed then vret Bogus
            else
              let% parent_records := fetch_dnskeys parent in
              if bool_decide (parent_records = []) then vret Indeterminate
              else
                let% parent_status := validate_chain fuel parent parent_records (depth + 1) in
                if negb (bool_decide (parent_status = Secure)) then vret parent_status
                else
                  let% signed := check (λ now, verify_rrset_signed now ds_response QueryType.DS parent_records) in
                  vret (if signed : bool then Secure else Bogus)
  end.
(** One turn for each depth from 0 to one beyond the limit. *)
Definition CHAIN_FUEL : nat := Z.to_nat (MAX_CHAIN_DEPTH + 2).

(** * Verification of a record set *)

Inductive RrsetVerdict := Verified | BogusSet.
Inductive RrsigOutcome := SigVerified | SigChainBogus | NoMatchingKey.
Inductive KeyOutcome := KeyVerified | KeyChainBogus | Skip.

Definition try_verify_with_key (dk rrsig : DnsRecord.t) (rrset : list DnsRecord.t) (signer_name : bytes)
    (dnskey_response : list DnsRecord.t) : V KeyOutcome :=
  let% verified := check (λ now, rrsig_verified_by now rrsig dk rrset) in
  if negb verified then vret Skip
  else
    let% chain_status := validate_chain CHAIN_FUEL signer_name dnskey_response 0 in
    vret match chain_status with
         | Secure => KeyVerified
         | Bogus => KeyChainBogus
         | _ => Skip
         end.
Fixpoint try_keys (dks : list DnsRecord.t) (rrsig : DnsRecord.t) (rrset : list DnsRecord.t)
    (signer_name : bytes) (dnskey_response : list DnsRecord.t) : V RrsigOutcome :=
  match dks with
  | [] => vret NoMatchingKey
  | dk :: dks =>
      let% o := try_verify_with_key dk rrsig rrset signer_name dnskey_response in
      match o with
      | KeyVerified => vret SigVerified
      | KeyChainBogus => vret SigChainBogus
      | Skip => try_keys dks rrsig rrset signer_name dnskey_response
      end
  end.
Definition try_verify_rrsig (rrsig : DnsRecord.t) (rrset : list DnsRecord.t) : V RrsigOutcome :=
  match rrsig with
  | DnsRecord.RRSIG _ _ _ _ _ _ _ _ signer_name _ _ =>
      let% dnskey_response := fetch_dnskeys signer_name in
      try_keys (List.filter is_dnskey dnskey_response) rrsig rrset signer_name dnskey_response
  | _ => vret NoMatchingKey
  end.
Fixpoint verify_rrset (rrset : list DnsRecord.t) (matching_rrsigs : list DnsRecord.t) : V RrsetVerdict :=
  match matching_rrsigs with
  | [] => vret BogusSet
  | rrsig :: matching_rrsigs =>
      let% o := try_verify_rrsig rrsig rrset in
      match o with
      | SigVerified => vret Verified
      | SigChainBogus => vret BogusSet
      | NoMatchingKey => verify_rrset rrset matching_rrsigs
      end
  end.
(** The loop over the record sets: is every one that a signature covers verified? *)
Fixpoint verify_sets (all_rrsigs : list DnsRecord.t) (rrsets : list rrset) : V RrsetVerdict :=
  match rrsets with
  | [] => vret Verified
  | (name, qtype, rs) :: rrsets =>
      let matching_rrsigs := matching_rrsigs_for all_rrsigs name qtype in
      if bool_decide (matching_rrsigs = []) then verify_sets all_rrsigs rrsets
      else
        let% v := verify_rrset rs matching_rrsigs in
        match v with Verified => verify_sets all_rrsigs rrsets | BogusSet => vret BogusSet end
  end.
End chain.

(** * A response *)

Definition signer_zone (r : DnsRecord.t) : option bytes :=
  match r with
  | DnsRecord.RRSIG _ _ _ _ _ _ _ _ signer_name _ _ => Some (to_lowercase signer_name)
  | _ => None
  end.
Definition signer_zones (all_rrsigs : list DnsRecord.t) : list bytes :=
  fold_left (λ zones z, if bool_decide (z ∈ zones) then zones else zones ++ [z])
    (omap signer_zone all_rrsigs) [].
Fixpoint fetch_each (zones : list bytes) : V unit :=
  match zones with
  | [] => vret tt
  | zone :: zones => let% _ := fetch_dnskeys zone in fetch_each zones
  end.
Definition prefetch_signer_dnskeys (all_rrsigs : list DnsRecord.t) : V unit :=
  fetch_each (signer_zones all_rrsigs).

Definition finish (start : Z) (status : DnssecStatus) : V DnssecStatus :=
  let% now := lift (gets clock) in
  let% _ := count (λ s, MkValidationStats (dnskey_cache_hits s) (dnskey_fetches s) (ds_cache_hits s)
    (ds_fetches s) (as_u64 (Z.max 0 (now - start) / 1000000))) in
  vret status.

Definition rrsigs_of (response : DnsPacket) : list DnsRecord.t :=
  List.filter is_rrsig (answers response ++ authorities response ++ resources response).
Definition validate (response : DnsPacket) (start : Z) : V DnssecStatus :=
  let all_rrsigs := rrsigs_of response in
  if bool_decide (all_rrsigs = []) then finish start Insecure
  else
    let% _ := prefetch_signer_dnskeys all_rrsigs in
    let rrsets := group_rrsets (answers response) in
    let% v := verify_sets TRUST_ANCHORS all_rrsigs rrsets in
    match v with
    | BogusSet => finish start Bogus
    | Verified =>
        if bool_decide (rrsets = []) then
          let '(qname, qtype_num) :=
            match questions response with
            | q :: _ => (name q, to_num (qtype q))
            | [] => ([], 0)
            end in
          let is_nxdomain := bool_decide (rescode (header response) = NXDOMAIN) in
          let% denial := lift (try_get (λ w, validate_denial (clock w) (cache (ctx w))
            (authorities response) all_rrsigs qname qtype_num is_nxdomain)) in
          finish start denial
        else finish start Secure
    end.
Definition validate_response (response : DnsPacket) : async (DnssecStatus * ValidationStats) :=
  let* start := gets clock in
  validate response start (MkValidationStats 0 0 0 0 0).
End validator.
Notation "'let%' x ':=' m 'in' k" := (vbind m (fun x => k))
  (at level 10, x pattern, m at level 100, k at level 200) : fut_scope.

(** * Calls that return or panic *)

Definition calm {A} (o : outcome A) : Prop :=
  match o with Ok _ | Panic => True | _ => False end.
Create HintDb calm.

Lemma calm_bind {A B} (o : outcome A) (k : A → outcome B) :
  calm o → (∀ a, calm (k a)) → calm (obind o k).
Proof. intros Ho Hk. destruct o; try done. apply Hk. Qed.
Lemma calm_any_of {A} (f : A → outcome bool) l : (∀ x, calm (f x)) → calm (any_of f l).
Proof. intros Hf. induction l as [|x l IH]; [done|]. apply calm_bind; [done|]. by intros []. Qed.
Lemma calm_map_all {A B} (f : A → outcome B) l : (∀ x, calm (f x)) → calm (map_all f l).
Proof.
  intros Hf. induction l as [|x l IH]; [done|]. apply calm_bind; [done|]. intros y. by apply calm_bind.
Qed.
Lemma calm_filter_all {A} (f : A → outcome bool) l : (∀ x, calm (f x)) → calm (filter_all f l).
Proof.
  intros Hf. induction l as [|x l IH]; [done|]. apply calm_bind; [done|]. intros y. by apply calm_bind.
Qed.
Lemma calm_or_panic {A} (o : option A) : calm (or_panic o).
Proof. by destruct o. Qed.
Lemma calm_name_to_wire n : calm (name_to_wire n).
Proof. rewrite name_to_wire_outcome. apply calm_or_panic. Qed.
Lemma calm_bool_ok (o : outcome bool) b : o = Ok b → calm o.
Proof. by intros ->. Qed.
#[export] Hint Resolve calm_bind calm_any_of calm_map_all calm_name_to_wire calm_or_panic : calm.
#[export] Hint Extern 1 (calm (Ok _)) => exact I : calm.
#[export] Hint Extern 1 (calm Panic) => exact I : calm.

Lemma calm_rdata r : calm (record_rdata_canonical r).
Proof. destruct r; cbn [record_rdata_canonical]; auto with calm. Qed.
#[export] Hint Resolve calm_rdata : calm.
Lemma calm_canonical t r : calm (record_to_canonical_wire t r).
Proof. apply calm_bind; auto with calm. Qed.
#[export] Hint Resolve calm_canonical : calm.
Lemma calm_signed_data rrsig rs : calm (build_signed_data rrsig rs).
Proof. destruct rrsig; try done. apply calm_bind; auto with calm. Qed.
#[export] Hint Resolve calm_signed_data : calm.

Section calm.
Context `{Crypto} `{WallClock}.

Lemma calm_rsa k d s : calm (verify_rsa_sha256 k d s).
Proof.
  unfold verify_rsa_sha256, rsa_dnskey_to_der, slice_or_panic. destruct k as [|b0 r]; [done|].
  destruct (b0 =? 0); [destruct r as [|b1 [|b2 r]]; [done..|]|]; cbn [obind];
    destruct (_ <? _); try done; destruct (slice _ _ _); try done; cbn [obind];
    destruct (slice _ _ _); try done; cbn [obind]; by case_bool_decide.
Qed.
Lemma calm_signature a k d s : calm (verify_signature a k d s).
Proof. unfold verify_signature. by repeat case_match; try apply calm_rsa. Qed.
#[local] Hint Resolve calm_signature : calm.
Lemma calm_rrsig now rrsig dk rs : calm (rrsig_verified_by now rrsig dk rs).
Proof.
  destruct rrsig, dk; try done. cbn [rrsig_verified_by]. destruct (_ && _); [|done].
  apply calm_bind; auto with calm.
Qed.
#[local] Hint Resolve calm_rrsig : calm.
Lemma calm_signed now rs q ks : calm (verify_rrset_signed now rs q ks).
Proof.
  unfold verify_rrset_signed. case_bool_decide; [done|]. apply calm_any_of. intros r.
  destruct (covers_type q r); auto with calm.
Qed.
Lemma calm_ds ds dk n : calm (verify_ds ds dk n).
Proof. destruct ds, dk; try done. cbn. destruct (_ || _); auto with calm. Qed.

(** ** Denial *)

Lemma calm_type_absent b q : calm (type_absent b q).
Proof. destruct (type_absent_returns b q) as [x ->]. done. Qed.
Lemma calm_nsec3_hash n a i s : calm (nsec3_hash n a i s).
Proof. unfold nsec3_hash. destruct (negb _); [done|]. destruct (_ <? _); auto with calm. Qed.
#[local] Hint Resolve calm_type_absent calm_nsec3_hash : calm.
Lemma calm_nxdomain a i s d names : ∀ nc hs, calm (nsec3_nxdomain a i s d nc names hs).
Proof.
  induction names as [|l names IH]; intros nc [|ce hs]; try done. cbn [nsec3_nxdomain].
  destruct ce; [|apply IH]. destruct (negb _); [apply IH|]. destruct nc; [|apply IH].
  destruct (negb _); [apply IH|]. apply calm_bind; [auto with calm|]. intros [wc|]; [|apply IH].
  destruct (nsec3_any_covers d wc); [done|apply IH].
Qed.
End calm.

Section calm_denial.
Context `{Lowercase} `{Crypto} `{WallClock} (now : Z) (c : DnsCache) (Hc : cache_ok c).

Lemma calm_authority rrsigs set : calm (authority_signed now c rrsigs set).
Proof.
  destruct set as [[n q] rs]. unfold authority_signed.
  destruct (head _) as [r|]; [|done]. destruct r; try done. destruct (negb _); [done|].
  destruct (lookup_returns now c signer_name QueryType.DNSKEY Hc) as (o & -> & _). cbn [obind].
  destruct o; [|done]. apply calm_bind; [apply calm_signed_data|]. intros data. apply calm_any_of. intros dk.
  destruct dk; try done. cbn. destruct (negb _); [done|]. destruct (negb _); [done|]. apply calm_signature.
Qed.
Lemma calm_verify_authority au rrsigs q : calm (verify_authority_rrsigs now c au rrsigs q).
Proof.
  apply calm_bind; [|done]. induction (group_rrsets _) as [|s sets IH]; [done|].
  apply calm_bind; [apply calm_authority|]. by intros [].
Qed.
Lemma calm_validate_denial au rrsigs n q nx : calm (validate_denial now c au rrsigs n q nx).
Proof.
  unfold validate_denial. destruct (negb _).
  - apply calm_bind; [apply calm_verify_authority|]. intros []; [|done]. destruct nx; [done|].
    apply calm_bind; [|done]. apply calm_any_of. intros r. destruct r; try done. unfold nsec_proves_nodata.
    destruct (eq_ignore_ascii_case _ _); [apply calm_type_absent|done].
  - destruct (List.filter is_nsec3 au) as [|first rest] eqn:E; [done|].
    apply calm_bind; [apply calm_verify_authority|]. intros []; [|done]. cbn [negb]. destruct first; try done.
    apply calm_bind; [apply calm_nsec3_hash|]. intros [h|]; [|done]. apply calm_bind; [|done]. destruct nx.
    + unfold nsec3_proves_nxdomain. apply calm_bind; [apply calm_map_all; intros; apply calm_nsec3_hash|].
      intros hs. destruct (suffixes _), hs; try done. apply calm_nxdomain.
    + apply calm_any_of. intros [oh r]. destruct r; try done. case_bool_decide; [apply calm_type_absent|done].
Qed.
End calm_denial.

(** * The chain of trust, as a relation *)

Section trust.
Context `{Crypto} `{WallClock} (trust_anchors : list DnsRecord.t).

(** The set of the type among the records carries a signature of one of the keys, that was in
    its validity window when it was checked. *)
Definition signed_by (records : list DnsRecord.t) (q : QueryType.t) (ks : list DnsRecord.t) : Prop :=
  ∃ now rrsig k, rrsig ∈ records ∧ covers_type q rrsig = true ∧ k ∈ ks ∧
    let set := List.filter (λ r, bool_decide (query_type r = q)) records in
    set ≠ [] ∧ rrsig_verified_by now rrsig k set = Ok true.

(** The keys of a zone are trusted: the records hold a pinned root key and are signed with one;
    or with a key that a DS record of the zone stands for, where the DS records are signed
    with a key of the parent zone, whose keys are trusted. *)
Inductive trusted : bytes → list DnsRecord.t → Prop :=
  | trusted_anchor zone rs a k :
      k ∈ List.filter is_dnskey rs → a ∈ trust_anchors → same_dnskey k a = true →
      signed_by rs QueryType.DNSKEY trust_anchors → trusted zone rs
  | trusted_delegation zone rs ds ks parent_rs :
      zone ≠ str "." → zone ≠ [] → ks ≠ [] →
      Forall (λ k, k ∈ List.filter is_dnskey rs ∧
                   ∃ d, d ∈ List.filter is_ds ds ∧ verify_ds d k zone = Ok true) ks →
      signed_by rs QueryType.DNSKEY ks → signed_by ds QueryType.DS parent_rs →
      trusted (parent_zone zone) parent_rs → trusted zone rs.

Lemma verify_rrset_signed_by now rs q ks : verify_rrset_signed now rs q ks = Ok true → signed_by rs q ks.
Proof.
  unfold verify_rrset_signed. case_bool_decide as Hne; [done|].
  intros (r & Hr & Hv)%any_of_true. destruct (covers_type q r) eqn:Hc; [|done].
  apply any_of_true in Hv as (k & Hk & Hv). by exists now, r, k.
Qed.
Lemma filter_all_spec {A} (f : A → outcome bool) l k : filter_all f l = Ok k →
  Forall (λ x, x ∈ l ∧ f x = Ok true) k.
Proof.
  revert k. induction l as [|x l IH]; cbn; intros k; [by intros [= <-]; constructor|].
  destruct (f x) as [b|e| |] eqn:E; try done. cbn. destruct (filter_all f l) as [k'|e| |]; try done. cbn.
  assert (Hk : Forall (λ x0, x0 ∈ x :: l ∧ f x0 = Ok true) k').
  { eapply Forall_impl; [by apply IH|]. intros y [Hy Hf]. split; [by apply list_elem_of_further|done]. }
  destruct b; intros [= <-]; [|done]. constructor; [|done]. split; [apply list_elem_of_here|done].
Qed.
End trust.

(** * Validation ends, and what secure means *)

Section safety.
Context `{Lowercase} `{NetLib} `{Crypto} `{WallClock}.
Context (iter : Entries → list visit) `{!IterOrder iter} (keys : srtt_map → list Srtt.key).
Context (J : Rebind.RebindFilter * bool * bool → Prop).
Abbreviation good := (Recursive.good J).
Abbreviation safe := (Async.safe good fits).

(** The call returns with [P], or panics if it may, whatever happens at its awaits. *)
Definition ends (may : Prop) {A} (P : A → Prop) (r : outcome A) : Prop :=
  match r with Ok a => P a | Panic => may | _ => False end.
Definition vsafe_at (may : Prop) {A} (P : A → Prop) (m : V A) : Prop :=
  ∀ st s, good s → safe (ends may (λ x, P (fst x))) (m st) s.
Abbreviation vsafe := (vsafe_at True).

Section rules.
Context {may : Prop}.
Abbreviation vsafe' := (vsafe_at may).

Lemma vsafe_ret {A} (P : A → Prop) a : P a → vsafe' P (vret a).
Proof. by split. Qed.
Lemma vsafe_mono {A} (P Q : A → Prop) m : (∀ a, P a → Q a) → vsafe' P m → vsafe' Q m.
Proof.
  intros HPQ Hm st s Hs. eapply fut_mono; [|by apply Hm]. intros [[a st']|e| |]; try done. apply HPQ.
Qed.
Lemma vsafe_bind {A B} (P : A → Prop) (Q : B → Prop) (m : V A) k :
  vsafe' P m → (∀ a, P a → vsafe' Q (k a)) → vsafe' Q (vbind m k).
Proof.
  intros Hm Hk st s Hs. eapply fut_bind; [by apply Hm|..]; try done.
  intros [a st'] s' HP Hs'. by apply Hk.
Qed.
Lemma vsafe_count f : vsafe' (λ _, True) (count f).
Proof. by split. Qed.
Lemma vsafe_lift {A} (P : A → Prop) (m : fut World request reply A) :
  (∀ s, good s → safe (ends may P) m s) → vsafe' P (lift m).
Proof. intros Hm st s Hs. eapply fut_bind; [by apply Hm|..]; try done. Qed.

Lemma safe_cached q qt s : good s →
  safe (ends may (λ o, match o with Some p => sound p | None => True end)) (cached q qt) s.
Proof.
  intros Hs. cbn. destruct (lookup_returns (clock s) (cache (ctx s)) q qt (g_cache _ _ Hs)) as (r & -> & Hr).
  split; [done|]. destruct r; [by apply parsed_packet_fields|done].
Qed.
Lemma vsafe_fetch qt hit miss n : vsafe' (λ _, True) (fetch iter keys qt hit miss n).
Proof.
  unfold fetch. eapply vsafe_bind; [by apply vsafe_lift, safe_cached|]. intros [p|] _.
  { by eapply vsafe_bind; [apply vsafe_count|]. }
  eapply vsafe_bind; [apply vsafe_count|]. intros _ _.
  apply (vsafe_bind (λ r, match r with inr p => sound p | inl _ => True end)).
  { apply vsafe_lift. intros s Hs. eapply safe_catch; [by apply safe_resolve|done..]. }
  intros [e|p] Hp; [by apply vsafe_ret|].
  apply (vsafe_bind (λ _, True)); [|by intros].
  apply vsafe_lift. intros s Hs. eapply fut_mono; [|by apply safe_cache_insert]. by intros [].
Qed.
Lemma vsafe_fetch_each zones : vsafe' (λ _, True) (fetch_each iter keys zones).
Proof.
  induction zones as [|z zones IH]; [by apply vsafe_ret|]. cbn [fetch_each].
  eapply vsafe_bind; [apply vsafe_fetch|]. by intros.
Qed.
Lemma vsafe_finish (P : DnssecStatus → Prop) start st : P st → vsafe' P (finish start st).
Proof.
  intros HP. apply (vsafe_bind (λ _, True)); [by intros st0 s Hs; split|]. intros now _.
  eapply vsafe_bind; [apply vsafe_count|]. intros _ _. by apply vsafe_ret.
Qed.
End rules.
Lemma vsafe_check {A} (P : A → Prop) (f : Z → outcome A) :
  (∀ now, calm (f now)) → (∀ now a, f now = Ok a → P a) → vsafe P (check f).
Proof.
  intros Hc HP st s Hs. cbn. specialize (Hc (clock s)).
  destruct (f (clock s)) eqn:E; try done. split; [done|]. by eapply HP.
Qed.

Section chain.
Context (trust_anchors : list DnsRecord.t).
Abbreviation trusted := (trusted trust_anchors).

Lemma vsafe_signed rs q ks :
  vsafe (λ b, b = true → signed_by rs q ks) (check (λ now, verify_rrset_signed now rs q ks)).
Proof.
  apply vsafe_check; [intros; apply calm_signed|]. intros now b E ->. by eapply verify_rrset_signed_by.
Qed.
Lemma vsafe_verdict P rs q ks : (signed_by rs q ks → P Secure) → P Bogus →
  vsafe P (vbind (check (λ now, verify_rrset_signed now rs q ks)) (λ signed : bool, vret (if signed then Secure else Bogus))).
Proof.
  intros Hs Hb. eapply vsafe_bind; [apply vsafe_signed|]. intros [] Hsig; apply vsafe_ret; auto.
Qed.

Lemma vsafe_chain fuel : ∀ zone rs depth, depth ≤ MAX_CHAIN_DEPTH + 1 → MAX_CHAIN_DEPTH + 1 - depth < Z.of_nat fuel →
  vsafe (λ st, st = Secure → trusted zone rs) (validate_chain iter keys trust_anchors fuel zone rs depth).
Proof.
  induction fuel as [|fuel IH]; intros zone rs depth Hd Hf; cbn [validate_chain].
  { exfalso. lia. }
  destruct (Z.ltb_spec MAX_CHAIN_DEPTH depth); [by apply vsafe_ret|].
  destruct (existsb _ _) eqn:Hanchor.
  { apply existsb_exists in Hanchor as (k & Hk%list_elem_of_In & Ha).
    apply existsb_exists in Ha as (a & Ha%list_elem_of_In & Hka).
    apply vsafe_verdict; [|done]. intros Hs _. by eapply trusted_anchor. }
  destruct (bool_decide (zone = str ".") || bool_decide (zone = [])) eqn:Hroot; [by apply vsafe_ret|].
  apply orb_false_elim in Hroot as [Hdot Hempty]. bool_prop.
  eapply vsafe_bind; [apply vsafe_fetch|]. intros ds _. case_bool_decide; [by apply vsafe_ret|].
  eapply vsafe_bind; [apply (vsafe_check _); [|intros now ks E; exact E]|].
  { intros _. apply calm_filter_all. intros dk. apply calm_any_of. intros d. apply calm_ds. }
  intros ks Hks%filter_all_spec. case_bool_decide as Hne; [by apply vsafe_ret|].
  eapply vsafe_bind; [apply vsafe_signed|]. intros [] Hsig; [|by apply vsafe_ret]. cbn [negb].
  eapply vsafe_bind; [apply vsafe_fetch|]. intros parent_rs _. case_bool_decide; [by apply vsafe_ret|].
  eapply vsafe_bind; [apply IH; lia|]. intros status Hst. case_bool_decide; cbn [negb]; [|by apply vsafe_ret].
  apply vsafe_verdict; [|done]. intros Hds _. eapply (trusted_delegation _ _ _ ds ks parent_rs); auto.
  eapply Forall_impl; [exact Hks|]. intros k [Hk Hv]. split; [done|].
  apply any_of_true in Hv as (d & Hd' & Hv). by exists d.
Qed.

(** One of the signatures on the set is by a key of a trusted set of the signer it names. *)
Definition authentic (sigs rs : list DnsRecord.t) : Prop :=
  ∃ now rrsig k key_set signer, rrsig ∈ sigs ∧ signer_zone rrsig = Some (to_lowercase signer) ∧
    k ∈ List.filter is_dnskey key_set ∧ rrsig_verified_by now rrsig k rs = Ok true ∧
    trusted signer key_set.

Lemma vsafe_key dk rrsig rs signer key_set :
  vsafe (λ o, o = KeyVerified → ∃ now, rrsig_verified_by now rrsig dk rs = Ok true ∧ trusted signer key_set)
    (try_verify_with_key iter keys trust_anchors dk rrsig rs signer key_set).
Proof.
  unfold try_verify_with_key.
  apply (vsafe_bind (λ b, b = true → ∃ now, rrsig_verified_by now rrsig dk rs = Ok true)).
  { apply vsafe_check; [intros; apply calm_rrsig|]. intros now b E ->. by exists now. }
  intros [] Hv; [|by apply vsafe_ret]. cbn [negb]. eapply vsafe_bind.
  { by apply vsafe_chain. }
  intros status Hst. apply vsafe_ret. destruct status; try done. intros _.
  destruct (Hv eq_refl) as [now Hn]. exists now. by split; [|apply Hst].
Qed.
Lemma vsafe_keys rrsig rs signer key_set dks :
  vsafe (λ o, o = SigVerified → ∃ now dk, dk ∈ dks ∧ rrsig_verified_by now rrsig dk rs = Ok true ∧ trusted signer key_set)
    (try_keys iter keys trust_anchors dks rrsig rs signer key_set).
Proof.
  induction dks as [|dk dks IH]; [by apply vsafe_ret|]. cbn [try_keys].
  eapply vsafe_bind; [apply vsafe_key|]. intros [] Ho; try (by apply vsafe_ret).
  - apply vsafe_ret. intros _. destruct (Ho eq_refl) as (now & Hn & Ht). exists now, dk.
    by split; [apply list_elem_of_here|].
  - eapply vsafe_mono; [|exact IH]. intros o Hx Hy. destruct (Hx Hy) as (now & k & Hk & Hn).
    exists now, k. by split; [apply list_elem_of_further|].
Qed.
Lemma vsafe_rrset sigs rs :
  vsafe (λ v, v = Verified → authentic sigs rs) (verify_rrset iter keys trust_anchors rs sigs).
Proof.
  induction sigs as [|rrsig sigs IH]; [by apply vsafe_ret|]. cbn [verify_rrset].
  apply (vsafe_bind (λ o, o = SigVerified → authentic (rrsig :: sigs) rs)).
  { unfold try_verify_rrsig. destruct rrsig; try (by apply vsafe_ret).
    eapply vsafe_bind; [apply vsafe_fetch|]. intros key_set _.
    eapply vsafe_mono; [|apply vsafe_keys]. intros o Hx Hy.
    destruct (Hx Hy) as (now & dk & Hdk & Hv & Ht). eexists now, _, dk, key_set, signer_name.
    split; [apply list_elem_of_here|]. by split_and!. }
  intros [] Ho; try (by apply vsafe_ret).
  - apply vsafe_ret. intros _. by apply Ho.
  - eapply vsafe_mono; [|exact IH]. intros v Hx Hy. destruct (Hx Hy) as (now & r & k & ks & sg & Hr & Hrest). exists now, r, k, ks, sg.
    split; [by apply list_elem_of_further|done].
Qed.

(** Every set of the response that some signature of the response covers is authentic. *)
Definition covered_authentic (all_rrsigs : list DnsRecord.t) (s : rrset) : Prop :=
  let '(name, qtype, rs) := s in
  let sigs := matching_rrsigs_for all_rrsigs name qtype in sigs ≠ [] → authentic sigs rs.
Lemma vsafe_sets all sets :
  vsafe (λ v, v = Verified → Forall (covered_authentic all) sets) (verify_sets iter keys trust_anchors all sets).
Proof.
  induction sets as [|[[n q] rs] sets IH]; [apply vsafe_ret; constructor|]. cbn [verify_sets].
  assert (Hrest : covered_authentic all (n, q, rs) →
    vsafe (λ v, v = Verified → Forall (covered_authentic all) ((n, q, rs) :: sets))
      (verify_sets iter keys trust_anchors all sets)).
  { intros Hc. eapply vsafe_mono; [|exact IH]. intros v Hx Hy. constructor; [done|by apply Hx]. }
  case_bool_decide as Hm; [apply Hrest; intros Hne; by destruct (Hne Hm)|].
  eapply vsafe_bind; [apply vsafe_rrset|]. intros [] Hv; [|by apply vsafe_ret]. apply Hrest.
  intros _. by apply Hv.
Qed.
End chain.

(** ** A response *)

(** What a status promises of a response. *)
Definition denied (response : DnsPacket) : Prop := ∃ now c,
  validate_denial now c (authorities response) (rrsigs_of response)
    (match questions response with q :: _ => name q | [] => [] end)
    (match questions response with q :: _ => to_num (qtype q) | [] => 0 end)
    (bool_decide (rescode (header response) = NXDOMAIN)) = Ok Secure.
Definition promises (response : DnsPacket) (status : DnssecStatus) : Prop :=
  (rrsigs_of response = [] → status = Insecure) ∧
  (status = Secure → rrsigs_of response ≠ [] ∧
     Forall (covered_authentic TRUST_ANCHORS (rrsigs_of response)) (group_rrsets (answers response)) ∧
     (group_rrsets (answers response) = [] → denied response)).

Lemma vsafe_validate response start : vsafe (promises response) (validate iter keys response start).
Proof.
  unfold validate. case_bool_decide as Hsigs.
  { apply vsafe_finish. by split. }
  assert (Hbad : ∀ status, status ≠ Secure → promises response status).
  { intros status Hst. split; [done|]. done. }
  eapply vsafe_bind; [apply vsafe_fetch_each|]. intros _ _.
  eapply vsafe_bind; [apply vsafe_sets|]. intros [] Hv; [|by apply vsafe_finish, Hbad].
  specialize (Hv eq_refl). case_bool_decide as Hnone.
  - destruct (match questions response with q :: _ => (name q, to_num (qtype q)) | [] => ([], 0) end)
      as [qname qnum] eqn:Hq.
    apply (vsafe_bind (λ status, status = Secure → denied response)).
    + apply vsafe_lift. intros s Hs. cbn.
      pose proof (calm_validate_denial (clock s) (cache (ctx s)) (g_cache _ _ Hs) (authorities response)
        (rrsigs_of response) qname qnum (bool_decide (rescode (header response) = NXDOMAIN))) as Hcalm.
      destruct (validate_denial _ _ _ _ _ _ _) as [status|e| |] eqn:Hd; try done. split; [done|].
      cbn. intros ->. exists (clock s), (cache (ctx s)). destruct (questions response); by injection Hq as <- <-.
    + intros status Hst. apply vsafe_finish. split; [done|]. intros Hsec. split_and!; [done|done|].
      intros _. by apply Hst.
  - apply vsafe_finish. split; [done|]. by intros _.
Qed.

(** The result of validation. *)
Definition validated (response : DnsPacket) (r : outcome (DnssecStatus * ValidationStats)) : Prop :=
  match r with Ok (status, _) => promises response status | Panic => True | _ => False end.
Lemma safe_validate_response response s : good s →
  safe (validated response) (validate_response iter keys response) s.
Proof.
  intros Hs. unfold validate_response. cbn [bind gets Async.safe].
  eapply fut_mono; [|by apply vsafe_validate]. by intros [[status st]|e| |].
Qed.

(** C7: DNSSEC validation always ends, whatever the servers reply and other tasks do: chains of
    delegations stop at ten levels. A response without signatures is insecure; and secure
    means that for every record set of the answer that some signature of the response covers,
    one such signature, inside its window, verifies under a key of a zone whose keys hang, by
    signed DS records and matching digests, from one of the two pinned root keys; or, for a
    response without answers, that its denial is proved. Validation may panic, on names that
    have no encoding (see [name_to_wire_outcome]). *)
Theorem validation_sound (response : DnsPacket) (env : nat → list request → moment) (n : nat) (w : World) :
  env_ok good fits env → good w →
  let '(r, w') := run (validate_response iter keys response) env n w in good w' ∧ validated response r.
Proof. intros He Hw. by apply (safe_run good fits), safe_validate_response. Qed.

(** ** Records that no signature is checked for *)

(** A record of a type without a variant of its own never has a covering signature: its type
    compares as [UNKNOWN(16)], a signature's as [TXT]. *)
Lemma opaque_uncovered t s : Question.from_num t ≠ QueryType.UNKNOWN t → covers_type (QueryType.UNKNOWN t) s = false.
Proof.
  intros Ht. destruct s; try done. cbn. apply bool_decide_eq_false_2. intros Hc. apply Ht.
  pose proof (f_equal to_num Hc) as Hn. rewrite Question.to_num_from_num in Hn. cbn in Hn. congruence.
Qed.
Lemma vsafe_sets_uncovered {may : Prop} all sets :
  Forall (λ '(n, q, _), matching_rrsigs_for all n q = []) sets →
  vsafe_at may (λ v, v = Verified) (verify_sets iter keys TRUST_ANCHORS all sets).
Proof.
  induction 1 as [|[[n q] rs] sets Hm Hs IH]; [by apply vsafe_ret|]. cbn [verify_sets].
  by rewrite bool_decide_eq_true_2.
Qed.
Lemma uncovered_no_match all n q : Forall (λ s, covers_type q s = false) all → matching_rrsigs_for all n q = [].
Proof.
  induction 1 as [|s l Hs Hl IH]; [done|]. unfold matching_rrsigs_for in *. cbn. unfold covers_rrset at 1.
  by rewrite Hs, andb_false_r.
Qed.

(** Record sets that no signature covers are taken as secure. If a response carries any
    signature at all, and none over a type that occurs in its answers, it validates as secure,
    whatever the network does and without a single signature being checked. That is always so
    for TXT, SRV, SVCB, HTTPS and the other types the parser keeps as raw data: no signature
    covers them, theirs included. *)
Theorem unverified_is_secure (response : DnsPacket) (env : nat → list request → moment) (n : nat) (w : World) :
  env_ok good fits env → good w →
  rrsigs_of response ≠ [] → Exists (λ r, is_rrsig r = false) (answers response) →
  Forall (λ r, is_rrsig r = true ∨
    (∃ d t data ttl, r = DnsRecord.UNKNOWN d t data ttl ∧ Question.from_num t ≠ QueryType.UNKNOWN t) ∨
    Forall (λ s, covers_type (query_type r) s = false) (rrsigs_of response)) (answers response) →
  ∃ stats w', run (validate_response iter keys response) env n w = (Ok (Secure, stats), w').
Proof.
  intros He Hw Hsigs Hsome Hun.
  destruct (group_rrsets_spec (answers response)) as [Hg1 Hg2].
  assert (Hne : group_rrsets (answers response) ≠ []).
  { intros Hnil. apply Exists_exists in Hsome as (r & Hr & Hs). destruct (Hg2 r Hr Hs) as (s & Hin & _).
    rewrite Hnil in Hin. by apply elem_of_nil in Hin. }
  assert (Hv : vsafe_at False (λ status, status = Secure) (validate iter keys response (clock w))).
  { unfold validate. rewrite bool_decide_eq_false_2 by done.
    eapply vsafe_bind; [apply vsafe_fetch_each|]. intros _ _.
    eapply vsafe_bind; [apply vsafe_sets_uncovered|].
    - eapply Forall_impl; [exact Hg1|]. intros [[d q] [|r rs]] [Hrs Hf]; [done|].
      apply Forall_inv in Hf as (Hr & Hs & _ & <-). apply uncovered_no_match.
      rewrite Forall_forall in Hun. destruct (Hun r Hr) as [Hx|[(d' & t & data & ttl & -> & Ht)|Hx]]; [congruence| |done].
      apply Forall_forall. intros s _. by apply opaque_uncovered.
    - intros v ->. rewrite bool_decide_eq_false_2 by done. by apply vsafe_finish. }
  specialize (Hv (MkValidationStats 0 0 0 0 0) w Hw).
  pose proof (safe_run good fits _ _ env He n w Hv) as Hr.
  unfold validate_response. cbn [bind gets run].
  destruct (run _ env n w) as [[[status st]|e| |] w']; destruct Hr as [_ Hr]; try done.
  cbn in Hr. subst status. by exists st, w'.
Qed.
End safety.

(** * Examples *)

#[local] Existing Instance sample_net.
#[local] Existing Instance lowercase_ascii.
#[local] Existing Instance sample_crypto.
#[local] Existing Instance sample_clock.

Definition silent_env : nat → list request → @moment World reply :=
  sample_env (λ _ _, inl NoneValue).
Lemma silent_env_ok J : env_ok (Recursive.good J) fits silent_env.
Proof. by apply sample_env_ok. Qed.
Abbreviation run_validation p c :=
  (fst (run (validate_response iter_list keys_list p) silent_env 0 (set_cache c recursive_world))).

(** Signatures of the root, with the key of 2017, and of sample keys. *)
Definition root_sign (owner : bytes) (q : Z) (records : list DnsRecord.t) : DnsRecord.t :=
  match rsa_dnskey_to_der ROOT_KSK_2017_PUBLIC_KEY with
  | Ok der => sign 8 (compute_key_tag 257 3 8 ROOT_KSK_2017_PUBLIC_KEY) der [] owner q records
  | _ => sign 8 0 [] [] owner q records
  end.
Definition root_key : DnsRecord.t := DnsRecord.DNSKEY [] 257 3 8 ROOT_KSK_2017_PUBLIC_KEY 172800.
Definition key_set (zone : bytes) (n : Z) : list DnsRecord.t :=
  let k := sample_dnskey zone n in [k; sample_sign n zone zone 48 [k]].
(** A DS record with this owner, for a key of a zone. *)
Definition sample_ds (owner zone : bytes) (n : Z) : DnsRecord.t :=
  DnsRecord.DS owner (compute_key_tag 257 3 15 (sample_key n)) 15 2
    (sample_digest (match name_to_wire zone with Ok w => w | _ => [] end ++ key_rdata 257 3 15 (sample_key n))) 3600.
Definition ds_set (owner zone : bytes) (n : Z) : list DnsRecord.t :=
  let d := sample_ds owner zone n in [d; root_sign owner 43 [d]].
Definition root_set : list DnsRecord.t := [root_key; root_sign [] 48 [root_key]].

(** The keys of [evil] hang from the root; those of [rogue] from nothing; and under the name of
    [bank], there are keys of an attacker and a DS set that the root signed for [mallory]. *)
Definition signed_cache : DnsCache := Eval vm_compute in
  insert_sample (str ".") QueryType.DNSKEY root_set
  (insert_sample (str "evil") QueryType.DNSKEY (key_set (str "evil") 9)
  (insert_sample (str "evil") QueryType.DS (ds_set (str "evil") (str "evil") 9)
  (insert_sample (str "rogue") QueryType.DNSKEY (key_set (str "rogue") 6)
  (insert_sample (str "bank") QueryType.DNSKEY (key_set (str "bank") 7)
  (insert_sample (str "bank") QueryType.DS (ds_set (str "mallory") (str "bank") 7)
    (Cache.new 100 60 86400)))))).

Definition bank_answer (n : Z) (signer : bytes) : DnsPacket :=
  let a := DnsRecord.A (str "www.bank") (Ipv4 6 6 6 6) 300 in
  sample_packet [a; sample_sign n signer (str "www.bank") 1 [a]] [].
Definition status_of (r : outcome (DnssecStatus * ValidationStats)) : option DnssecStatus :=
  match r with Ok (s, _) => Some s | _ => None end.

(** The names in signatures and delegations are not compared with the zone they are used
    for. An address of [www.bank] signed by [evil], a zone of its own with a proper chain to the
    root, validates as secure; so does one signed by a key that is endorsed for [bank] by a DS
    set of which the root signed every byte, but as the DS set of [mallory]. *)
Theorem foreign_names_secure :
  status_of (run_validation (bank_answer 9 (str "evil")) signed_cache) = Some Secure ∧
  Forall (λ r, domain r = str "mallory") (ds_set (str "mallory") (str "bank") 7) ∧
  status_of (run_validation (bank_answer 7 (str "bank")) signed_cache) = Some Secure.
Proof. split; [vm_compute; reflexivity|]. split; [|vm_compute; reflexivity]. repeat constructor. Qed.

(** A denial of [www.bank], signed by [rogue]. *)
Definition rogue_denial : DnsPacket :=
  let r := test_nsec (str "a.bank") (str "z.bank") [1] in
  {| header := with_rescode NXDOMAIN Header.new;
     questions := [{| name := str "www.bank"; qtype := QueryType.A |}]; answers := [];
     authorities := [r; sample_sign 6 (str "rogue") (str "a.bank") 47 [r]]; resources := []; edns := None |}.

(** Negative answers are accepted without a chain of trust. Keys that no delegation vouches
    for do not make an answer secure, but the denial of a name does validate as secure with them:
    the key of the signer is taken from the cache, where prefetching put whatever the network
    sent. *)
Theorem unchained_denial_secure :
  status_of (run_validation (bank_answer 6 (str "rogue")) signed_cache) = Some Bogus ∧
  status_of (run_validation rogue_denial signed_cache) = Some Secure.
Proof. split; vm_compute; reflexivity. Qed.

Lemma insert_sample_ok d q rs c : cache_ok c → Forall record_ok rs → cache_ok (insert_sample d q rs c).
Proof.
  intros Hc Hr. unfold insert_sample.
  destruct (insert_with_status_returns iter_list 0 d q (sample_packet rs []) Indeterminate c Hc)
    as (c' & Hi & Hc'); [by split_and!|].
  unfold insert. by rewrite Hi.
Qed.
Lemma signed_cache_ok : cache_ok signed_cache.
Proof.
  assert (Hk : ∀ rs, bool_decide (Forall record_ok rs) = true → Forall record_ok rs) by (intros rs; apply bool_decide_eq_true_1).
  assert (Heq : signed_cache = insert_sample (str ".") QueryType.DNSKEY root_set
    (insert_sample (str "evil") QueryType.DNSKEY (key_set (str "evil") 9)
    (insert_sample (str "evil") QueryType.DS (ds_set (str "evil") (str "evil") 9)
    (insert_sample (str "rogue") QueryType.DNSKEY (key_set (str "rogue") 6)
    (insert_sample (str "bank") QueryType.DNSKEY (key_set (str "bank") 7)
    (insert_sample (str "bank") QueryType.DS (ds_set (str "mallory") (str "bank") 7)
      (Cache.new 100 60 86400))))))) by (vm_compute; reflexivity).
  rewrite Heq. repeat (apply insert_sample_ok; [|apply Hk; vm_compute; reflexivity]).
  apply new_cache_ok; lia.
Qed.
Lemma signed_world_good : Recursive.good (λ _, True) (set_cache signed_cache recursive_world).
Proof. apply good_set_cache; [exact signed_cache_ok|exact recursive_world_good]. Qed.

Lemma validation_sound_witness : ∃ stats w',
  run (validate_response iter_list keys_list (bank_answer 9 (str "evil"))) silent_env 0
    (set_cache signed_cache recursive_world) = (Ok (Secure, stats), w') ∧
  Recursive.good (λ _, True) w' ∧
  covered_authentic TRUST_ANCHORS (rrsigs_of (bank_answer 9 (str "evil")))
    (str "www.bank", QueryType.A, [DnsRecord.A (str "www.bank") (Ipv4 6 6 6 6) 300]).
Proof.
  pose proof (validation_sound iter_list keys_list (λ _, True) (bank_answer 9 (str "evil")) silent_env 0
    (set_cache signed_cache recursive_world) (silent_env_ok _) signed_world_good) as Hv.
  assert (Hs : match fst (run (validate_response iter_list keys_list (bank_answer 9 (str "evil"))) silent_env 0
    (set_cache signed_cache recursive_world)) with Ok (s, _) => s = Secure | _ => False end)
    by (vm_compute; reflexivity).
  destruct (run _ _ _ _) as [[[status stats]|e| |] w']; [|contradiction..].
  change (status = Secure) in Hs. subst status. destruct Hv as [Hg [_ Hp]].
  exists stats, w'. split; [reflexivity|]. split; [exact Hg|]. destruct (Hp eq_refl) as (_ & Hf & _).
  exact (Forall_inv Hf).
Defined.

Definition text_answer : DnsPacket :=
  let t := DnsRecord.UNKNOWN (str "www.bank") 16 [4; 101; 118; 105; 108] 300 in
  sample_packet [t; DnsRecord.RRSIG (str "www.bank") 16 15 2 300 0 0 0 (str "bank") [] 300] [].
Lemma unverified_is_secure_witness : ∃ stats w',
  run (validate_response iter_list keys_list text_answer) silent_env 0 recursive_world = (Ok (Secure, stats), w').
Proof.
  refine (unverified_is_secure iter_list keys_list (λ _, True) text_answer silent_env 0 recursive_world
    (silent_env_ok _) recursive_world_good _ _ _).
  - vm_compute. discriminate.
  - apply Exists_cons_hd. reflexivity.
  - constructor; [|constructor; [left; reflexivity|constructor]]. right. left.
    eexists _, _, _, _. split; [reflexivity|]. vm_compute. discriminate.
Defined.
