(* ===== verification/Resolve.v ===== *)
(** The query pipeline of [src/src/ctx.rs] as asynchronous code: remote resolution (cache,
    conditional forwarding, recursion, upstream) with coalescing and background refresh, the
    alias chase over the local and remote stages, and [resolve_query] and [handle_query], which
    end in shaping, serialising, statistics and the query log. *)
From stdpp Require Import gmap.
From S2P Require Import Prelude Net Ip Acl Policy Domains Overrides Stats Srtt QueryLog Forward.
From S2P Require Import Zones Rebind Cache Local Shape Coalesce Recursive Buffer Question Header.
From S2P Require Import Record Packet Async.
Open Scope outcome_scope.
Open Scope fut_scope.

(** [dnssec::validate_response], as the pipeline calls it: the status of a response. *)
Class Validator `{NetLib} :=
  validate_response : DnsPacket → fut World request reply DnssecStatus.
(** What the pipeline relies on: validation comes back with a status, or panics. *)
Definition comes_back {A} (r : outcome A) : Prop := match r with Ok _ | Panic => True | _ => False end.
Class ValidatorEnds `{Lowercase} `{Validator} (J : RebindFilter * bool * bool → Prop) :=
  validator_ends : ∀ p s, sound p → Recursive.good J s →
    Async.safe (Recursive.good J) fits comes_back (validate_response p) s.

(** What resolving returns: response, path, DNSSEC status, and the upstream's transport. *)
Abbreviation resolution := (DnsPacket * QueryPath.t * DnssecStatus * option UpstreamTransport.t)%type.

Section pipeline.
Context `{Lowercase} `{NetLib} (iter : Entries → list visit) (keys : srtt_map → list Srtt.key)
  (local_ip_toward : IpAddr → option Ipv4Addr).
Abbreviation async A := (fut World request reply A).

Definition set_inflight (m : gmap (bytes * QueryType.t) nat) (w : World) : World :=
  MkWorld (ctx w) (query_id w) (udp_failures w) (udp_disabled w) m (next_channel w) (sent w)
    (spawned w) (clock w).
Definition new_channel (m : gmap (bytes * QueryType.t) nat) (w : World) : World :=
  MkWorld (ctx w) (query_id w) (udp_failures w) (udp_disabled w) m (S (next_channel w)) (sent w)
    (spawned w) (clock w).
Definition send (tx : nat) (v : option DnsPacket) (w : World) : World :=
  MkWorld (ctx w) (query_id w) (udp_failures w) (udp_disabled w) (inflight w) (next_channel w)
    (sent w ++ [(tx, v)]) (spawned w) (clock w).
Definition spawn (key : bytes * QueryType.t) (w : World) : World :=
  MkWorld (ctx w) (query_id w) (udp_failures w) (udp_disabled w) (inflight w) (next_channel w)
    (sent w) (spawned w ++ [key]) (clock w).
Definition advance (t : Z) (w : World) : World :=
  MkWorld (ctx w) (query_id w) (udp_failures w) (udp_disabled w) (inflight w) (next_channel w)
    (sent w) (spawned w) (Z.max (clock w) t).

(** [rx.recv().await]. *)
Definition receive (rx : nat) : async (option (option DnsPacket)) :=
  Await (Recv rx) [] (λ _ r, ret match r with Received v => v | _ => None end).

Definition resolve_coalesced (key : bytes * QueryType.t) (query : DnsPacket)
    (leader_path : QueryPath.t) (resolve_fn : async DnsPacket) : async Coalesce.answer :=
  Get (λ w,
    match acquire_inflight (next_channel w) key (Async.inflight w) with
    | (Follower rx, _) => let* v := receive rx in ret (follower_answer query v)
    | (Leader tx, m) =>
        Put (new_channel m w)
          (let* r := catch resolve_fn in
           let* _ := modify (λ w, set_inflight (guard_drop key (Async.inflight w)) w) in
           let* _ := modify (send tx (broadcast r)) in
           ret (leader_answer query leader_path r))
    end).

(** [forward_with_failover_raw]: the attempts and their times are the network's, their order
    and what they leave in the round-trip table that of [Forward]; one step, at its end. *)
Definition forward_raw (pool : UpstreamPool) (msg : bytes) : async bytes :=
  let* start := gets clock in
  Await (Failover pool msg) [] (λ _ r,
    match r with
    | Attempts ask =>
        Get (λ w,
          let '(res, later, table) := forward_with_failover_raw keys ask start pool (srtt (ctx w)) in
          Put (advance later (set_srtt table w))
            match res with inr wire => ret wire | inl e => fail e end)
    | _ => fail NoneValue
    end).

Definition insert_wire_now (qname : bytes) (qtype : QueryType.t) (wire : bytes) : async unit :=
  update_cache (λ now, insert_wire iter now qname qtype wire Indeterminate).
Definition cache_and_parse (qname : bytes) (qtype : QueryType.t) (resp_wire : bytes)
    : async DnsPacket :=
  let* _ := insert_wire_now qname qtype resp_wire in
  Return (fst (from_buffer (from_bytes resp_wire))).

Definition preferred_transport (pool : UpstreamPool) : option UpstreamTransport.t :=
  option_map upstream_transport (preferred pool).

(** * Background refresh *)

Definition forward_and_insert (qname : bytes) (qtype : QueryType.t) (pool : UpstreamPool)
    : async unit :=
  match encode (Packet.query 0 qname qtype) with
  | Ok msg =>
      let* r := catch (forward_raw pool msg) in
      match r with inr wire => insert_wire_now qname qtype wire | inl _ => ret tt end
  | Err _ => ret tt
  | Panic => Return Panic
  | OutOfFuel => Return OutOfFuel
  end.
Definition refresh_entry (qname : bytes) (qtype : QueryType.t) : async unit :=
  Get (λ w,
    match match_forwarding_rule qname (forwarding_rules (ctx w)) with
    | Some pool => forward_and_insert qname qtype pool
    | None =>
        if bool_decide (upstream_mode (ctx w) = ModeRecursive) then
          let* r := catch (resolve_recursive iter keys qname qtype (Packet.query 0 qname qtype)) in
          match r with inr resp => cache_insert iter qname qtype resp | inl _ => ret tt end
        else
          forward_and_insert qname qtype (upstream_pool (ctx w))
    end).
(** The spawned task: the refresh, and the end of its mark. *)
Definition refresh_task (key : bytes * QueryType.t) : async unit :=
  let* _ := refresh_entry (fst key) (snd key) in
  modify (λ w, set_ctx (set_refreshing (refreshing (ctx w) ∖ {[key]}) (ctx w)) w).

(** * Remote resolution *)

(** A cached response, made to answer this query. *)
Definition adopt (query cached : DnsPacket) (status : DnssecStatus) : DnsPacket :=
  let h := with_ra true (with_rd (recursion_desired (header query))
    (with_id (id (header query)) (header cached))) in
  let h := match status with Secure => with_ad true h | _ => h end in
  {| header := h; questions := questions query; answers := answers cached;
     authorities := authorities cached; resources := resources cached; edns := edns cached |}.

(** The background refresh of an entry, unless one runs already. *)
Definition start_refresh (key : bytes * QueryType.t) (w : World) : World :=
  if bool_decide (key ∈ refreshing (ctx w)) then w
  else spawn key (set_ctx (set_refreshing ({[key]} ∪ refreshing (ctx w)) (ctx w)) w).

(** The three branches share this: resolve under the in-flight map and tag the transport. *)
Definition resolve_branch (key : bytes * QueryType.t) (query : DnsPacket) (path : QueryPath.t)
    (transport : option UpstreamTransport.t) (resolve_fn : async DnsPacket) : async resolution :=
  let* (resp, p, _) := resolve_coalesced key query path resolve_fn in
  ret (resp, p, Indeterminate, if bool_decide (p = path) then transport else None).

Definition resolve_remote (query : DnsPacket) (raw_wire qname : bytes) (qtype : QueryType.t)
    : async resolution :=
  let* found := try_get (λ w, lookup_with_status (clock w) (cache (ctx w)) qname qtype) in
  match found with
  | Some (cached, status, freshness) =>
      let* _ := modify (λ w, if needs_refresh freshness then start_refresh (qname, qtype) w else w) in
      ret (adopt query cached status, QueryPath.Cached, status, None)
  | None =>
      Get (λ w,
        match match_forwarding_rule qname (forwarding_rules (ctx w)) with
        | Some pool =>
            resolve_branch (qname, qtype) query QueryPath.Forwarded (preferred_transport pool)
              (let* wire := forward_raw pool raw_wire in cache_and_parse qname qtype wire)
        | None =>
            if bool_decide (upstream_mode (ctx w) = ModeRecursive) then
              resolve_branch (qname, qtype) query QueryPath.Recursive_ (Some UpstreamTransport.Udp)
                (resolve_recursive iter keys qname qtype query)
            else
              resolve_branch (qname, qtype) query QueryPath.Upstream
                (preferred_transport (upstream_pool (ctx w)))
                (let* wire := forward_raw (upstream_pool (ctx w)) raw_wire in
                 cache_and_parse qname qtype wire)
        end)
  end.

(** Local stages first, then the remote ones. *)
Definition resolve_either (query : DnsPacket) (raw_wire : bytes) (src_addr : SocketAddr)
    (qname : bytes) (qtype : QueryType.t) : async resolution :=
  Get (λ w,
    match resolve_local local_ip_toward (clock w) query src_addr qname qtype (ctx w) with
    | Ok (o, c) =>
        Put (set_ctx c w)
          match o with
          | Some (r, p, d) => ret (r, p, d, None)
          | None => resolve_remote query raw_wire qname qtype
          end
    | Err e => fail e
    | Panic => Return Panic
    | OutOfFuel => Return OutOfFuel
    end).

(** * The alias chase *)

Fixpoint chase (fuel : nat) (query : DnsPacket) (src_addr : SocketAddr) (qtype : QueryType.t)
    (visited : gset bytes) (current_qname : bytes) (r : resolution) : async resolution :=
  let '(resp, path, dnssec, ut) := r in
  match fuel with
  | O => Return OutOfFuel
  | S fuel =>
      if existsb (λ r, bool_decide (query_type r = qtype)) (answers resp)
         || negb (bool_decide (rescode (header resp) = NOERROR))
      then ret r
      else
        match extract_cname_target resp current_qname with
        | None => ret r
        | Some target =>
            if (MAX_CNAME_DEPTH <? Z.of_nat (size visited))
               || bool_decide (ascii_lower target ∈ visited)
            then ret (response_from query SERVFAIL, path, dnssec, ut)
            else
              let sub_query := Packet.query (id (header query)) target qtype in
              match encode sub_query with
              | Ok sub_buf =>
                  let* (sub_resp, _, _, sub_ut) := resolve_either sub_query sub_buf src_addr target qtype in
                  let resp := push_answers (answers sub_resp)
                    (with_header (with_rescode (rescode (header sub_resp)) (header resp)) resp) in
                  chase fuel query src_addr qtype ({[ascii_lower target]} ∪ visited) target
                    (resp, path, dnssec, match ut with Some t => Some t | None => sub_ut end)
              | OutOfFuel => Return OutOfFuel
              | _ => Return Panic
              end
        end
  end.
(** One turn more than there are aliases to follow. *)
Definition CHASE_FUEL : nat := Z.to_nat (MAX_CNAME_DEPTH + 1).
Definition resolve_with_cname_chase (query : DnsPacket) (raw_wire : bytes) (src_addr : SocketAddr)
    (qname : bytes) (qtype : QueryType.t) : async resolution :=
  let* r := resolve_either query raw_wire src_addr qname qtype in
  chase CHASE_FUEL query src_addr qtype {[ascii_lower qname]} qname r.

(** * The whole query *)

Section query.
Context `{!Validator}.

(** DNSSEC validation of a recursive response, and its insertion with the status. *)
Definition validation (query : DnsPacket) (qname : bytes) (qtype : QueryType.t)
    (response : DnsPacket) (path : QueryPath.t) (dnssec : DnssecStatus)
    : async (DnsPacket * DnssecStatus) :=
  Get (λ w,
    if dnssec_enabled (ctx w) && bool_decide (path = QueryPath.Recursive_) then
      let* status := validate_response response in
      let response := match status with
                      | Secure => with_header (with_ad true (header response)) response
                      | Bogus => if dnssec_strict (ctx w) then response_from query SERVFAIL else response
                      | _ => response
                      end in
      let* _ := update_cache (λ now, insert_with_status iter now qname qtype response status) in
      ret (response, status)
    else ret (response, dnssec)).

Definition record_rebind (w : World) : World :=
  set_ctx (set_stats (record_rebind_stripped (stats (ctx w))) (ctx w)) w.
Definition rebind_stage (qname : bytes) (path : QueryPath.t) (response : DnsPacket)
    : async (DnsPacket * bool) :=
  if QueryPath.returns_trusted_local_data path then ret (response, false)
  else
    let* (stripped, response) := try_get (λ w, rebind_apply (rebind (ctx w)) qname response) in
    if 0 <? stripped then
      let* _ := modify record_rebind in
      ret (with_header (with_ad false (header response)) response, true)
    else ret (response, false).

Definition log_query (e : QueryLogEntry) (path : QueryPath.t) (transport : Transport.t)
    (upstream : option UpstreamTransport.t) (w : World) : World :=
  let c := set_stats (snd (Stats.record path transport upstream (stats (ctx w)))) (ctx w) in
  set_ctx (set_query_log (QueryLog.push e (query_log c)) c) w.

Definition resolve_query (query : DnsPacket) (raw_wire : bytes) (src_addr : SocketAddr)
    (transport : Transport.t) : async (BytePacketBuffer * QueryPath.t) :=
  let* start := gets clock in
  match questions query with
  | [] => fail (Message "empty question section")
  | q :: _ =>
      let qname := name q in
      let qtype := qtype q in
      let* (response, path, dnssec, upstream_transport) :=
        resolve_with_cname_chase query raw_wire src_addr qname qtype in
      let* (response, dnssec) := validation query qname qtype response path dnssec in
      let* (response, rebind_stripped) := rebind_stage qname path response in
      let* filter := gets (λ w, effective_filter_aaaa (client_policy (ctx w)) (ip src_addr)
                                  (filter_aaaa (ctx w))) in
      let* response := Return (shape_response_for_client query filter response) in
      let* now := gets clock in
      let* (resp_buffer, response) := Return (serialize_with_fallback response query filter) in
      let* _ := modify (log_query
        {| seq := 0; timestamp := now; src_addr := src_addr; log_domain := qname;
           QueryLog.query_type := qtype; log_path := path; QueryLog.transport := transport;
           QueryLog.rescode := rescode (header response);
           latency_us := Z.max 0 (now - start) / 1000; dnssec := dnssec;
           log_rebind_stripped := rebind_stripped |} path transport upstream_transport) in
      ret (resp_buffer, path)
  end.

(** The datagram sent in reply, if any. *)
Definition handle_query (buffer : BytePacketBuffer) (raw_len : Z) (src_addr : SocketAddr)
    (transport : Transport.t) : async (option bytes) :=
  match from_buffer buffer with
  | (Ok query, buffer) =>
      match slice (buf buffer) 0 raw_len with
      | None => Return Panic
      | Some raw =>
          let* r := catch (resolve_query query raw src_addr transport) in
          match r with
          | inr (resp_buffer, _) => let* w := Return (filled resp_buffer) in ret (Some w)
          | inl _ => ret None
          end
      end
  | (Err _, _) => ret None
  | (Panic, _) => Return Panic
  | (OutOfFuel, _) => Return OutOfFuel
  end.
End query.
End pipeline.

(** * Remote resolution always answers *)

Section remote.
Context `{Lowercase} `{NetLib} (iter : Entries → list visit) `{!IterOrder iter}
  (keys : srtt_map → list Srtt.key) (J : RebindFilter * bool * bool → Prop).
Abbreviation good := (Recursive.good J).
Abbreviation safe := (Async.safe good fits).
Abbreviation async A := (fut World request reply A).

(** A step on the state that keeps what the invariant is about. *)
Lemma safe_step {A} (Q : outcome A → Prop) (g : World → World) (k : unit → async A) s :
  good s → (∀ w, core (g w) = core w) → (∀ s, good s → safe Q (k tt) s) →
  safe Q (bind (modify g) k) s.
Proof. intros Hs Hg Hk. cbn. apply Hk. by apply (good_core J s). Qed.

Lemma safe_forward_raw pool msg s : good s →
  safe (λ r, match r with Ok w => all_bytes w | Err _ => True | _ => False end)
    (forward_raw keys pool msg) s.
Proof.
  intros Hs. unfold forward_raw. apply safe_gets. cbn. split; [done|].
  intros i q r s1 Hq Hf G1. destruct i as [|i]; [|done]. injection Hq as <-.
  destruct r as [d|ask| | | |]; try done. cbn in Hf |- *.
  pose proof (failover_bytes keys ask) as Hb.
  destruct (forward_with_failover_raw keys ask (clock s) pool (srtt (ctx s1))) as [[res later] table] eqn:E.
  assert (G2 : good (advance later (set_srtt table s1))) by by apply (good_core J s1).
  destruct res as [e|w]; cbn; (split; [done|]); [done|].
  eapply Hb; [|exact E]. intros. by apply Hf.
Qed.
Lemma safe_insert_wire qname qtype wire s : all_bytes wire → good s →
  safe (returns_ok (λ _, True)) (insert_wire_now iter qname qtype wire) s.
Proof. intros Hw Hs. apply safe_update; [|done]. intros now c Hc. by apply insert_wire_returns. Qed.
Lemma safe_forward pool raw qname qtype s : good s →
  safe fine (let* wire := forward_raw keys pool raw in cache_and_parse iter qname qtype wire) s.
Proof.
  intros Hs. apply (safe_then J (λ w, all_bytes w)); [by apply safe_forward_raw|].
  intros w s1 Hw G1. unfold cache_and_parse.
  eapply safe_seq; [by apply safe_insert_wire|]. intros _ s2 _ G2. split; [done|].
  by apply (parse_reply_fine (inr w)).
Qed.

(** What a coalesced call returns, given what its own resolution would. *)
Definition coalesced (query : DnsPacket) (leader_path : QueryPath.t) (P : DnsPacket → Prop)
    (a : Coalesce.answer) : Prop :=
  let '(resp, path, _) := a in
  sound resp ∧
  ((path = leader_path ∧ P resp) ∨
   (path = QueryPath.Coalesced ∧ id (header resp) = id (header query)) ∨
   (path = QueryPath.UpstreamError ∧ resp = response_from query SERVFAIL)).
Lemma sound_with_id v p : is_u16 v → sound p → 
  sound (with_header (with_id v (header p)) p).
Proof.
  intros Hv (Hh & ? & ? & ? & ? & ?). destruct Hh as (_ & ? & ?). by split_and!.
Qed.
Lemma servfail_coalesced query path P e : query_ok query →
  coalesced query path P (response_from query SERVFAIL, QueryPath.UpstreamError, e).
Proof. intros Hq. split; [by apply response_from_sound|]. by right; right. Qed.

Lemma safe_coalesced key query path (P : DnsPacket → Prop) (resolve_fn : async DnsPacket) s :
  query_ok query → good s → (∀ p, P p → sound p) →
  (∀ s, good s → safe (λ r, match r with Ok p => P p | Err _ => True | _ => False end) resolve_fn s) →
  safe (returns_ok (coalesced query path P)) (resolve_coalesced key query path resolve_fn) s.
Proof.
  intros Hq Hs HP Hfn. unfold resolve_coalesced. cbn [Async.safe]. unfold acquire_inflight.
  destruct (Async.inflight s !! key) as [rx|].
  - cbn. split; [done|]. intros i q r s1 Hi Hf G1. destruct i as [|i]; [|done]. injection Hi as <-.
    destruct r as [| | |v| |]; try done. cbn. split; [done|].
    destruct v as [[resp|]|]; try by apply servfail_coalesced.
    split; [apply sound_with_id; [apply Hq|exact Hf]|]. by right; left.
  - cbn [Async.safe].
    apply (safe_seq J (λ r, match r with inr p => P p | inl _ => True end)).
    + eapply safe_catch; [apply Hfn; by apply (good_core J s)|done..].
    + intros r s1 Hr G1. apply safe_step; [done|done|]. intros s2 [Gj Gc Gl Gs].
      cbn. split; [split; [done|done| |]|].
      * destruct Gl. by split.
      * cbn. apply Forall_app. split; [done|]. apply Forall_singleton. cbn.
        destruct r; [done|by apply HP].
      * destruct r as [e|resp]; [by apply servfail_coalesced|]. split; [by apply HP|]. by left.
Qed.

Definition remote_answer (query : DnsPacket) (r : resolution) : Prop :=
  let '(resp, path, status, transport) := r in
  sound resp ∧
  match path with
  | QueryPath.Cached =>
      id (header resp) = id (header query) ∧ questions resp = questions query ∧
      (status = Secure → authed_data (header resp) = true) ∧ transport = None
  | QueryPath.Forwarded | QueryPath.Upstream => status = Indeterminate
  | QueryPath.Recursive_ =>
      for_client query (Ok resp) ∧ status = Indeterminate ∧ transport = Some UpstreamTransport.Udp
  | QueryPath.Coalesced =>
      id (header resp) = id (header query) ∧ status = Indeterminate ∧ transport = None
  | QueryPath.UpstreamError =>
      resp = response_from query SERVFAIL ∧ status = Indeterminate ∧ transport = None
  | _ => False
  end.

Lemma adopt_sound query p status : query_ok query → sound p → sound (adopt query p status).
Proof.
  intros [Hq Hqs] (Hh & _ & ? & ? & ? & ?). destruct Hh as (_ & ? & ?), Hq as (? & _).
  unfold adopt. split_and!; try done; by destruct status.
Qed.

Lemma safe_resolve_remote query raw qname qtype s : query_ok query → good s →
  safe (returns_ok (remote_answer query)) (resolve_remote iter keys query raw qname qtype) s.
Proof.
  intros Hq Hs. unfold resolve_remote.
  apply (safe_seq J (λ r, match r with Some (p, _, _) => sound p | None => True end)).
  { cbn. destruct (lookup_with_status_returns (clock s) (cache (ctx s)) qname qtype (g_cache _ _ Hs))
      as (r & -> & Hr). split; [done|]. destruct r as [[[p ?] ?]|]; [by apply parsed_packet_fields|done]. }
  intros [[[c status] freshness]|] s1 Hc G1.
  { apply safe_step; [done| |].
    - intros w. destruct (needs_refresh freshness); [|done]. unfold start_refresh. by case_bool_decide.
    - intros s2 G2. split; [done|]. split; [by apply adopt_sound|]. by destruct status. }
  cbn [Async.safe].
  assert (Hbranch : ∀ path t fn P, (∀ s, good s →
      safe (λ r, match r with Ok p => P p | Err _ => True | _ => False end) fn s) →
    path ≠ QueryPath.Coalesced → path ≠ QueryPath.UpstreamError → (∀ p, P p → sound p) →
    (∀ resp, P resp → remote_answer query (resp, path, Indeterminate, t)) →
    safe (returns_ok (remote_answer query)) (resolve_branch (qname, qtype) query path t fn) s1).
  { intros path t fn P Hfn Hco Hu Hsd HP. unfold resolve_branch.
    eapply safe_seq; [by apply (safe_coalesced _ _ _ P)|].
    intros [[resp p] err] s2 (Hr & [[-> HPr]|[[-> Hid]|[-> ->]]]) G2; (split; [done|]).
    - rewrite bool_decide_eq_true_2 by done. by apply HP.
    - by rewrite bool_decide_eq_false_2.
    - by rewrite bool_decide_eq_false_2. }
  destruct (match_forwarding_rule qname (forwarding_rules (ctx s1))) as [pool|].
  { apply (Hbranch _ _ _ sound); try done. intros. by apply safe_forward. }
  case_bool_decide.
  - apply (Hbranch _ _ _ (λ p, for_client query (Ok p))); try done.
    + intros s2 G2. eapply fut_mono; [|by apply safe_resolve_recursive]. by intros [].
    + intros p Hp. by apply Hp.
    + intros resp Hr. split; [by apply Hr|]. by split.
  - apply (Hbranch _ _ _ sound); try done. intros. by apply safe_forward.
Qed.

(** C9: a query sent to the remote stages always comes back with a response, whatever the
    network does and whatever other tasks do to the shared state at the awaits: never an
    error, a panic or an endless loop. A cached or coalesced response, and the one of a
    recursive resolution, bears the client's id; a failure is a SERVFAIL to this query; only a
    cached response claims a DNSSEC status; and what is broadcast to coalesced queries is
    always a response that can be sent on. *)
Theorem resolve_remote_answers (query : DnsPacket) (raw qname : bytes) (qtype : QueryType.t)
    (env : nat → list request → moment) (n : nat) (w : World) :
  query_ok query → env_ok good fits env → good w →
  ∃ r w', run (resolve_remote iter keys query raw qname qtype) env n w = (Ok r, w') ∧ good w' ∧
    remote_answer query r.
Proof.
  intros Hq He Hw. pose proof (safe_run good fits _ _ env He n w
    (safe_resolve_remote query raw qname qtype w Hq Hw)) as Hr.
  destruct (run _ env n w) as [[r|e| |] w']; destruct Hr as [Hg Hr]; try done. by exists r, w'.
Qed.
End remote.

(** * Examples *)

#[local] Existing Instance sample_net.
#[local] Existing Instance lowercase_ascii.

Lemma sample_servers_ok : env_ok (good (λ _, True)) fits (sample_env sample_servers).
Proof.
  apply sample_env_ok. intros a msg. unfold sample_servers.
  case_bool_decide; [apply (bool_decide_unpack _); vm_compute; exact I|].
  case_bool_decide; [apply (bool_decide_unpack _); vm_compute; exact I|exact I].
Qed.
Lemma resolve_remote_answers_witness : ∃ resp w',
  run (resolve_remote iter_list keys_list (query 7 (str "www.test") QueryType.A) [] (str "www.test")
    QueryType.A) (sample_env sample_servers) 0 recursive_world =
    (Ok (resp, QueryPath.Recursive_, Indeterminate, Some UpstreamTransport.Udp), w') ∧
  good (λ _, True) w' ∧ id (header resp) = 7.
Proof.
  assert (Hq : query_ok (query 7 (str "www.test") QueryType.A)) by (apply (bool_decide_unpack _); vm_compute; exact I).
  destruct (resolve_remote_answers iter_list keys_list (λ _, True) (query 7 (str "www.test") QueryType.A) []
    (str "www.test") QueryType.A _ 0 _ Hq sample_servers_ok recursive_world_good)
    as ([[[resp p] d] t] & w' & Hr & Hg & Ha).
  assert (Hp : match fst (run (resolve_remote iter_list keys_list (query 7 (str "www.test") QueryType.A) []
    (str "www.test") QueryType.A) (sample_env sample_servers) 0 recursive_world) with
    | Ok (_, p, _, _) => p = QueryPath.Recursive_ | _ => False end) by (vm_compute; reflexivity).
  rewrite Hr in Hp. cbn in Hp. subst p. destruct Ha as (_ & Hc & -> & ->). exists resp, w'.
  split; [exact Hr|]. split; [exact Hg|]. apply Hc.
Defined.
