(* ===== verification/Query.v ===== *)
(** Whole queries, [resolve_query] and [handle_query] of [src/src/ctx.rs] from the datagram to
    the reply: the alias chase ends, the pipeline always comes back, and what the rebinding
    filter promises holds of the message that is sent. *)
From stdpp Require Import gmap.
From S2P Require Import Prelude Net Ip Acl Policy Domains Overrides Stats Srtt QueryLog Forward.
From S2P Require Import Zones Rebind Cache Local Shape Coalesce Recursive Buffer Question Header.
From S2P Require Import Record Packet Async Resolve.
Open Scope outcome_scope.
Open Scope fut_scope.

(** * Alias chains *)

(** Every name of the list is the alias target, among the answers, of the one before it. *)
Fixpoint chained (p : DnsPacket) (n : bytes) (l : list bytes) : Prop :=
  match l with
  | [] => True
  | m :: l => extract_cname_target p n = Some m ∧ chained p m l
  end.
Fixpoint chain_end (n : bytes) (l : list bytes) : bytes :=
  match l with [] => n | m :: l => chain_end m l end.

(** Nothing is left to follow from this name. *)
Definition settled (p : DnsPacket) (qtype : QueryType.t) (n : bytes) : Prop :=
  Exists (λ r, query_type r = qtype) (answers p) ∨ rescode (header p) ≠ NOERROR ∨
  extract_cname_target p n = None.

Lemma extract_push rs h p n t : extract_cname_target p n = Some t →
  extract_cname_target (push_answers rs (with_header h p)) n = Some t.
Proof.
  unfold extract_cname_target. cbn. induction (answers p) as [|r l IH]; [done|]. cbn.
  destruct r; try exact IH. destruct (eq_ignore_ascii_case _ _); [done|exact IH].
Qed.
Lemma chained_push rs h p l : ∀ n, chained p n l → chained (push_answers rs (with_header h p)) n l.
Proof. induction l as [|m l IH]; intros n; [done|]. intros [Ht Hl]. split; [by apply extract_push|by apply IH]. Qed.
Lemma chained_snoc p t l : ∀ n, chained p n l → extract_cname_target p (chain_end n l) = Some t →
  chained p n (l ++ [t]).
Proof. induction l as [|m l IH]; intros n; cbn; [by intros|]. intros [Hm Hl] Ht. split; [done|by apply IH]. Qed.
Lemma chain_end_snoc n l t : chain_end n (l ++ [t]) = t.
Proof. revert n. induction l as [|m l IH]; intros n; [done|]. apply IH. Qed.

Lemma visited_snoc (l : list bytes) x : {[x]} ∪ list_to_set l = (list_to_set (l ++ [x]) : gset bytes).
Proof. set_solver. Qed.

Lemma settled_test p qtype :
  existsb (λ r, bool_decide (query_type r = qtype)) (answers p)
    || negb (bool_decide (rescode (header p) = NOERROR)) = true ↔
  Exists (λ r, query_type r = qtype) (answers p) ∨ rescode (header p) ≠ NOERROR.
Proof.
  rewrite orb_true_iff, negb_true_iff, bool_decide_eq_false, existsb_exists, Exists_exists.
  f_equiv. split; intros (r & Hr & Hq); exists r; (split; [by apply list_elem_of_In|]);
    by apply bool_decide_eq_true in Hq || apply bool_decide_eq_true.
Qed.

Section query.
Context `{Lowercase} `{NetLib} (iter : Entries → list visit) `{!IterOrder iter}
  (keys : srtt_map → list Srtt.key) (J : RebindFilter * bool * bool → Prop).
Context (local_ip_toward : IpAddr → option Ipv4Addr)
  (local_ip_toward_ok : ∀ a b, local_ip_toward a = Some b → ipv4_ok b).
Abbreviation good := (Recursive.good J).
Abbreviation safe := (Async.safe good fits).
Abbreviation async A := (fut World request reply A).

Lemma good_locals c w : good w → locals_ok c → same_but_peers (ctx w) c → good (set_ctx c w).
Proof.
  intros [Gj Gc Gl Gs] Hc Hsame. rewrite Hsame in *.
  split; [exact Gj|exact Gc|exact Hc|exact Gs].
Qed.

(** What the reply to [query] on this path bears of it. An upstream's reply is passed on as
    it came; that of a resolution joined is made to bear the id. *)
Definition reply_to (query : DnsPacket) (path : QueryPath.t) (p : DnsPacket) : Prop :=
  match path with
  | QueryPath.Forwarded | QueryPath.Upstream => True
  | QueryPath.Coalesced => id (header p) = id (header query)
  | _ => answers_to query p
  end.
Lemma reply_to_same query path p p' : reply_to query path p → answers_to p p' → reply_to query path p'.
Proof. unfold answers_to. destruct path; cbn; unfold answers_to; intuition congruence. Qed.
Lemma answers_reply query path p : answers_to query p → reply_to query path p.
Proof. intros [? ?]. by destruct path. Qed.

(** What either the local stages or the remote ones answer. *)
Definition resolved (query : DnsPacket) (r : resolution) : Prop :=
  let '(resp, path, status, t) := r in
  sound resp ∧ (status = Secure → path = QueryPath.Cached) ∧ reply_to query path resp.

Lemma remote_resolved query r : remote_answer query r → resolved query r.
Proof.
  destruct r as [[[resp path] status] t]. intros [Hr Ha]. split; [done|].
  destruct path; try done; cbn in *; unfold answers_to, for_client in *; try naive_solver.
Qed.
Lemma safe_resolve_either query raw src qname qtype s : query_ok query → all_bytes qname → good s →
  safe (returns_ok (resolved query)) (resolve_either iter keys local_ip_toward query raw src qname qtype) s.
Proof.
  intros Hq Hn Hs. unfold resolve_either. cbn [Async.safe].
  destruct (resolve_local_sound local_ip_toward local_ip_toward_ok (clock s) query src qname qtype
    (ctx s) Hq Hn (g_locals _ _ Hs)) as (o & c & E & Hc & Hsame & Ho).
  rewrite E. cbn [Async.safe]. pose proof (good_locals c s Hs Hc Hsame) as G1.
  destruct o as [[[r p] d]|].
  - split; [done|]. destruct Ho as (Hr & _ & ->). split; [done|]. split; [done|].
    by eapply answers_reply, resolve_local_answers_to.
  - eapply fut_mono; [|by apply safe_resolve_remote]. intros [r|e| |]; try done. apply remote_resolved.
Qed.

(** ** The chase *)

Lemma encode_query v n qt : match encode (Packet.query v n qt) with
  | Ok w => all_bytes n → qtype_ok qt → is_u16 v → all_bytes w
  | Err _ => True
  | _ => False
  end.
Proof.
  unfold encode. pose proof (write_new_spec (Packet.query v n qt)) as Hw.
  destruct (packet_wire (Packet.query v n qt)) as [w|] eqn:E.
  - destruct Hw as [(_ & -> & ->)|(_ & b & -> & _)]; [|done]. intros Hn Hqt Hv.
    eapply packet_fields_bytes, E. split_and!; try done; try by constructor.
  - by destruct Hw as (e & b & ->).
Qed.
Lemma query_query_ok v n qt : is_u16 v → all_bytes n → qtype_ok qt → query_ok (Packet.query v n qt).
Proof. intros. split; [by split_and!|by apply Forall_singleton]. Qed.
Lemma cname_target_bytes p n t : sound p → extract_cname_target p n = Some t → all_bytes t.
Proof.
  intros (_ & _ & Ha & _) Ht. unfold extract_cname_target in Ht.
  apply head_Some_elem_of, list_elem_of_omap in Ht as (r & Hr & Hf).
  rewrite Forall_forall in Ha. apply Ha in Hr. destruct r; try done.
  destruct (eq_ignore_ascii_case _ _); [|done]. injection Hf as <-. apply Hr.
Qed.

(** The response so far, with what the alias resolved to. *)
Definition extended (resp sub : DnsPacket) : DnsPacket :=
  push_answers (answers sub) (with_header (with_rescode (rescode (header sub)) (header resp)) resp).
Lemma extended_sound resp sub : sound resp → sound sub → sound (extended resp sub).
Proof.
  intros (Hh & ? & ? & ? & ? & ?) (_ & _ & ? & _). split_and!; try done. by apply Forall_app.
Qed.
Lemma extended_reply query path resp sub :
  reply_to query path resp → reply_to query path (extended resp sub).
Proof. intros Hr. by eapply reply_to_same. Qed.

(** For the stages after it: the chase ends with a response to the query, unless it panics. *)
Definition responds (query : DnsPacket) (path : QueryPath.t) (dnssec : DnssecStatus)
    (r : outcome resolution) : Prop :=
  match r with
  | Ok (resp, path', dnssec', _) => path' = path ∧ dnssec' = dnssec ∧ sound resp ∧ reply_to query path resp
  | Panic => True
  | _ => False
  end.
Lemma safe_chase query src qtype fuel : query_ok query → qtype_ok qtype →
  ∀ visited current resp path dnssec ut s,
  (fuel + size visited = S CHASE_FUEL)%nat → (size visited ≤ CHASE_FUEL)%nat → sound resp → reply_to query path resp → good s →
  safe (responds query path dnssec)
    (chase iter keys local_ip_toward fuel query src qtype visited current (resp, path, dnssec, ut)) s.
Proof.
  intros Hq Hqt. change (S CHASE_FUEL) with 10%nat. change CHASE_FUEL with 9%nat.
  induction fuel as [|fuel IH]; intros visited current resp path dnssec ut s Hf Hsz Hr Hto Hs; cbn [chase].
  { exfalso. lia. }
  destruct (existsb _ _ || _); [by split|].
  destruct (extract_cname_target resp current) as [target|] eqn:Ht; [|by split].
  change MAX_CNAME_DEPTH with 8. case_bool_decide as Hin; rewrite ?orb_true_r, ?orb_false_r.
  { split; [done|]. do 2 (split; [done|]). split; [by apply response_from_sound|].
    by apply answers_reply. }
  destruct (Z.ltb_spec 8 (Z.of_nat (size visited))).
  { split; [done|]. do 2 (split; [done|]). split; [by apply response_from_sound|].
    by apply answers_reply. }
  pose proof (cname_target_bytes _ _ _ Hr Ht) as Htb.
  pose proof (encode_query (id (header query)) target qtype) as He.
  destruct (encode _) as [wire|e| |]; [|by split|done..].
  eapply safe_seq; [apply safe_resolve_either; [apply query_query_ok; [apply Hq|done..]|done..]|].
  intros [[[sub d] pth] t] s1 (Hsub & _) G1. apply IH.
  - rewrite size_union, size_singleton by set_solver. lia.
  - rewrite size_union, size_singleton by set_solver. lia.
  - by apply extended_sound.
  - by apply extended_reply.
  - done.
Qed.
Lemma safe_resolve_chased query raw src qname qtype s :
  query_ok query → all_bytes qname → qtype_ok qtype → good s →
  safe (λ r, ∃ path dnssec, (dnssec = Secure → path = QueryPath.Cached) ∧ responds query path dnssec r)
    (resolve_with_cname_chase iter keys local_ip_toward query raw src qname qtype) s.
Proof.
  intros Hq Hn Hqt Hs. unfold resolve_with_cname_chase.
  eapply safe_seq; [by apply safe_resolve_either|].
  intros [[[resp path] dnssec] t] s1 (Hr & Hst & Hto) G1.
  eapply (fut_mono _ _ (responds query path dnssec)); [intros r Hc; by exists path, dnssec|].
  apply safe_chase; try done; rewrite size_singleton; vm_compute; [done|lia].
Qed.

(** ** What a chase has come to *)

Section run.
Context (env : nat → list request → moment) (env_fits : env_ok good fits env).

(** The alias to follow next, if the response is not settled. *)
Definition goes_on (resp : DnsPacket) (qtype : QueryType.t) (name target : bytes) : Prop :=
  ¬ settled resp qtype name ∧ extract_cname_target resp name = Some target.
(** One alias too many, or one of the names followed before. *)
Definition closes (qname : bytes) (names : list bytes) (target : bytes) : Prop :=
  length names = 8%nat ∨ ascii_lower target ∈ map ascii_lower (qname :: names).

(** In the run from the await [n] and the state [w], the aliases followed so far, the response
    they made, and the await and the state where the chase goes on. Every alias is resolved
    like a query, when the one before has been. *)
Inductive reached (query : DnsPacket) (raw : bytes) (src : SocketAddr) (qname : bytes)
    (qtype : QueryType.t) (n : nat) (w : World) : list bytes → resolution → nat → World → Prop :=
  | reached_first r n1 w1 :
      run_to (resolve_either iter keys local_ip_toward query raw src qname qtype) env n w = (Ok r, (n1, w1)) →
      reached query raw src qname qtype n w [] r n1 w1
  | reached_next names resp path dnssec ut target wire sub p d t n1 w1 n2 w2 :
      reached query raw src qname qtype n w names (resp, path, dnssec, ut) n1 w1 →
      goes_on resp qtype (chain_end qname names) target → ¬ closes qname names target →
      encode (Packet.query (id (header query)) target qtype) = Ok wire →
      run_to (resolve_either iter keys local_ip_toward (Packet.query (id (header query)) target qtype)
        wire src target qtype) env n1 w1 = (Ok (sub, p, d, t), (n2, w2)) →
      reached query raw src qname qtype n w (names ++ [target])
        (extended resp sub, path, dnssec, match ut with Some t => Some t | None => t end) n2 w2.

(** A chain of different names, each the alias of the one before, and a response that can be sent. *)
Definition link_ok (query : DnsPacket) (qname : bytes) (names : list bytes) (r : resolution) : Prop :=
  let '(resp, path, dnssec, _) := r in
  (length names ≤ 8)%nat ∧ NoDup (map ascii_lower (qname :: names)) ∧ chained resp qname names ∧
  sound resp ∧ (dnssec = Secure → path = QueryPath.Cached) ∧ reply_to query path resp.

(** The alias that cannot be asked for: the run follows its chain to a target whose query
    cannot be encoded. *)
Definition unwritable_alias (query : DnsPacket) (raw : bytes) (src : SocketAddr) (qname : bytes)
    (qtype : QueryType.t) (n : nat) (w : World) (n' : nat) (w' : World) : Prop :=
  ∃ names resp path dnssec ut target e,
    reached query raw src qname qtype n w names (resp, path, dnssec, ut) n' w' ∧
    chained resp qname names ∧ goes_on resp qtype (chain_end qname names) target ∧
    ¬ closes qname names target ∧ encode (Packet.query (id (header query)) target qtype) = Err e.

(** How the chase ends: settled, closed, or at an alias that cannot be asked for. *)
Definition chased (query : DnsPacket) (raw : bytes) (src : SocketAddr) (qname : bytes)
    (qtype : QueryType.t) (n : nat) (w : World) (out : outcome resolution) (n' : nat) (w' : World) : Prop :=
  match out with
  | Ok r => ∃ names resp path dnssec ut,
      reached query raw src qname qtype n w names (resp, path, dnssec, ut) n' w' ∧
      link_ok query qname names (resp, path, dnssec, ut) ∧
      let last := chain_end qname names in
      (settled resp qtype last ∧ r = (resp, path, dnssec, ut) ∨
       ∃ target, goes_on resp qtype last target ∧ closes qname names target ∧
         r = (response_from query SERVFAIL, path, dnssec, ut))
  | Panic => unwritable_alias query raw src qname qtype n w n' w'
  | _ => False
  end.
Lemma chased_result query raw src qname qtype n w r n' w' : query_ok query →
  chased query raw src qname qtype n w (Ok r) n' w' →
  let '(resp, path, dnssec, _) := r in
  sound resp ∧ (dnssec = Secure → path = QueryPath.Cached) ∧ reply_to query path resp.
Proof.
  intros Hq (names & resp & path & dnssec & ut & _ & (_ & _ & _ & Hr) & [(_ & ->)|(t & _ & _ & ->)]); [done|].
  split; [by apply response_from_sound|]. split; [apply Hr|]. by apply answers_reply.
Qed.

Lemma settled_cases resp qtype name :
  if existsb (λ r, bool_decide (query_type r = qtype)) (answers resp)
       || negb (bool_decide (rescode (header resp) = NOERROR))
  then settled resp qtype name
  else match extract_cname_target resp name with
       | Some target => goes_on resp qtype name target
       | None => settled resp qtype name
       end.
Proof.
  pose proof (settled_test resp qtype) as Hset. destruct (existsb _ _ || _).
  - destruct (proj1 Hset eq_refl); [by left|by right; left].
  - destruct (extract_cname_target resp name) eqn:Ht; [|by do 2 right]. split; [|done].
    intros [Hx|[Hx|Hx]]; [| |congruence]; discriminate (proj2 Hset ltac:(auto)).
Qed.

Lemma chase_reached query raw src qname qtype n w fuel : query_ok query → qtype_ok qtype →
  ∀ names r n1 w1, (fuel + length names = CHASE_FUEL)%nat →
  reached query raw src qname qtype n w names r n1 w1 → link_ok query qname names r → good w1 →
  let x := run_to (chase iter keys local_ip_toward fuel query src qtype
    (list_to_set (map ascii_lower (qname :: names))) (chain_end qname names) r) env n1 w1 in
  good (snd (snd x)) ∧ chased query raw src qname qtype n w (fst x) (fst (snd x)) (snd (snd x)).
Proof.
  intros Hq Hqt. change CHASE_FUEL with 9%nat.
  induction fuel as [|fuel IH]; intros names [[[resp path] dnssec] ut] n1 w1 Hf Hre Hl Hs.
  { exfalso. destruct Hl as [Hlen _]. cbn in Hf. lia. }
  pose proof Hl as (Hlen & Hnd & Hch & Hr & Hsec & Hto).
  cbn [chase]. pose proof (settled_cases resp qtype (chain_end qname names)) as Hset.
  assert (Hsettled : settled resp qtype (chain_end qname names) →
    chased query raw src qname qtype n w (Ok (resp, path, dnssec, ut)) n1 w1)
    by (intros; exists names, resp, path, dnssec, ut; split; [done|]; split; [done|]; by left).
  destruct (existsb _ _ || _); [split; [done|by apply Hsettled]|].
  destruct (extract_cname_target resp (chain_end qname names)) as [target|] eqn:Ht; [|split; [done|by apply Hsettled]].
  assert (Hsize : size (list_to_set (map ascii_lower (qname :: names)) : gset bytes) = S (length names)).
  { rewrite size_list_to_set by done. cbn. by rewrite length_map. }
  rewrite Hsize. change MAX_CNAME_DEPTH with 8.
  destruct ((8 <? Z.of_nat (S (length names))) || bool_decide _) eqn:Hstop.
  { split; [done|]. exists names, resp, path, dnssec, ut. split; [done|]. split; [done|]. right.
    exists target. split; [done|]. split; [|done]. apply orb_true_iff in Hstop as [Hx%Z.ltb_lt|Hx].
    - left. lia.
    - right. apply bool_decide_eq_true in Hx. by apply elem_of_list_to_set in Hx. }
  apply orb_false_iff in Hstop as [Hshort%Z.ltb_ge Hnew%bool_decide_eq_false].
  rewrite elem_of_list_to_set in Hnew.
  assert (Hopen : ¬ closes qname names target) by (intros [Hx|Hx]; [lia|done]).
  pose proof (cname_target_bytes _ _ _ Hr Ht) as Htb.
  pose proof (encode_query (id (header query)) target qtype) as He.
  destruct (encode (Packet.query (id (header query)) target qtype)) as [wire|e| |] eqn:E; [|..|destruct He|destruct He].
  2: { split; [exact Hs|]. exists names, resp, path, dnssec, ut, target, e.
       exact (conj Hre (conj Hch (conj Hset (conj Hopen E)))). }
  clear He. rewrite run_to_bind. assert (Hid : is_u16 (id (header query))) by apply Hq.
  pose proof (safe_run_to good fits _ _ env n1 w1 env_fits (safe_resolve_either
    (Packet.query (id (header query)) target qtype) wire src target qtype w1
    (query_query_ok _ _ _ Hid Htb Hqt) Htb Hs)) as [G2 Hsub].
  destruct (run_to (resolve_either _ _ _ _ _ _ _ _) env n1 w1)
    as [[[[[sub p] d] t]|e| |] [n2 w2]] eqn:Erun; [|destruct Hsub..].
  cbn [and_then]. cbn [fst snd] in G2, Hsub. destruct Hsub as [Hsub _].
  specialize (IH (names ++ [target]) (extended resp sub, path, dnssec,
    match ut with Some t => Some t | None => t end) n2 w2).
  rewrite chain_end_snoc, app_comm_cons, map_app in IH. cbn [map] in IH. rewrite <- visited_snoc in IH.
  apply IH.
  - rewrite length_app. cbn. lia.
  - by eapply reached_next.
  - split; [rewrite length_app; cbn; lia|]. split.
    { rewrite app_comm_cons, map_app. apply NoDup_app. split; [done|]. split; [|by apply NoDup_singleton].
      intros x Hx ->%list_elem_of_singleton. by apply Hnew. }
    split; [apply chained_push; by apply chained_snoc|]. split; [by apply extended_sound|].
    split; [done|]. by apply extended_reply.
  - done.
Qed.
Lemma resolve_chased query raw src qname qtype n w :
  query_ok query → all_bytes qname → qtype_ok qtype → good w →
  let x := run_to (resolve_with_cname_chase iter keys local_ip_toward query raw src qname qtype) env n w in
  good (snd (snd x)) ∧ chased query raw src qname qtype n w (fst x) (fst (snd x)) (snd (snd x)).
Proof.
  intros Hq Hn Hqt Hs. unfold resolve_with_cname_chase. rewrite run_to_bind.
  pose proof (safe_run_to good fits _ _ env n w env_fits
    (safe_resolve_either query raw src qname qtype w Hq Hn Hs)) as [G1 Hr].
  destruct (run_to (resolve_either _ _ _ _ _ _ _ _) env n w) as [[r|e| |] [n1 w1]] eqn:Erun; [|destruct Hr..].
  cbn [and_then]. cbn [fst snd] in G1, Hr.
  assert (Hv : {[ascii_lower qname]} = (list_to_set (map ascii_lower [qname]) : gset bytes)) by set_solver.
  rewrite Hv. apply (chase_reached query raw src qname qtype n w CHASE_FUEL Hq Hqt [] r n1 w1).
  - cbn. lia.
  - by apply reached_first.
  - destruct r as [[[resp path] d] t]. destruct Hr as (? & ? & ?). split; [cbn; lia|].
    split; [by apply NoDup_singleton|]. done.
  - done.
Qed.
End run.

(** ** Validation, the rebinding filter and the reply *)

Context `{!Validator} `{!ValidatorEnds J}.

Lemma with_ad_sound v p : sound p → sound (with_header (with_ad v (header p)) p).
Proof. intros (Hh & ? & ? & ? & ? & ?). by split_and!. Qed.

(** The validator panics on the response, in this run. *)
Definition validator_panics (env : nat → list request → moment) (path : QueryPath.t)
    (response : DnsPacket) (n : nat) (w : World) : Prop :=
  dnssec_enabled (ctx w) = true ∧ path = QueryPath.Recursive_ ∧
  fst (run_to (validate_response response) env n w) = Panic.

Lemma validation_run env query qname qtype response path dnssec n w : env_ok good fits env →
  query_ok query → sound response → reply_to query path response → good w →
  let x := run_to (validation iter query qname qtype response path dnssec) env n w in
  good (snd (snd x)) ∧
  match fst x with
  | Ok (p, _) => sound p ∧ reply_to query path p
  | Panic => validator_panics env path response n w
  | _ => False
  end.
Proof.
  intros He Hq Hr Hto Hs. unfold validation. cbn [run_to].
  destruct (dnssec_enabled (ctx w)) eqn:Hd; cbn [andb]; [|by split].
  case_bool_decide as Hp; [|by split]. rewrite run_to_bind.
  pose proof (safe_run_to good fits _ _ env n w He (validator_ends response w Hr Hs)) as [G1 Hv].
  destruct (run_to (validate_response response) env n w) as [[status|e| |] [n1 w1]] eqn:E; [|destruct Hv| |destruct Hv].
  2: { split; [exact G1|]. split; [exact Hd|]. split; [exact Hp|]. rewrite E. reflexivity. }
  cbn [and_then]. cbn [fst snd] in G1. cbv zeta.
  set (response' := match status with Secure => _ | _ => _ end).
  assert (Hr' : sound response' ∧ reply_to query path response').
  { unfold response'. destruct status.
    - split; [by apply with_ad_sound|]. by eapply reply_to_same.
    - done.
    - destruct (dnssec_strict _); [|done]. split; [by apply response_from_sound|by apply answers_reply].
    - done. }
  clearbody response'. rewrite run_to_bind. destruct Hr' as [Hr1 Hto1].
  assert (Hu : safe (returns_ok (λ _, True)) (update_cache (λ now, insert_with_status iter now qname qtype response' status)) w1).
  { apply safe_update; [|done]. intros now c Hc. by apply insert_with_status_returns. }
  pose proof (safe_run_to good fits _ _ env n1 w1 He Hu) as [G2 Hu'].
  destruct (run_to (update_cache _) env n1 w1) as [[[]|e| |] [n2 w2]]; [|destruct Hu'..].
  exact (conj G2 (conj Hr1 Hto1)).
Qed.

(** The record shows no private address itself; its hints may. *)
Definition address_public (is_private : IpAddr → bool) (r : DnsRecord.t) : Prop :=
  match r with
  | DnsRecord.A _ a _ => is_private (V4 a) = false
  | DnsRecord.AAAA _ a _ => is_private (V6 a) = false
  | _ => True
  end.
Lemma record_public_address is_private r : record_public is_private r → address_public is_private r.
Proof. by destruct r. Qed.
Lemma address_same_hints is_private r r' :
  same_but_hints r r' → address_public is_private r → address_public is_private r'.
Proof. by intros [->|(d & t & x & x' & ttl & _ & -> & ->)]. Qed.

(** The filter [f] has done its work on [p], as far as [P] says. *)
Definition filtered (P : (IpAddr → bool) → DnsRecord.t → Prop) (f : RebindFilter)
    (qname : bytes) (path : QueryPath.t) (p : DnsPacket) : Prop :=
  rebind_enabled f = true → is_allowed f qname = false →
  QueryPath.returns_trusted_local_data path = false →
  everywhere (P (matcher_matches (ranges f))) p.
Lemma everywhere_impl (P Q : DnsRecord.t → Prop) p :
  (∀ r, P r → Q r) → everywhere P p → everywhere Q p.
Proof. intros HPQ (F1 & F2 & F3). split_and!; by eapply Forall_impl. Qed.

Lemma safe_rebind_stage qname path response s : sound response → good s →
  safe (returns_ok (λ x, sound (fst x) ∧ answers_to response (fst x) ∧
          ∃ st, J st ∧ filtered record_public (fst (fst st)) qname path (fst x)))
    (rebind_stage qname path response) s.
Proof.
  intros Hr Hs. unfold rebind_stage. pose proof (g_settings _ _ Hs) as Hj.
  destruct (QueryPath.returns_trusted_local_data path) eqn:Hp.
  { split; [done|]. do 2 (split; [done|]). exists (settings (ctx s)). split; [done|]. intros _ _ Hf.
    by rewrite Hp in Hf. }
  destruct (rebind_apply_fields (rebind (ctx s)) qname response Hr) as (n & p' & E & Hs' & Hh & Hpub).
  destruct (rebind_apply_questions _ _ _ _ _ E) as [_ Hqs]. unfold try_get. cbn [bind Async.safe]. rewrite E. cbn [bind].
  assert (Hf : filtered record_public (fst (fst (settings (ctx s)))) qname path p')
    by (intros He Ha _; by apply Hpub).
  destruct (0 <? n).
  - apply safe_step; [done|done|]. intros s1 G1. split; [done|]. split; [by apply with_ad_sound|].
    split; [split; [cbn; by rewrite Hh|done]|]. by exists (settings (ctx s)).
  - split; [done|]. split; [done|]. split; [split; [cbn; by rewrite Hh|done]|]. by exists (settings (ctx s)).
Qed.

(** Shaping and serialising a response that was filtered. *)
Definition sent_from (query : DnsPacket) (f : RebindFilter) (qname : bytes) (path : QueryPath.t)
    (buf : BytePacketBuffer) : Prop :=
  ∃ w p, filled buf = Ok w ∧ len w ≤ BUF_SIZE ∧ packet_wire p = Some w ∧ sound p ∧
    reply_to query path p ∧ filtered address_public f qname path p ∧
    (client_do query = true → filtered record_public f qname path p).

Lemma bare_filtered P f qname path query rc tc : filtered P f qname path (bare_reply query rc tc).
Proof. intros _ _ _. split_and!; constructor. Qed.
Lemma bare_sound query rc tc : query_ok query → sound (bare_reply query rc tc).
Proof.
  intros [(? & _) ?]. split_and!; try done; try by constructor.
  unfold bare_reply. cbn [edns]. destruct (edns query); [|done].
  split_and!; by constructor || (unfold is_u16, is_byte; cbn; lia).
Qed.

Lemma shape_filtered query filter f qname path p : sound p → filtered record_public f qname path p →
  ∃ p', shape_response_for_client query filter p = Ok p' ∧ sound p' ∧ answers_to p p' ∧
    filtered address_public f qname path p' ∧
    (client_do query = true → filtered record_public f qname path p').
Proof.
  intros Hp Hf. destruct (shape_response_cases query p filter (packet_fields_data p Hp))
    as (p' & E & Hhd & Hqs & S1 & S2 & S3 & _).
  exists p'. split; [done|]. split; [by apply (shape_fields query filter p)|].
  split; [split; [by rewrite Hhd|done]|]. split.
  - intros E1 E2 E3. destruct (everywhere_impl _ _ _ (record_public_address _) (Hf E1 E2 E3))
      as (F1 & F2 & F3).
    pose proof (address_same_hints (matcher_matches (ranges f))) as Hh.
    split_and!; [apply (shaped_Forall _ _ _ _ _ F1 S1)|apply (shaped_Forall _ _ _ _ _ F2 S2)|
      apply (shaped_Forall _ _ _ _ _ F3 S3)]; by left.
  - intros Hdo E1 E2 E3. destruct (Hf E1 E2 E3) as (F1 & F2 & F3).
    split_and!; [apply (shaped_Forall _ _ _ _ _ F1 S1)|apply (shaped_Forall _ _ _ _ _ F2 S2)|
      apply (shaped_Forall _ _ _ _ _ F3 S3)]; by right; left.
Qed.

(** ** The whole query *)

(** The panics of a query's run: at an alias that cannot be asked for, or of the validator. *)
Definition query_panics (env : nat → list request → moment) (query : DnsPacket) (raw : bytes)
    (src : SocketAddr) (n : nat) (w : World) : Prop :=
  ∃ q, head (questions query) = Some q ∧
    ((∃ n' w', unwritable_alias env query raw src (name q) (qtype q) n w n' w') ∨
     ∃ response path dnssec ut n' w',
       run_to (resolve_with_cname_chase iter keys local_ip_toward query raw src (name q) (qtype q)) env n w =
         (Ok (response, path, dnssec, ut), (n', w')) ∧
       validator_panics env path response n' w').

(** What a whole query comes to: a reply to it, unless it asks nothing, its own questions are
    too long to repeat, or its run panics. *)
Definition query_result (env : nat → list request → moment) (query : DnsPacket) (raw : bytes)
    (src : SocketAddr) (n : nat) (w : World) (r : outcome (BytePacketBuffer * QueryPath.t)) : Prop :=
  match r with
  | Ok (buf, path) => ∃ q st, head (questions query) = Some q ∧ J st ∧
      sent_from query (fst (fst st)) (name q) path buf
  | Err _ => questions query = [] ∨ unanswerable query
  | Panic => query_panics env query raw src n w
  | OutOfFuel => False
  end.

(** The stages after validation never panic. *)
Lemma safe_finish query q qs src transport start path ut resp d s : questions query = q :: qs →
  query_ok query → sound resp → reply_to query path resp → good s →
  safe (λ r, match r with
    | Ok (buf, path) => ∃ st, J st ∧ sent_from query (fst (fst st)) (name q) path buf
    | Err _ => unanswerable query
    | _ => False
    end)
    (let* (response, rebind_stripped) := rebind_stage (name q) path resp in
     let* filter := gets (λ w, effective_filter_aaaa (client_policy (ctx w)) (ip src) (filter_aaaa (ctx w))) in
     let* response := Return (shape_response_for_client query filter response) in
     let* now := gets clock in
     let* (resp_buffer, response) := Return (serialize_with_fallback response query filter) in
     let* _ := modify (log_query
       {| seq := 0; timestamp := now; src_addr := src; log_domain := name q;
          QueryLog.query_type := qtype q; log_path := path; QueryLog.transport := transport;
          QueryLog.rescode := rescode (header response);
          latency_us := Z.max 0 (now - start) / 1000; dnssec := d;
          log_rebind_stripped := rebind_stripped |} path transport ut) in
     ret (resp_buffer, path)) s.
Proof.
  intros Hqs Hq Hr Hto Hs. eapply safe_seq; [by apply safe_rebind_stage|].
  intros [resp2 strip] s3 (Hr2 & Hto2 & st & Hj & Hf) G3. cbn in Hr2, Hto2, Hf. apply safe_gets.
  set (flt := effective_filter_aaaa _ _ _).
  destruct (shape_filtered query flt _ _ _ resp2 Hr2 Hf) as (p' & -> & Hp' & Hto3 & Hf1 & Hf2). cbn [bind].
  apply safe_gets. pose proof (serialize_cases p' query flt) as Hsz.
  destruct (serialize_with_fallback p' query flt) as [[buf p'']|e| |]; try done.
  - apply safe_step; [done|done|]. intros s4 G4. split; [done|]. exists st.
    split; [done|]. destruct Hsz as (w & p & Hw & Hl & Hpw & Hp).
    exists w, p. do 3 (split; [done|]). destruct Hp as [->|(rc & tc & ->)].
    + split; [done|]. split; [|by split]. eapply reply_to_same, Hto3. by eapply reply_to_same.
    + split; [by apply bare_sound|]. split; [by apply answers_reply|].
      split; [|intros _]; apply bare_filtered.
  - split; [done|]. destruct Hsz as (rc & tc & Hu). by eapply bare_reply_unanswerable.
Qed.

Lemma resolve_query_run query raw src transport env n w : env_ok good fits env → query_ok query → good w →
  let x := run_to (resolve_query iter keys local_ip_toward query raw src transport) env n w in
  good (snd (snd x)) ∧ query_result env query raw src n w (fst x).
Proof.
  intros He Hq Hs. unfold resolve_query. rewrite run_to_bind. cbn [gets run_to ret and_then].
  destruct (questions query) as [|q qs] eqn:Hqs; [split; [done|]; by left|].
  assert (Hquest : question_ok q) by (destruct Hq as [_ Hq]; rewrite Hqs in Hq; by apply Forall_cons_1 in Hq as [? _]).
  destruct Hquest as [Hn Hqt]. cbv zeta. rewrite run_to_bind.
  pose proof (resolve_chased env He query raw src (name q) (qtype q) n w Hq Hn Hqt Hs) as [G1 Hc].
  destruct (run_to (resolve_with_cname_chase _ _ _ _ _ _ _ _) env n w)
    as [[[[[resp path] dnssec] ut]|e| |] [n1 w1]] eqn:E1; [|destruct Hc| |destruct Hc]; cbn [fst snd] in G1, Hc.
  2: { split; [exact G1|]. exists q. rewrite Hqs. split; [reflexivity|]. left. exists n1, w1. exact Hc. }
  destruct (chased_result _ _ _ _ _ _ _ _ _ _ _ Hq Hc) as (Hr & _ & Hto). cbn [and_then]. rewrite run_to_bind.
  pose proof (validation_run env query (name q) (qtype q) resp path dnssec n1 w1 He Hq Hr Hto G1) as [G2 Hv].
  destruct (run_to (validation _ _ _ _ _ _ _) env n1 w1) as [[[resp1 d1]|e| |] [n2 w2]]; [|destruct Hv| |destruct Hv]; cbn [fst snd] in G2, Hv.
  2: { split; [exact G2|]. exists q. rewrite Hqs. split; [reflexivity|]. right.
       exists resp, path, dnssec, ut, n1, w1. exact (conj E1 Hv). }
  destruct Hv as [Hr1 Hto1]. cbn [and_then].
  pose proof (safe_run_to good fits _ _ env n2 w2 He (safe_finish query q qs src transport (clock w) path ut
    resp1 d1 w2 Hqs Hq Hr1 Hto1 G2)) as [G3 Hf].
  split; [exact G3|]. revert Hf. destruct (fst (run_to _ env n2 w2)) as [[buf p]|e| |]; [| |intros []..].
  - intros (st & Hj & Hsent). exists q, st. rewrite Hqs. exact (conj eq_refl (conj Hj Hsent)).
  - intros Hu. right. exact Hu.
Qed.

(** ** From a datagram to its reply *)

(** What [handle_query] comes to. A datagram that cannot be parsed is dropped. Every other is
    replied to, with what [resolve_query] comes to in the same run: the encoding of a
    message that answers the query; unless it asks nothing, or its questions alone are too long, or its run
    panics. *)
Definition handled (transport : Transport.t) (buffer : BytePacketBuffer) (raw_len : Z) (src : SocketAddr)
    (env : nat → list request → moment) (n : nat) (w : World) (r : outcome (option bytes)) (w' : World) : Prop :=
  match fst (from_buffer buffer) with
  | Ok query =>
      let raw := take (Z.to_nat raw_len) (buf buffer) in
      match r with
      | Ok (Some reply) => len reply ≤ BUF_SIZE ∧ ∃ b path p,
          run (resolve_query iter keys local_ip_toward query raw src transport) env n w = (Ok (b, path), w') ∧
          filled b = Ok reply ∧ packet_wire p = Some reply ∧ sound p ∧ reply_to query path p
      | Ok None => questions query = [] ∨ unanswerable query
      | Panic => query_panics env query raw src n w
      | _ => False
      end
  | Err _ => r = Ok None ∧ w' = w
  | _ => False
  end.
Lemma handle_query_run buffer raw_len src transport env n w : env_ok good fits env →
  readable buffer → 0 ≤ raw_len ≤ BUF_SIZE → good w →
  let '(r, w') := run (handle_query iter keys local_ip_toward buffer raw_len src transport) env n w in
  good w' ∧ handled transport buffer raw_len src env n w r w'.
Proof.
  intros He Hb Hl Hs. unfold handle_query, handled. pose proof (safe_from_buffer buffer Hb) as Hp.
  destruct (from_buffer buffer) as [[query|e| |] b]; cbn in Hp; [|by split|done|done].
  destruct Hp as [Hp (Hbuf & _)]. cbn [fst].
  assert (Hq : query_ok query) by (destruct (parsed_packet_fields _ Hp) as (? & ? & _); by split).
  destruct Hb as [[Hlen _] _].
  rewrite Hbuf, slice_Some by lia. rewrite Z.sub_0_r. change (drop (Z.to_nat 0) (buf buffer)) with (buf buffer).
  set (raw := take _ _). rewrite !run_run_to, run_to_bind, run_to_catch.
  pose proof (resolve_query_run query raw src transport env n w He Hq Hs) as [G Hr].
  destruct (run_to (resolve_query _ _ _ _ _ _ _) env n w) as [[[bf path]|e| |] [n1 w1]] eqn:E;
    cbn [fst snd caught and_then] in G, Hr |- *; [|exact (conj G Hr)|exact (conj G Hr)|destruct Hr].
  destruct Hr as (q & st & _ & _ & out & p & Hw & Hwl & Hpw & Hp' & Hto & _).
  rewrite Hw. split; [exact G|]. split; [exact Hwl|]. exists bf, path, p.
  exact (conj eq_refl (conj Hw (conj Hpw (conj Hp' Hto)))).
Qed.

(** ** The theorems *)

(** C19: the alias chase of any query ends, after at most eight aliases: a chain of pairwise
    different names (case apart), each the alias of the one before among the answers, and each
    resolved when the one before had been. The result is the response this made, when it is
    settled: the answers hold the type asked for, or the response code is not NOERROR, or no
    alias goes on; or a SERVFAIL to this query, when the next alias would be a ninth or closes
    the chain. It panics exactly at the next alias of this chain, when the query for it cannot be
    encoded. Path and DNSSEC status stay those of the first response. *)
Theorem chase_settles (query : DnsPacket) (raw : bytes) (src : SocketAddr) (qname : bytes)
    (qtype : QueryType.t) (env : nat → list request → moment) (n : nat) (w : World) :
  query_ok query → all_bytes qname → qtype_ok qtype → env_ok good fits env → good w →
  let '(r, (n', w')) := run_to (resolve_with_cname_chase iter keys local_ip_toward query raw src qname qtype)
    env n w in
  good w' ∧ chased env query raw src qname qtype n w r n' w'.
Proof.
  intros Hq Hn Hqt He Hw. pose proof (resolve_chased env He query raw src qname qtype n w Hq Hn Hqt Hw) as Hc.
  by destruct (run_to _ env n w) as [r [n' w']].
Qed.

(** C1: every datagram, of whatever bytes, is dealt with: the task ends, whatever the network
    and the other tasks do, and the state stays as every other query needs it. A datagram that
    cannot be parsed is dropped without a trace. Every other is replied to with at most 4096 bytes, the
    encoding of a message that bears the query's id and questions (the id only, when the
    resolution was joined; what the upstream sent, when it was forwarded), and is what
    [resolve_query] made of it; only a query that asks nothing, or whose questions alone do not
    fit 4096 bytes, has no reply. It panics only where this run follows an alias whose query
    cannot be encoded, or its validator panics on the response. *)
Theorem handle_query_total (buffer : BytePacketBuffer) (raw_len : Z) (src : SocketAddr)
    (transport : Transport.t) (env : nat → list request → moment) (n : nat) (w : World) :
  readable buffer → 0 ≤ raw_len ≤ BUF_SIZE → env_ok good fits env → good w →
  let '(r, w') := run (handle_query iter keys local_ip_toward buffer raw_len src transport) env n w in
  good w' ∧ handled transport buffer raw_len src env n w r w'.
Proof. intros Hb Hl He Hw. by apply handle_query_run. Qed.
End query.

Section protection.
Context `{Lowercase} `{NetLib} (iter : Entries → list visit) `{!IterOrder iter}
  (keys : srtt_map → list Srtt.key).
Context (local_ip_toward : IpAddr → option Ipv4Addr)
  (local_ip_toward_ok : ∀ a b, local_ip_toward a = Some b → ipv4_ok b).
Context `{!Validator}.

(** The rebinding filter does not change while the query is resolved. *)
Definition filter_is (f : RebindFilter) (st : RebindFilter * bool * bool) : Prop :=
  fst (fst st) = f.

(** C2: rebinding protection holds of the message on the wire. While the filter is on and does
    not exempt the name, a reply on a path of untrusted origin is the encoding of a
    message with no private address in any A or AAAA record of any section; and none in an
    SVCB or HTTPS hint either, when the client set DO (for other clients, hints are rewritten
    once more after the filter). *)
Theorem resolve_query_protected (f : RebindFilter) (query : DnsPacket) (q : DnsQuestion)
    (raw : bytes) (src : SocketAddr) (transport : Transport.t)
    (env : nat → list request → moment) (n : nat) (w w' : World) (buf : BytePacketBuffer)
    (path : QueryPath.t) :
  ValidatorEnds (filter_is f) →
  query_ok query → env_ok (good (filter_is f)) fits env → good (filter_is f) w →
  head (questions query) = Some q →
  rebind_enabled f = true → is_allowed f (name q) = false →
  QueryPath.returns_trusted_local_data path = false →
  run (resolve_query iter keys local_ip_toward query raw src transport) env n w = (Ok (buf, path), w') →
  let private := matcher_matches (ranges f) in
  ∃ wire p, filled buf = Ok wire ∧ packet_wire p = Some wire ∧
    everywhere (address_public private) p ∧
    (client_do query = true → everywhere (record_public private) p).
Proof.
  intros Hv Hq He Hw Hhd Hon Hal Hp Hrun private.
  pose proof (resolve_query_run iter keys (filter_is f) local_ip_toward local_ip_toward_ok query raw src
    transport env n w He Hq Hw) as [_ Hr].
  rewrite run_run_to in Hrun. apply (f_equal fst) in Hrun. cbn [fst] in Hrun. rewrite Hrun in Hr.
  destruct Hr as (q' & st & Hhd' & Hj & wire & p & Hf & _ & Hpw & _ & _ & F1 & F2).
  rewrite Hhd in Hhd'. injection Hhd' as <-. unfold filter_is in Hj. rewrite Hj in *.
  exists wire, p. do 2 (split; [done|]). split; [by apply F1|]. intros Hdo. by apply F2.
Qed.
End protection.

(** * Examples *)

#[local] Existing Instance sample_net.
#[local] Existing Instance lowercase_ascii.

(** Validators that always say the same. *)
Definition constant_validator (d : DnssecStatus) : Validator := λ _, ret d.
Lemma constant_validator_ends d J : @ValidatorEnds _ _ (constant_validator d) J.
Proof. by intros p s _ Hs. Qed.

(** Upstreams that answer with these bytes; nothing else answers. *)
Definition upstream_env (wire : result) (n : nat) (rs : list request) : @moment World reply :=
  {| pick := 0%nat;
     answer := match rs with
               | Failover _ _ :: _ => Attempts (λ _ _ _, (wire, 5))
               | Exchange _ _ :: _ => Data (inl NoneValue)
               | Recv _ :: _ => Received None
               | ReadExact _ :: _ => BytesRead None
               | WriteAll _ :: _ => Written false
               | _ => Elapsed
               end;
     resume := λ w, w |}.
Lemma upstream_env_ok J wire : result_bytes wire → env_ok (good J) fits (upstream_env wire).
Proof.
  intros Hw n q qs. split; [|done]. exists q. split; [done|]. by destruct q.
Qed.

(** The server of [recursive_world], forwarding, with changes. *)
Definition forward_ctx (zones : Zones.ZoneMap) (filter : bool) : ServerCtx :=
  MkCtx zones (Cache.new 100 60 86400) ∅ (stats_new 0) ∅ sample_blocklist (QueryLog.log_new 10)
    (Services.service_new []) (Peers.peers_new 90) [] sample_pool (Ipv4 192 168 1 2) (str "numa")
    (str ".numa") ModeForward [] (srtt_new true) false false filter
    {| Policy.rules := [] |} (rebind sample_ctx).
Definition world_of (c : ServerCtx) : World := MkWorld c 1 0 false ∅ 0 [] [] 0.
Definition forward_world : World := world_of (forward_ctx Zones.zone_empty false).
Lemma forward_world_good (J : RebindFilter * bool * bool → Prop) :
  J (settings (ctx forward_world)) → good J forward_world.
Proof.
  intros Hj. destruct recursive_world_good as [_ Hc [Ho Hz Hp Hl] Hs].
  split; [exact Hj|exact Hc| |exact Hs]. split; [exact Ho|exact Hz|exact Hp|exact Hl].
Qed.

(** An upstream answers a public name with a private and a public address. *)
Definition evil_query : DnsPacket := query 7 (str "evil.example") QueryType.A.
Definition rebinding_reply : result := Eval vm_compute in to_result (encode
  (push_answers [DnsRecord.A (str "evil.example") (Ipv4 192 168 0 1) 60;
                 DnsRecord.A (str "evil.example") (Ipv4 93 184 216 34) 60]
     (response_from evil_query NOERROR))).
Definition to_reply (r : outcome (BytePacketBuffer * QueryPath.t)) : outcome (bytes * QueryPath.t) :=
  match r with
  | Ok (b, p) => match filled b with Ok w => Ok (w, p) | _ => Panic end
  | Err e => Err e
  | Panic => Panic
  | OutOfFuel => OutOfFuel
  end.

Definition serve (v : DnssecStatus) (q : DnsPacket) (env : nat → list request → moment) (w : World)
    : outcome (bytes * QueryPath.t) :=
  to_reply (fst (run (@resolve_query _ _ iter_list keys_list (λ _, None) (constant_validator v) q []
    sample_client Transport.Udp) env 0 w)).
(** The answers in a reply. *)
Definition reply_answers (r : outcome (bytes * QueryPath.t)) : list DnsRecord.t :=
  match r with
  | Ok (w, _) => match fst (from_buffer (from_bytes w)) with Ok p => answers p | _ => [] end
  | _ => []
  end.

Lemma rebinding_reply_bytes : result_bytes rebinding_reply.
Proof. apply (bool_decide_unpack _). vm_compute. exact I. Qed.
Lemma evil_query_ok : query_ok evil_query.
Proof. apply (bool_decide_unpack _). vm_compute. exact I. Qed.

Lemma resolve_query_protected_witness : ∃ wire p,
  serve Indeterminate evil_query (upstream_env rebinding_reply) forward_world = Ok (wire, QueryPath.Upstream) ∧
  packet_wire p = Some wire ∧
  everywhere (address_public (matcher_matches (ranges (rebind sample_ctx)))) p.
Proof.
  set (f := rebind sample_ctx).
  set (t := @resolve_query _ _ iter_list keys_list (λ _, None) (constant_validator Indeterminate)
    evil_query [] sample_client Transport.Udp).
  assert (Hpath : match fst (run t (upstream_env rebinding_reply) 0 forward_world) with
    | Ok (_, p) => p | _ => QueryPath.Local end = QueryPath.Upstream) by (vm_compute; reflexivity).
  destruct (run t (upstream_env rebinding_reply) 0 forward_world) as [r w'] eqn:Hrun.
  cbn [fst] in Hpath. destruct r as [[buf path]|e| |]; [subst path|discriminate Hpath..].
  destruct (@resolve_query_protected _ _ iter_list _ keys_list (λ _, None) ltac:(discriminate)
    (constant_validator Indeterminate) f evil_query {| name := str "evil.example"; qtype := QueryType.A |}
    [] sample_client Transport.Udp (upstream_env rebinding_reply) 0 forward_world w' buf QueryPath.Upstream)
    as (wire & p & Hf & Hp & Hpub & _).
  - apply constant_validator_ends.
  - exact evil_query_ok.
  - apply upstream_env_ok, rebinding_reply_bytes.
  - apply forward_world_good. reflexivity.
  - reflexivity.
  - reflexivity.
  - vm_compute. reflexivity.
  - reflexivity.
  - exact Hrun.
  - exists wire, p. split; [|split; [exact Hp|exact Hpub]].
    unfold serve. fold t. rewrite Hrun. cbn [fst to_reply]. rewrite Hf. reflexivity.
Defined.

(** An answer to [a] whose alias target, folded over itself by a compression pointer into one
    of its own labels, is 8065 bytes long in a message of 4060. *)
Definition folded_alias : bytes :=
  [0; 7; 129; 128; 0; 0; 0; 1; 0; 0; 0; 0; 1; 97; 0; 0; 5; 0; 1; 0; 0; 0; 60; 15; 194]
    ++ repeat 63 4032 ++ [192; 27; 0].
Definition chase_from (name : bytes) (reply : result) : outcome resolution * (nat * World) :=
  run_to (resolve_with_cname_chase iter_list keys_list (λ _, None) (query 7 name QueryType.A) []
    sample_client name QueryType.A) (upstream_env reply) 0 forward_world.
Lemma folded_alias_bytes : result_bytes (inr folded_alias).
Proof. apply (bool_decide_unpack (all_bytes folded_alias)). vm_compute. exact I. Qed.

(** A settled response, and an alias that cannot be asked for. *)
Lemma chase_settles_witness :
  (let '(r, (n', w')) := chase_from (str "evil.example") rebinding_reply in
   good (λ _, True) w' ∧ match r with Ok (p, _, _, _) => rescode (header p) = NOERROR | _ => False end ∧
   chased iter_list keys_list (λ _, None) (upstream_env rebinding_reply) evil_query [] sample_client
     (str "evil.example") QueryType.A 0 forward_world r n' w') ∧
  (let '(r, (n', w')) := chase_from (str "a") (inr folded_alias) in
   r = Panic ∧ unwritable_alias iter_list keys_list (λ _, None) (upstream_env (inr folded_alias))
     (query 7 (str "a") QueryType.A) [] sample_client (str "a") QueryType.A 0 forward_world n' w').
Proof.
  split.
  - pose proof (@chase_settles _ _ iter_list _ keys_list (λ _, True) (λ _, None) ltac:(discriminate)
      evil_query [] sample_client (str "evil.example") QueryType.A (upstream_env rebinding_reply) 0
      forward_world evil_query_ok) as Hc.
    assert (Hr : match fst (chase_from (str "evil.example") rebinding_reply) with
      | Ok (p, _, _, _) => rescode (header p) = NOERROR | _ => False end) by (vm_compute; reflexivity).
    change (query 7 (str "evil.example") QueryType.A) with evil_query in *.
    unfold chase_from in *. change (query 7 (str "evil.example") QueryType.A) with evil_query in *.
    destruct (run_to _ _ _ _) as [r [n' w']]. destruct Hc as (Hg & Hc).
    + apply (bool_decide_unpack _). vm_compute. exact I.
    + apply (bool_decide_unpack _). vm_compute. exact I.
    + apply upstream_env_ok, rebinding_reply_bytes.
    + apply forward_world_good. exact I.
    + split; [exact Hg|]. split; [exact Hr|exact Hc].
  - pose proof (@chase_settles _ _ iter_list _ keys_list (λ _, True) (λ _, None) ltac:(discriminate)
      (query 7 (str "a") QueryType.A) [] sample_client (str "a") QueryType.A
      (upstream_env (inr folded_alias)) 0 forward_world) as Hc.
    assert (Hr : fst (chase_from (str "a") (inr folded_alias)) = Panic) by (vm_compute; reflexivity).
    unfold chase_from in *. destruct (run_to _ _ _ _) as [r [n' w']]. cbn [fst] in Hr. subst r.
    destruct Hc as (_ & Hc).
    + apply (bool_decide_unpack _). vm_compute. exact I.
    + apply (bool_decide_unpack _). vm_compute. exact I.
    + apply (bool_decide_unpack _). vm_compute. exact I.
    + apply upstream_env_ok, folded_alias_bytes.
    + apply forward_world_good. exact I.
    + split; [reflexivity|exact Hc].
Defined.

Definition evil_datagram : bytes := Eval vm_compute in
  match encode evil_query with Ok w => w | _ => [] end.
Definition handle_evil : outcome (option bytes) * World :=
  run (@handle_query _ _ iter_list keys_list (λ _, None)
    (constant_validator Indeterminate) (from_bytes evil_datagram) (len evil_datagram) sample_client
    Transport.Udp) (upstream_env rebinding_reply) 0 forward_world.
Lemma handle_query_total_witness :
  let '(r, w') := handle_evil in
  good (λ _, True) w' ∧
  @handled _ _ iter_list keys_list (λ _, None) (constant_validator Indeterminate) Transport.Udp
    (from_bytes evil_datagram) (len evil_datagram) sample_client (upstream_env rebinding_reply) 0
    forward_world r w' ∧
  match r with Ok (Some _) => True | _ => False end.
Proof.
  pose proof (@handle_query_total _ _ iter_list _ keys_list (λ _, True) (λ _, None) ltac:(discriminate)
    (constant_validator Indeterminate) (constant_validator_ends _ _)
    (from_bytes evil_datagram) (len evil_datagram) sample_client Transport.Udp
    (upstream_env rebinding_reply) 0 forward_world) as Hc.
  assert (Hr : match fst handle_evil with Ok (Some _) => True | _ => False end) by (vm_compute; exact I).
  unfold handle_evil in *. destruct (run _ _ _ _) as [r w']. destruct Hc as (Hg & Hh).
  - apply from_bytes_readable. apply (bool_decide_unpack _). vm_compute. exact I.
  - split; vm_compute; discriminate.
  - apply upstream_env_ok, rebinding_reply_bytes.
  - apply forward_world_good. exact I.
  - split; [exact Hg|]. split; [exact Hh|exact Hr].
Defined.

(** * What the pipeline does not protect from *)

(** A datagram with another ID and the answer to another question. *)
Definition strange_reply : result := Eval vm_compute in to_result (encode
  (push_answers [DnsRecord.A (str "other.example") (Ipv4 198 51 100 6) 60]
     (response_from (query 4711 (str "other.example") QueryType.A) NOERROR))).
(** Replies are not matched to queries. The first datagram that reaches the port of a
    forwarded query, from any host, with any ID and answering any question, is taken for its
    answer: the client receives it as it is, and it is cached for the name asked for, so that
    later queries are answered with it although no server can be reached any more. *)
Theorem stranger_accepted :
  let forwarded := run (@resolve_query _ _ iter_list keys_list (λ _, None)
    (constant_validator Indeterminate) evil_query [] sample_client Transport.Udp)
    (upstream_env strange_reply) 0 forward_world in
  match strange_reply, to_reply (fst forwarded) with
  | inr datagram, Ok (reply, QueryPath.Upstream) => reply = datagram
  | _, _ => False
  end ∧
  match serve Indeterminate evil_query (upstream_env (inl NoneValue)) (snd forwarded) with
  | Ok (reply, QueryPath.Cached) =>
      reply_answers (Ok (reply, QueryPath.Cached)) = [DnsRecord.A (str "other.example") (Ipv4 198 51 100 6) 60]
  | _ => False
  end.
Proof. split; vm_compute; reflexivity. Qed.

(** An upstream's answer can panic the task of a query: the parser accepts names longer
    than any query can hold, and the alias chase expects every alias target to fit. *)
Theorem folded_alias_panics :
  serve Indeterminate (query 7 (str "a") QueryType.A) (upstream_env (inr folded_alias))
    forward_world = Panic.
Proof. vm_compute. reflexivity. Qed.

(** HTTPS data with a private IPv4 hint and an IPv6 hint of one byte. *)
Definition broken_hints : bytes := [0; 1; 0; 0; 4; 0; 4; 192; 168; 0; 1; 0; 6; 0; 1; 0].
Definition https_query : DnsPacket := query 7 (str "evil.example") QueryType.HTTPS.
Definition broken_reply : result := Eval vm_compute in to_result (encode
  (push_answers [DnsRecord.UNKNOWN (str "evil.example") 65 broken_hints 60]
     (response_from https_query NOERROR))).
(** A private hint can pass the rebinding filter. The filter leaves a record alone whose
    hints it cannot parse, and the IPv6 filter, which runs after it, then removes the very hint
    that kept the record from being parsed: the client is sent a well-formed record with the
    private address. *)
Theorem repaired_hint_leaks :
  reply_answers (serve Indeterminate https_query (upstream_env broken_reply)
    (world_of (forward_ctx Zones.zone_empty true))) =
  [DnsRecord.UNKNOWN (str "evil.example") 65 [0; 1; 0; 0; 4; 0; 4; 192; 168; 0; 1] 60] ∧
  rebind_enabled (rebind sample_ctx) = true ∧
  matcher_matches (ranges (rebind sample_ctx)) (V4 (Ipv4 192 168 0 1)) = true.
Proof. split_and!; vm_compute; reflexivity. Qed.

(** Strict validation, and a resolution of the same question under way. *)
Definition strict_ctx : ServerCtx :=
  MkCtx Zones.zone_empty (Cache.new 100 60 86400) ∅ (stats_new 0) ∅ sample_blocklist (QueryLog.log_new 10)
    (Services.service_new []) (Peers.peers_new 90) [] sample_pool (Ipv4 192 168 1 2) (str "numa")
    (str ".numa") ModeRecursive [root_server] (srtt_new true) true true false
    {| Policy.rules := [] |} (rebind sample_ctx).
Definition strict_world (inflight : gmap (bytes * QueryType.t) nat) : World :=
  MkWorld strict_ctx 1 0 false inflight 1 [] [] 0.
Definition leader_env (p : DnsPacket) (n : nat) (rs : list request) : @moment World reply :=
  match rs with
  | Recv _ :: _ => MkMoment 0 (Received (Some (Some p))) (λ w, w)
  | _ => sample_env sample_servers n rs
  end.
(** Strict DNSSEC validation does not cover coalesced queries. When the validator finds the
    answer of a recursive resolution bogus, the query that led it gets SERVFAIL without
    answers; a query that joined it while it ran is sent the bogus answer. *)
Theorem coalesced_unvalidated :
  let ask := serve Bogus (query 7 (str "www.test") QueryType.A) in
  let bogus := DnsRecord.A (str "www.test") (Ipv4 192 0 2 7) 300 in
  reply_answers (ask (sample_env sample_servers) (strict_world ∅)) = [] ∧
  reply_answers (ask (leader_env final_answer) (strict_world {[(str "www.test", QueryType.A) := 0%nat]}))
    = [bogus] ∧
  answers final_answer = [bogus].
Proof. split_and!; vm_compute; reflexivity. Qed.

(** A zone file's alias to a name of the internet. *)
Definition zone_alias : Zones.ZoneMap := Eval vm_compute in
  match @Zones.build_zone_map lowercase_ascii ascii_upper
    [Zones.MkZone (str "nas.home") (str "CNAME") (str "evil.example") 60] with
  | Ok m => m | _ => Zones.zone_empty end.
(** An alias of a local zone carries upstream answers past the rebinding filter: the path of
    the whole chase is that of its first, local, step. *)
Example local_alias_unfiltered :
  reply_answers (serve Indeterminate (query 7 (str "nas.home") QueryType.A)
    (upstream_env rebinding_reply) (world_of (forward_ctx zone_alias false))) =
  [DnsRecord.CNAME (str "nas.home") (str "evil.example") 60;
   DnsRecord.A (str "evil.example") (Ipv4 192 168 0 1) 60;
   DnsRecord.A (str "evil.example") (Ipv4 93 184 216 34) 60].
Proof. vm_compute. reflexivity. Qed.
