(* ===== verification/Secure.v ===== *)
(** Queries on a server that validates: the validator of [src/src/dnssec.rs] in the pipeline of
    [src/src/ctx.rs], what strict validation withholds from clients, and what it and the
    background refresh let through. *)
From stdpp Require Import gmap.
From S2P Require Import Prelude Net Ip Text Acl Policy Domains Overrides Stats Srtt QueryLog Forward.
From S2P Require Import Zones Rebind Cache Local Shape Coalesce Buffer Question Header Record.
From S2P Require Import Packet Async Recursive Canon Denial Dnssec Resolve Query.
Open Scope outcome_scope.
Open Scope fut_scope.

(** * The program's validator *)

Section validator.
Context `{Lowercase} `{NetLib} `{Crypto} `{WallClock}.
Context (iter : Entries → list visit) `{!IterOrder iter} (keys : srtt_map → list Srtt.key).

(** As [resolve_query] calls it; the statistics only go to the debug log. *)
Definition dnssec_validator : Validator := λ response,
  let* (status, _) := Dnssec.validate_response iter keys response in ret status.
#[export] Instance dnssec_validator_ends J : @ValidatorEnds _ _ dnssec_validator J.
Proof.
  intros p s _ Hs. unfold validate_response, dnssec_validator.
  eapply fut_bind; [by apply safe_validate_response|..]; [|done..].
  by intros [status stats] s1 _ G1.
Qed.
End validator.

(** * Background refresh *)

Section refresh.
Context `{Lowercase} `{NetLib} (iter : Entries → list visit) `{!IterOrder iter}
  (keys : srtt_map → list Srtt.key).

(** The sections of two packets are the same. *)
Definition same_records (p p' : DnsPacket) : Prop :=
  answers p' = answers p ∧ authorities p' = authorities p ∧ resources p' = resources p.

(** C40: on a recursive server, the refresh of an entry does not refresh it. Recursion looks into
    the cache before it asks anyone, and the cache serves an entry for an hour after it expired;
    so as long as an entry can be served, its refresh asks no server: it puts the very records
    of the entry back, for a new lifetime and without their DNSSEC status. *)
Theorem refresh_keeps_stale (qname : bytes) (qtype : QueryType.t) (p : DnsPacket)
    (env : nat → list request → moment) (n : nat) (w : World) :
  cache_ok (cache (ctx w)) → all_bytes qname → qtype_ok qtype → upstream_mode (ctx w) = ModeRecursive →
  match_forwarding_rule qname (forwarding_rules (ctx w)) = None →
  lookup (clock w) (cache (ctx w)) qname qtype = Ok (Some p) →
  ∃ p' c', same_records p p' ∧
    insert_with_status iter (clock w) qname qtype p' Indeterminate (cache (ctx w)) = Ok c' ∧
    run (refresh_entry iter keys qname qtype) env n w = (Ok tt, set_cache c' w).
Proof.
  intros Hc Hn Hq Hm Hr Hl. destruct (lookup_returns (clock w) _ qname qtype Hc) as (o & Ho & Hp).
  rewrite Hl in Ho. injection Ho as <-. apply parsed_packet_fields in Hp.
  unfold refresh_entry. cbn [run]. rewrite Hr, bool_decide_eq_true_2 by done. unfold resolve_recursive.
  change RESOLVE_FUEL with (S (pred RESOLVE_FUEL)). cbn [resolve_iterative].
  change (MAX_REFERRAL_DEPTH <? 0) with false. unfold cached, try_get. cbn [bind catch run]. rewrite Hl.
  unfold ret. cbn [bind catch map_outcome run].
  match goal with |- context [cache_insert _ _ _ ?x] => set (p' := x) end.
  assert (Hp' : sound p').
  { destruct Hp as ((? & ? & ? & ? & ?) & _ & Ha & Hb & Hd & He), (query_query_ok 0 qname qtype) as [? ?];
      [by vm_compute|done|done|]. by split_and!. }
  destruct (insert_with_status_returns iter (clock w) qname qtype p' Indeterminate _ Hc Hp') as (c' & Hi & _).
  exists p', c'. split; [by split_and!|]. split; [done|].
  unfold cache_insert, update_cache, update. cbn [run]. unfold insert. by rewrite Hi.
Qed.
End refresh.

(** * Strict validation *)

Lemma same_hints_Forall2 (P : DnsRecord.t → Prop) rs rs' : (∀ r r', same_but_hints r r' → P r → P r') →
  Forall2 same_but_hints rs rs' → Forall P rs → Forall P rs'.
Proof. intros Hc. induction 1; intros Hf; [constructor|]. apply Forall_cons_1 in Hf as []. constructor; eauto. Qed.
Lemma rebind_apply_Forall `{Lowercase} `{NetLib} (P : DnsRecord.t → Prop) f qname p n p' :
  (∀ r r', same_but_hints r r' → P r → P r') → sound p → rebind_apply f qname p = Ok (n, p') →
  Forall P (answers p) → Forall P (answers p').
Proof.
  intros Hc Hp Ha HP. pose proof (packet_fields_data p Hp) as (B1 & B2 & B3). unfold rebind_apply in Ha.
  destruct (negb _ || _); [by injection Ha as _ <-|].
  destruct (scrub_section_spec (matcher_matches (ranges f)) _ B1) as (an & n1 & E1 & (_ & S1 & _)).
  destruct (scrub_section_spec (matcher_matches (ranges f)) _ B2) as (au & n2 & E2 & _).
  destruct (scrub_section_spec (matcher_matches (ranges f)) _ B3) as (ad & n3 & E3 & _).
  rewrite E1, E2, E3 in Ha. injection Ha as _ <-. eapply same_hints_Forall2; [exact Hc|exact S1|].
  apply Forall_forall. intros r Hr%list_elem_of_In. apply filter_In in Hr as [Hr _].
  rewrite Forall_forall in HP. apply HP. by apply list_elem_of_In.
Qed.

Section strict.
Context `{Lowercase} `{NetLib} (iter : Entries → list visit) `{!IterOrder iter}
  (keys : srtt_map → list Srtt.key).
Context (local_ip_toward : IpAddr → option Ipv4Addr)
  (local_ip_toward_ok : ∀ a b, local_ip_toward a = Some b → ipv4_ok b).
Context `{!Validator} (P : DnsRecord.t → Prop).

(** The server validates, and strictly, all along. *)
Definition strict (st : RebindFilter * bool * bool) : Prop := snd (fst st) = true ∧ snd st = true.
Abbreviation good := (Recursive.good strict).
Abbreviation safe := (Async.safe good fits).

(** The validator lets nothing pass but responses with acceptable answers. *)
Definition judges : Prop := ∀ p s, sound p → good s →
  safe (λ r, match r with Ok status => status ≠ Bogus → Forall P (answers p) | Panic => True | _ => False end)
    (validate_response p) s.
Context (validator_judges : judges) (hints_no_matter : ∀ r r', same_but_hints r r' → P r → P r').

Definition acceptable (path : QueryPath.t) (p : DnsPacket) : Prop :=
  sound p ∧ (path = QueryPath.Recursive_ → Forall P (answers p)).

Lemma safe_validation_strict query qname qtype response path dnssec s :
  query_ok query → sound response → good s →
  safe (λ r, match r with Ok x => acceptable path (fst x) | Panic => True | _ => False end)
    (validation iter query qname qtype response path dnssec) s.
Proof.
  intros Hq Hr Hs. unfold validation. cbn [Async.safe]. destruct (g_settings _ _ Hs) as [Hd Hst].
  change (dnssec_enabled (ctx s) = true) in Hd. change (dnssec_strict (ctx s) = true) in Hst.
  rewrite Hd. cbn [andb]. case_bool_decide; [|split; [done|by split]].
  eapply fut_bind; [by apply validator_judges|..]; [|done..]. intros status s1 Hj G1. cbv zeta.
  set (response' := match status with Secure => _ | _ => _ end).
  assert (Hr' : acceptable path response').
  { unfold response'. rewrite Hst. destruct status; (split; [|intros _; by apply Hj]) || split.
    - by apply with_ad_sound.
    - done.
    - by apply response_from_sound.
    - intros _. constructor.
    - done. }
  clearbody response'. apply (safe_seq strict (λ _, True)); [|by intros].
  apply safe_update; [|done]. intros now c Hc. destruct Hr'. by apply insert_with_status_returns.
Qed.

Lemma safe_rebind_strict qname path response s : acceptable path response → good s →
  safe (returns_ok (λ x, acceptable path (fst x))) (rebind_stage qname path response) s.
Proof.
  intros [Hr HP] Hs. unfold rebind_stage. destruct (QueryPath.returns_trusted_local_data path); [by split|].
  destruct (rebind_apply_fields (rebind (ctx s)) qname response Hr) as (n & p' & E & Hs' & _).
  assert (Ha : acceptable path p') by (split; [done|]; intros ->; by eapply rebind_apply_Forall, HP).
  unfold try_get. cbn [bind Async.safe]. rewrite E. cbn [bind]. destruct (0 <? n); [|by split].
  apply safe_step; [done|done|]. intros s1 G1. split; [done|].
  split; [by apply with_ad_sound|exact (proj2 Ha)].
Qed.

(** What is sent in reply over [path]. *)
Definition sends (r : outcome (BytePacketBuffer * QueryPath.t)) : Prop :=
  match r with
  | Ok (buf, path) => ∃ w p, filled buf = Ok w ∧ packet_wire p = Some w ∧
      (path = QueryPath.Recursive_ → Forall P (answers p))
  | OutOfFuel => False
  | _ => True
  end.
Lemma safe_resolve_strict query raw src transport s : query_ok query → good s →
  safe sends (resolve_query iter keys local_ip_toward query raw src transport) s.
Proof.
  intros Hq Hs. unfold resolve_query. apply safe_gets.
  destruct (questions query) as [|q qs] eqn:Hqs; [by split|].
  assert (Hquest : question_ok q) by (destruct Hq as [_ Hq]; rewrite Hqs in Hq; by apply Forall_cons_1 in Hq as [? _]).
  destruct Hquest as [Hn Hqt].
  eapply fut_bind; [by apply safe_resolve_chased|..]; [|done..|by intros (p0 & d0 & _ & [])].
  intros [[[resp path] dnssec] ut] s1 (p0 & d0 & _ & -> & -> & Hresp & _) G1.
  eapply fut_bind; [by apply safe_validation_strict|..]; [|done..].
  intros [resp1 d1] s2 Hr1 G2. cbn in Hr1.
  eapply safe_seq; [by apply safe_rebind_strict|]. intros [resp2 strip] s3 [Hr2 HP] G3. cbn in Hr2, HP.
  apply safe_gets. set (flt := effective_filter_aaaa _ _ _).
  destruct (shape_response_cases query resp2 flt (packet_fields_data _ Hr2)) as (p' & -> & _ & _ & S1 & _).
  cbn [bind]. apply safe_gets. pose proof (serialize_cases p' query flt) as Hsz.
  destruct (serialize_with_fallback p' query flt) as [[buf p'']|e| |]; [|by split|done..].
  apply safe_step; [done|done|]. intros s4 G4. split; [done|].
  destruct Hsz as (w & p & Hw & _ & Hpw & Hp). exists w, p. do 2 (split; [done|]). intros Hrec.
  destruct Hp as [->|(rc & tc & ->)]; [|constructor].
  eapply shaped_Forall; [by apply HP|exact S1|by left].
Qed.

(** C3: strict validation holds of the messages sent. Take any test of records (that does not
    look at HTTPS and SVCB hints), and a validator that calls every response bogus whose answers
    fail it: then no answer that fails it is in a reply to a query that a strict server
    resolved by recursion, whatever servers and other tasks do, and after rebinding filter,
    shaping and truncation. *)
Theorem strict_answers_checked (query : DnsPacket) (raw : bytes) (src : SocketAddr)
    (transport : Transport.t) (env : nat → list request → moment) (n : nat) (w w' : World)
    (buf : BytePacketBuffer) :
  query_ok query → env_ok (Recursive.good strict) fits env → Recursive.good strict w →
  run (resolve_query iter keys local_ip_toward query raw src transport) env n w =
    (Ok (buf, QueryPath.Recursive_), w') →
  ∃ wire p, filled buf = Ok wire ∧ packet_wire p = Some wire ∧ Forall P (answers p).
Proof.
  intros Hq He Hw Hrun.
  pose proof (safe_run good fits _ _ env He n w (safe_resolve_strict query raw src transport w Hq Hw)) as Hr.
  rewrite Hrun in Hr. destruct Hr as (_ & wire & p & Hf & Hp & HP). exists wire, p.
  split; [done|]. split; [done|]. by apply HP.
Qed.
End strict.

(** * Examples *)

#[local] Existing Instance sample_net.
#[local] Existing Instance lowercase_ascii.
#[local] Existing Instance sample_crypto.
#[local] Existing Instance sample_clock.

Definition set_clock (t : Z) (w : World) : World :=
  MkWorld (ctx w) (query_id w) (udp_failures w) (udp_disabled w) (Async.inflight w) (next_channel w)
    (sent w) (spawned w) t.
(** What the cache of a world serves for [www.test]: the records, TTLs apart, and how. *)
Definition served (w : World) : option (list DnsRecord.t * DnssecStatus * Freshness) :=
  match lookup_with_status (clock w) (cache (ctx w)) (str "www.test") QueryType.A with
  | Ok (Some (p, s, f)) => Some (map (set_ttl 0) (answers p), s, f)
  | _ => None
  end.
(** The name has moved from an address that was validated a minute and a half ago. *)
Definition moved : list DnsRecord.t := [DnsRecord.A (str "www.test") (Ipv4 198 51 100 1) 60].
Definition stale_cache : DnsCache := Eval vm_compute in
  match insert_with_status iter_list 0 (str "www.test") QueryType.A (sample_packet moved []) Secure
    (Cache.new 100 60 86400) with Ok c => c | _ => Cache.new 100 60 86400 end.
Lemma stale_cache_ok : cache_ok stale_cache.
Proof.
  destruct (insert_with_status_returns iter_list 0 (str "www.test") QueryType.A (sample_packet moved [])
    Secure (Cache.new 100 60 86400)) as (c & Hc & Hok); [apply new_cache_ok; lia| |].
  - apply (bool_decide_unpack _). vm_compute. exact I.
  - assert (Hs : Ok stale_cache = Ok c) by (rewrite <- Hc; vm_compute; reflexivity).
    injection Hs as ->. exact Hok.
Qed.
Definition stale_world : World := set_clock (90 * 10 ^ 9) (set_cache stale_cache recursive_world).
Definition refresh_www (w : World) : outcome unit * World :=
  run (refresh_entry iter_list keys_list (str "www.test") QueryType.A) (sample_env sample_servers) 0 w.
Lemma refresh_keeps_stale_witness : ∃ p' c',
  insert_with_status iter_list (clock stale_world) (str "www.test") QueryType.A p' Indeterminate
    (cache (ctx stale_world)) = Ok c' ∧
  refresh_www stale_world = (Ok tt, set_cache c' stale_world) ∧
  served stale_world = Some (map (set_ttl 0) moved, Secure, Stale) ∧
  served (set_cache c' stale_world) = Some (map (set_ttl 0) moved, Indeterminate, Fresh).
Proof.
  assert (Hl : ∃ p, lookup (clock stale_world) (cache (ctx stale_world)) (str "www.test") QueryType.A
    = Ok (Some p)) by (eexists; vm_compute; reflexivity).
  destruct Hl as [p Hl].
  destruct (refresh_keeps_stale iter_list keys_list (str "www.test") QueryType.A p
    (sample_env sample_servers) 0 stale_world) as (p' & c' & _ & Hi & Hr).
  - exact stale_cache_ok.
  - apply (bool_decide_unpack _). vm_compute. exact I.
  - apply (bool_decide_unpack _). vm_compute. exact I.
  - reflexivity.
  - vm_compute. reflexivity.
  - exact Hl.
  - exists p', c'. split; [exact Hi|]. split; [exact Hr|]. split; [vm_compute; reflexivity|].
    assert (Hs : served (snd (refresh_www stale_world)) = Some (map (set_ttl 0) moved, Indeterminate, Fresh))
      by (vm_compute; reflexivity).
    unfold refresh_www in Hs. rewrite Hr in Hs. exact Hs.
Defined.

Definition answer_with (v : Validator) (q : DnsPacket) (env : nat → list request → moment) (w : World)
    : outcome (bytes * QueryPath.t) :=
  to_reply (fst (run (@resolve_query _ _ iter_list keys_list (λ _, None) v q []
    sample_client Transport.Udp) env 0 w)).
Definition real_validator : Validator := dnssec_validator iter_list keys_list.

Lemma strict_world_good J m : J (settings strict_ctx) → good J (strict_world m).
Proof.
  intros Hj. destruct recursive_world_good as [_ Hc [Ho Hz Hp Hl] Hs].
  split; [exact Hj|exact Hc| |exact Hs]. split; [exact Ho|exact Hz|exact Hp|exact Hl].
Qed.
Lemma sample_servers_env_ok J : env_ok (good J) fits (sample_env sample_servers).
Proof.
  apply sample_env_ok. intros a msg. unfold sample_servers.
  case_bool_decide; [apply (bool_decide_unpack _); vm_compute; exact I|].
  case_bool_decide; [apply (bool_decide_unpack _); vm_compute; exact I|exact I].
Qed.

(** A validator that finds every response bogus: no reply has an answer. *)
Lemma strict_answers_checked_witness : ∃ buf w' wire p,
  run (@resolve_query _ _ iter_list keys_list (λ _, None) (constant_validator Bogus)
    (query 7 (str "www.test") QueryType.A) [] sample_client Transport.Udp) (sample_env sample_servers) 0
    (strict_world ∅) = (Ok (buf, QueryPath.Recursive_), w') ∧
  filled buf = Ok wire ∧ packet_wire p = Some wire ∧ answers p = [].
Proof.
  set (t := @resolve_query _ _ iter_list keys_list (λ _, None) (constant_validator Bogus)
    (query 7 (str "www.test") QueryType.A) [] sample_client Transport.Udp).
  assert (Hpath : match fst (run t (sample_env sample_servers) 0 (strict_world ∅)) with
    | Ok (_, p) => p | _ => QueryPath.Local end = QueryPath.Recursive_) by (vm_compute; reflexivity).
  destruct (run t (sample_env sample_servers) 0 (strict_world ∅)) as [r w'] eqn:Hrun.
  cbn [fst] in Hpath. destruct r as [[buf path]|e| |]; [subst path|discriminate Hpath..].
  destruct (@strict_answers_checked _ _ iter_list _ keys_list (λ _, None) ltac:(discriminate)
    (constant_validator Bogus) (λ _, False)) with (query := query 7 (str "www.test") QueryType.A)
    (raw := @nil Z) (src := sample_client) (transport := Transport.Udp) (env := sample_env sample_servers)
    (n := 0%nat) (w := strict_world ∅) (w' := w') (buf := buf) as (wire & p & Hf & Hp & Hnone).
  - intros p s _ Hs. split; [exact Hs|]. intros []. reflexivity.
  - intros r r' _ [].
  - apply (bool_decide_unpack _). vm_compute. exact I.
  - apply sample_servers_env_ok.
  - apply strict_world_good. split; reflexivity.
  - exact Hrun.
  - exists buf, w', wire, p. do 3 (split; [assumption || reflexivity|]).
    destruct (answers p) as [|r l]; [reflexivity|destruct (Forall_inv Hnone)].
Defined.

(** The flag of authenticated data in a reply. *)
Definition reply_ad (r : outcome (bytes * QueryPath.t)) : option bool :=
  match r with
  | Ok (w, _) => match fst (from_buffer (from_bytes w)) with Ok p => Some (authed_data (header p)) | _ => None end
  | _ => None
  end.
(** The server of [test], setting the flag on its unsigned answer. *)
Definition boastful : result := Eval vm_compute in
  to_result (encode (with_header (with_ad true (header final_answer)) final_answer)).
Definition boastful_servers (a : SocketAddr) (msg : bytes) : result :=
  if bool_decide (a = test_server) then boastful else sample_servers a msg.
(** The flag that says that data was validated can come from anyone. Validation sets AD
    when a response is secure and nothing clears it otherwise: on a server with strict
    validation, whose validator finds the unsigned answer of [test] insecure, the client is
    told that the data is authentic exactly when the server of [test] says so. *)
Theorem authentic_flag_forged :
  let ask net := answer_with real_validator (query 7 (str "www.test") QueryType.A) (sample_env net) (strict_world ∅) in
  status_of (run_validation final_answer signed_cache) = Some Insecure ∧
  reply_ad (ask sample_servers) = Some false ∧ reply_ad (ask boastful_servers) = Some true ∧
  reply_answers (ask boastful_servers) = [DnsRecord.A (str "www.test") (Ipv4 192 0 2 7) 300].
Proof. split_and!; vm_compute; reflexivity. Qed.

(** The whole server with its own validator, on a recursive query. *)
Definition www_datagram : bytes := Eval vm_compute in
  match encode (query 7 (str "www.test") QueryType.A) with Ok w => w | _ => [] end.
Example validating_server :
  let '(r, w') := run (@handle_query _ _ iter_list keys_list (λ _, None) real_validator
    (from_bytes www_datagram) (len www_datagram) sample_client Transport.Udp)
    (sample_env sample_servers) 0 (strict_world ∅) in
  Recursive.good strict w' ∧
  @handled _ _ iter_list keys_list (λ _, None) real_validator Transport.Udp (from_bytes www_datagram)
    (len www_datagram) sample_client (sample_env sample_servers) 0 (strict_world ∅) r w' ∧
  match r with Ok (Some _) => True | _ => False end.
Proof.
  pose proof (@handle_query_run _ _ iter_list _ keys_list strict (λ _, None) ltac:(discriminate)
    real_validator (dnssec_validator_ends iter_list keys_list strict)
    (from_bytes www_datagram) (len www_datagram) sample_client Transport.Udp (sample_env sample_servers) 0
    (strict_world ∅) (sample_servers_env_ok strict)) as Hc.
  assert (Hr : match fst (run (@handle_query _ _ iter_list keys_list (λ _, None) real_validator
    (from_bytes www_datagram) (len www_datagram) sample_client Transport.Udp)
    (sample_env sample_servers) 0 (strict_world ∅)) with Ok (Some _) => True | _ => False end)
    by (vm_compute; exact I).
  destruct (run _ _ _ _) as [r w']. destruct Hc as [Hg Hh].
  - apply from_bytes_readable. apply (bool_decide_unpack _). vm_compute. exact I.
  - split; vm_compute; discriminate.
  - apply strict_world_good. split; reflexivity.
  - split; [exact Hg|]. split; [exact Hh|exact Hr].
Qed.
