(* ===== verification/Health.v ===== *)
(** [src/src/health.rs]: what a server tells about itself, and its health report. *)
From S2P Require Import Prelude Net.

Record HealthMeta := MkHealthMeta {
  version : bytes; hostname : bytes; sni : bytes; dot_enabled : bool; dot_port : Z;
  api_port : Z; ca_fingerprint_sha256 : option bytes; features : list bytes; started : Z
}.
(** [HealthMeta::build]: the version, the host's name, the fingerprint of the CA file and the
    time come from outside. *)
Definition build_meta (version hostname : bytes) (ca_fingerprint : option bytes) (now : Z)
    (dot_enabled : bool) (dot_port api_port : Z)
    (dnssec_enabled recursive_enabled mdns_enabled blocking_enabled doh_enabled : bool) : HealthMeta :=
  {| version := version; hostname := hostname; sni := str "numa.numa"; dot_enabled := dot_enabled;
     dot_port := dot_port; api_port := api_port; ca_fingerprint_sha256 := ca_fingerprint;
     features := (if doh_enabled then [str "doh"] else [])
       ++ (if dot_enabled then [str "dot"] else [])
       ++ (if recursive_enabled then [str "recursive"] else [])
       ++ (if blocking_enabled then [str "blocking"] else [])
       ++ (if mdns_enabled then [str "mdns"] else [])
       ++ (if dnssec_enabled then [str "dnssec"] else []);
     started := now |}.
Definition hex_digit (v : Z) : Z := if v <? 10 then 48 + v else 87 + v.
(** [format!("{:02x}", b)] of every byte of a digest. *)
Definition hex (l : bytes) : bytes := flat_map (λ b, [hex_digit (b / 16); hex_digit (b mod 16)]) l.
Definition compute_ca_fingerprint (sha256 : bytes → bytes) (pem : option bytes) : option bytes :=
  option_map (λ pem, hex (sha256 pem)) pem.

Record HealthResponse := MkHealth {
  h_status : bytes; h_version : bytes; h_uptime_secs : Z; h_hostname : bytes;
  h_lan_ip : option Ipv4Addr; h_sni : bytes; h_dot : bool * option Z; h_api : Z;
  h_ca : bool * option bytes; h_features : list bytes
}.
Definition build_health (now : Z) (meta : HealthMeta) (lan_ip : option Ipv4Addr) : HealthResponse :=
  {| h_status := str "ok"; h_version := version meta;
     h_uptime_secs := Z.max 0 (now - started meta) / 1000000000;
     h_hostname := hostname meta; h_lan_ip := lan_ip; h_sni := sni meta;
     h_dot := (dot_enabled meta, if dot_enabled meta then Some (dot_port meta) else None);
     h_api := api_port meta;
     h_ca := (match ca_fingerprint_sha256 meta with Some _ => true | None => false end,
              ca_fingerprint_sha256 meta);
     h_features := features meta |}.
