(* ===== verification/Api.v ===== *)
(** The HTTP API of [src/src/api.rs], with the certificate names of [src/src/tls.rs]: every handler as a function on the state of the
    server. Routing a request to its handler and reading its JSON are the web framework's: a
    request arrives here as a constructor of [Request] with its typed arguments. *)
From stdpp Require Import gmap.
From S2P Require Import Prelude Net Ip Text Async Recursive.
From S2P Require Import Acl Policy Domains Overrides Services Peers Stats Srtt.
From S2P Require Import QueryLog Forward Zones Rebind Cache Local Buffer Question Header Record.
From S2P Require Import Packet Health.
Open Scope outcome_scope.

Inductive StatusCode :=
  | OK | CREATED | NO_CONTENT | BAD_REQUEST | FORBIDDEN | NOT_FOUND | INTERNAL_SERVER_ERROR.
#[export] Instance StatusCode_eq_dec : EqDecision StatusCode.
Proof. solve_decision. Defined.

(** The certificate library: which names it accepts, and whether a certificate with these
    names can be made and loaded. *)
Class TlsLib := MkTls { ia5_string : bytes → bool; issues : list bytes → bool }.

(** * Requests and replies *)

Record CreateOverrideRequest := MkCreateOverride {
  co_domain : bytes; co_target : bytes; co_ttl : Z; co_duration_secs : option Z
}.
Definition default_ttl : Z := 60.
Record EnvironmentRequest := MkEnvironment {
  env_duration_secs : option Z; env_overrides : list CreateOverrideRequest
}.
Record QueryLogParams := MkLogParams {
  p_domain : option bytes; p_type : option bytes; p_path : option bytes; p_limit : option nat
}.
Definition default_pause_minutes : Z := 5.
Record CreateServiceRequest := MkCreateService {
  cs_name : bytes; cs_target_port : Z; cs_target_host : option bytes
}.
Record AddRouteRequest := MkAddRoute { ar_path : bytes; ar_port : Z; ar_strip : bool }.

(** The routes. A body that may be an array or a single object is the list it is read as, or
    the error of reading it. *)
Inductive Request :=
  | CreateOverrides (req : bytes + list CreateOverrideRequest)
  | ListOverrides
  | ClearOverrides
  | LoadEnvironment (req : EnvironmentRequest)
  | GetOverride (domain : bytes)
  | RemoveOverride (domain : bytes)
  | Diagnose (domain : bytes)
  | QueryLogOf (params : QueryLogParams)
  | StatsOf
  | ListCache
  | FlushCache
  | FlushCacheDomain (domain : bytes)
  | Health
  | BlockingStats
  | BlockingToggle (enabled : bool)
  | BlockingPause (minutes : Z)
  | BlockingUnpause
  | BlockingAllowlist
  | BlockingAllowlistAdd (domain : bytes)
  | BlockingAllowlistRemove (domain : bytes)
  | BlockingCheck (domain : bytes)
  | BlockingBlocklist
  | BlockingBlocklistAdd (domain : bytes)
  | BlockingBlocklistRemove (domain : bytes)
  | RebindStatus
  | RebindToggle (enabled : bool)
  | RebindAllowlistAdd (domain : bytes)
  | RebindAllowlistRemove (domain : bytes)
  | ListServices
  | CreateService (req : CreateServiceRequest)
  | RemoveService (name : bytes)
  | ListRoutes (name : bytes)
  | AddRoute (name : bytes) (req : AddRouteRequest)
  | RemoveRoute (name path : bytes)
  | ServeCa.

Record OverrideResponse := MkOverrideResponse {
  or_domain : bytes; or_target : bytes; or_record_type : bytes; or_ttl : Z; or_remaining_secs : option Z
}.
(** Instants, durations and addresses that the source renders as numbers or text stay values. *)
Record QueryLogResponse := MkLogResponse {
  lr_seq : Z; lr_timestamp : Z; lr_src : SocketAddr; lr_domain : bytes; lr_query_type : bytes;
  lr_path : bytes; lr_transport : bytes; lr_rescode : bytes; lr_latency_us : Z; lr_dnssec : bytes;
  lr_rebind_stripped : bool
}.
Record DiagnoseStep := MkStep { step_source : bytes; step_matched : bool; step_detail : option bytes }.
Record BlockingStatsResponse := MkBlocking {
  b_enabled : bool; b_paused : bool; b_domains_loaded : Z; b_allowlist_size : Z;
  b_list_sources : list bytes; b_last_refresh_secs_ago : option Z
}.
(** [None] stands for the label of the root hints; the memory figures are left out. *)
Record StatsResponse := MkStatsResponse {
  sr_version : bytes; sr_upstream : option UpstreamPool; sr_mode : UpstreamMode; sr_proxy_tld : bytes;
  sr_dnssec : bool; sr_srtt : bool; sr_rebind : bool; sr_snapshot : StatsSnapshot;
  sr_cache_entries : Z; sr_cache_max_entries : Z; sr_overrides_active : Z;
  sr_blocking : BlockingStatsResponse; sr_lan_enabled : bool; sr_lan_peers : Z;
  sr_mobile_enabled : bool; sr_mobile_port : Z; sr_query_log_entries : Z; sr_srtt_entries : Z
}.
Record ServiceResponse := MkServiceResponse {
  s_name : bytes; s_target_port : Z; s_target_host : option bytes; s_url : bytes; s_healthy : bool;
  s_lan_accessible : bool; s_routes : list RouteEntry; s_source : bytes
}.
Record RebindResponse := MkRebindResponse {
  r_enabled : bool; r_ranges : list bytes; r_allowlist : list bytes
}.

Inductive Body :=
  | NoBody
  | Text (s : bytes)
  | OverridesBody (l : list OverrideResponse)
  | EnvironmentBody (created : Z)
  | DiagnoseBody (domain query_type : bytes) (steps : list DiagnoseStep)
  | QueryLogBody (l : list QueryLogResponse)
  | StatsBody (s : StatsResponse)
  | CacheBody (l : list (bytes * bytes * Z))
  | HealthBody (h : HealthResponse)
  | BlockingStatsBody (b : BlockingStatsResponse)
  | CheckBody (r : BlockCheckResult)
  | FlagBody (key : bytes) (v : bool)
  | NumberBody (key : bytes) (v : Z)
  | TextBody (key v : bytes)
  | NamesBody (l : list bytes)
  | RebindBody (r : RebindResponse)
  | ServicesBody (l : list ServiceResponse)
  | RoutesBody (l : list RouteEntry).
Definition ApiReply : Type := StatusCode * Body.

(** What the API knows of the server beside [ServerCtx]. *)
Record ApiSettings := MkApiSettings {
  lan_enabled : bool; mobile_enabled : bool; mobile_port : Z; tls_byo : bool;
  ca_pem : option bytes; health_meta : HealthMeta
}.
(** A server with its settings and the certificate it serves, if any, known by its names. *)
Record Api `{NetLib} := MkApi {
  ctx : ServerCtx; settings : ApiSettings; tls_config : option (list bytes)
}.

Section state.
Context `{NetLib}.
Definition with_ctx (c : ServerCtx) (a : Api) : Api := MkApi _ c (settings a) (tls_config a).
Definition with_tls (t : option (list bytes)) (a : Api) : Api := MkApi _ (ctx a) (settings a) t.
End state.

(** * Handlers *)

Definition is_ascii_alphanumeric (c : Z) : bool :=
  is_ascii_digit c || ((65 <=? c) && (c <=? 90)) || ((97 <=? c) && (c <=? 122)).
(** [char::is_control] or [char::is_whitespace], by the UTF-8 encodings of such characters. *)
Definition control_chars : list bytes :=
  map (λ c, [c]) (seqZ 0 32 ++ [127]) ++ map (λ c, [0xC2; c]) (seqZ 0x80 32).
Definition odd_host (h : bytes) : bool :=
  existsb (λ p, contains_text p h) (control_chars ++ white_space ++ [str "/"; str ":"]).
Definition show_usize (n : Z) : bytes := show_digits 20 n.

Definition override_response (now : Z) (e : OverrideEntry) : outcome OverrideResponse :=
  let? r := remaining_secs now e in
  Ok {| or_domain := Overrides.domain e; or_target := Overrides.target e;
        or_record_type := Question.as_str (Overrides.query_type e); or_ttl := Overrides.ttl e;
        or_remaining_secs := r |}.
Definition log_response (e : QueryLogEntry) : QueryLogResponse :=
  {| lr_seq := seq e; lr_timestamp := Z.max 0 (timestamp e); lr_src := src_addr e;
     lr_domain := log_domain e; lr_query_type := Question.as_str (QueryLog.query_type e);
     lr_path := QueryPath.as_str (log_path e); lr_transport := Transport.as_str (transport e);
     lr_rescode := Header.as_str (QueryLog.rescode e); lr_latency_us := latency_us e;
     lr_dnssec := Cache.as_str (dnssec e); lr_rebind_stripped := log_rebind_stripped e |}.

Section handlers.
Context `{Lowercase} `{NetLib} `{TlsLib} (iter : Entries → list visit).
(** What the handlers ask of the network: whether a host, or this machine on the local
    network, accepts a connection, where this machine is there, and what an upstream replies. *)
Context (check_tcp : bytes → Z → bool) (check_lan : Ipv4Addr → Z → bool)
  (detect_lan_ip : option Ipv4Addr) (forward_query_raw : bytes → Upstream → result)
  (show_error : error → bytes).

Definition answered (r : ApiReply) (a : Api) : outcome (ApiReply * Api) := Ok (r, a).
Definition no_content_if (b : bool) : ApiReply := (if b then NO_CONTENT else NOT_FOUND, NoBody).
Definition update (f : ServerCtx → ServerCtx) (r : ApiReply) (a : Api) : outcome (ApiReply * Api) :=
  Ok (r, with_ctx (f (ctx a)) a).

(** ** Overrides *)

Fixpoint insert_each (now : Z) (reqs : list CreateOverrideRequest) (store : OverrideStore)
    : outcome (list OverrideResponse * OverrideStore) :=
  match reqs with
  | [] => Ok ([], store)
  | r :: reqs =>
      let domain := to_lowercase (co_domain r) in
      let? (qtype, store) := override_insert now domain (co_target r) (co_ttl r) (co_duration_secs r) store in
      let? (rs, store) := insert_each now reqs store in
      Ok ({| or_domain := domain; or_target := co_target r; or_record_type := Question.as_str qtype;
             or_ttl := co_ttl r; or_remaining_secs := co_duration_secs r |} :: rs, store)
  end.
Definition create_overrides (now : Z) (req : bytes + list CreateOverrideRequest) (a : Api)
    : outcome (ApiReply * Api) :=
  match req with
  | inl e => answered (BAD_REQUEST, Text e) a
  | inr requests =>
      let? (responses, store) := insert_each now requests (overrides (ctx a)) in
      update (set_overrides store) (CREATED, OverridesBody responses) a
  end.
Fixpoint responses (now : Z) (l : list OverrideEntry) : outcome (list OverrideResponse) :=
  match l with
  | [] => Ok []
  | e :: l => let? r := override_response now e in let? rs := responses now l in Ok (r :: rs)
  end.
Definition list_overrides (now : Z) (a : Api) : outcome (ApiReply * Api) :=
  let? entries := override_list now (overrides (ctx a)) in
  let? rs := responses now entries in
  answered (OK, OverridesBody rs) a.
Definition get_override (now : Z) (domain : bytes) (a : Api) : outcome (ApiReply * Api) :=
  let? e := override_get now domain (overrides (ctx a)) in
  match e with
  | Some e => let? r := override_response now e in answered (OK, OverridesBody [r]) a
  | None => answered (NOT_FOUND, NoBody) a
  end.
Definition remove_override (domain : bytes) (a : Api) : outcome (ApiReply * Api) :=
  let '(removed, store) := override_remove domain (overrides (ctx a)) in
  update (set_overrides store) (no_content_if removed) a.
Definition clear_overrides (a : Api) : outcome (ApiReply * Api) :=
  update (set_overrides (override_clear (overrides (ctx a)))) (NO_CONTENT, NoBody) a.

Fixpoint load_each (now : Z) (default_duration : option Z) (reqs : list CreateOverrideRequest)
    (store : OverrideStore) : outcome OverrideStore :=
  match reqs with
  | [] => Ok store
  | r :: reqs =>
      let duration := match co_duration_secs r with Some d => Some d | None => default_duration end in
      let? (_, store) := override_insert now (co_domain r) (co_target r) (co_ttl r) duration store in
      load_each now default_duration reqs store
  end.
Definition load_environment (now : Z) (req : EnvironmentRequest) (a : Api) : outcome (ApiReply * Api) :=
  let? store := load_each now (env_duration_secs req) (env_overrides req) (overrides (ctx a)) in
  update (set_overrides store) (CREATED, EnvironmentBody (len (env_overrides req))) a.

(** ** Diagnosis, the query log and the statistics *)

Definition forward_query_for_diagnose (domain : bytes) (u : Upstream) : outcome (bool * bytes) :=
  let show (r : outcome DnsPacket) : outcome (bool * bytes) :=
    match r with
    | Ok resp => Ok (true, Header.as_str (Header.rescode (header resp)) ++ str " ("
                           ++ show_usize (len (answers resp)) ++ str " answers)")
    | Err e => Ok (false, str "error: " ++ show_error e)
    | Panic => Panic
    | OutOfFuel => OutOfFuel
    end in
  match encode (Packet.query 0xBEEF domain QueryType.A) with
  | Ok msg =>
      match forward_query_raw msg u with
      | inl e => show (Err e)
      | inr data => show (fst (from_buffer (from_bytes data)))
      end
  | Err e => show (Err e)
  | Panic => Panic
  | OutOfFuel => OutOfFuel
  end.
Definition diagnose (now : Z) (domain : bytes) (a : Api) : outcome (ApiReply * Api) :=
  let c := ctx a in
  let domain_lower := to_lowercase domain in
  let? entry := override_get now domain_lower (overrides c) in
  let blocked := is_blocked now domain_lower (blocklist c) in
  let zone_hit := zone_lookup domain_lower QueryType.A (zone_map c) in
  let? cached := Cache.lookup now (cache c) domain_lower QueryType.A in
  let? (upstream_matched, upstream_detail) :=
    match preferred (upstream_pool c) with
    | Some u => forward_query_for_diagnose domain_lower u
    | None => Ok (false, str "no upstream configured")
    end in
  answered (OK, DiagnoseBody domain_lower (Question.as_str QueryType.A)
    [MkStep (str "override") (bool_decide (is_Some entry))
       (option_map (λ e, Overrides.domain e ++ str " -> " ++ Overrides.target e ++ str " ("
                           ++ Question.as_str (Overrides.query_type e) ++ str ")") entry);
     MkStep (str "blocklist") blocked (if blocked then Some (str "domain is in blocklist") else None);
     MkStep (str "local_zone") (bool_decide (is_Some zone_hit))
       (option_map (λ rs, show_usize (len rs) ++ str " records") zone_hit);
     MkStep (str "cache") (bool_decide (is_Some cached))
       (option_map (λ p, show_usize (len (answers p)) ++ str " answers") cached);
     MkStep (str "upstream") upstream_matched (Some upstream_detail)]) a.

Definition query_log_handler (params : QueryLogParams) (a : Api) : outcome (ApiReply * Api) :=
  let filter := {| by_domain := p_domain params;
                   by_type := p_type params ≫= Question.parse_str;
                   by_path := p_path params ≫= QueryPath.parse_str;
                   limit := p_limit params |} in
  answered (OK, QueryLogBody (map log_response (QueryLog.query filter (query_log (ctx a))))) a.

Definition blocking_summary (now : Z) (s : BlocklistStore) : BlockingStatsResponse :=
  {| b_enabled := Domains.enabled s; b_paused := is_paused now s;
     b_domains_loaded := Z.of_nat (size (domains s)); b_allowlist_size := list_len (allowlist s);
     b_list_sources := list_sources s;
     b_last_refresh_secs_ago := option_map (λ t, Z.max 0 (now - t) / 1000000000) (last_refresh s) |}.
Definition stats_handler (now : Z) (a : Api) : outcome (ApiReply * Api) :=
  let c := ctx a in
  let? active := active_count now (overrides c) in
  let '(peers, lan) := peer_list now (lan_peers c) in
  update (set_lan_peers lan)
    (OK, StatsBody {|
       sr_version := version (health_meta (settings a));
       sr_upstream := if bool_decide (upstream_mode c = ModeRecursive) then None else Some (upstream_pool c);
       sr_mode := upstream_mode c; sr_proxy_tld := proxy_tld c; sr_dnssec := dnssec_enabled c;
       sr_srtt := Srtt.enabled (srtt c); sr_rebind := rebind_enabled (rebind c);
       sr_snapshot := snapshot now (stats c); sr_cache_entries := entry_count (cache c);
       sr_cache_max_entries := max_entries (cache c); sr_overrides_active := active;
       sr_blocking := blocking_summary now (blocklist c); sr_lan_enabled := lan_enabled (settings a);
       sr_lan_peers := len peers; sr_mobile_enabled := mobile_enabled (settings a);
       sr_mobile_port := mobile_port (settings a);
       sr_query_log_entries := Z.of_nat (log_len (query_log c));
       sr_srtt_entries := Z.of_nat (srtt_len (srtt c)) |}) a.

(** ** Cache, health and blocking *)

Definition list_cache (now : Z) (a : Api) : outcome (ApiReply * Api) :=
  answered (OK, CacheBody (map (λ i, (Cache.domain i, Question.as_str (Cache.query_type i), i_remaining i))
    (list_entries iter now (cache (ctx a))))) a.
Definition flush_cache (a : Api) : outcome (ApiReply * Api) :=
  update (λ c, set_cache (Cache.clear (cache c)) c) (NO_CONTENT, NoBody) a.
Definition flush_cache_domain (domain : bytes) (a : Api) : outcome (ApiReply * Api) :=
  update (λ c, set_cache (Cache.remove domain (cache c)) c) (NO_CONTENT, NoBody) a.
Definition health (now : Z) (a : Api) : outcome (ApiReply * Api) :=
  answered (OK, HealthBody (build_health now (health_meta (settings a)) (Some (lan_ip (ctx a))))) a.

Definition on_blocklist (f : BlocklistStore → BlocklistStore) (c : ServerCtx) : ServerCtx :=
  set_blocklist (f (blocklist c)) c.
Definition blocking_stats (now : Z) (a : Api) : outcome (ApiReply * Api) :=
  answered (OK, BlockingStatsBody (blocking_summary now (blocklist (ctx a)))) a.
Definition blocking_toggle (enabled : bool) (a : Api) : outcome (ApiReply * Api) :=
  update (on_blocklist (set_enabled enabled)) (OK, FlagBody (str "enabled") enabled) a.
(** [minutes * 60] wraps around in the release build. *)
Definition blocking_pause (now minutes : Z) (a : Api) : outcome (ApiReply * Api) :=
  let? s := pause now (as_u64 (minutes * 60)) (blocklist (ctx a)) in
  update (set_blocklist s) (OK, NumberBody (str "paused_minutes") minutes) a.
Definition blocking_unpause (a : Api) : outcome (ApiReply * Api) :=
  update (on_blocklist unpause) (OK, FlagBody (str "paused") false) a.
Definition blocking_check (now : Z) (domain : bytes) (a : Api) : outcome (ApiReply * Api) :=
  answered (OK, CheckBody (check now domain (blocklist (ctx a)))) a.
Definition blocking_allowlist (a : Api) : outcome (ApiReply * Api) :=
  answered (OK, NamesBody (Domains.entries (allowlist (blocklist (ctx a))))) a.
Definition blocking_allowlist_add (domain : bytes) (a : Api) : outcome (ApiReply * Api) :=
  update (on_blocklist (add_to_allowlist domain)) (CREATED, TextBody (str "allowed") domain) a.
Definition blocking_allowlist_remove (domain : bytes) (a : Api) : outcome (ApiReply * Api) :=
  let '(removed, s) := remove_from_allowlist domain (blocklist (ctx a)) in
  update (set_blocklist s) (no_content_if removed) a.
Definition blocking_blocklist (a : Api) : outcome (ApiReply * Api) :=
  answered (OK, NamesBody (Domains.entries (manual (blocklist (ctx a))))) a.
Definition blocking_blocklist_add (domain : bytes) (a : Api) : outcome (ApiReply * Api) :=
  update (on_blocklist (add_to_blocklist domain)) (CREATED, TextBody (str "blocked") domain) a.
Definition blocking_blocklist_remove (domain : bytes) (a : Api) : outcome (ApiReply * Api) :=
  let '(removed, s) := remove_from_blocklist domain (blocklist (ctx a)) in
  update (set_blocklist s) (no_content_if removed) a.

(** ** Rebinding protection *)

Definition rebind_status (a : Api) : outcome (ApiReply * Api) :=
  let r := rebind (ctx a) in
  answered (OK, RebindBody {| r_enabled := rebind_enabled r; r_ranges := range_strings r;
                              r_allowlist := Domains.entries (rebind_allowlist r) |}) a.
Definition rebind_toggle (enabled : bool) (a : Api) : outcome (ApiReply * Api) :=
  update (λ c, set_rebind (rebind_set_enabled enabled (rebind c)) c) (OK, FlagBody (str "enabled") enabled) a.
Definition rebind_allowlist_add (domain : bytes) (a : Api) : outcome (ApiReply * Api) :=
  update (λ c, set_rebind (rebind_add domain (rebind c)) c) (CREATED, TextBody (str "allowed") domain) a.
Definition rebind_allowlist_remove (domain : bytes) (a : Api) : outcome (ApiReply * Api) :=
  let '(removed, r) := rebind_remove domain (rebind (ctx a)) in
  update (set_rebind r) (no_content_if removed) a.

(** ** The certificate of the services *)

(** The alternative names [generate_service_cert] asks for, loopback addresses aside. *)
Definition subject_alt_names (tld : bytes) (service_names : list bytes) : list bytes :=
  List.filter ia5_string
    ((str "*." ++ tld) :: map (λ name, name ++ 46 :: tld) service_names ++ [str "localhost"; tld]).
(** [build_tls_config], known by the names of the certificate. *)
Definition build_tls_config (tld : bytes) (service_names : list bytes) : option (list bytes) :=
  let sans := subject_alt_names tld service_names in
  if issues sans then Some sans else None.
Definition service_names (s : ServiceStore) : list bytes := map fst (map_to_list (Services.entries s)).
Definition regenerate_tls (now : Z) (a : Api) : Api :=
  match tls_config a with
  | None => a
  | Some _ =>
      if tls_byo (settings a) then a
      else
        let '(peers, lan) := peer_names now (lan_peers (ctx a)) in
        let names := elements (list_to_set (service_names (services (ctx a)) ++ peers) : gset bytes) in
        let a := with_ctx (set_lan_peers lan (ctx a)) a in
        match build_tls_config (proxy_tld (ctx a)) names with
        | Some sans => with_tls (Some sans) a
        | None => a
        end
  end.

(** ** Services *)

Definition service_url (a : Api) (name : bytes) : bytes :=
  (if tls_byo (settings a) then str "https" else str "http") ++ str "://" ++ name ++ 46 :: proxy_tld (ctx a).
Definition lan_accessible (port : Z) : bool :=
  match detect_lan_ip with Some ip => check_lan ip port | None => false end.
Definition service_response (a : Api) (e : ServiceEntry) (source : bytes) : ServiceResponse :=
  {| s_name := Services.name e; s_target_port := target_port e; s_target_host := target_host e;
     s_url := service_url a (Services.name e);
     s_healthy := check_tcp (default (str "localhost") (target_host e)) (target_port e);
     s_lan_accessible := lan_accessible (target_port e); s_routes := routes e; s_source := source |}.
Definition list_services (a : Api) : outcome (ApiReply * Api) :=
  let store := services (ctx a) in
  answered (OK, ServicesBody (map (λ e, service_response a e
    (if is_config_service (Services.name e) store then str "config" else str "api"))
    (service_list store))) a.

Definition bad_request (msg : bytes) (a : Api) : outcome (ApiReply * Api) := answered (BAD_REQUEST, Text msg) a.
(** The host a request names, [None] for this machine, or what is wrong with it. *)
Definition service_host (target_host : option bytes) : bytes + option bytes :=
  match option_map trim target_host with
  | None => inr None
  | Some h =>
      if bool_decide (h = []) || bool_decide (h = str "localhost") || bool_decide (h = str "127.0.0.1")
      then inr None
      else if 253 <? len h then inl (str "target_host must be at most 253 characters")
      else if odd_host h
      then inl (str "target_host must be a bare hostname or IP (no scheme, port, or path)")
      else inr (Some h)
  end.
Definition create_service (now : Z) (req : CreateServiceRequest) (a : Api) : outcome (ApiReply * Api) :=
  let name := to_lowercase (cs_name req) in
  if bool_decide (name = []) || (63 <? len name) then bad_request (str "name must be 1-63 characters") a
  else if negb (forallb (λ c, is_ascii_alphanumeric c || (c =? 45)) name)
  then bad_request (str "name must contain only alphanumeric characters and hyphens") a
  else if cs_target_port req =? 0 then bad_request (str "target_port must be > 0") a
  else
    match service_host (cs_target_host req) with
    | inl msg => bad_request msg a
    | inr host =>
        let is_new := negb (has_name name (services (ctx a))) in
        let a := with_ctx (set_services
          (service_insert name (cs_target_port req) host (services (ctx a))) (ctx a)) a in
        let a := if is_new then regenerate_tls now a else a in
        answered (CREATED, ServicesBody [service_response a
          {| Services.name := name; target_port := cs_target_port req; target_host := host;
             routes := [] |} (str "api")]) a
    end.
Definition remove_service (now : Z) (name : bytes) (a : Api) : outcome (ApiReply * Api) :=
  if eq_ignore_ascii_case name (str "numa") then answered (FORBIDDEN, NoBody) a
  else
    let '(removed, store) := service_remove name (services (ctx a)) in
    let a := with_ctx (set_services store (ctx a)) a in
    if removed then answered (NO_CONTENT, NoBody) (regenerate_tls now a)
    else answered (NOT_FOUND, NoBody) a.

Definition list_routes (name : bytes) (a : Api) : outcome (ApiReply * Api) :=
  match service_lookup name (services (ctx a)) with
  | Some e => answered (OK, RoutesBody (routes e)) a
  | None => answered (NOT_FOUND, NoBody) a
  end.
Definition add_route_handler (name : bytes) (req : AddRouteRequest) (a : Api) : outcome (ApiReply * Api) :=
  let path := ar_path req in
  if bool_decide (path = []) || negb (starts_with (str "/") path) then bad_request (str "path must start with /") a
  else if contains_text (str "/../") path || ends_with (str "/..") path || contains_text (str "%") path
  then bad_request (str "path must not contain '..' or percent-encoding") a
  else if ar_port req =? 0 then bad_request (str "port must be > 0") a
  else
    let '(added, store) := Services.add_route name path (ar_port req) (ar_strip req) (services (ctx a)) in
    update (set_services store)
      (if added then (CREATED, NoBody)
       else (NOT_FOUND, Text (str "service '" ++ name ++ str "' not found"))) a.
Definition remove_route_handler (name path : bytes) (a : Api) : outcome (ApiReply * Api) :=
  let '(removed, store) := Services.remove_route name path (services (ctx a)) in
  update (set_services store) (no_content_if removed) a.

Definition serve_ca (a : Api) : outcome (ApiReply * Api) :=
  match ca_pem (settings a) with
  | Some pem => answered (OK, Text pem) a
  | None => answered (NOT_FOUND, NoBody) a
  end.

(** The router. *)
Definition router (now : Z) (r : Request) (a : Api) : outcome (ApiReply * Api) :=
  match r with
  | CreateOverrides req => create_overrides now req a
  | ListOverrides => list_overrides now a
  | ClearOverrides => clear_overrides a
  | LoadEnvironment req => load_environment now req a
  | GetOverride domain => get_override now domain a
  | RemoveOverride domain => remove_override domain a
  | Diagnose domain => diagnose now domain a
  | QueryLogOf params => query_log_handler params a
  | StatsOf => stats_handler now a
  | ListCache => list_cache now a
  | FlushCache => flush_cache a
  | FlushCacheDomain domain => flush_cache_domain domain a
  | Health => health now a
  | BlockingStats => blocking_stats now a
  | BlockingToggle enabled => blocking_toggle enabled a
  | BlockingPause minutes => blocking_pause now minutes a
  | BlockingUnpause => blocking_unpause a
  | BlockingAllowlist => blocking_allowlist a
  | BlockingAllowlistAdd domain => blocking_allowlist_add domain a
  | BlockingAllowlistRemove domain => blocking_allowlist_remove domain a
  | BlockingCheck domain => blocking_check now domain a
  | BlockingBlocklist => blocking_blocklist a
  | BlockingBlocklistAdd domain => blocking_blocklist_add domain a
  | BlockingBlocklistRemove domain => blocking_blocklist_remove domain a
  | RebindStatus => rebind_status a
  | RebindToggle enabled => rebind_toggle enabled a
  | RebindAllowlistAdd domain => rebind_allowlist_add domain a
  | RebindAllowlistRemove domain => rebind_allowlist_remove domain a
  | ListServices => list_services a
  | CreateService req => create_service now req a
  | RemoveService name => remove_service now name a
  | ListRoutes name => list_routes name a
  | AddRoute name req => add_route_handler name req a
  | RemoveRoute name path => remove_route_handler name path a
  | ServeCa => serve_ca a
  end.
End handlers.

(** * Samples *)

(** A certificate library that takes ASCII names. *)
#[export] Instance ascii_tls : TlsLib :=
  {| ia5_string s := forallb (λ c, c <? 128) s; issues _ := true |}.
Definition sample_meta : HealthMeta := build_meta (str "0.1.0") (str "host") None 0 false 853 5380 true true true true false.
Definition sample_settings : ApiSettings :=
  {| lan_enabled := false; mobile_enabled := false; mobile_port := 8765; tls_byo := false;
     ca_pem := None; health_meta := sample_meta |}.
