(* ===== verification/Admin.v ===== *)
(** What the HTTP API keeps of the server, and what queries can rely on while it is used. *)
From stdpp Require Import gmap.
From S2P Require Import Prelude Net Ip Text Async Recursive Resolve Query.
From S2P Require Import Acl Policy Domains Overrides Services Peers Stats Srtt.
From S2P Require Import QueryLog Forward Zones Rebind Cache Local Buffer Question Header Record.
From S2P Require Import Packet Health Api.
Open Scope outcome_scope.

(** * What the API keeps of the state *)

Section keeps.
Context `{Lowercase} `{NetLib} `{TlsLib} (iter : Entries → list visit).
Context (check_tcp : bytes → Z → bool) (check_lan : Ipv4Addr → Z → bool)
  (detect_lan_ip : option Ipv4Addr) (forward_query_raw : bytes → Upstream → result)
  (show_error : error → bytes).
Context (lowercase_bytes : ∀ s, all_bytes s → all_bytes (to_lowercase s))
  (forward_bytes : ∀ m u, all_bytes m → result_bytes (forward_query_raw m u)).
Abbreviation serve := (router iter check_tcp check_lan detect_lan_ip forward_query_raw show_error).

(** A span of seconds the clock can add to now. *)
Definition representable (now : Z) (secs : option Z) : Prop :=
  match secs with Some n => now + n * 1000000000 < instant_limit | None => True end.
Definition override_request_ok (now : Z) (default_duration : option Z) (r : CreateOverrideRequest) : Prop :=
  all_bytes (co_domain r) ∧ all_bytes (co_target r) ∧ is_u32 (co_ttl r) ∧
  representable now (match co_duration_secs r with Some d => Some d | None => default_duration end).
(** Requests with fields in range, asking for nothing the clock cannot represent. *)
Definition request_ok (now : Z) (r : Request) : Prop :=
  match r with
  | CreateOverrides (inr l) => Forall (override_request_ok now None) l
  | LoadEnvironment e => Forall (override_request_ok now (env_duration_secs e)) (env_overrides e)
  | BlockingPause minutes => representable now (Some (as_u64 (minutes * 60)))
  | Diagnose domain => all_bytes domain
  | _ => True
  end.
(** What queries rely on. *)
Definition serves (c : ServerCtx) : Prop := cache_ok (cache c) ∧ locals_ok c.

(** What a change of the overrides must keep. *)
Definition overrides_ok (s : OverrideStore) : Prop :=
  map_Forall (λ _ e, overflows e = false ∧ record_ok (Overrides.record e)) s.

Lemma overrides_sane s : overrides_ok s → sane s.
Proof. intros Hs k e He. by apply (Hs k e). Qed.
Lemma parse_target_ok key tgt t : all_bytes key → all_bytes tgt → is_u32 t →
  record_ok (snd (parse_target key tgt t)).
Proof.
  intros Hk Ht Hu. unfold parse_target. destruct (parse_ipv4 tgt) eqn:E4.
  { apply parse_ipv4_ok in E4. by split_and!. }
  destruct (parse_ipv6 tgt) eqn:E6; [apply parse_ipv6_ok in E6|]; by split_and!.
Qed.
Lemma insert_ok now d tgt t dur s : overrides_ok s → all_bytes d → all_bytes tgt → is_u32 t →
  representable now dur →
  ∃ qtype s', override_insert now d tgt t dur s = Ok (qtype, s') ∧ overrides_ok s'.
Proof.
  intros Hs Hd Ht Hu Hr. destruct (retain_live_spec now s (overrides_sane s Hs)) as (s1 & E & _ & Hl).
  pose proof (parse_target_ok (to_lowercase d) tgt t (lowercase_bytes d Hd) Ht Hu) as Hp.
  unfold override_insert. rewrite E. cbn [obind]. destruct (parse_target _ _ _) as [q r].
  eexists _, _. split; [done|]. apply map_Forall_insert_2.
  - split; [|exact Hp]. apply overflows_spec. unfold deadline. cbn. by destruct dur.
  - intros k e He. rewrite Hl in He. destruct (s !! k) as [e'|] eqn:He'; [|done].
    case_decide; [done|]. injection He as <-. by apply (Hs k).
Qed.
Lemma insert_each_ok now l : ∀ s, overrides_ok s → Forall (override_request_ok now None) l →
  ∃ rs s', insert_each now l s = Ok (rs, s') ∧ overrides_ok s'.
Proof.
  induction l as [|r l IH]; intros s Hs Hl; [by exists [], s|].
  apply Forall_cons in Hl as [(Hd & Ht & Hu & Hr) Hl]. cbn [insert_each].
  assert (Hr' : representable now (co_duration_secs r)) by by destruct (co_duration_secs r).
  destruct (insert_ok now (to_lowercase (co_domain r)) (co_target r) (co_ttl r) (co_duration_secs r) s)
    as (q & s1 & E & Hs1); [by auto..|]. rewrite E. cbn [obind].
  destruct (IH s1 Hs1 Hl) as (rs & s2 & E2 & Hs2). rewrite E2. cbn [obind]. by eexists _, _.
Qed.
Lemma load_each_ok now dd l : ∀ s, overrides_ok s → Forall (override_request_ok now dd) l →
  ∃ s', load_each now dd l s = Ok s' ∧ overrides_ok s'.
Proof.
  induction l as [|r l IH]; intros s Hs Hl; [by exists s|].
  apply Forall_cons in Hl as [(Hd & Ht & Hu & Hr) Hl]. cbn [load_each].
  destruct (insert_ok now (co_domain r) (co_target r) (co_ttl r) _ s Hs Hd Ht Hu Hr)
    as (q & s1 & E & Hs1). rewrite E. cbn [obind]. by apply IH.
Qed.

Lemma response_ok now e : overflows e = false → ∃ r, override_response now e = Ok r.
Proof.
  intros Ho. unfold override_response, remaining_secs. unfold overflows in Ho.
  destruct (expires_at e) as [x|x| |] eqn:E; [by eexists| |done|];
    exfalso; revert E; unfold expires_at, instant_add; repeat case_match; done.
Qed.
Lemma responses_ok now l : Forall (λ e, overflows e = false) l → ∃ rs, responses now l = Ok rs.
Proof.
  induction 1 as [|e l He Hl [rs IH]]; [by eexists|]. cbn [responses].
  destruct (response_ok now e He) as [r ->]. cbn [obind]. rewrite IH. by eexists.
Qed.
Lemma get_ok now d s : overrides_ok s → ∃ o, override_get now d s = Ok o ∧
  match o with Some e => overflows e = false | None => True end.
Proof.
  intros Hs. unfold override_get. destruct (s !! to_lowercase d) as [e|] eqn:He; [|by exists None].
  destruct (Hs _ _ He) as [Ho _]. rewrite is_expired_spec, Ho. cbn [obind].
  case_bool_decide; [by exists None|by exists (Some e)].
Qed.
Lemma list_ok now s : overrides_ok s → ∃ l, override_list now s = Ok l ∧ Forall (λ e, overflows e = false) l.
Proof.
  intros Hs. unfold override_list. destruct (retain_live_spec now s (overrides_sane s Hs)) as (s1 & -> & Hs1 & _).
  eexists. split; [done|]. apply Forall_forall. intros e He. apply list_elem_of_fmap in He as ([k e'] & -> & Hk).
  apply elem_of_map_to_list in Hk. by apply (Hs1 k).
Qed.

Lemma diagnose_ok d u : all_bytes d → ∃ r, forward_query_for_diagnose forward_query_raw show_error d u = Ok r.
Proof.
  intros Hd. unfold forward_query_for_diagnose.
  pose proof (encode_query 0xBEEF d QueryType.A) as He.
  destruct (encode _) as [msg|e| |]; [|by eexists|done|done].
  assert (Hm : all_bytes msg) by (apply He; [done|by vm_compute|by unfold is_u16]).
  pose proof (forward_bytes msg u Hm) as Hr. destruct (forward_query_raw msg u) as [e|data]; [by eexists|].
  cbn in Hr. pose proof (safe_from_buffer (from_bytes data) (from_bytes_readable data Hr)) as Hp.
  destruct (from_buffer (from_bytes data)) as [[p|e| |] b]; cbn in Hp |- *; [by eexists..|done|done].
Qed.

(** Parts of the state that do not matter to queries' safety. *)
Lemma serves_same c c' : cache c' = cache c → zone_map c' = zone_map c → overrides c' = overrides c →
  lan_peers c' = lan_peers c → lan_ip c' = lan_ip c → serves c → serves c'.
Proof. intros E1 E2 E3 E4 E5 [Hc [? ? ? ?]]. split; [by rewrite E1|]. split; by rewrite ?E2, ?E3, ?E4, ?E5. Qed.
Lemma serves_overrides s c : overrides_ok s → serves c → serves (set_overrides s c).
Proof. intros Hs [Hc [? ? ? ?]]. split; [done|]. by split. Qed.
Lemma serves_cache v c : cache_ok v → serves c → serves (set_cache v c).
Proof. intros Hv [Hc [? ? ? ?]]. split; [done|]. by split. Qed.
Lemma serves_peers now c : serves c →
  serves (set_lan_peers (retain_fresh now (lan_peers c)) c).
Proof.
  intros [Hc Hl]. split; [done|]. apply locals_ok_peers; [|done].
  intros k x Hx. cbn in Hx. apply map_lookup_filter_Some in Hx as [Hx _]. by apply (lo_peers _ Hl k).
Qed.
Lemma serves_tls now a : serves (ctx a) → serves (ctx (regenerate_tls now a)).
Proof.
  intros Hs. unfold regenerate_tls. destruct (tls_config a); [|done]. destruct (tls_byo _); [done|]. cbn.
  destruct (build_tls_config _ _); by apply serves_peers.
Qed.

Definition keeps (o : outcome (ApiReply * Api)) : Prop := ∃ rep a', o = Ok (rep, a') ∧ serves (ctx a').
Lemma keeps_done rep a : serves (ctx a) → keeps (answered rep a).
Proof. intros. by exists rep, a. Qed.
Lemma keeps_update f rep a : serves (f (ctx a)) → keeps (update f rep a).
Proof. intros. by exists rep, (with_ctx (f (ctx a)) a). Qed.
Lemma keeps_local f rep a : serves (ctx a) →
  (∀ c, (cache (f c), zone_map (f c), overrides (f c), lan_peers (f c), lan_ip (f c)) =
        (cache c, zone_map c, overrides c, lan_peers c, lan_ip c)) → keeps (update f rep a).
Proof.
  intros Hs Hf. apply keeps_update. pose proof (Hf (ctx a)) as [= E1 E2 E3 E4 E5].
  by eapply serves_same.
Qed.

Section handlers.
Context (now : Z) (a : Api) (Hs : serves (ctx a)).
Let Ho : overrides_ok (overrides (ctx a)) := lo_overrides _ (proj2 Hs).

Lemma keeps_create req : match req with inr l => Forall (override_request_ok now None) l | inl _ => True end →
  keeps (create_overrides now req a).
Proof.
  destruct req as [e|l]; [intros; by apply keeps_done|]. intros Hl. cbn [create_overrides].
  destruct (insert_each_ok now l _ Ho Hl) as (rs & s & -> & Hs'). apply keeps_update. by apply serves_overrides.
Qed.
Lemma keeps_load req : Forall (override_request_ok now (env_duration_secs req)) (env_overrides req) →
  keeps (load_environment now req a).
Proof.
  intros Hl. unfold load_environment. destruct (load_each_ok now _ _ _ Ho Hl) as (s & -> & Hs').
  apply keeps_update. by apply serves_overrides.
Qed.
Lemma keeps_list : keeps (list_overrides now a).
Proof.
  unfold list_overrides. destruct (list_ok now _ Ho) as (l & -> & Hl). cbn [obind].
  destruct (responses_ok now l Hl) as [rs ->]. by apply keeps_done.
Qed.
Lemma keeps_get d : keeps (get_override now d a).
Proof.
  unfold get_override. destruct (get_ok now d _ Ho) as ([e|] & -> & He); cbn [obind]; [|by apply keeps_done].
  destruct (response_ok now e He) as [r ->]. by apply keeps_done.
Qed.
Lemma keeps_remove d : keeps (remove_override d a).
Proof. apply keeps_update, serves_overrides; [by apply map_Forall_delete|done]. Qed.
Lemma keeps_clear : keeps (clear_overrides a).
Proof. apply keeps_update, serves_overrides; [apply map_Forall_empty|done]. Qed.

Lemma keeps_diagnose d : all_bytes d → keeps (diagnose forward_query_raw show_error now d a).
Proof.
  intros Hd. apply lowercase_bytes in Hd. unfold diagnose. cbv zeta.
  destruct (get_ok now (to_lowercase d) _ Ho) as (o & -> & _). cbn [obind].
  destruct (lookup_returns now _ (to_lowercase d) QueryType.A (proj1 Hs)) as (r & -> & _). cbn [obind].
  destruct (preferred _) as [u|]; [|by apply keeps_done].
  destruct (diagnose_ok (to_lowercase d) u Hd) as [[m t] ->]. by apply keeps_done.
Qed.
Lemma keeps_stats : keeps (stats_handler now a).
Proof.
  unfold stats_handler, active_count. destruct (list_ok now _ Ho) as (l & -> & _). cbn [obind peer_list].
  apply keeps_update. by apply serves_peers.
Qed.
Lemma keeps_pause minutes : representable now (Some (as_u64 (minutes * 60))) → keeps (blocking_pause now minutes a).
Proof.
  intros Hm. unfold blocking_pause, pause, instant_add. cbn in Hm. rewrite (proj2 (Z.ltb_lt _ _) Hm).
  by apply keeps_local.
Qed.

Lemma keeps_create_service req : keeps (create_service check_tcp check_lan detect_lan_ip now req a).
Proof.
  assert (Hi : ∀ s, serves (ctx (with_ctx (set_services s (ctx a)) a))) by (intros; by apply (serves_same (ctx a))).
  unfold create_service. destruct (_ || _); [by apply keeps_done|].
  destruct (negb _); [by apply keeps_done|]. destruct (_ =? 0); [by apply keeps_done|].
  destruct (service_host _); [by apply keeps_done|]. apply keeps_done.
  destruct (has_name _ _); cbn [negb]; [apply Hi|apply serves_tls, Hi].
Qed.
Lemma keeps_remove_service nm : keeps (remove_service now nm a).
Proof.
  assert (Hi : ∀ s, serves (ctx (with_ctx (set_services s (ctx a)) a))) by (intros; by apply (serves_same (ctx a))).
  unfold remove_service. destruct (eq_ignore_ascii_case _ _); [by apply keeps_done|].
  destruct (service_remove _ _) as [[] s]; apply keeps_done; [apply serves_tls|]; apply Hi.
Qed.
Lemma keeps_list_routes nm : keeps (list_routes nm a).
Proof. unfold list_routes. destruct (service_lookup _ _); by apply keeps_done. Qed.
Lemma keeps_add_route nm req : keeps (add_route_handler nm req a).
Proof.
  unfold add_route_handler. destruct (_ || _); [by apply keeps_done|].
  destruct (_ || _); [by apply keeps_done|]. destruct (_ =? 0); [by apply keeps_done|].
  destruct (add_route _ _ _ _ _). by apply keeps_local.
Qed.
Lemma keeps_remove_route nm p : keeps (remove_route_handler nm p a).
Proof. unfold remove_route_handler. destruct (remove_route _ _ _). by apply keeps_local. Qed.
End handlers.

(** C32: no use of the API disturbs the answering of queries. Whatever the state and the request,
    as long as its fields are in range and its durations are ones the clock can represent, the
    handler returns a reply, without a panic, and leaves a state that queries can be answered
    from: a sound cache, overrides that expire within the clock's range, addresses and
    records that can be sent. *)
Theorem api_keeps_serving (now : Z) (r : Request) (a : Api) : serves (ctx a) → request_ok now r →
  keeps (serve now r a).
Proof.
  intros Hs Hr. destruct r; cbn [router]; cbn [request_ok] in Hr; try by apply keeps_done.
  all: try (apply keeps_local; [exact Hs|intros c; reflexivity]).
  - by apply keeps_create.
  - by apply keeps_list.
  - by apply keeps_clear.
  - by apply keeps_load.
  - by apply keeps_get.
  - by apply keeps_remove.
  - by apply keeps_diagnose.
  - by apply keeps_stats.
  - apply keeps_update, serves_cache; [by apply clear_ok, Hs|done].
  - apply keeps_update, serves_cache; [by apply remove_ok, Hs|done].
  - by apply keeps_pause.
  - unfold blocking_allowlist_remove. destruct (remove_from_allowlist _ _). by apply keeps_local.
  - unfold blocking_blocklist_remove. destruct (remove_from_blocklist _ _). by apply keeps_local.
  - unfold rebind_allowlist_remove. destruct (rebind_remove _ _). by apply keeps_local.
  - by apply keeps_create_service.
  - by apply keeps_remove_service.
  - by apply keeps_list_routes.
  - by apply keeps_add_route.
  - by apply keeps_remove_route.
  - unfold serve_ca. destruct (ca_pem _); by apply keeps_done.
Qed.
End keeps.

(** * Queries while the API is used *)

#[export] Instance representable_dec now secs : base.Decision (representable now secs).
Proof. unfold representable. destruct secs; apply _. Defined.
#[export] Instance override_request_ok_dec now d r : base.Decision (override_request_ok now d r).
Proof. unfold override_request_ok. apply _. Defined.
#[export] Instance request_ok_dec now r : base.Decision (request_ok now r).
Proof. destruct r; try destruct req; cbn [request_ok]; apply _. Defined.

Section administered.
Context `{Lowercase} `{NetLib} `{TlsLib} (iter : Entries → list visit) `{!IterOrder iter}
  (keys : srtt_map → list Srtt.key).
Context (check_tcp : bytes → Z → bool) (check_lan : Ipv4Addr → Z → bool)
  (detect_lan_ip : option Ipv4Addr) (forward_query_raw : bytes → Upstream → result)
  (show_error : error → bytes).
Context (lowercase_bytes : ∀ s, all_bytes s → all_bytes (to_lowercase s))
  (forward_bytes : ∀ m u, all_bytes m → result_bytes (forward_query_raw m u)).
Abbreviation anything := (λ _ : RebindFilter * bool * bool, True).

(** A call of the API, with the settings and the certificate the API has besides. *)
Record call := MkCall { call_settings : ApiSettings; call_tls : option (list bytes); call_request : Request }.
Definition api_call (w : World) (x : call) : World :=
  match router iter check_tcp check_lan detect_lan_ip forward_query_raw show_error (clock w) (call_request x) (MkApi _ (Async.ctx w) (call_settings x) (call_tls x)) with
  | Ok (_, a) => set_ctx (ctx a) w
  | _ => w
  end.
(** The environment of a task, with calls of the API between its steps. *)
Definition administer (calls : nat → list call) (env : nat → list request → @moment World reply)
    (n : nat) (rs : list request) : @moment World reply :=
  let m := env n rs in
  {| pick := pick m; Async.answer := Async.answer m;
     resume := λ w, let w := resume m w in
       fold_left api_call
         (List.filter (λ x, bool_decide (request_ok (clock w) (call_request x))) (calls n)) w |}.

Lemma api_calls_good l : ∀ w, Forall (λ x, request_ok (clock w) (call_request x)) l →
  Recursive.good anything w → Recursive.good anything (fold_left api_call l w).
Proof.
  induction l as [|x l IH]; intros w Hl Hw; [done|]. apply Forall_cons in Hl as [Hx Hl]. cbn [fold_left].
  destruct (api_keeps_serving iter check_tcp check_lan detect_lan_ip forward_query_raw show_error
    lowercase_bytes forward_bytes (clock w) (call_request x)
    (MkApi _ (Async.ctx w) (call_settings x) (call_tls x))) as (rep & a & E & Hc & Hloc); [|done|].
  { split; [apply Hw|exact (g_locals _ _ Hw)]. }
  unfold api_call at 2. rewrite E. apply IH; [exact Hl|]. destruct Hw as [_ _ _ Hs]. by split.
Qed.
Lemma administer_ok calls env : env_ok (Recursive.good anything) fits env →
  env_ok (Recursive.good anything) fits (administer calls env).
Proof.
  intros He n q qs. destruct (He n q qs) as [Hp Hr]. split; [exact Hp|]. intros w Hw. cbn.
  apply api_calls_good; [|by apply Hr]. apply Forall_forall. intros x Hx%list_elem_of_In.
  apply filter_In in Hx as [_ Hx]. by apply bool_decide_eq_true_1 in Hx.
Qed.

Context (local_ip_toward : IpAddr → option Ipv4Addr)
  (local_ip_toward_ok : ∀ a b, local_ip_toward a = Some b → ipv4_ok b).
Context {validator : Validator} {ends : ValidatorEnds anything}.

(** Queries are answered while the server is administered. However many requests to the API
    other tasks serve between the steps of a query (any requests at all, but for durations
    that the clock cannot represent), and whatever the network does, a datagram is dealt with as
    on a server left alone ([Query.handled]): replied to, but for the three exceptions; and the
    state at the end is one the next query can be answered from. *)
Theorem administered_queries (calls : nat → list call) (buffer : BytePacketBuffer) (raw_len : Z)
    (src : SocketAddr) (transport : Transport.t) (env : nat → list request → moment) (n : nat) (w : World) :
  readable buffer → 0 ≤ raw_len ≤ BUF_SIZE → env_ok (Recursive.good anything) fits env →
  Recursive.good anything w →
  let '(r, w') := run (handle_query iter keys local_ip_toward buffer raw_len src transport)
    (administer calls env) n w in
  serves (Async.ctx w') ∧
  handled iter keys local_ip_toward transport buffer raw_len src (administer calls env) n w r w'.
Proof.
  intros Hb Hl He Hw.
  pose proof (handle_query_run iter keys anything local_ip_toward local_ip_toward_ok buffer raw_len src transport
    (administer calls env) n w (administer_ok calls env He) Hb Hl Hw) as Hr.
  destruct (run _ _ _ _) as [r w']. destruct Hr as [Hg Hh]. split; [|exact Hh].
  split; [apply Hg|exact (g_locals _ _ Hg)].
Qed.
End administered.

(** * What single requests do *)

Section effects.
Context `{Lowercase} `{NetLib} `{TlsLib} (iter : Entries → list visit).
Context (check_tcp : bytes → Z → bool) (check_lan : Ipv4Addr → Z → bool)
  (detect_lan_ip : option Ipv4Addr) (forward_query_raw : bytes → Upstream → result)
  (show_error : error → bytes) (local_ip_toward : IpAddr → option Ipv4Addr).
Abbreviation serve := (router iter check_tcp check_lan detect_lan_ip forward_query_raw show_error).

Definition lapsed (since : Z) (dur : option Z) (later : Z) : Prop :=
  match dur with Some n => since + n * 1000000000 ≤ later | None => False end.

(** C4: an override takes effect. After [POST /overrides] with one override, whose duration the
    clock can represent, every query for its name, of any type and from any client, is answered
    on the spot with the record its target stands for (an address, or an alias), until the
    duration is over, and by no override from then on; queries for other names are answered from
    overrides as before. After [DELETE /overrides/name], no query is answered from overrides of
    that name any more. *)
Theorem override_takes_effect (now : Z) (r : CreateOverrideRequest) (a : Api) :
  serves (ctx a) → representable now (co_duration_secs r) →
  let key := to_lowercase (to_lowercase (co_domain r)) in
  let '(qtype, record) := parse_target key (co_target r) (co_ttl r) in
  ∃ rep a', serve now (CreateOverrides (inr [r])) a = Ok ((CREATED, OverridesBody [rep]), a') ∧
    or_record_type rep = Question.as_str qtype ∧
    (∀ later query src qt, now ≤ later → ¬ lapsed now (co_duration_secs r) later →
       resolve_local local_ip_toward later query src key qt (ctx a') =
       Ok (Some (push_answers [record] (response_from query NOERROR), QueryPath.Overridden, Indeterminate), ctx a')) ∧
    (∀ later, now ≤ later → lapsed now (co_duration_secs r) later →
       override_lookup later key (overrides (ctx a')) = Ok None) ∧
    (∀ later d, now ≤ later → d ≠ key →
       override_lookup later d (overrides (ctx a')) = override_lookup later d (overrides (ctx a))) ∧
    ∃ a'', serve now (RemoveOverride (to_lowercase (co_domain r))) a' = Ok ((NO_CONTENT, NoBody), a'') ∧
      ∀ later, override_lookup later key (overrides (ctx a'')) = Ok None.
Proof.
  intros [_ Hl] Hr key. pose proof (overrides_sane _ (lo_overrides _ Hl)) as Hs.
  pose proof (override_insert_lookup now (to_lowercase (co_domain r)) (co_target r) (co_ttl r)
    (co_duration_secs r) _ Hs) as Hi. cbv zeta in Hi. fold key in Hi.
  destruct (parse_target key _ _) as [qtype record]. destruct Hi as (_ & _ & _ & s' & Hi & Hlook).
  destruct (Hlook Hr) as [_ Hlook']. cbn [router create_overrides insert_each]. rewrite Hi.
  cbn [obind]. eexists _, _. split; [reflexivity|]. split; [reflexivity|]. split.
  - intros later query src qt Hlater Hlapsed. unfold resolve_local. cbn [with_ctx ctx set_overrides overrides].
    rewrite Hlook', decide_True by done. unfold lapsed in Hlapsed.
    destruct (co_duration_secs r); [rewrite decide_False by done|]; reflexivity.
  - split; [|split]; [intros later Hlater Hlapsed|intros later d Hlater Hd|].
    { cbn [with_ctx ctx set_overrides overrides]. rewrite Hlook', decide_True by done. unfold lapsed in Hlapsed.
      destruct (co_duration_secs r); [by rewrite decide_True|done]. }
    { cbn [with_ctx ctx set_overrides overrides]. by rewrite Hlook', decide_False. }
    eexists. split.
    + cbn [router]. unfold remove_override, override_remove. cbn [with_ctx ctx set_overrides overrides]. fold key.
      rewrite bool_decide_eq_true_2; [reflexivity|]. unfold override_insert in Hi.
      destruct (Overrides.retain_live now _) as [s1| | |]; [|done..]. cbn [obind] in Hi. fold key in Hi.
      destruct (parse_target key _ _). injection Hi as _ <-. rewrite lookup_insert_eq. by eexists.
    + intros later. unfold override_lookup. cbn. by rewrite lookup_delete_eq.
Qed.

(** ** Services *)

(** The text contains none of these. *)
Definition free_of (ps : list bytes) (h : bytes) : Prop := Forall (λ p, ∀ x y, h ≠ x ++ p ++ y) ps.
Lemma odd_host_spec h : odd_host h = false ↔ free_of (control_chars ++ white_space ++ [str "/"; str ":"]) h.
Proof.
  unfold odd_host, free_of. generalize (control_chars ++ white_space ++ [str "/"; str ":"]). intros ps.
  rewrite <- not_true_iff_false, existsb_exists, Forall_forall. split.
  - intros Hn p Hp x y ->. apply Hn. exists p. split; [by apply list_elem_of_In|]. apply contains_text_spec. by eexists _, _.
  - intros Hf (p & Hp & Hc). apply contains_text_spec in Hc as (x & y & ->).
    by apply (Hf p (proj2 (list_elem_of_In _ _) Hp) x y).
Qed.

Definition label_char (c : Z) : Prop := 48 ≤ c ≤ 57 ∨ 65 ≤ c ≤ 90 ∨ 97 ≤ c ≤ 122 ∨ c = 45.
Lemma label_char_spec c : is_ascii_alphanumeric c || (c =? 45) = true ↔ label_char c.
Proof.
  unfold is_ascii_alphanumeric, is_ascii_digit, label_char.
  rewrite !orb_true_iff, !andb_true_iff, !Z.leb_le, Z.eqb_eq. lia.
Qed.
(** What a new service may be called. *)
Definition service_name_ok (name : bytes) : Prop := 1 ≤ len name ≤ 63 ∧ Forall label_char name.
(** What a request may name as the host, and the host it means: [None] is this machine. *)
Definition host_means (target_host host : option bytes) : Prop :=
  match option_map trim target_host with
  | None => host = None
  | Some h =>
      if decide (h ∈ [[]; str "localhost"; str "127.0.0.1"]) then host = None
      else host = Some h ∧ len h ≤ 253 ∧ free_of (control_chars ++ white_space ++ [str "/"; str ":"]) h
  end.
Lemma service_host_spec th : match service_host th with
  | inr host => host_means th host
  | inl _ => ∀ host, ¬ host_means th host
  end.
Proof.
  unfold service_host, host_means. destruct (option_map trim th) as [h|]; [|done].
  destruct (decide (h ∈ _)) as [Hin|Hin].
  - rewrite !elem_of_cons in Hin.
    destruct Hin as [->|[->|[->|[]%elem_of_nil]]]; done.
  - rewrite !elem_of_cons in Hin. rewrite !bool_decide_eq_false_2 by (intros Hk; apply Hin; tauto).
    cbn [orb]. destruct (Z.ltb_spec 253 (len h)); [intros host (_ & Hle & _); lia|].
    destruct (odd_host h) eqn:Ho; [|by apply odd_host_spec in Ho].
    intros host (_ & _ & Hf). apply odd_host_spec in Hf. congruence.
Qed.

Lemma certified now a k : k ∈ service_names (services (ctx a)) → tls_config a ≠ None →
  tls_byo (settings a) = false → (∀ l, issues l = true) → ia5_string (k ++ 46 :: proxy_tld (ctx a)) = true →
  ∃ sans, tls_config (regenerate_tls now a) = Some sans ∧ k ++ 46 :: proxy_tld (ctx a) ∈ sans.
Proof.
  intros Hk Ht Hb Hi H5. unfold regenerate_tls. destruct (tls_config a) as [t|]; [|done]. rewrite Hb.
  cbn [peer_names]. cbv zeta. unfold build_tls_config. rewrite Hi. eexists. split; [reflexivity|].
  cbn [with_ctx ctx set_lan_peers proxy_tld]. apply list_elem_of_In, filter_In. split; [|exact H5].
  right. apply in_or_app. left. apply in_map_iff. exists k. split; [done|].
  apply list_elem_of_In, elem_of_elements, elem_of_list_to_set, elem_of_app. by left.
Qed.

(** Creating a service. A request is accepted exactly when its name, lower-cased, has 1 to 63
    letters, digits and hyphens, its port is not zero, and its host, blanks around it removed,
    is this machine or at most 253 characters without blanks, control characters, slashes or
    colons; otherwise it is a bad request and nothing changes. An accepted service is in the
    store under its name, with no routes; no other service changes; it answers at once for its
    name in the proxy's domain; and the certificate of the proxy covers a new service, if
    the server issues its own certificates. *)
Theorem create_service_spec (now : Z) (req : CreateServiceRequest) (a : Api) :
  (∀ l, issues l = true) → 0 ≤ cs_target_port req →
  let name := to_lowercase (cs_name req) in
  (∀ host, service_name_ok name → 0 < cs_target_port req → host_means (cs_target_host req) host →
   ∃ rep a', serve now (CreateService req) a = Ok ((CREATED, ServicesBody [rep]), a') ∧
     s_name rep = name ∧ s_target_port rep = cs_target_port req ∧ s_target_host rep = host ∧
     service_lookup name (services (ctx a')) =
       Some {| Services.name := to_lowercase name; target_port := cs_target_port req;
               target_host := host; routes := [] |} ∧
     (∀ other, to_lowercase other ≠ to_lowercase name →
        service_lookup other (services (ctx a')) = service_lookup other (services (ctx a))) ∧
     (∀ query src, answers (fst (fst (fst (resolve_proxy_tld local_ip_toward now query src
        (name ++ proxy_tld_suffix (ctx a)) QueryType.A (ctx a'))))) ≠ []) ∧
     (has_name name (services (ctx a)) = false → tls_config a ≠ None → tls_byo (settings a) = false →
      let fqdn := to_lowercase name ++ 46 :: proxy_tld (ctx a) in
      ia5_string fqdn = true → ∃ sans, tls_config a' = Some sans ∧ fqdn ∈ sans)) ∧
  ((∀ host, ¬ (service_name_ok name ∧ 0 < cs_target_port req ∧ host_means (cs_target_host req) host)) →
   ∃ msg, serve now (CreateService req) a = Ok ((BAD_REQUEST, Text msg), a)).
Proof.
  intros Hi Hp0 name. cbn [router]. unfold create_service. fold name.
  assert (Hlen : bool_decide (name = []) || (63 <? len name) = false ↔ 1 ≤ len name ≤ 63).
  { clearbody name. rewrite orb_false_iff, bool_decide_eq_false, Z.ltb_ge. pose proof (len_nonneg name).
    destruct name as [|c l]; [split; [by intros [? _]|intros [Hx _]; by vm_compute in Hx]|]. rewrite len_cons in *.
    pose proof (len_nonneg l). split; [intros [_ ?]; lia|]. intros ?. by split; [|lia]. }
  assert (Hch : forallb (λ c, is_ascii_alphanumeric c || (c =? 45)) name = true ↔ Forall label_char name).
  { rewrite forallb_forall, Forall_forall. split; intros Hf c Hc;
      [apply label_char_spec, Hf; by apply list_elem_of_In|apply label_char_spec, Hf; by apply list_elem_of_In]. }
  pose proof (service_host_spec (cs_target_host req)) as Hh. split.
  - intros host [Hl Hc] Hp Hm. apply Hlen in Hl as ->. apply Hch in Hc as ->. cbn [negb].
    rewrite (proj2 (Z.eqb_neq (cs_target_port req) 0)) by lia.
    destruct (service_host (cs_target_host req)) as [msg|host'] eqn:E; [by apply Hh in Hm|].
    assert (host' = host) as ->.
    { unfold host_means in Hh, Hm. destruct (option_map trim _); [destruct (decide _)|]; naive_solver. }
    set (a1 := with_ctx _ a). eexists _, _. split; [reflexivity|].
    set (a' := if negb (has_name name (services (ctx a))) then regenerate_tls now a1 else a1).
    assert (Hsv : services (ctx a') = services (ctx a1) ∧ proxy_tld_suffix (ctx a') = proxy_tld_suffix (ctx a)).
    { unfold a'. destruct (negb _); [|done]. unfold regenerate_tls. destruct (tls_config a1); [|done].
      destruct (tls_byo _); [done|]. cbn. by destruct (build_tls_config _ _). }
    destruct Hsv as [Hsv Hsuf].
    assert (Hlk : service_lookup name (services (ctx a1)) = Some {| Services.name := to_lowercase name;
      target_port := cs_target_port req; target_host := host; routes := [] |}) by apply lookup_insert_eq.
    do 3 (split; [reflexivity|]). rewrite Hsv. split; [exact Hlk|]. split; [|split].
    + intros other Hne. apply lookup_insert_ne. congruence.
    + intros query src. unfold resolve_proxy_tld. rewrite Hsuf, strip_suffix_app, Hsv.
      change (default (name ++ proxy_tld_suffix (ctx a)) (Some name)) with name. rewrite Hlk. done.
    + intros Hnew Ht Hb H5. unfold a'. rewrite Hnew. cbn [negb]. apply (certified now a1); try done.
      unfold service_names. apply list_elem_of_fmap. eexists (_, _). split; [reflexivity|].
      by apply elem_of_map_to_list.
  - intros Hbad. destruct (_ || _); [by eexists|]. pose proof (proj1 Hlen eq_refl) as Hn.
    destruct (forallb _ _); cbn [negb]; [|by eexists]. pose proof (proj1 Hch eq_refl) as Hc.
    destruct (Z.eqb_spec (cs_target_port req) 0); [by eexists|].
    destruct (service_host _) as [msg|host]; [by eexists|]. exfalso. apply (Hbad host).
    split; [by split|]. split; [lia|done].
Qed.

(** Where the service of that key sends requests, by default. *)
Definition target_of (k : bytes) (a : Api) : option (Z * option bytes) :=
  option_map (λ e, (target_port e, target_host e)) (Services.entries (services (ctx a)) !! k).
Lemma regenerate_services now a : services (ctx (regenerate_tls now a)) = services (ctx a).
Proof.
  unfold regenerate_tls. destruct (tls_config a); [|done]. destruct (tls_byo _); [done|]. cbn.
  by destruct (build_tls_config _ _).
Qed.
Lemma target_of_services k a a' : services (ctx a') = services (ctx a) → target_of k a' = target_of k a.
Proof. intros E. unfold target_of. by rewrite E. Qed.

Lemma target_of_entries k e c a :
  Services.entries (services c) = Services.entries (services (ctx a)) ∨
  (∃ nm old, Services.entries (services (ctx a)) !! nm = Some old ∧
     target_port e = target_port old ∧ target_host e = target_host old ∧
     Services.entries (services c) = <[nm := e]> (Services.entries (services (ctx a)))) →
  target_of k (with_ctx c a) = target_of k a.
Proof.
  unfold target_of. cbn [with_ctx ctx]. intros [->|(nm & old & Hold & Hp & Hh & ->)]; [done|].
  destruct (decide (nm = k)) as [->|]; [|by rewrite lookup_insert_ne].
  rewrite lookup_insert_eq, Hold. cbn. by rewrite Hp, Hh.
Qed.
Lemma obind_Ok {A B} (o : outcome A) (f : A → outcome B) b : obind o f = Ok b → ∃ v, o = Ok v ∧ f v = Ok b.
Proof. destruct o; [by eexists|done..]. Qed.
(** Requests that are not about the services leave them alone. *)
Ltac services_alone := repeat match goal with
  | E : obind _ _ = Ok _ |- _ => apply obind_Ok in E as (? & _ & E)
  | E : answered _ _ = Ok _ |- _ => injection E as <- <-; reflexivity
  | E : update _ _ _ = Ok _ |- _ => injection E as <- <-; reflexivity
  | E : context [match ?x with _ => _ end] |- _ => destruct x; cbn beta iota zeta in E
  end.
Lemma services_alone now r a a' rep : serve now r a = Ok (rep, a') →
  match r with
  | CreateService _ | RemoveService _ | AddRoute _ _ | RemoveRoute _ _ => True
  | _ => services (ctx a') = services (ctx a)
  end.
Proof.
  intros E. destruct r; try exact I; cbn [router] in E; revert E.
  all: try (intros [= <- <-]; reflexivity).
  - destruct req; cbn [create_overrides]; intros E; services_alone.
  - unfold list_overrides; intros E; services_alone.
  - unfold load_environment; intros E; services_alone.
  - unfold get_override; intros E; services_alone.
  - unfold diagnose; cbv zeta; intros E; services_alone.
  - unfold stats_handler; cbv zeta; intros E; services_alone.
  - unfold blocking_pause; intros E; services_alone.
  - unfold blocking_allowlist_remove; intros E; services_alone.
  - unfold blocking_blocklist_remove; intros E; services_alone.
  - unfold rebind_allowlist_remove; intros E; services_alone.
  - unfold list_routes; intros E; services_alone.
  - unfold serve_ca; intros E; services_alone.
Qed.

(** The dashboard's own service, [numa], stays: whatever is asked of the API, it is neither
    removed nor pointed elsewhere, whatever the spelling of its name; except that it can be
    created again, with another port and host, as [remove_service] forbids but
    [create_service] does not. *)
Theorem numa_stays (now : Z) (r : Request) (a a' : Api) (rep : ApiReply) :
  (∀ s, to_lowercase s = str "numa" → ascii_lower s = str "numa") →
  serve now r a = Ok (rep, a') →
  target_of (str "numa") a' = target_of (str "numa") a ∨
  (∃ req, r = CreateService req ∧ to_lowercase (to_lowercase (cs_name req)) = str "numa" ∧
     target_of (str "numa") a' = Some (cs_target_port req, 
       match service_host (cs_target_host req) with inr h => h | inl _ => None end)).
Proof.
  intros Hnuma Hrun. pose proof (services_alone _ _ _ _ _ Hrun) as Hs.
  destruct r; try (left; by apply target_of_services); clear Hs; cbn [router] in Hrun.
  - revert Hrun. unfold create_service, bad_request.
    destruct (_ || _); [intros [= <- <-]; by left|]. destruct (negb _); [intros [= <- <-]; by left|].
    destruct (_ =? 0); [intros [= <- <-]; by left|].
    destruct (service_host _) as [m|h] eqn:Eh; [intros [= <- <-]; by left|]. intros [= <- Ha].
    assert (Ht : target_of (str "numa") a' = target_of (str "numa") (with_ctx (set_services
        (service_insert (to_lowercase (cs_name req)) (cs_target_port req) h (services (ctx a))) (ctx a)) a)).
    { apply target_of_services. subst a'. destruct (negb _); [apply regenerate_services|done]. }
    rewrite Ht. destruct (decide (to_lowercase (to_lowercase (cs_name req)) = str "numa")) as [E|Hne].
    + right. exists req. split; [done|]. split; [exact E|]. rewrite Eh. unfold target_of, service_insert.
      cbn [with_ctx ctx set_services services save set_entry Services.entries]. by rewrite E, lookup_insert_eq.
    + left. unfold target_of, service_insert.
      cbn [with_ctx ctx set_services services save set_entry Services.entries]. by rewrite lookup_insert_ne.
  - left. revert Hrun. unfold remove_service. destruct (eq_ignore_ascii_case _ _) eqn:Ei; [by intros [= <- <-]|].
    assert (Hne : to_lowercase name ≠ str "numa").
    { intros Hn. apply Hnuma in Hn. unfold eq_ignore_ascii_case in Ei.
      apply bool_decide_eq_false in Ei. by apply Ei. }
    unfold service_remove. destruct (_ !! _); intros [= <- <-].
    + rewrite (target_of_services _ _ _ (regenerate_services _ _)). unfold target_of. cbn.
      by rewrite lookup_delete_ne.
    + by apply target_of_services.
  - left. revert Hrun. unfold add_route_handler, bad_request.
    destruct (_ || _); [by intros [= <- <-]|]. destruct (_ || _); [by intros [= <- <-]|].
    destruct (_ =? 0); [by intros [= <- <-]|]. unfold add_route. destruct (_ !! _) eqn:E; intros [= <- <-].
    + apply (target_of_entries _ (with_routes (without_route (ar_path req) (routes s) ++
        [{| path := ar_path req; route_port := ar_port req; strip := ar_strip req |}]) s)). right. by eexists _, _.
    + by apply target_of_services.
  - left. revert Hrun. unfold remove_route_handler, remove_route. destruct (_ !! _) eqn:E; [destruct (_ <? _)%nat|];
      intros [= <- <-]; [apply (target_of_entries _ (with_routes (without_route path (routes s)) s))..|];
      [right; by eexists _, _..|by apply target_of_services].
Qed.
End effects.

(** * Instances *)

#[local] Existing Instance sample_net.
#[local] Existing Instance lowercase_ascii.
(** The server of the samples, serving certificates, on a network that answers nothing. *)
Definition sample_api : Api := MkApi sample_net recursive_ctx sample_settings (Some []).
Definition dead_end (_ : bytes) (_ : Upstream) : result := inl WireTooShort.
Abbreviation sample_serve :=
  (router iter_list (λ _ _, false) (λ _ _, false) None dead_end (λ _, [])).
Lemma lower_bytes s : all_bytes s → all_bytes (@to_lowercase lowercase_ascii s).
Proof.
  intros Hs. apply Forall_forall. intros x Hx.
  apply list_elem_of_fmap in Hx as (b & -> & Hb). rewrite Forall_forall in Hs. pose proof (Hs b Hb) as [? ?].
  unfold to_ascii_lowercase, is_byte. destruct (_ && _) eqn:E; [|lia]. apply andb_true_iff in E. lia.
Qed.
Lemma dead_end_bytes m u : all_bytes m → result_bytes (dead_end m u).
Proof. done. Qed.
Lemma sample_api_serves : serves (ctx sample_api).
Proof. destruct recursive_world_good as [_ Hc Hl _]. by split. Qed.
Definition nas : CreateOverrideRequest := MkCreateOverride (str "NAS.test") (str "10.0.0.7") 60 (Some 300).
Definition after (o : outcome (ApiReply * Api)) : Api := match o with Ok (_, a) => a | _ => sample_api end.

Lemma api_keeps_serving_witness : ∃ rep a',
  sample_serve 5 (CreateOverrides (inr [nas])) sample_api = Ok ((CREATED, OverridesBody [rep]), a') ∧
  or_domain rep = str "nas.test" ∧ serves (ctx a').
Proof.
  destruct (api_keeps_serving iter_list (λ _ _, false) (λ _ _, false) None dead_end (λ _, [])
    lower_bytes dead_end_bytes 5 (CreateOverrides (inr [nas])) sample_api sample_api_serves)
    as (rep & a' & E & Hs').
  { apply (bool_decide_unpack _). vm_compute. exact I. }
  assert (Hrep : match sample_serve 5 (CreateOverrides (inr [nas])) sample_api with
    | Ok (CREATED, OverridesBody [r], _) => or_domain r = str "nas.test" | _ => False end) by (vm_compute; reflexivity).
  rewrite E in Hrep. destruct rep as [[] []]; try contradiction. destruct l as [|r []]; try contradiction.
  by exists r, a'.
Defined.

(** A query during which the API clears the cache and adds an override, at every step. *)
Definition busy_env : nat → list request → @moment World reply :=
  administer iter_list (λ _ _, false) (λ _ _, false) None dead_end (λ _, [])
    (λ _ : nat, map (MkCall sample_settings (Some [])) [FlushCache; CreateOverrides (inr [nas])])
    (upstream_env rebinding_reply).
Definition handle_busy : outcome (option bytes) * World :=
  run (@handle_query _ _ iter_list keys_list (λ _, None)
    (constant_validator Indeterminate) (from_bytes evil_datagram) (len evil_datagram) sample_client
    Transport.Udp) busy_env 0 forward_world.
Example administered_reply :
  let '(r, w') := handle_busy in
  serves (Async.ctx w') ∧ match r with Ok (Some _) => True | _ => False end.
Proof.
  pose proof (administered_queries iter_list keys_list (λ _ _, false) (λ _ _, false) None dead_end (λ _, [])
    lower_bytes dead_end_bytes (λ _, None) ltac:(discriminate)
    (validator := constant_validator Indeterminate) (ends := constant_validator_ends _ _)
    (λ _ : nat, map (MkCall sample_settings (Some [])) [FlushCache; CreateOverrides (inr [nas])])
    (from_bytes evil_datagram) (len evil_datagram) sample_client Transport.Udp
    (upstream_env rebinding_reply) 0 forward_world) as Hc.
  assert (Hr : match fst handle_busy with Ok (Some _) => True | _ => False end) by (vm_compute; exact I).
  unfold handle_busy, busy_env in *. destruct (run _ _ _ _) as [r w']. destruct Hc as (Hg & _).
  - apply from_bytes_readable. apply (bool_decide_unpack _). vm_compute. exact I.
  - split; vm_compute; discriminate.
  - apply upstream_env_ok, rebinding_reply_bytes.
  - apply forward_world_good. exact I.
  - split; [exact Hg|exact Hr].
Qed.

Lemma override_takes_effect_witness : ∃ rep a',
  sample_serve 5 (CreateOverrides (inr [nas])) sample_api = Ok ((CREATED, OverridesBody [rep]), a') ∧
  or_record_type rep = str "A" ∧
  resolve_local (λ _, None) 6 (query 7 (str "nas.test") QueryType.A) sample_client (str "nas.test") QueryType.A (ctx a') =
  Ok (Some (push_answers [DnsRecord.A (str "nas.test") (Ipv4 10 0 0 7) 60]
    (response_from (query 7 (str "nas.test") QueryType.A) NOERROR), QueryPath.Overridden, Indeterminate), ctx a').
Proof.
  pose proof (override_takes_effect iter_list (λ _ _, false) (λ _ _, false) None dead_end (λ _, []) (λ _, None)
    5 nas sample_api sample_api_serves eq_refl) as Hc. cbv zeta in Hc.
  assert (E : parse_target (to_lowercase (to_lowercase (co_domain nas))) (co_target nas) (co_ttl nas) =
    (QueryType.A, DnsRecord.A (str "nas.test") (Ipv4 10 0 0 7) 60)) by (vm_compute; reflexivity).
  rewrite E in Hc. destruct Hc as (rep & a' & Hrun & Hty & Hres & _). exists rep, a'.
  split; [exact Hrun|]. split; [rewrite Hty; reflexivity|].
  apply (Hres 6 (query 7 (str "nas.test") QueryType.A) sample_client QueryType.A); [lia|].
  unfold lapsed. cbn. lia.
Defined.

Definition wiki : CreateServiceRequest := MkCreateService (str "Wiki") 8080 (Some (str " 127.0.0.1 ")).
Lemma create_service_spec_witness : ∃ rep a',
  sample_serve 5 (CreateService wiki) sample_api = Ok ((CREATED, ServicesBody [rep]), a') ∧
  s_name rep = str "wiki" ∧ s_target_host rep = None ∧
  ∃ sans, tls_config a' = Some sans ∧ str "wiki.numa" ∈ sans.
Proof.
  destruct (@create_service_spec _ _ ascii_tls iter_list (λ _ _, false) (λ _ _, false) None dead_end (λ _, []) (λ _, None)
    5 wiki sample_api ltac:(intros; reflexivity) ltac:(discriminate)) as [Hc _].
  destruct (Hc None) as (rep & a' & Hrun & Hn & _ & Hh & _ & _ & _ & Hcert).
  - split; [split; vm_compute; discriminate|]. apply (bool_decide_unpack (Forall _ _)).
    vm_compute. exact I.
  - reflexivity.
  - reflexivity.
  - exists rep, a'. split; [exact Hrun|]. split; [exact Hn|]. split; [exact Hh|]. apply Hcert; [reflexivity|discriminate|reflexivity..].
Defined.

Lemma numa_stays_witness : ∃ rep a',
  sample_serve 5 (RemoveService (str "NUMA")) sample_api = Ok (rep, a') ∧ fst rep = FORBIDDEN ∧
  target_of (str "numa") a' = target_of (str "numa") sample_api.
Proof.
  exists (FORBIDDEN, NoBody), sample_api. split; [reflexivity|]. split; [reflexivity|].
  destruct (numa_stays iter_list (λ _ _, false) (λ _ _, false) None dead_end (λ _, [])
    5 (RemoveService (str "NUMA")) sample_api sample_api (FORBIDDEN, NoBody)) as [E|(req & Hd & _)].
  - by intros s.
  - reflexivity.
  - exact E.
  - discriminate Hd.
Defined.
