(* ===== verification/Mdns.v ===== *)
(** The mDNS messages of [src/src/lan.rs]: how a server announces its services on the local
    network, what it makes of the announcements of others, and how its peers follow. *)
From stdpp Require Import gmap.
From S2P Require Import Prelude Net Ip Text Acl Domains Services Peers Zones Forward QueryLog.
From S2P Require Import Buffer Header Question Record Packet Stats Cache Local Health Api.
Open Scope buffer_scope.

Definition SERVICE_TYPE : bytes := str "_numa._tcp.local".
Definition MDNS_TTL : Z := 120.
Definition TXT_SERVICES : bytes := str "services=".
Definition TXT_ID : bytes := str "id=".
Definition TXT_VERSION : bytes := str "version=".
Definition TXT_API_PORT : bytes := str "api_port=".
Definition TXT_PROTO : bytes := str "proto=".
Definition TXT_DOT_PORT : bytes := str "dot_port=".
Definition TXT_CA_FP : bytes := str "ca_fp=".

(** The instance name is the first label of the host's name. *)
Definition get_hostname (hostname : bytes) : bytes :=
  match before 46 hostname with [] => str "numa" | s => s end.

(** * Building *)

Definition write_record_header (name : bytes) (rtype class ttl : Z) : M unit :=
  let! _ := write_qname name in
  let! _ := write_u16 rtype in
  let! _ := write_u16 class in
  write_u32 ttl.
Definition patch_rdlen (rdlen_pos rdata_start : Z) : M unit :=
  let! p := get_pos in
  set_u16 rdlen_pos (as_u16 (p - rdata_start)).
(** The lines around every body: a zero length, the body, and the length patched in. *)
Definition patched (body : M unit) : M unit :=
  let! rdlen_pos := get_pos in
  let! _ := write_u16 0 in
  let! rdata_start := get_pos in
  let! _ := body in
  patch_rdlen rdlen_pos rdata_start.

(** [slice::chunks]: as many pieces of [n] as there are, and the rest. *)
Fixpoint chunks_go {A} (fuel n : nat) (l : list A) : list (list A) :=
  match fuel, l with
  | S fuel, _ :: _ => take n l :: chunks_go fuel n (drop n l)
  | _, _ => []
  end.
Definition chunks {A} (n : nat) (l : list A) : list (list A) := chunks_go (length l) n l.
Definition write_txt_string (s : bytes) : M unit :=
  write_all (λ chunk,
    let! _ := write_u8 (as_u8 (len chunk)) in
    write_all write_u8 chunk) (chunks 255 s).

Definition svc_str (services : list (bytes * Z)) : bytes :=
  join [44] (map (λ '(name, port), name ++ 58 :: show_u16 port) services).
(** The strings of the TXT record, in order. *)
Definition txt_strings (services : list (bytes * Z)) (inst_id : bytes) (meta : HealthMeta) : list bytes :=
  [TXT_SERVICES ++ svc_str services; TXT_ID ++ inst_id; TXT_VERSION ++ Health.version meta;
   TXT_API_PORT ++ show_u16 (api_port meta)]
  ++ (if dot_enabled meta
      then [TXT_PROTO ++ str "dot"; TXT_DOT_PORT ++ show_u16 (dot_port meta)]
      else [TXT_PROTO ++ str "plain"])
  ++ match ca_fingerprint_sha256 meta with Some fp => [TXT_CA_FP ++ fp] | None => [] end.

Definition announcement_header : DnsHeader :=
  MkHeader 0 false false true 0 true NOERROR false false false false 0 4 0 0.

Definition write_announcement (hostname : bytes) (ip : Ipv4Addr) (services : list (bytes * Z))
    (inst_id : bytes) (meta : HealthMeta) : M unit :=
  let instance_name := hostname ++ str "._numa._tcp.local" in
  let host_local := hostname ++ str ".local" in
  let! _ := Header.write announcement_header in
  let! _ := write_record_header SERVICE_TYPE (to_num QueryType.PTR) 1 MDNS_TTL in
  let! _ := patched (write_qname instance_name) in
  let! _ := write_record_header instance_name (to_num QueryType.SRV) 0x8001 MDNS_TTL in
  let! _ := patched (
    let! _ := write_u16 0 in
    let! _ := write_u16 0 in
    let! _ := write_u16 (api_port meta) in
    write_qname host_local) in
  let! _ := write_record_header instance_name (to_num QueryType.TXT) 0x8001 MDNS_TTL in
  let! _ := patched (write_all write_txt_string (txt_strings services inst_id meta)) in
  let! _ := write_record_header host_local (to_num QueryType.A) 0x8001 MDNS_TTL in
  let! _ := write_u16 4 in
  write_all write_u8 (octets ip).
(** The datagram, [filled] of the buffer returned. *)
Definition build_announcement (hostname : bytes) (ip : Ipv4Addr) (services : list (bytes * Z))
    (inst_id : bytes) (meta : HealthMeta) : outcome bytes :=
  match write_announcement hostname ip services inst_id meta Buffer.new with
  | (Ok _, b) => filled b
  | (Err e, _) => Err e
  | (Panic, _) => Panic
  | (OutOfFuel, _) => OutOfFuel
  end.

(** * Parsing *)

(** [str::from_utf8] succeeds: the well-formed sequences of the Unicode standard. *)
Definition cont (b : Z) : bool := (0x80 <=? b) && (b <=? 0xBF).
Fixpoint is_utf8 (s : bytes) : bool :=
  match s with
  | [] => true
  | a :: s1 =>
      if a <? 0x80 then is_utf8 s1
      else match s1 with
      | [] => false
      | b :: s2 =>
          if (0xC2 <=? a) && (a <=? 0xDF) then cont b && is_utf8 s2
          else match s2 with
          | [] => false
          | c :: s3 =>
              if (0xE0 <=? a) && (a <=? 0xEF)
              then cont b && (negb (a =? 0xE0) || (0xA0 <=? b)) && (negb (a =? 0xED) || (b <=? 0x9F))
                   && cont c && is_utf8 s3
              else match s3 with
              | [] => false
              | d :: s4 =>
                  (0xF0 <=? a) && (a <=? 0xF4)
                  && cont b && (negb (a =? 0xF0) || (0x90 <=? b)) && (negb (a =? 0xF4) || (b <=? 0x8F))
                  && cont c && cont d && is_utf8 s4
              end
          end
      end
  end.

Record MdnsAnnouncement := MkAnnouncement {
  services : list (bytes * Z); peer_ip : IpAddr; instance_id : option bytes
}.
(** The local variables of the loop over records. *)
Record Found := MkFound {
  txt_services : option (list (bytes * Z)); peer_instance_id : option bytes; a_ip : option IpAddr
}.

(** [s.splitn(2, ':')], a name and a port. *)
Definition parse_service (s : bytes) : option (bytes * Z) :=
  p ← after 58 s;
  port ← parse_uint 65535 p;
  Some (before 58 s, port).
(** The body of [if let Ok(txt)]. *)
Definition txt_entry (txt : bytes) (f : Found) : Found :=
  match strip_prefix TXT_SERVICES txt with
  | Some val =>
      match omap parse_service (split_on 44 val) with
      | [] => f
      | svcs => {| txt_services := Some svcs; peer_instance_id := peer_instance_id f; a_ip := a_ip f |}
      end
  | None =>
      match strip_prefix TXT_ID txt with
      | Some id => {| txt_services := txt_services f; peer_instance_id := Some id; a_ip := a_ip f |}
      | None => f
      end
  end.
(** The loop over the strings of a TXT record. *)
Fixpoint txt_loop (fuel : nat) (data : bytes) (stop pos : Z) (f : Found) : outcome Found :=
  match fuel with
  | O => OutOfFuel
  | S fuel =>
      if (pos <? stop) && (pos <? len data) then
        match index data pos with
        | None => Panic
        | Some txt_len =>
            let pos := pos + 1 in
            if len data <? pos + txt_len then Ok f
            else match slice data pos (pos + txt_len) with
                 | None => Panic
                 | Some txt =>
                     txt_loop fuel data stop (pos + txt_len) (if is_utf8 txt then txt_entry txt f else f)
                 end
        end
      else Ok f
  end.
Definition a_record (data : bytes) (rdata_start : Z) (f : Found) : outcome Found :=
  match index data rdata_start, index data (rdata_start + 1),
        index data (rdata_start + 2), index data (rdata_start + 3) with
  | Some a, Some b, Some c, Some d =>
      Ok {| txt_services := txt_services f; peer_instance_id := peer_instance_id f;
            a_ip := Some (V4 (Ipv4 a b c d)) |}
  | _, _, _, _ => Panic
  end.
(** The [match] on the type of a record. *)
Definition record_data (data name : bytes) (rtype rdata_start rdlength : Z) (f : Found) : outcome Found :=
  if (rtype =? to_num QueryType.TXT) && contains_text (str "_numa._tcp") name
  then txt_loop (S (length data)) data (rdata_start + rdlength) rdata_start f
  else if (rtype =? to_num QueryType.A) && (rdlength =? 4) && (rdata_start + 4 <=? len data)
  then a_record data rdata_start f
  else Ok f.

(** [m.ok()] and [m.unwrap_or(0)]. *)
Definition attempt {A} (m : M A) : M (option A) := λ b,
  match m b with
  | (Ok a, b) => (Ok (Some a), b)
  | (Err _, b) => (Ok None, b)
  | (Panic, b) => (Panic, b)
  | (OutOfFuel, b) => (OutOfFuel, b)
  end.
Definition or_zero (m : M Z) : M Z := let! o := attempt m in ret (default 0 o).

(** The name and the fixed fields of a record: its type, the length and the place of its data. *)
Definition record_head : M (option (bytes * Z * Z * Z)) :=
  let! o := attempt (read_qname []) in
  match o with
  | None => ret None
  | Some name =>
      let! rtype := or_zero read_u16 in
      let! _ := or_zero read_u16 in
      let! _ := or_zero read_u32 in
      let! rdlength := or_zero read_u16 in
      let! rdata_start := get_pos in
      ret (Some (name, rtype, rdlength, rdata_start))
  end.
Fixpoint records_loop (total : nat) (data : bytes) (f : Found) : M Found :=
  match total with
  | O => ret f
  | S total =>
      let! p := get_pos in
      if len data <=? p then ret f
      else
        let! o := record_head in
        match o with
        | None => ret f
        | Some (name, rtype, rdlength, rdata_start) =>
            let! f := lift (record_data data name rtype rdata_start rdlength f) in
            let! _ := seek (rdata_start + rdlength) in
            records_loop total data f
        end
  end.
Fixpoint skip_questions (n : nat) : M unit :=
  match n with
  | O => ret tt
  | S n => let! _ := Question.read {| name := []; qtype := QueryType.UNKNOWN 0 |} in skip_questions n
  end.

(** What the [Option]s of the function come to; [Err] stands for an early [None]. The counts
    are added at their width. *)
Definition parse_records (data : bytes) : M (option MdnsAnnouncement) :=
  let! header := Header.read in
  if negb (Header.response header) || (Header.answers header =? 0) then ret None
  else
    let! _ := skip_questions (Z.to_nat (Header.questions header)) in
    let total := as_u16 (Header.answers header + authoritative_entries header + resource_entries header) in
    let! f := records_loop (Z.to_nat total) data (MkFound None None None) in
    ret (services ← txt_services f;
         peer_ip ← a_ip f;
         Some {| services := services; peer_ip := peer_ip; instance_id := peer_instance_id f |}).
Definition parse_mdns_response (data : bytes) : outcome (option MdnsAnnouncement) :=
  if len data <? 12 then Ok None
  else if BUF_SIZE <? len data then Panic
  else match parse_records data (from_bytes data) with
       | (Ok o, _) => Ok o
       | (Err _, _) => Ok None
       | (Panic, _) => Panic
       | (OutOfFuel, _) => OutOfFuel
       end.

(** * The loops of [start_lan_discovery] *)

Section discovery.
Context `{Lowercase} `{NetLib} `{TlsLib}.

(** What a tick of the sender puts on the network. *)
Definition announce (hostname our_instance_id : bytes) (a : Api) : outcome bytes :=
  build_announcement hostname (lan_ip (ctx a))
    (map (λ e, (Services.name e, target_port e)) (service_list (Local.services (ctx a))))
    our_instance_id (health_meta (settings a)).

(** What the receiver does with a datagram. *)
Definition receive (now : Z) (our_instance_id data : bytes) (a : Api) : outcome Api :=
  match parse_mdns_response data with
  | Ok (Some ann) =>
      if bool_decide (instance_id ann = Some our_instance_id) then Ok a
      else if bool_decide (services ann = []) then Ok a
      else
        let '(changed, lan) := peer_update now (peer_ip ann) (services ann) (lan_peers (ctx a)) in
        let a := with_ctx (set_lan_peers lan (ctx a)) a in
        Ok (if changed then regenerate_tls now a else a)
  | Ok None => Ok a
  | Err e => Err e
  | Panic => Panic
  | OutOfFuel => OutOfFuel
  end.
End discovery.

(** * What is written *)

Definition txt_wire (s : bytes) : bytes := flat_map (λ c, as_u8 (len c) :: c) (chunks 255 s).
Definition rr_wire (name : bytes) (rtype class : Z) (body : option bytes) : option bytes :=
  name_wire name ⊕ Some (be16 rtype) ⊕ Some (be16 class) ⊕ Some (be32 MDNS_TTL) ⊕ prefixed body.
Definition announcement_wire (hostname : bytes) (ip : Ipv4Addr) (services : list (bytes * Z))
    (inst_id : bytes) (meta : HealthMeta) : option bytes :=
  let instance_name := hostname ++ str "._numa._tcp.local" in
  let host_local := hostname ++ str ".local" in
  Some (header_wire announcement_header)
  ⊕ rr_wire SERVICE_TYPE 12 1 (name_wire instance_name)
  ⊕ rr_wire instance_name 33 0x8001
      (Some (be16 0) ⊕ Some (be16 0) ⊕ Some (be16 (api_port meta)) ⊕ name_wire host_local)
  ⊕ rr_wire instance_name 16 0x8001 (Some (flat_map txt_wire (txt_strings services inst_id meta)))
  ⊕ rr_wire host_local 1 0x8001 (Some (octets ip)).

Lemma patched_rdlength (body : M unit) b : in_bounds b → patched body b = with_rdlength body b.
Proof.
  intros Hb. unfold patched, with_rdlength, patch_rdlen, bind, get_pos.
  destruct (appends_write_u16 0 b Hb) as [Hok Hfull]. change (len (be16 0)) with 2 in *.
  destruct (Z.le_gt_cases (pos b + 2) BUF_SIZE) as [Hf|Hf].
  - rewrite (Hok Hf). cbn [push pos]. change (len (be16 0)) with 2. reflexivity.
  - destruct (Hfull ltac:(lia)) as (b' & -> & _). reflexivity.
Qed.
Lemma emits_patched (body : M unit) o : emits body o → emits (patched body) (prefixed o).
Proof.
  intros Hb. pose proof (emits_with_rdlength body o Hb) as He. destruct o as [w|]; cbn in He |- *.
  - destruct He as [a He]. exists a. intros b Hin. rewrite patched_rdlength by done. by apply He.
  - intros b Hin. rewrite patched_rdlength by done. by apply He.
Qed.
Lemma emits_all_u8 l : emits (write_all write_u8 l) (Some l).
Proof.
  assert (Hl : cat_all (λ v, Some [v]) l = Some l) by (induction l as [|x l IH]; cbn; by rewrite ?IH).
  rewrite <- Hl. apply emits_write_all. intros x. apply emits_u8.
Qed.
#[local] Hint Resolve emits_patched emits_all_u8 : numa.
Lemma emits_txt_string s : emits (write_txt_string s) (Some (txt_wire s)).
Proof.
  unfold write_txt_string, txt_wire.
  assert (Hl : ∀ l, cat_all (λ c, Some (as_u8 (len c) :: c)) l =
    Some (flat_map (λ c : bytes, as_u8 (len c) :: c) l)) by (induction l as [|x l IH]; cbn; by rewrite ?IH).
  rewrite <- Hl. apply emits_write_all. intros c.
  apply (emits_bind_eq _ _ (Some [as_u8 (len c)]) (Some c)); [apply emits_u8|intros; apply emits_all_u8|done].
Qed.
Lemma emits_txt_strings l : emits (write_all write_txt_string l) (Some (flat_map txt_wire l)).
Proof.
  assert (Hl : cat_all (λ s, Some (txt_wire s)) l = Some (flat_map txt_wire l))
    by (induction l as [|x l IH]; cbn; by rewrite ?IH).
  rewrite <- Hl. apply emits_write_all, emits_txt_string.
Qed.
Lemma emits_record_header n ty c : emits (write_record_header n ty c MDNS_TTL)
  (name_wire n ⊕ Some (be16 ty) ⊕ Some (be16 c) ⊕ Some (be32 MDNS_TTL)).
Proof. unfold write_record_header. emits. Qed.
Lemma emits_header_write h : emits (Header.write h) (Some (header_wire h)).
Proof. eapply emits_appends, appends_header_write. Qed.
#[local] Hint Resolve emits_txt_strings emits_record_header emits_header_write : numa.

Lemma rr_wire_split n ty c body o :
  (name_wire n ⊕ Some (be16 ty) ⊕ Some (be16 c) ⊕ Some (be32 MDNS_TTL)) ⊕ prefixed body ⊕ o =
  rr_wire n ty c body ⊕ o.
Proof. unfold rr_wire. by rewrite !cat_assoc. Qed.
Lemma emits_announcement hostname ip services inst_id meta :
  emits (write_announcement hostname ip services inst_id meta)
    (announcement_wire hostname ip services inst_id meta).
Proof.
  unfold write_announcement, announcement_wire.
  eapply emits_bind_eq; [emits|intros ?|reflexivity]. rewrite <- !rr_wire_split.
  do 6 (eapply emits_bind_eq; [first [solve [eauto with numa]|apply emits_patched; emits]|intros ?|reflexivity]).
  eapply emits_bind_eq; [emits|intros ?; eapply emits_bind; [emits|intros ?; emits]|].
  unfold rr_wire. rewrite !cat_assoc. do 4 f_equal. by destruct ip.
Qed.

(** A writer on a new buffer: the image, if it fits. *)
Lemma filled_new (m : M unit) o : emits m o →
  match m Buffer.new with
  | (Ok _, b) => ∃ w, o = Some w ∧ len w ≤ BUF_SIZE ∧ filled b = Ok w
  | (Err _, _) => match o with Some w => BUF_SIZE < len w | None => True end
  | _ => False
  end.
Proof.
  intros He. destruct o as [w|].
  - apply emits_unit in He. destruct (He _ new_in_bounds) as [Hok Hfull].
    change (pos Buffer.new) with 0 in *. destruct (Z.le_gt_cases (len w) BUF_SIZE) as [Hl|Hl].
    + rewrite Hok by lia. exists w. do 2 (split; [done|]). unfold filled. rewrite slice_Some.
      * cbn [push pos buf]. change (pos Buffer.new) with 0.
        rewrite Z.add_0_l, Z.sub_0_r, to_nat_len. change (Z.to_nat 0) with 0%nat.
        rewrite drop_0, take_0, app_nil_l. by rewrite take_app_length.
      * lia.
      * cbn. pose proof (len_nonneg w). lia.
      * pose proof (len_push w _ new_in_bounds). change (pos Buffer.new) with 0 in *.
        cbn [pos push] in *. rewrite H; change (pos Buffer.new) with 0; lia.
    + destruct (Hfull ltac:(lia)) as (b & -> & _). lia.
  - destruct (He _ new_in_bounds) as (e & b & ->). done.
Qed.
Lemma build_announcement_image hostname ip services inst_id meta :
  match build_announcement hostname ip services inst_id meta with
  | Ok w => announcement_wire hostname ip services inst_id meta = Some w ∧ len w ≤ BUF_SIZE
  | Err _ => match announcement_wire hostname ip services inst_id meta with
             | Some w => BUF_SIZE < len w
             | None => True
             end
  | _ => False
  end.
Proof.
  unfold build_announcement.
  pose proof (filled_new _ _ (emits_announcement hostname ip services inst_id meta)) as Hf.
  destruct (write_announcement _ _ _ _ _ _) as [[a|e| |] b]; try done.
  destruct Hf as (w & -> & Hl & ->). by split.
Qed.

(** * What is read *)

Lemma show_digits_digits fuel : ∀ n, 0 ≤ n → Forall (λ c, 48 ≤ c ≤ 57) (show_digits fuel n).
Proof.
  induction fuel as [|fuel IH]; intros n Hn; [constructor|]. cbn [show_digits].
  apply Forall_app. split; [|apply Forall_singleton; div_lia].
  destruct (n <? 10); [constructor|]. apply IH. div_lia.
Qed.
Lemma parse_digits_app limit a b : ∀ acc v, parse_digits limit acc a = Some v →
  parse_digits limit acc (a ++ b) = parse_digits limit v b.
Proof.
  induction a as [|c a IH]; intros acc v; cbn [parse_digits app]; [by intros [= ->]|].
  destruct (is_ascii_digit c); [|done]. destruct (limit <? _); [done|]. apply IH.
Qed.
Lemma parse_show_digits limit fuel : ∀ n, 0 ≤ n ≤ limit → n < 10 ^ Z.of_nat fuel →
  parse_digits limit 0 (show_digits fuel n) = Some n.
Proof.
  induction fuel as [|fuel IH]; intros n Hn Hf; [cbn in *; f_equal; lia|]. cbn [show_digits].
  rewrite Nat2Z.inj_succ, Z.pow_succ_r in Hf by lia.
  assert (Hd : is_ascii_digit (48 + n mod 10) = true).
  { unfold is_ascii_digit. apply andb_true_iff. rewrite !Z.leb_le. div_lia. }
  assert (Hlast : ∀ q, 0 ≤ q → q * 10 + n mod 10 = n →
    parse_digits limit q [48 + n mod 10] = Some n).
  { intros q Hq Heq. cbn [parse_digits]. rewrite Hd. cbv zeta.
    replace (q * 10 + (48 + n mod 10 - 48)) with n by lia. by destruct (Z.ltb_spec limit n); [lia|]. }
  destruct (Z.ltb_spec n 10).
  - apply Hlast; [lia|]. rewrite Z.mod_small; lia.
  - erewrite parse_digits_app; [apply (Hlast (n / 10)); div_lia|]. apply IH; div_lia.
Qed.
Lemma parse_show_u16 n : is_u16 n → parse_uint 65535 (show_u16 n) = Some n.
Proof.
  unfold is_u16. intros Hn. pose proof (parse_show_digits 65535 5 n ltac:(lia) ltac:(cbn; lia)) as Hp.
  pose proof (show_digits_digits 5 n ltac:(lia)) as Hd. unfold show_u16. unfold parse_uint.
  destruct (show_digits 5 n) as [|c l] eqn:E; [|].
  - cbn [show_digits] in E. by apply app_eq_nil in E as [_ ?].
  - apply Forall_cons in Hd as [Hc _]. destruct (Z.eq_dec c 43); [lia|]. by repeat case_match.
Qed.

(** A service whose announcement can be told apart from the rest of the text. *)
Definition announceable (svc : bytes * Z) : Prop :=
  ascii_name (fst svc) ∧ 44 ∉ fst svc ∧ 58 ∉ fst svc ∧ is_u16 (snd svc).
#[export] Instance announceable_dec svc : Decision (announceable svc).
Proof. unfold announceable, ascii_name, is_u16. apply _. Defined.

Lemma show_u16_free c n : is_u16 n → ¬ 48 ≤ c ≤ 57 → c ∉ show_u16 n.
Proof.
  intros [Hn _] Hc Hin. pose proof (show_digits_digits 5 n Hn) as Hd. rewrite Forall_forall in Hd.
  by apply Hc, Hd.
Qed.
Lemma parse_shown_service name port : announceable (name, port) →
  parse_service (name ++ 58 :: show_u16 port) = Some (name, port).
Proof.
  intros (_ & _ & Hc & Hp). cbn in Hc, Hp. unfold parse_service.
  rewrite after_free, before_free by done. cbn [mbind option_bind]. by rewrite parse_show_u16.
Qed.
Lemma services_read_back services : services ≠ [] → Forall announceable services →
  omap parse_service (split_on 44 (svc_str services)) = services.
Proof.
  intros Hne Hs. unfold svc_str. rewrite split_on_join.
  - clear Hne. induction Hs as [|[n p] l Hx Hl IH]; [done|]. cbn [map omap list_omap].
    rewrite parse_shown_service by done. f_equal. exact IH.
  - by destruct services.
  - apply Forall_map. eapply Forall_impl; [exact Hs|]. intros [n p] (_ & Hn & _ & Hp) Hin. cbn in *.
    apply elem_of_app in Hin as [Hin|Hin]; [done|]. apply elem_of_cons in Hin as [Hin|Hin]; [done|].
    eapply show_u16_free; [exact Hp| |exact Hin]. lia.
Qed.
Lemma is_utf8_ascii s : Forall (λ c, 0 ≤ c < 128) s → is_utf8 s = true.
Proof.
  induction 1 as [|c s Hc Hs IH]; [done|]. cbn [is_utf8].
  destruct (Z.ltb_spec c 0x80); [done|lia].
Qed.
Lemma svc_str_ascii services : Forall announceable services → ascii_name (svc_str services).
Proof.
  intros Hs. unfold svc_str, ascii_name. induction Hs as [|[n p] l (Ha & _ & _ & Hp) Hl IH]; [constructor|].
  cbn in Ha, Hp. assert (Hx : Forall (λ b, 0 ≤ b < 128) (n ++ 58 :: show_u16 p)).
  { apply Forall_app. split; [exact Ha|]. apply Forall_cons. split; [lia|].
    eapply Forall_impl; [apply show_digits_digits; apply Hp|]. cbn. lia. }
  cbn [map]. destruct l; [exact Hx|]. cbn [map join app]. apply Forall_app. split; [exact Hx|].
  apply Forall_cons. split; [lia|]. exact IH.
Qed.

(** Names of one plain label and a fixed rest. *)
Definition plain_char (c : Z) : Prop := 33 ≤ c ≤ 126 ∧ c ≠ 46 ∧ c ≠ 92.
Definition plain_host (h : bytes) : Prop := label_ok h ∧ Forall plain_char h.
#[export] Instance plain_host_dec h : Decision (plain_host h).
Proof. unfold plain_host, plain_char. apply _. Defined.

Lemma tokens_plain_name l s : Forall plain_char l → tokens (l ++ s) = (λ ts, map Some l ++ ts) <$> tokens s.
Proof.
  induction 1 as [|c l (Hc & Hd & Hb) Hl IH]; [cbn [map app]; by destruct (tokens s)|]. cbn [app].
  rewrite tokens_unfold. unfold lex. rewrite (proj2 (Z.eqb_neq c 46) Hd), (proj2 (Z.eqb_neq c 92) Hb), IH.
  by destruct (tokens s).
Qed.
Lemma plain_labels h s ls : plain_host h → tokens s = Some (flat_map (λ l, None :: map Some l) ls) →
  Forall (λ l, l ≠ [] ∧ short_label l) ls → name_labels (h ++ s) = Some (h :: ls).
Proof.
  intros [Hok Hp] Hs Hls. unfold name_labels. rewrite tokens_plain_name, Hs by done. cbn [fmap option_fmap option_map mbind option_bind].
  rewrite labels_of_bytes. cbn [app]. rewrite labels_of_flat by (eapply Forall_impl; [exact Hls|by intros ? []]).
  apply label_ok_short in Hok as [Hne Hsh]. replace (flush h) with [h] by (by destruct h). cbn [app].
  rewrite decide_True; [done|]. apply Forall_cons. split; [done|].
  eapply Forall_impl; [exact Hls|by intros ? []].
Qed.
Lemma instance_labels h : plain_host h →
  name_labels (h ++ str "._numa._tcp.local") = Some [h; str "_numa"; str "_tcp"; str "local"].
Proof.
  intros Hh. apply plain_labels; [done|vm_compute; reflexivity|].
  apply (bool_decide_unpack _). vm_compute. exact I.
Qed.
Lemma host_labels h : plain_host h → name_labels (h ++ str ".local") = Some [h; str "local"].
Proof.
  intros Hh. apply plain_labels; [done|vm_compute; reflexivity|].
  apply (bool_decide_unpack _). vm_compute. exact I.
Qed.
Lemma instance_contains h : plain_host h →
  contains_text (str "_numa._tcp") (canon_name (h ++ str "._numa._tcp.local")) = true.
Proof.
  intros Hh. apply contains_text_spec. unfold canon_name. rewrite instance_labels by done. cbn [name_text].
  exists (escape_label h ++ [46]), (str ".local"). rewrite <- !app_assoc. reflexivity.
Qed.

(** ** The loop over records *)

Lemma reads_attempt {A} (m : M A) w a : reads m w a → reads (attempt m) w (Some a).
Proof. intros Hm b post Hb Hr. unfold attempt. by rewrite (Hm b post Hb Hr). Qed.
Lemma reads_or_zero m w a : reads m w a → reads (or_zero m) w a.
Proof. intros Hm. unfold or_zero. eapply reads_end; [by apply reads_attempt|done]. Qed.
Lemma reads_at_seek p w : reads_at p (seek (p + len w)) w tt.
Proof. intros b post Hb <- Hr. reflexivity. Qed.

Lemma rr_wire_Some n ty c body w : rr_wire n ty c (Some body) = Some w ↔ ∃ nw, name_wire n = Some nw ∧
  w = nw ++ be16 ty ++ be16 c ++ be32 MDNS_TTL ++ be16 (as_u16 (len body)) ++ body.
Proof.
  unfold rr_wire. destruct (name_wire n) as [nw|]; cbn; [|naive_solver]. split.
  - intros [= <-]. by exists nw.
  - by intros (? & [= <-] & ->).
Qed.
Lemma record_head_reads p nm nw ty c n : name_wire nm = Some nw → is_u16 ty → is_u16 c → 0 ≤ n ≤ 65535 →
  reads_at p record_head (nw ++ be16 ty ++ be16 c ++ be32 MDNS_TTL ++ be16 (as_u16 n))
    (Some (canon_name nm, ty, n, p + len nw + 10)).
Proof.
  intros Hn Hty Hc Hb. unfold record_head. rewrite as_u16_small by (unfold is_u16; lia).
  eapply reads_at_bind; [apply reads_reads_at, reads_attempt; by apply reads_name|].
  eapply reads_at_bind; [apply reads_reads_at, reads_or_zero; by apply reads_u16|].
  eapply reads_at_bind; [apply reads_reads_at, reads_or_zero; by apply reads_u16|].
  eapply reads_at_bind; [apply reads_reads_at, reads_or_zero, reads_u32; by vm_compute|].
  eapply reads_at_bind_eq; [apply reads_reads_at, reads_or_zero, (reads_u16 n); unfold is_u16; lia| |by rewrite app_nil_r].
  rewrite !len_be16, len_be32. apply reads_at_get_pos.
  replace (p + len nw + 2 + 2 + 4 + 2) with (p + len nw + 10) by lia. apply reads_at_ret.
Qed.
Lemma records_step n data f f' p nm nw ty c body w r :
  name_wire nm = Some nw → is_u16 ty → is_u16 c → len body ≤ 65535 → p + len nw ≤ len data →
  record_data data (canon_name nm) ty (p + len nw + 10) (len body) f = Ok f' →
  reads_at (p + len nw + 10 + len body) (records_loop n data f') w r →
  reads_at p (records_loop (S n) data f)
    (nw ++ be16 ty ++ be16 c ++ be32 MDNS_TTL ++ be16 (as_u16 (len body)) ++ body ++ w) r.
Proof.
  intros Hn Hty Hc Hb Hp Hd Hk. cbn [records_loop]. apply reads_at_get_pos.
  assert (Hpos : 0 < len nw).
  { unfold name_wire in Hn. apply fmap_Some in Hn as (ls & _ & ->). apply wire_name_pos. }
  destruct (Z.leb_spec (len data) p); [lia|]. pose proof (len_nonneg body).
  replace (nw ++ be16 ty ++ be16 c ++ be32 MDNS_TTL ++ be16 (as_u16 (len body)) ++ body ++ w)
    with ((nw ++ be16 ty ++ be16 c ++ be32 MDNS_TTL ++ be16 (as_u16 (len body))) ++ body ++ w)
    by (by rewrite <- !app_assoc).
  assert (Hlen : len (nw ++ be16 ty ++ be16 c ++ be32 MDNS_TTL ++ be16 (as_u16 (len body))) = len nw + 10)
    by (rewrite !len_app, !len_be16, len_be32; lia).
  eapply reads_at_bind; [apply record_head_reads; [done..|lia]|]. cbv iota beta. rewrite Hd, Hlen.
  rewrite Z.add_assoc. intros b post Hin Hpb Hr. unfold lift, bind at 1.
  assert (Hs : reads_at (p + len nw + 10) (let! _ := seek (p + len nw + 10 + len body) in records_loop n data f')
    (body ++ w) r).
  { eapply reads_at_bind; [apply reads_at_seek|exact Hk]. }
  exact (Hs b post Hin Hpb Hr).
Qed.
Lemma records_step_at n data pre post f f' nm ty c body rr w r :
  data = pre ++ rr ++ post → rr_wire nm ty c (Some body) = Some rr → is_u16 ty → is_u16 c →
  len body ≤ 65535 →
  (∀ pre', data = pre' ++ body ++ post →
     record_data data (canon_name nm) ty (len pre') (len body) f = Ok f') →
  reads_at (len (pre ++ rr)) (records_loop n data f') w r →
  reads_at (len pre) (records_loop (S n) data f) (rr ++ w) r.
Proof.
  intros Hdata (nw & Hn & Hrr)%rr_wire_Some Hty Hc Hb Hd Hk. subst rr.
  pose proof (len_nonneg pre). pose proof (len_nonneg body). pose proof (len_nonneg post).
  assert (Hlen : len (nw ++ be16 ty ++ be16 c ++ be32 MDNS_TTL ++ be16 (as_u16 (len body))) = len nw + 10)
    by (rewrite !len_app, !len_be16, len_be32; lia).
  assert (Hl : len (pre ++ nw ++ be16 ty ++ be16 c ++ be32 MDNS_TTL ++ be16 (as_u16 (len body))) =
    len pre + len nw + 10) by (rewrite len_app, Hlen; lia).
  replace ((nw ++ be16 ty ++ be16 c ++ be32 MDNS_TTL ++ be16 (as_u16 (len body)) ++ body) ++ w)
    with (nw ++ be16 ty ++ be16 c ++ be32 MDNS_TTL ++ be16 (as_u16 (len body)) ++ body ++ w)
    by (by rewrite <- !app_assoc).
  eapply records_step; try done.
  - rewrite Hdata, !len_app, !len_be16, len_be32. lia.
  - rewrite <- Hl. apply Hd. rewrite Hdata, <- !app_assoc. done.
  - replace (len pre + len nw + 10 + len body)
      with (len (pre ++ nw ++ be16 ty ++ be16 c ++ be32 MDNS_TTL ++ be16 (as_u16 (len body)) ++ body));
      [exact Hk|]. rewrite !len_app, !len_be16, len_be32. lia.
Qed.

Lemma index_at {A} (pre : list A) x post : index (pre ++ x :: post) (len pre) = Some x.
Proof. apply (index_drop _ _ _ post); [apply len_nonneg|]. by rewrite to_nat_len, drop_app_length. Qed.
Lemma slice_at {A} (pre m post : list A) : slice (pre ++ m ++ post) (len pre) (len pre + len m) = Some m.
Proof.
  pose proof (len_nonneg pre). pose proof (len_nonneg m). pose proof (len_nonneg post).
  rewrite slice_Some by (rewrite ?len_app; lia).
  replace (len pre + len m - len pre) with (len m) by lia.
  by rewrite !to_nat_len, drop_app_length, take_app_length.
Qed.

Definition txt_step (f : Found) (s : bytes) : Found := if is_utf8 s then txt_entry s f else f.
Lemma txt_loop_strings strs : ∀ fuel pre post f,
  (length strs < fuel)%nat →
  txt_loop fuel (pre ++ flat_map (λ s, len s :: s) strs ++ post)
    (len pre + len (flat_map (λ s, len s :: s) strs)) (len pre) f = Ok (fold_left txt_step strs f).
Proof.
  induction strs as [|s strs IH]; intros fuel pre post f Hf; (destruct fuel as [|fuel]; [lia|]); cbn [txt_loop flat_map].
  - rewrite len_nil. destruct (Z.ltb_spec (len pre) (len pre + 0)); [lia|done].
  - cbn in Hf. set (F := flat_map (λ s : bytes, len s :: s) strs).
    pose proof (len_nonneg pre). pose proof (len_nonneg s). pose proof (len_nonneg post). pose proof (len_nonneg F).
    rewrite (proj2 (Z.ltb_lt _ _)) by len_lia. rewrite (proj2 (Z.ltb_lt _ _)) by len_lia.
    cbn [andb app]. rewrite index_at. rewrite (proj2 (Z.ltb_ge _ _)) by len_lia.
    replace (pre ++ len s :: (s ++ F) ++ post) with ((pre ++ [len s]) ++ s ++ F ++ post)
      by (rewrite <- !app_assoc; done).
    replace (len pre + 1) with (len (pre ++ [len s])) by (rewrite len_app; done).
    rewrite slice_at. rewrite app_assoc.
    replace (len (pre ++ [len s]) + len s) with (len ((pre ++ [len s]) ++ s)) by len_lia.
    replace (len pre + len (len s :: s ++ F)) with (len ((pre ++ [len s]) ++ s) + len F) by len_lia.
    unfold F. rewrite IH by lia. done.
Qed.

Lemma txt_wire_short s : 1 ≤ len s ≤ 255 → txt_wire s = len s :: s.
Proof.
  intros Hs. unfold txt_wire, chunks. destruct s as [|c s]; [rewrite len_nil in Hs; lia|].
  cbn [length chunks_go]. rewrite take_ge, drop_ge by (unfold len in Hs; cbn in *; lia).
  destruct (length s); cbn [chunks_go flat_map app]; by rewrite app_nil_r, as_u8_small by (unfold is_byte; lia).
Qed.
Lemma txt_wires_short l : Forall (λ s, 1 ≤ len s ≤ 255) l →
  flat_map txt_wire l = flat_map (λ s, len s :: s) l.
Proof. induction 1 as [|s l Hs Hl IH]; [done|]. cbn [flat_map]. by rewrite txt_wire_short, IH. Qed.

Lemma txt_strings_read services id meta f : services ≠ [] → Forall announceable services → ascii_name id →
  fold_left txt_step (txt_strings services id meta) f =
  {| txt_services := Some services; peer_instance_id := Some id; a_ip := a_ip f |}.
Proof.
  intros Hne Hs Hid.
  change (txt_strings services id meta) with ([TXT_SERVICES ++ svc_str services; TXT_ID ++ id] ++
    drop 2 (txt_strings services id meta)). rewrite fold_left_app.
  assert (Hrest : ∀ l f, Forall (λ s, ∀ f, txt_entry s f = f) l → fold_left txt_step l f = f).
  { intros l. induction l as [|s l IH]; intros f' Hl; [done|]. apply Forall_cons in Hl as [Hx Hl]. cbn [fold_left].
    rewrite IH by done. unfold txt_step. by destruct (is_utf8 s). }
  rewrite Hrest.
  - cbn [fold_left]. assert (U1 : is_utf8 (TXT_SERVICES ++ svc_str services) = true).
    { apply is_utf8_ascii, Forall_app. split; [apply (bool_decide_unpack _); vm_compute; exact I|by apply svc_str_ascii]. }
    assert (U2 : is_utf8 (TXT_ID ++ id) = true).
    { apply is_utf8_ascii, Forall_app. split; [apply (bool_decide_unpack _); vm_compute; exact I|exact Hid]. }
    unfold txt_step. rewrite U1, U2. unfold txt_entry.
    rewrite (proj2 (strip_prefix_spec TXT_SERVICES _ _) eq_refl), services_read_back by done.
    change (strip_prefix TXT_SERVICES (TXT_ID ++ id)) with (@None bytes).
    rewrite (proj2 (strip_prefix_spec TXT_ID _ _) eq_refl). by destruct services.
  - unfold txt_strings. cbn [app drop]. destruct (dot_enabled meta), (ca_fingerprint_sha256 meta); repeat (constructor; [intros ?; reflexivity|]); constructor.
Qed.

(** * What is announced is heard *)

(** An announcement none of whose strings is cut. *)
Definition strings_fit (services : list (bytes * Z)) (inst_id : bytes) (meta : HealthMeta) : Prop :=
  Forall (λ s : bytes, len s ≤ 255) (txt_strings services inst_id meta).
#[export] Instance strings_fit_dec services inst_id meta : Decision (strings_fit services inst_id meta).
Proof. unfold strings_fit. apply _. Defined.

Lemma txt_strings_nonempty services inst_id meta : Forall (λ s : bytes, 1 ≤ len s) (txt_strings services inst_id meta).
Proof.
  assert (Hp : ∀ p s : bytes, p ≠ [] → 1 ≤ len (p ++ s)).
  { intros p s Hp. destruct p as [|c p]; [done|]. rewrite len_app, len_cons. pose proof (len_nonneg p).
    pose proof (len_nonneg s). lia. }
  unfold txt_strings. destruct (dot_enabled meta), (ca_fingerprint_sha256 meta);
    repeat (apply Forall_cons; split; [by apply Hp|]); constructor.
Qed.

Lemma quiet_record data name ty start n f : ty ≠ 16 → ty ≠ 1 → record_data data name ty start n f = Ok f.
Proof.
  intros Ht Ha. unfold record_data. change (to_num QueryType.TXT) with 16. change (to_num QueryType.A) with 1. by rewrite (proj2 (Z.eqb_neq ty _) Ht), (proj2 (Z.eqb_neq ty _) Ha).
Qed.
Lemma txt_record pre body post h services id meta f :
  plain_host h → services ≠ [] → Forall announceable services → ascii_name id → strings_fit services id meta →
  body = flat_map txt_wire (txt_strings services id meta) →
  record_data (pre ++ body ++ post) (canon_name (h ++ str "._numa._tcp.local")) 16 (len pre) (len body) f =
  Ok {| txt_services := Some services; peer_instance_id := Some id; a_ip := a_ip f |}.
Proof.
  intros Hh Hne Hs Hid Hfit ->.
  assert (Htxt : Forall (λ s : bytes, 1 ≤ len s ≤ 255) (txt_strings services id meta)).
  { apply Forall_and. split; [apply txt_strings_nonempty|exact Hfit]. }
  unfold record_data. rewrite instance_contains by done. cbn [Z.eqb to_num Pos.eqb andb].
  rewrite txt_wires_short by done. rewrite txt_loop_strings.
  - by rewrite txt_strings_read.
  - rewrite !length_app. assert (Hl : ∀ l : list bytes, (length l ≤ length (flat_map (λ s, len s :: s) l))%nat)
      by (induction l as [|x l IH]; cbn; rewrite ?length_app; lia).
    specialize (Hl (txt_strings services id meta)). lia.
Qed.
Lemma address_record pre post name ip f : record_data (pre ++ octets ip ++ post) name 1 (len pre) 4 f =
  Ok {| txt_services := txt_services f; peer_instance_id := peer_instance_id f; a_ip := Some (V4 ip) |}.
Proof.
  destruct ip as [a b c d]. unfold record_data. cbn [Z.eqb to_num Pos.eqb andb octets].
  rewrite (proj2 (Z.leb_le _ _)) by (pose proof (len_nonneg pre); pose proof (len_nonneg post); len_lia).
  unfold a_record. cbn [app].
  assert (Hi : ∀ i x l l', len pre + i = len (pre ++ l) → index (pre ++ l ++ x :: l') (len pre + i) = Some x).
  { intros i x l l' ->. rewrite app_assoc. apply index_at. }
  pose proof (Hi 1 b [a] (c :: d :: post) ltac:(len_lia)) as I1.
  pose proof (Hi 2 c [a; b] (d :: post) ltac:(len_lia)) as I2.
  pose proof (Hi 3 d [a; b; c] post ltac:(len_lia)) as I3. cbn [app] in I1, I2, I3.
  by rewrite index_at, I1, I2, I3.
Qed.

Lemma parsed_announcement h ip services id meta data :
  plain_host h → services ≠ [] → Forall announceable services → ascii_name id → strings_fit services id meta →
  announcement_wire h ip services id meta = Some data → len data ≤ BUF_SIZE →
  reads_at 0 (parse_records data) data (Some {| services := services; peer_ip := V4 ip; instance_id := Some id |}).
Proof.
  intros Hh Hne Hs Hid Hfit Hw Hlen. revert Hw. unfold announcement_wire. cbv zeta.
  intros (hdr & w1 & Ehdr & (r1 & w2 & E1 & (r2 & w3 & E2 & (r3 & r4 & E3 & E4 & ->)%cat_Some & ->)%cat_Some & ->)%cat_Some & Hdata)%cat_Some.
  injection Ehdr as <-. unfold parse_records.
  pose proof (len_nonneg r1). pose proof (len_nonneg r2). pose proof (len_nonneg r3). pose proof (len_nonneg r4).
  assert (Hbody : ∀ n ty c b r, rr_wire n ty c (Some b) = Some r → len b ≤ len r).
  { intros n ty c b r (nw & _ & ->)%rr_wire_Some. pose proof (len_nonneg nw). len_lia. }
  eapply reads_at_bind_eq; [apply reads_reads_at, (reads_header announcement_header); apply (bool_decide_unpack _); vm_compute; exact I| |exact Hdata].
  change (negb (Header.response announcement_header) || (Header.answers announcement_header =? 0)) with false. cbn iota.
  change (skip_questions (Z.to_nat (Header.questions announcement_header))) with (ret tt).
  change (Z.to_nat (as_u16 _)) with 4%nat.
  eapply reads_at_bind_eq; [apply reads_at_ret| |reflexivity].
  eapply reads_at_end.
  - change (0 + len (header_wire announcement_header) + len []) with (len (header_wire announcement_header)).
    revert E1 E2. unfold name_wire. rewrite instance_labels, host_labels by done. cbn [fmap option_fmap option_map].
    intros E1 E2.
    assert (U : ∀ v, 0 ≤ v < 65536 → is_u16 v) by done.
    eapply (records_step_at _ _ _ (r2 ++ r3 ++ r4)); [exact Hdata|exact E1|by apply U|by apply U| | |].
    { apply Hbody in E1. rewrite Hdata in Hlen. unfold BUF_SIZE in Hlen. len_lia. }
    { intros pre' _. by apply quiet_record. }
    eapply (records_step_at _ _ _ (r3 ++ r4)); [by rewrite <- app_assoc|exact E2|by apply U|by apply U| | |].
    { apply Hbody in E2. rewrite Hdata in Hlen. unfold BUF_SIZE in Hlen. len_lia. }
    { intros pre' _. by apply quiet_record. }
    eapply (records_step_at _ _ _ r4); [by rewrite <- !app_assoc|exact E3|by apply U|by apply U| | |].
    { apply Hbody in E3. rewrite Hdata in Hlen. unfold BUF_SIZE in Hlen. len_lia. }
    { intros pre' ->. by eapply txt_record. }
    rewrite <- (app_nil_r r4).
    eapply (records_step_at _ _ _ []); [by rewrite app_nil_r, <- !app_assoc|exact E4|by apply U|by apply U| | |].
    { by destruct ip. }
    { intros pre' ->. destruct ip. apply (address_record pre' []). }
    apply reads_at_ret.
  - reflexivity.
Qed.

Lemma from_bytes_start d : len d ≤ BUF_SIZE → in_bounds (from_bytes d) ∧ pos (from_bytes d) = 0 ∧
  ∃ post, rest (from_bytes d) = d ++ post.
Proof.
  intros Hl. pose proof (len_nonneg d). assert (Hn : len (buf Buffer.new) = BUF_SIZE) by (by vm_compute).
  unfold from_bytes. rewrite Z.min_l by done. rewrite to_nat_len, firstn_all.
  split; [|split; [done|]].
  - split; [|by vm_compute]. split; [|by vm_compute]. cbn [buf]. rewrite len_app.
    unfold len in *. rewrite length_drop. lia.
  - exists (drop (length d) (buf Buffer.new)). reflexivity.
Qed.

(** An announcement is heard as it was meant. Whatever a server with a plain host name
    announces (services with ASCII names free of commas and colons, its instance and its
    address), as long as no string of the TXT record has to be cut: any server that receives
    the datagram reads back exactly these services, this address and this instance. *)
Theorem announcement_heard (host : bytes) (ip : Ipv4Addr) (services : list (bytes * Z))
    (id : bytes) (meta : HealthMeta) (w : bytes) :
  plain_host host → services ≠ [] → Forall announceable services → ascii_name id →
  strings_fit services id meta → build_announcement host ip services id meta = Ok w →
  parse_mdns_response w = Ok (Some {| services := services; peer_ip := V4 ip; instance_id := Some id |}).
Proof.
  intros Hh Hne Hs Hid Hfit Hb. pose proof (build_announcement_image host ip services id meta) as Hi.
  rewrite Hb in Hi. destruct Hi as [Hw Hl].
  pose proof (parsed_announcement host ip services id meta w Hh Hne Hs Hid Hfit Hw Hl) as Hr.
  assert (Hlong : 12 ≤ len w).
  { unfold announcement_wire in Hw. cbv zeta in Hw. apply cat_Some in Hw as (h & r & [= <-] & _ & ->).
    rewrite len_app, len_header_wire. pose proof (len_nonneg r). lia. }
  destruct (from_bytes_start w Hl) as (Hin & Hp & post & Hrest).
  unfold parse_mdns_response. rewrite (proj2 (Z.ltb_ge _ _)), (proj2 (Z.ltb_ge BUF_SIZE _)) by lia.
  by rewrite (Hr _ post Hin Hp Hrest).
Qed.

(** ** Any datagram *)

Lemma safe_attempt {A} (m : M A) (Q : A → Prop) : Buffer.safe m Q →
  Buffer.safe (attempt m) (λ o, match o with Some a => Q a | None => True end).
Proof.
  intros Hm b Hb. specialize (Hm b Hb). unfold attempt. by destruct (m b) as [[a|e| |] b'].
Qed.
Lemma safe_or_zero m : Buffer.safe m (λ v, 0 ≤ v) → Buffer.safe (or_zero m) (λ v, 0 ≤ v).
Proof.
  intros Hm. unfold or_zero. eapply safe_bind; [by apply safe_attempt|]. intros [v|] Hv; by apply safe_ret.
Qed.
Definition service_heard (svc : bytes * Z) : Prop := 0 ≤ snd svc ≤ 65535.
(** The address is IPv4, of four consecutive bytes of the datagram. *)
Definition address_heard (data : bytes) (ip : IpAddr) : Prop :=
  ∃ a b c d i, ip = V4 (Ipv4 a b c d) ∧ ipv4_ok (Ipv4 a b c d) ∧ index data i = Some a ∧
    index data (i + 1) = Some b ∧ index data (i + 2) = Some c ∧ index data (i + 3) = Some d.
Definition found_ok (data : bytes) (f : Found) : Prop :=
  match txt_services f with Some l => l ≠ [] ∧ Forall service_heard l | None => True end ∧
  match a_ip f with Some a => address_heard data a | None => True end.

Lemma txt_entry_ok data s f : found_ok data f → found_ok data (txt_entry s f).
Proof.
  intros [Hs Ha]. unfold txt_entry. destruct (strip_prefix TXT_SERVICES s) as [val|].
  - destruct (omap parse_service (split_on 44 val)) as [|x l] eqn:E; [by split|].
    split; [|exact Ha]. cbn. split; [done|]. rewrite <- E. apply Forall_forall. intros svc Hin.
    apply list_elem_of_omap in Hin as (t & _ & Ht). unfold parse_service in Ht.
    destruct (after 58 t) as [p|]; [|done]. cbn in Ht. destruct (parse_uint 65535 p) eqn:Ep; [|done].
    injection Ht as <-. by apply parse_uint_bound in Ep.
  - destruct (strip_prefix TXT_ID s); by split.
Qed.
Lemma txt_loop_returns data : all_bytes data → ∀ fuel stop pos f, 0 ≤ pos → found_ok data f →
  Z.max 0 (len data - pos) < Z.of_nat fuel → ∃ f', txt_loop fuel data stop pos f = Ok f' ∧ found_ok data f'.
Proof.
  intros Hd. induction fuel as [|fuel IH]; intros stop pos f Hp Hf Hfuel; cbn [txt_loop].
  - lia.
  - destruct (Z.ltb_spec pos stop), (Z.ltb_spec pos (len data)); cbn [andb]; try by exists f.
    destruct (index data pos) as [n|] eqn:En.
    2: { exfalso. destruct (index_is_Some data pos) as [v Hv]; [lia|congruence]. }
    assert (Hn : is_byte n).
    { rewrite index_lookup in En by lia. apply list_elem_of_lookup_2 in En. rewrite Forall_forall in Hd. by apply Hd. }
    unfold is_byte in Hn. destruct (Z.ltb_spec (len data) (pos + 1 + n)); [by exists f|].
    rewrite slice_Some by lia. apply IH; [lia| |lia].
    case_match; [by apply txt_entry_ok|done].
Qed.
Lemma record_data_returns data name ty start n f : all_bytes data → 0 ≤ start → 0 ≤ n → found_ok data f →
  ∃ f', record_data data name ty start n f = Ok f' ∧ found_ok data f'.
Proof.
  intros Hd Hs Hn Hf. unfold record_data. destruct (_ && contains_text _ _).
  - apply txt_loop_returns; [done..|]. unfold len. lia.
  - destruct (_ && _ && _) eqn:E; [|by exists f]. apply andb_true_iff in E as [_ Hle%Z.leb_le].
    assert (Hi : ∀ i, 0 ≤ i < 4 → ∃ v, index data (start + i) = Some v ∧ is_byte v).
    { intros i Hi. destruct (index_is_Some data (start + i)) as [v Hv]; [lia|]. exists v. split; [done|].
      rewrite index_lookup in Hv by lia. apply list_elem_of_lookup_2 in Hv. rewrite Forall_forall in Hd. by apply Hd. }
    unfold a_record. destruct (Hi 0) as (a & Ha & Hab); [lia|]. rewrite Z.add_0_r in Ha.
    destruct (Hi 1) as (b & Hb & Hbb), (Hi 2) as (c & Hc & Hcb), (Hi 3) as (d & Hd' & Hdb); try lia.
    rewrite Ha, Hb, Hc, Hd'. eexists. split; [reflexivity|]. destruct Hf as [Hf _]. split; [exact Hf|].
    cbn. exists a, b, c, d, start. unfold ipv4_ok. cbn [Net.octets].
    split; [done|]. split; [rewrite !Forall_cons, Forall_nil; by split_and!|done].
Qed.
Lemma safe_record_head : Buffer.safe record_head
  (λ o, match o with Some (_, ty, n, start) => 0 ≤ n ∧ 0 ≤ start | None => True end).
Proof.
  assert (U16 : Buffer.safe read_u16 (λ v, 0 ≤ v)) by (eapply safe_mono; [apply safe_read_u16|]; by intros ? []).
  assert (U32 : Buffer.safe read_u32 (λ v, 0 ≤ v)) by (eapply safe_mono; [apply safe_read_u32|]; by intros ? []).
  unfold record_head. eapply safe_bind; [apply safe_attempt, safe_read_qname|]. intros [name|] _; [|by apply safe_ret].
  do 4 (eapply safe_bind; [by apply safe_or_zero|]; intros ? ?).
  eapply safe_bind; [apply safe_get_pos|]. intros p Hp. apply safe_ret. cbv beta in Hp. split; [done|lia].
Qed.
Lemma records_loop_returns data : all_bytes data → len data ≤ BUF_SIZE → ∀ n f b,
  wf b → all_bytes (buf b) → found_ok data f →
  ∃ f' b', records_loop n data f b = (Ok f', b') ∧ found_ok data f'.
Proof.
  intros Hd Hl. induction n as [|n IH]; intros f b Hw Hb Hf; cbn [records_loop]; [by exists f, b|].
  unfold bind at 1, get_pos at 1. destruct (Z.leb_spec (len data) (pos b)); [by exists f, b|].
  assert (Hr : readable b) by (split; [done|split; [done|lia]]).
  pose proof (safe_record_head b Hr) as Hh. unfold bind at 1.
  destruct (record_head b) as [[[[[[name ty] m] start]|]|e| |] b1] eqn:E; [|by exists f, b1|..|done|done].
  - destruct Hh as [[Hm Hst] Hsame]. destruct (same_contents_readable _ _ Hr Hsame) as ((Hwf & _) & Hb1 & _).
    destruct (record_data_returns data name ty start m f) as (f' & Hf' & Hok); [done..|].
    unfold lift, bind. rewrite Hf'. unfold seek. apply IH; [|exact Hb1|exact Hok]. split; [exact Hwf|cbn; lia].
  - exfalso. revert E. unfold record_head, bind, attempt.
    destruct (read_qname [] b) as [[a|e'| |] b']; try done.
    assert (Hz : ∀ m b, (∃ v b', or_zero m b = (Ok v, b')) ∨ (∃ b', or_zero m b = (Panic, b')) ∨ ∃ b', or_zero m b = (OutOfFuel, b')).
    { intros m b0. unfold or_zero, bind, attempt. destruct (m b0) as [[]]; eauto. }
    destruct (Hz read_u16 b') as [(v1 & b2 & ->)|[[b2 ->]|[b2 ->]]]; try done.
    destruct (Hz read_u16 b2) as [(v2 & b3 & ->)|[[b3 ->]|[b3 ->]]]; try done.
    destruct (Hz read_u32 b3) as [(v3 & b4 & ->)|[[b4 ->]|[b4 ->]]]; try done.
    by destruct (Hz read_u16 b4) as [(v4 & b5 & ->)|[[b5 ->]|[b5 ->]]].
Qed.
Lemma skip_questions_safe n : Buffer.safe (skip_questions n) (λ _, True).
Proof.
  induction n as [|n IH]; cbn [skip_questions]; [by apply safe_ret|].
  eapply safe_bind; [apply safe_question_read|]. by intros.
Qed.

(** C36: any datagram may arrive. Whatever the bytes, reading an announcement ends without a
    panic; and what is taken for one names at least one service, with ports of 16 bits, and an
    IPv4 address that is four bytes in a row of the datagram. *)
Theorem parse_mdns_total (data : bytes) : all_bytes data → len data ≤ BUF_SIZE →
  ∃ o, parse_mdns_response data = Ok o ∧
    match o with
    | Some ann => services ann ≠ [] ∧ Forall service_heard (services ann) ∧ address_heard data (peer_ip ann)
    | None => True
    end.
Proof.
  intros Hd Hl. unfold parse_mdns_response. destruct (len data <? 12); [by exists None|].
  rewrite (proj2 (Z.ltb_ge BUF_SIZE _)) by lia. unfold parse_records, bind at 1.
  pose proof (from_bytes_readable data Hd) as Hr. pose proof (safe_header_read _ Hr) as Hh.
  destruct (Header.read (from_bytes data)) as [[h|e| |] b1]; try done; [|by exists None].
  destruct Hh as [_ Hs]. pose proof (same_contents_readable _ _ Hr Hs) as Hr1. clear Hs Hr.
  destruct (_ || _); [by exists None|]. unfold bind at 1.
  pose proof (skip_questions_safe (Z.to_nat (Header.questions h)) b1 Hr1) as Hq.
  destruct (skip_questions _ b1) as [[q|e| |] b2]; try done; [|by exists None].
  destruct Hq as [_ Hs]. pose proof (same_contents_readable _ _ Hr1 Hs) as (Hw & Hb & _).
  cbv zeta. unfold bind.
  destruct (records_loop_returns data Hd Hl
    (Z.to_nat (as_u16 (Header.answers h + authoritative_entries h + resource_entries h)))
    (MkFound None None None) b2 Hw Hb) as (f & b3 & -> & Hf1 & Hf2); [done|]. unfold ret.
  eexists. split; [reflexivity|]. destruct (txt_services f) as [l|]; [|done]. cbn.
  destruct (a_ip f); [|done]. cbn. by destruct Hf1.
Qed.

(** ** Two servers *)

Section peers.
Context `{Lowercase} `{NetLib} `{TlsLib}.

Lemma announced_last key svcs port : NoDup (map (λ s : bytes * Z, to_lowercase (fst s)) svcs) →
  (key, port) ∈ map (λ s : bytes * Z, (to_lowercase (fst s), snd s)) svcs → announced key svcs = Some port.
Proof.
  induction svcs as [|svc svcs IH] using rev_ind; [by intros _ ?%elem_of_nil|].
  rewrite !map_app, announced_snoc. intros [Hnd [Hdis _]]%NoDup_app Hin. case_bool_decide as Hk.
  - apply elem_of_app in Hin as [Hin|[= -> ->]%list_elem_of_singleton]; [exfalso|done].
    apply (Hdis key); [|subst; by left]. apply list_elem_of_In, in_map_iff in Hin as (s & [= <- <-] & Hs).
    apply list_elem_of_In, in_map_iff. by exists s.
  - apply IH; [done|]. by apply elem_of_app in Hin as [Hin|[= -> ->]%list_elem_of_singleton].
Qed.

(** The services of a store, by the names they go by. *)
Lemma listed_names (s : ServiceStore) : map_Forall (λ k e, to_lowercase (Services.name e) = k) (Services.entries s) →
  let svcs := map (λ e, (Services.name e, target_port e)) (service_list s) in
  NoDup (map (λ x : bytes * Z, to_lowercase (fst x)) svcs) ∧
  ∀ k e, Services.entries s !! k = Some e → (k, target_port e) ∈ map (λ x : bytes * Z, (to_lowercase (fst x), snd x)) svcs.
Proof.
  intros Hk svcs. unfold svcs, service_list. rewrite !map_map. cbn [fst snd].
  set (l := map snd (map_to_list (Services.entries s))).
  assert (Hp : merge_sort name_le l ≡ₚ l) by apply merge_sort_Permutation. split.
  - rewrite (Permutation_map _ Hp). unfold l. rewrite map_map.
    rewrite (map_ext_in _ fst); [apply NoDup_fst_map_to_list|].
    intros [k e] Hin%list_elem_of_In%elem_of_map_to_list. cbn. by apply (Hk k e).
  - intros k e He. rewrite (Permutation_map _ Hp). unfold l. rewrite map_map.
    apply list_elem_of_In, in_map_iff. exists (k, e). cbn. rewrite (Hk k e He). split; [done|].
    by apply list_elem_of_In, elem_of_map_to_list.
Qed.
End peers.

Section peers.
Context `{Lowercase} `{NetLib} `{TlsLib} (local_ip_toward : IpAddr → option Ipv4Addr).

Lemma regenerate_peers now a :
  (lan_peers (ctx (regenerate_tls now a)) = lan_peers (ctx a) ∨
   lan_peers (ctx (regenerate_tls now a)) = retain_fresh now (lan_peers (ctx a))) ∧
  Local.services (ctx (regenerate_tls now a)) = Local.services (ctx a) ∧
  proxy_tld_suffix (ctx (regenerate_tls now a)) = proxy_tld_suffix (ctx a).
Proof.
  unfold regenerate_tls. destruct (tls_config a); [|by split; [left|]]. destruct (tls_byo _); [by split; [left|]|].
  cbn. destruct (build_tls_config _ _); (split; [by right|done]).
Qed.
Lemma heard_peer now host svcs key port s : 0 < Peers.timeout s → announced key svcs = Some port →
  ∀ s', s' = snd (peer_update now host svcs s) ∨ s' = retain_fresh now (snd (peer_update now host svcs s)) →
  Peers.timeout s' = Peers.timeout s ∧ peers s' !! key = Some (host, port, now).
Proof.
  intros Ht Ha s' Hs. pose proof (peer_update_spec now host svcs s) as Hu.
  destruct (peer_update now host svcs s) as [changed s1]. destruct Hu as (Ht1 & Hp & _).
  specialize (Hp key). rewrite Ha in Hp. destruct Hs as [->| ->]; [by split|]. split; [done|].
  cbn. apply map_lookup_filter_Some. split; [done|]. cbn. rewrite Ht1. unfold since. lia.
Qed.

(** C33: services of a peer resolve. When a server announces itself and another hears it, then on
    the other, until the timeout has passed, every service announced (that the other does not have
    itself) resolves in the proxy's domain to the address of the announcing server, for any
    client. *)
Theorem announced_service_resolves (now later : Z) (host id_a id_b w k : bytes) (a b : Api) (e : ServiceEntry) :
  plain_host host → ascii_name id_a → id_a ≠ id_b →
  map_Forall (λ k e, to_lowercase (Services.name e) = k) (Services.entries (Local.services (ctx a))) →
  let svcs := map (λ e, (Services.name e, target_port e)) (service_list (Local.services (ctx a))) in
  Forall announceable svcs → strings_fit svcs id_a (health_meta (settings a)) →
  announce host id_a a = Ok w →
  Services.entries (Local.services (ctx a)) !! k = Some e →
  Services.entries (Local.services (ctx b)) !! k = None →
  now ≤ later ≤ now + Peers.timeout (lan_peers (ctx b)) → 0 < Peers.timeout (lan_peers (ctx b)) →
  ∃ b', receive now id_b w b = Ok b' ∧
    ∀ query src, let qname := Services.name e ++ proxy_tld_suffix (ctx b) in
      fst (resolve_proxy_tld local_ip_toward later query src qname QueryType.A (ctx b')) =
      (push_answers [DnsRecord.A qname (lan_ip (ctx a)) 300] (response_from query NOERROR),
       QueryPath.Local, Indeterminate).
Proof.
  intros Hh Hid Hne Hkeys svcs Hs Hfit Hw He Hb Hl Ht.
  destruct (listed_names _ Hkeys) as [Hnd Hin]. fold svcs in Hnd, Hin. specialize (Hin k e He).
  pose proof (announced_last k svcs _ Hnd Hin) as Han.
  assert (Hsv : svcs ≠ []) by (intros E; rewrite E in Hin; by apply elem_of_nil in Hin).
  unfold announce in Hw. fold svcs in Hw.
  pose proof (announcement_heard host _ svcs id_a _ w Hh Hsv Hs Hid Hfit Hw) as Hp.
  unfold receive. rewrite Hp. cbn [instance_id services peer_ip].
  rewrite bool_decide_eq_false_2 by (intros E; apply Hne; by injection E).
  rewrite bool_decide_eq_false_2 by exact Hsv.
  pose proof (heard_peer now (V4 (lan_ip (ctx a))) svcs k (target_port e) (lan_peers (ctx b)) Ht Han) as Hheard.
  destruct (peer_update now (V4 (lan_ip (ctx a))) svcs (lan_peers (ctx b))) as [changed lan]. cbn [snd] in Hheard.
  set (b1 := with_ctx (set_lan_peers lan (ctx b)) b).
  eexists. split; [reflexivity|].
  set (b' := if changed then regenerate_tls now b1 else b1).
  assert (Hb' : (lan_peers (ctx b') = lan ∨ lan_peers (ctx b') = retain_fresh now lan) ∧
    Local.services (ctx b') = Local.services (ctx b) ∧ proxy_tld_suffix (ctx b') = proxy_tld_suffix (ctx b)).
  { unfold b'. destruct changed; [apply (regenerate_peers now b1)|].
    split; [left; reflexivity|split; reflexivity]. }
  clearbody b'. destruct Hb' as (Hlan & Hsvc & Hsuf). destruct (Hheard _ Hlan) as [Htime Hpeer].
  intros query src. cbv zeta. unfold resolve_proxy_tld. rewrite Hsuf, strip_suffix_app, Hsvc.
  change (default _ (Some (Services.name e))) with (Services.name e).
  unfold service_lookup, peer_lookup. rewrite (Hkeys k e He), Hb, Hpeer, Htime.
  rewrite (proj2 (Z.ltb_ge _ _)) by (unfold since; lia). reflexivity.
Qed.
End peers.

(** * What is cut is misheard *)

(** Twenty-six services, each on port 30000. *)
Definition many_services : list (bytes * Z) :=
  map (λ n, (str "s" ++ show_digits 2 (Z.of_nat n + 10), 30000)) (List.seq 0 26).
(** A long announcement is misheard. The source cuts a string of more than 255 bytes into
    pieces; the reader takes each piece for a string of its own. So with more services than fit, one
    is heard with a part of the digits of its port, and those after it are not heard at
    all. *)
Theorem long_announcement_misheard : ∃ w ann name,
  build_announcement (str "host") (Ipv4 192 168 1 2) many_services (str "1:2") sample_meta = Ok w ∧
  parse_mdns_response w = Ok (Some ann) ∧
  (name, 30000) ∈ many_services ∧ (name, 30) ∈ services ann ∧
  (length (services ann) < length many_services)%nat.
Proof.
  assert (Hw : match build_announcement (str "host") (Ipv4 192 168 1 2) many_services (str "1:2") sample_meta with
    | Ok w => match parse_mdns_response w with
              | Ok (Some ann) => bool_decide ((str "s34", 30) ∈ services ann) &&
                  (length (services ann) <? length many_services)%nat
              | _ => false end
    | _ => false end = true) by (vm_compute; reflexivity).
  destruct (build_announcement _ _ _ _ _) as [w| | |]; try done.
  destruct (parse_mdns_response w) as [[ann|]| | |] eqn:Ep; try done.
  apply andb_true_iff in Hw as [Hin%bool_decide_eq_true_1 Hlen%Nat.ltb_lt].
  exists w, ann, (str "s34"). split; [done|]. split; [done|]. split; [|by split].
  apply (bool_decide_unpack _). vm_compute. exact I.
Qed.

(** * Instances *)

#[local] Existing Instance sample_net.
#[local] Existing Instance lowercase_ascii.
Definition two_services : list (bytes * Z) := [(str "printer", 631); (str "Wiki", 8080)].
Definition sample_datagram : bytes := Eval vm_compute in
  match build_announcement (str "MacBook-Pro") (Ipv4 192 168 1 2) two_services (str "1:2") sample_meta with
  | Ok w => w | _ => [] end.

Lemma announcement_heard_witness : parse_mdns_response sample_datagram =
  Ok (Some {| services := two_services; peer_ip := V4 (Ipv4 192 168 1 2); instance_id := Some (str "1:2") |}).
Proof.
  apply (announcement_heard (str "MacBook-Pro") (Ipv4 192 168 1 2) two_services (str "1:2") sample_meta).
  - apply (bool_decide_unpack _). vm_compute. exact I.
  - discriminate.
  - apply (bool_decide_unpack _). vm_compute. exact I.
  - apply (bool_decide_unpack (Forall _ _)). vm_compute. exact I.
  - apply (bool_decide_unpack _). vm_compute. exact I.
  - vm_compute. reflexivity.
Defined.

Lemma parse_mdns_total_witness :
  (∃ o, parse_mdns_response (take 100 sample_datagram) = Ok o) ∧
  ∃ ann, parse_mdns_response sample_datagram = Ok (Some ann) ∧ address_heard sample_datagram (peer_ip ann).
Proof.
  split.
  - destruct (parse_mdns_total (take 100 sample_datagram)) as (o & Ho & _).
    + apply (bool_decide_unpack _). vm_compute. exact I.
    + vm_compute. discriminate.
    + by exists o.
  - destruct (parse_mdns_total sample_datagram) as (o & Ho & Ha).
    + apply (bool_decide_unpack _). vm_compute. exact I.
    + vm_compute. discriminate.
    + destruct o as [ann|]; [|vm_compute in Ho; discriminate Ho]. exists ann. split; [exact Ho|apply Ha].
Defined.

Definition announcer : Api := MkApi sample_net
  (set_services (service_insert (str "Wiki") 8080 None (service_new [])) sample_ctx) sample_settings None.
Definition listener : Api := MkApi sample_net sample_ctx sample_settings None.
Lemma announced_service_resolves_witness : ∃ w b',
  announce (str "host") (str "1:2") announcer = Ok w ∧ receive 0 (str "3:4") w listener = Ok b' ∧
  fst (resolve_proxy_tld (λ _, None) 5 (query 7 (str "wiki.numa") QueryType.A) sample_client
    (str "wiki.numa") QueryType.A (ctx b')) =
  (push_answers [DnsRecord.A (str "wiki.numa") (Ipv4 192 168 1 2) 300]
     (response_from (query 7 (str "wiki.numa") QueryType.A) NOERROR), QueryPath.Local, Indeterminate).
Proof.
  destruct (announce (str "host") (str "1:2") announcer) as [w|e| |] eqn:Ew; [|vm_compute in Ew; discriminate Ew..].
  destruct (announced_service_resolves (λ _, None) 0 5 (str "host") (str "1:2") (str "3:4") w (str "wiki")
    announcer listener {| Services.name := str "wiki"; target_port := 8080; target_host := None; routes := [] |})
    as (b' & Hb & Hr).
  - apply (bool_decide_unpack _). vm_compute. exact I.
  - apply (bool_decide_unpack (Forall _ _)). vm_compute. exact I.
  - discriminate.
  - apply map_Forall_insert_2; [vm_compute; reflexivity|apply map_Forall_empty].
  - apply (bool_decide_unpack _). vm_compute. exact I.
  - apply (bool_decide_unpack _). vm_compute. exact I.
  - exact Ew.
  - vm_compute. reflexivity.
  - vm_compute. reflexivity.
  - split; vm_compute; discriminate.
  - vm_compute. reflexivity.
  - exists w, b'. split; [reflexivity|]. split; [exact Hb|]. apply Hr.
Defined.
