(* ===== verification/Listeners.v ===== *)
(** The ways into the server: the datagrams of [src/src/serve.rs], the framed streams of
    [src/src/tcp.rs] and [src/src/dot.rs], DNS over HTTPS of [src/src/doh.rs] and the HTTP
    proxy of [src/src/proxy.rs]. Accepting, TLS and HTTP itself are the libraries': what they
    hand over is an argument, and what is read from and written to a connection is an await. *)
From stdpp Require Import gmap.
From S2P Require Import Prelude Net Ip Text Acl Policy Domains Overrides Services Peers.
From S2P Require Import Stats Srtt QueryLog Forward Zones Rebind Cache Local Shape Coalesce.
From S2P Require Import Buffer Question Header Record Packet Wire Pp2 Async Recursive Resolve.
Open Scope outcome_scope.
Open Scope fut_scope.

(** * Replies of the listeners' own *)

(** The reply to a message that cannot be parsed: its first two bytes, and FORMERR. *)
Definition formerr (query_id : Z) : DnsPacket :=
  {| header := MkHeader query_id false false false 0 true FORMERR false false false false 0 0 0 0;
     questions := []; answers := []; authorities := []; resources := []; edns := None |}.
(** The reply to a query whose resolution failed. *)
Definition servfail (query : DnsPacket) (filter_aaaa : bool) : outcome DnsPacket :=
  shape_response_for_client query filter_aaaa (response_from query SERVFAIL).
Definition id_of (message : bytes) : Z :=
  from_be16 (default 0 (index message 0)) (default 0 (index message 1)).

(** * DNS over HTTPS *)

(** What the handlers look at in a request: the headers that are text, the path and query of
    its target, whether it asks for an upgrade, and the body, unless it exceeds the limit or
    cannot be read. *)
Record HttpRequest := MkHttp {
  host : option bytes; content_type : option bytes; uri_path : bytes; uri_query : option bytes;
  is_upgrade : bool; body : option bytes
}.
Inductive HttpResponse :=
  | Status (code : Z) (text : bytes)
  | DnsMessage (wire : bytes) (max_age : Z).

(** The [base64] crate: decoding the URL-safe alphabet without padding. *)
Class Base64Lib := base64_decode : bytes → option bytes.

Definition MAX_DNS_MSG : Z := 4096.
Definition DOH_CONTENT_TYPE : bytes := str "application/dns-message".

Definition extract_host `{Lowercase} (req : HttpRequest) : option bytes :=
  option_map (λ h, to_lowercase (before 58 h)) (host req).

(** [s.split_once(p)] and [s.rsplit_once(p)]. *)
Fixpoint split_once (p s : bytes) : option (bytes * bytes) :=
  match strip_prefix p s with
  | Some r => Some ([], r)
  | None => match s with
            | [] => None
            | c :: s => '(a, b) ← split_once p s; Some (c :: a, b)
            end
  end.
Definition rsplit_once (p s : bytes) : option (bytes * bytes) :=
  '(a, b) ← split_once (reverse p) (reverse s); Some (reverse b, reverse a).

Definition strip_port (h : bytes) : option bytes :=
  if starts_with (str "[") h then
    '(base, port) ← rsplit_once (str "]:") h;
    if forallb is_ascii_digit port then Some (take (length base + 1) h) else None
  else
    '(base, port) ← rsplit_once (str ":") h;
    if contains 58 base then None
    else if forallb is_ascii_digit port then Some base else None.
Definition is_loopback_host (h : bytes) : bool :=
  bool_decide (h ∈ [str "127.0.0.1"; str "::1"; str "[::1]"; str "localhost"]).
Definition is_tld_match (h tld : bytes) : bool :=
  bool_decide (h = tld)
  || ((len h =? 2 * len tld + 1) && starts_with tld h && bool_decide (index h (len tld) = Some 46)
      && ends_with tld h).
Definition is_doh_host (host : option bytes) (tld : bytes) : bool :=
  match host with
  | None => false
  | Some h => let base := default h (strip_port h) in is_loopback_host base || is_tld_match base tld
  end.

(** The source a request is resolved for, or the status it is refused with. *)
Definition doh_validate `{NetLib} (acl : AllowFromAcl) (remote_addr : option SocketAddr)
    (host : option bytes) (tld : bytes) : Z + SocketAddr :=
  if negb (is_doh_host host tld) then inl 404
  else if acl_is_enabled acl
          && negb (match remote_addr with Some a => allows acl (ip a) | None => false end)
  then inl 403
  else inr (default (MkSock (V4 (Ipv4 127 0 0 1)) 0) remote_addr).

Definition extract_min_ttl (wire : bytes) : outcome Z :=
  match scan_ttl_offsets wire with
  | Ok meta => let? o := min_ttl_from_wire wire meta in Ok (default 0 o)
  | Err _ => Ok 0
  | Panic => Panic
  | OutOfFuel => OutOfFuel
  end.
Definition serialize_response (pkt : DnsPacket) : outcome HttpResponse :=
  match encode pkt with
  | Ok w => Ok (DnsMessage w 0)
  | Err _ => Ok (Status 500 [])
  | Panic => Panic
  | OutOfFuel => OutOfFuel
  end.
(** [dns=] of the first pair that has it. *)
Definition dns_param (q : option bytes) : bytes :=
  default [] (q ≫= λ q, head (omap (strip_prefix (str "dns=")) (split_on 38 q))).

(** * Streams *)

Definition IDLE_TIMEOUT : Z := 30000.
Definition MAX_MSG_LEN : Z := 4096.

Section streams.
Context `{NetLib}.
Abbreviation async A := (fut World request reply A).

(** [read_exact] under the idle timeout: exactly so many bytes, or nothing when the peer is gone,
    too slow, or fails. *)
Definition read_exact (n : Z) : async (option bytes) :=
  Await (ReadExact n) [] (λ _ r, ret match r with BytesRead v => v | _ => None end).
Definition framed (msg : bytes) : bytes := be16 (as_u16 (len msg)) ++ msg.
Definition write_framed (msg : bytes) : async bool :=
  Await (WriteAll (framed msg)) [] (λ _ r, ret match r with Written ok => ok | _ => false end).
(** The message [send_response] writes, unless serialising fails. *)
Definition serialized (resp : DnsPacket) : outcome (option bytes) :=
  match encode resp with
  | Ok w => Ok (Some w)
  | Err _ => Ok None
  | Panic => Panic
  | OutOfFuel => OutOfFuel
  end.
End streams.

(** * The handlers *)

Section listeners.
Context `{Lowercase} `{NetLib} (iter : Entries → list visit) (keys : srtt_map → list Srtt.key)
  (local_ip_toward : IpAddr → option Ipv4Addr).
Context `{!Validator} `{!ProxyLib} `{!Base64Lib}.
Abbreviation async A := (fut World request reply A).
Abbreviation resolve := (resolve_query iter keys local_ip_toward).

Definition resolve_doh (dns_bytes : bytes) (src : SocketAddr) : async HttpResponse :=
  match from_buffer (from_bytes dns_bytes) with
  | (Ok query, _) =>
      let* r := catch (resolve query dns_bytes src Transport.Doh) in
      match r with
      | inr (resp_buffer, _) =>
          let* wire := Return (filled resp_buffer) in
          let* min_ttl := Return (extract_min_ttl wire) in
          ret (DnsMessage wire min_ttl)
      | inl _ =>
          let* filter := gets (λ w, filter_aaaa (ctx w)) in
          let* resp := Return (servfail query filter) in
          Return (serialize_response resp)
      end
  | (Err _, _) => Return (serialize_response (formerr (id_of dns_bytes)))
  | (Panic, _) => Return Panic
  | (OutOfFuel, _) => Return OutOfFuel
  end.

Definition doh_post (acl : AllowFromAcl) (remote_addr : option SocketAddr) (req : HttpRequest)
    : async HttpResponse :=
  Get (λ w,
    match doh_validate acl remote_addr (extract_host req) (proxy_tld (ctx w)) with
    | inl code => ret (Status code [])
    | inr src =>
        if negb (starts_with DOH_CONTENT_TYPE (default [] (content_type req))) then ret (Status 415 [])
        else match body req with
             | None => ret (Status 413 (str "body exceeds 4096 bytes"))
             | Some [] => ret (Status 400 (str "empty body"))
             | Some body => resolve_doh body src
             end
    end).
Definition doh_get (acl : AllowFromAcl) (remote_addr : option SocketAddr) (req : HttpRequest)
    : async HttpResponse :=
  Get (λ w,
    match doh_validate acl remote_addr (extract_host req) (proxy_tld (ctx w)) with
    | inl code => ret (Status code [])
    | inr src =>
        match dns_param (uri_query req) with
        | [] => ret (Status 400 (str "missing dns query parameter"))
        | param =>
            match base64_decode param with
            | None => ret (Status 400 (str "invalid base64url encoding"))
            | Some body =>
                if MAX_DNS_MSG <? len body then ret (Status 413 (str "body exceeds 4096 bytes"))
                else resolve_doh body src
            end
        end
    end).

(** The reply to a message that was read from a stream. *)
Definition answer_framed (msg : bytes) (remote_addr : SocketAddr) (transport : Transport.t)
    : async (option bytes) :=
  match from_buffer (from_bytes msg) with
  | (Ok query, _) =>
      let* r := catch (resolve query msg remote_addr transport) in
      match r with
      | inr (resp_buffer, _) => let* wire := Return (filled resp_buffer) in ret (Some wire)
      | inl _ =>
          let* filter := gets (λ w, filter_aaaa (ctx w)) in
          let* resp := Return (servfail query filter) in
          Return (serialized resp)
      end
  | (Err _, _) => Return (serialized (formerr (id_of msg)))
  | (Panic, _) => Return Panic
  | (OutOfFuel, _) => Return OutOfFuel
  end.

(** The loop of [handle_framed_dns_connection], up to a number of turns: the messages read, each
    with the reply written, until one cannot be read, is too long, or its reply is not
    written. *)
Fixpoint handle_framed (turns : nat) (remote_addr : SocketAddr) (transport : Transport.t)
    : async (list (bytes * option bytes)) :=
  match turns with
  | O => ret []
  | S turns =>
      let* len_buf := read_exact 2 in
      match len_buf with
      | Some [a; b] =>
          let msg_len := from_be16 a b in
          if MAX_MSG_LEN <? msg_len then ret []
          else
            let* msg := read_exact msg_len in
            match msg with
            | None => ret []
            | Some msg =>
                let* reply := answer_framed msg remote_addr transport in
                let* ok := match reply with Some w => write_framed w | None => ret false end in
                if ok then
                  let* log := handle_framed turns remote_addr transport in
                  ret ((msg, reply) :: log)
                else ret [(msg, reply)]
            end
      | _ => ret []
      end
  end.

Definition on_stats (s : ServerStats) (w : World) : World := set_ctx (set_stats s (ctx w)) w.

(** The task of an accepted connection: the PROXY header [read] if any, the allowlist, for TLS
    the handshake, and the messages. *)
Definition serve_stream (acl : AllowFromAcl) (pp : option PpConfig) (tcp_peer : SocketAddr)
    (read : HeaderRead) (tls_accepted : bool) (transport : Transport.t) (turns : nat)
    : async (option (list (bytes * option bytes))) :=
  Get (λ w,
    let '(r, s) := handshake tcp_peer pp read (stats (ctx w)) in
    Put (on_stats s w)
      match r with
      | None => ret None
      | Some (_, remote_addr, local_command) =>
          if negb (admits acl (ip remote_addr) local_command) then ret None
          else if negb tls_accepted then ret None
          else let* log := handle_framed turns remote_addr transport in ret (Some log)
      end).

(** A turn of [udp_serve_loop] on a datagram, to the end of the task it spawns. *)
Definition serve_datagram (acl : AllowFromAcl) (pp : option PpConfig) (d : bytes) (peer : SocketAddr)
    : async (option bytes) :=
  let b := buf (from_bytes d) in
  Get (λ w,
    let '(x, s) := parse_if_trusted d peer pp (stats (ctx w)) in
    Put (on_stats s w)
      match udp_apply x b (len d) peer with
      | Ok (None, _) => ret None
      | Ok (Some (src_addr, dns_len, local_command), b) =>
          if negb (admits acl (ip src_addr) local_command) then ret None
          else handle_query iter keys local_ip_toward {| buf := b; pos := 0; overflow := false |}
                 dns_len src_addr Transport.Udp
      | Err e => fail e
      | Panic => Return Panic
      | OutOfFuel => Return OutOfFuel
      end).

(** * The proxy *)

(** What the proxy does with a request: answer it, or pass it on. *)
Inductive ProxyAction :=
  | Answer (code : Z)
  | PassOn (target_uri : bytes) (upgrade : bool).

(** [IpAddr]'s [Display] is an argument for IPv6, whose text the proxy never needs for peers
    found on the network; [uri_parse] is the [http] crate's parser. *)
Context (show_ipv6 : Ipv6Addr → bytes) (uri_parse : bytes → bool).
Definition show_ip (a : IpAddr) : bytes :=
  match a with
  | V4 (Ipv4 a b c d) => join [46] (map show_u16 [a; b; c; d])
  | V6 a => show_ipv6 a
  end.

Definition proxy_handler (now : Z) (req : HttpRequest) (c : ServerCtx)
    : outcome (ProxyAction * ServerCtx) :=
  match extract_host req with
  | None => Ok (Answer 400, c)
  | Some hostname =>
      match strip_suffix (proxy_tld_suffix c) hostname with
      | None => Ok (Answer (if is_blocked now hostname (blocklist c) then 403 else 502), c)
      | Some service_name =>
          let '(target, c) :=
            match service_lookup service_name (services c) with
            | Some entry =>
                let '(port, path) := resolve_route entry (uri_path req) in
                (Some (default (str "localhost") (target_host entry), port, path), c)
            | None =>
                let '(found, peers) := peer_lookup now service_name (lan_peers c) in
                (option_map (λ '(a, port), (show_ip a, port, uri_path req)) found,
                 set_lan_peers peers c)
            end in
          match target with
          | None => Ok (Answer 404, c)
          | Some (target_host, target_port, rewritten_path) =>
              let query_string := match uri_query req with Some q => str "?" ++ q | None => [] end in
              let target_uri := str "http://" ++ target_host ++ str ":" ++ show_u16 target_port
                                ++ rewritten_path ++ query_string in
              if uri_parse target_uri then Ok (PassOn target_uri (is_upgrade req), c) else Panic
          end
      end
  end.
(** The layer around it on the plain port. *)
Definition allow_from_guard (acl : AllowFromAcl) (peer : SocketAddr) (now : Z) (req : HttpRequest)
    (c : ServerCtx) : outcome (ProxyAction * ServerCtx) :=
  if allows acl (ip peer) then proxy_handler now req c else Ok (Answer 403, c).
End listeners.
