(* ===== verification/Serving.v ===== *)
(** What the listeners promise ([Listeners]): every message that can be read from a connection
    is replied to, in order; requests over HTTPS are refused or resolved, with an age that is
    the shortest time to live of the answers; and datagrams pass the gates or vanish. *)
From stdpp Require Import gmap.
From S2P Require Import Prelude Net Ip Text Acl Policy Domains Overrides Services Peers Svcb.
From S2P Require Import Stats Srtt QueryLog Forward Zones Rebind Cache Local Shape Coalesce.
From S2P Require Import Buffer Question Header Record Packet Wire Pp2 Async Recursive Resolve.
From S2P Require Import Query Listeners.
Open Scope outcome_scope.
Open Scope fut_scope.

(** * Replies of the listeners' own *)

(** The refusal of an unparsable message echoes its first two bytes. *)
Definition refusal (msg : bytes) : bytes := take 2 (msg ++ [0; 0]) ++ [128; 1; 0; 0; 0; 0; 0; 0; 0; 0].
Lemma encode_wire p w : packet_wire p = Some w → len w ≤ BUF_SIZE → encode p = Ok w.
Proof.
  intros Hw Hl. unfold encode. pose proof (write_new_spec p) as Hn. rewrite Hw in Hn.
  by destruct Hn as [(_ & -> & ->)|(? & _)]; [|lia].
Qed.
Lemma formerr_encodes msg : all_bytes msg →
  packet_wire (formerr (id_of msg)) = Some (refusal msg) ∧ encode (formerr (id_of msg)) = Ok (refusal msg).
Proof.
  intros Hm. assert (Hw : packet_wire (formerr (id_of msg)) = Some (refusal msg)).
  { unfold refusal, id_of. assert (Hz : is_byte 0) by (unfold is_byte; lia).
    destruct msg as [|a [|b msg]]; [done| |];
      apply Forall_cons_1 in Hm as [Ha Hm]; [|apply Forall_cons_1 in Hm as [Hb _]];
      cbn [index Z.to_nat Pos.to_nat nth_error lookup default]; unfold formerr, packet_wire, header_wire;
      cbn -[be16 from_be16]; rewrite be16_from_be16 by done; by vm_compute. }
  split; [done|]. apply encode_wire; [done|]. unfold refusal. rewrite len_app.
  unfold len. rewrite length_take, length_app. cbn [length]. unfold BUF_SIZE. lia.
Qed.

Lemma servfail_bare query filter : servfail query filter = Ok (bare_reply query SERVFAIL false).
Proof. exact (shape_bare query SERVFAIL false filter). Qed.

(** * Streams *)

Section serving.
Context `{Lowercase} `{NetLib} (iter : Entries → list visit) `{!IterOrder iter}
  (keys : srtt_map → list Srtt.key) (J : RebindFilter * bool * bool → Prop).
Context (local_ip_toward : IpAddr → option Ipv4Addr)
  (local_ip_toward_ok : ∀ a b, local_ip_toward a = Some b → ipv4_ok b).
Context `{!Validator} `{!ValidatorEnds J}.
Abbreviation good := (Recursive.good J).
Abbreviation safe := (Async.safe good fits).
Abbreviation resolve := (resolve_query iter keys local_ip_toward).
Abbreviation panics := (query_panics iter keys local_ip_toward).

(** The reply [p], encoded as [wire], to a parsed message: what its resolution, in the run from the await
    [n] and the state [w], comes to; a SERVFAIL when it asks nothing. *)
Definition answered (transport : Transport.t) (src : SocketAddr) (env : nat → list request → moment)
    (query : DnsPacket) (msg : bytes) (n : nat) (w : World) (wire : bytes) (p : DnsPacket) : Prop :=
  len wire ≤ BUF_SIZE ∧ sound p ∧ packet_wire p = Some wire ∧
  match fst (run_to (resolve query msg src transport) env n w) with
  | Ok (b, path) => filled b = Ok wire ∧ reply_to query path p
  | _ => questions query = [] ∧ p = bare_reply query SERVFAIL false
  end.

(** A parsed message: a query, or nothing at all; nothing else can be. *)
Lemma parse_cases msg : all_bytes msg →
  match from_buffer (from_bytes msg) with
  | (Ok query, _) => query_ok query ∧ ∃ w, packet_wire (bare_reply query SERVFAIL false) = Some w
  | (Err _, _) => True
  | _ => False
  end.
Proof.
  intros Hm. pose proof (safe_from_buffer (from_bytes msg) (from_bytes_readable msg Hm)) as Hp.
  destruct (from_buffer (from_bytes msg)) as [[query|e| |] b]; try done. destruct Hp as [Hp _].
  split; [destruct (parsed_packet_fields _ Hp) as (? & ? & _); by split|].
  destruct (parsed_packet_wire _ Hp) as [w Hw].
  apply packet_wire_parts in Hw as (wq & wa & wn & wr & Hwq & _).
  destruct (bare_reply_wire query SERVFAIL false wq Hwq) as (w' & Hw' & _). by exists w'.
Qed.

(** What is to be sent once the resolution has failed: the SERVFAIL fits unless the questions are
    too long. *)
Lemma failed_answer transport src env query msg n w e : query_ok query →
  (∃ bare, packet_wire (bare_reply query SERVFAIL false) = Some bare) →
  fst (run_to (resolve query msg src transport) env n w) = Err e →
  questions query = [] ∨ unanswerable query →
  match encode (bare_reply query SERVFAIL false) with
  | Ok wire => answered transport src env query msg n w wire (bare_reply query SERVFAIL false)
  | Err _ => unanswerable query
  | _ => False
  end.
Proof.
  intros Hq [bare Hb] Hr Hu. unfold encode. pose proof (write_new_spec (bare_reply query SERVFAIL false)) as Hn.
  unfold unanswerable in *. rewrite Hb in *. destruct Hn as [(Hl & -> & ->)|(Hl & b & -> & _)]; [|exact Hl].
  split; [exact Hl|]. split; [by apply bare_sound|]. split; [exact Hb|]. rewrite Hr.
  destruct Hu as [Hu|Hu]; [exact (conj Hu eq_refl)|lia].
Qed.

(** What is written in reply to a message, and where its handling comes to; for a query whose
    questions do not fit, nothing. *)
Definition replied (transport : Transport.t) (src : SocketAddr) (env : nat → list request → moment)
    (msg : bytes) (n : nat) (w : World) (r : option bytes) (n' : nat) (w' : World) : Prop :=
  match fst (from_buffer (from_bytes msg)) with
  | Ok query =>
      (n', w') = snd (run_to (resolve query msg src transport) env n w) ∧
      match r with
      | Some wire => ∃ p, answered transport src env query msg n w wire p
      | None => unanswerable query
      end
  | _ => r = Some (refusal msg) ∧ n' = n ∧ w' = w
  end.
Definition reply_panics (src : SocketAddr) (env : nat → list request → moment)
    (msg : bytes) (n : nat) (w : World) : Prop :=
  ∃ query, fst (from_buffer (from_bytes msg)) = Ok query ∧ panics env query msg src n w.

Lemma answer_framed_run transport src env msg n w : env_ok good fits env → all_bytes msg → good w →
  let x := run_to (answer_framed iter keys local_ip_toward msg src transport) env n w in
  good (snd (snd x)) ∧
  match fst x with
  | Ok r => replied transport src env msg n w r (fst (snd x)) (snd (snd x))
  | Panic => reply_panics src env msg n w
  | _ => False
  end.
Proof.
  intros He Hm Hs. unfold answer_framed, replied, reply_panics. pose proof (parse_cases msg Hm) as Hc.
  destruct (from_buffer (from_bytes msg)) as [[query|e| |] b] eqn:Hp; [| |by destruct Hc..]; cbn [fst].
  2: { destruct (formerr_encodes msg Hm) as [_ Hf]. unfold serialized. rewrite Hf.
       exact (conj Hs (conj eq_refl (conj eq_refl eq_refl))). }
  destruct Hc as [Hq Hw]. rewrite run_to_bind, run_to_catch.
  pose proof (resolve_query_run iter keys J local_ip_toward local_ip_toward_ok query msg src transport
    env n w He Hq Hs) as [G Hr].
  destruct (run_to (resolve query msg src transport) env n w) as [[[bf path]|e| |] [n1 w1]] eqn:E;
    cbn [fst snd caught and_then] in G, Hr |- *.
  - destruct Hr as (q & st & _ & _ & wire & p & Hf & Hl & Hpw & Hp' & Hto & _).
    rewrite Hf. split; [exact G|]. split; [reflexivity|]. exists p. unfold answered. rewrite E.
    exact (conj Hl (conj Hp' (conj Hpw (conj Hf Hto)))).
  - cbn [gets run_to ret bind]. rewrite servfail_bare. cbn [bind run_to].
    pose proof (failed_answer transport src env query msg n w e Hq Hw ltac:(by rewrite E) Hr) as Hsv.
    unfold serialized. destruct (encode _) as [wire|e'| |]; cbn [run_to fst snd]; [| |destruct Hsv..];
      (split; [exact G|]); (split; [reflexivity|]); [eexists; exact Hsv|exact Hsv].
  - split; [exact G|]. exists query. exact (conj eq_refl Hr).
  - destruct Hr.
Qed.

(** What the environment gives a read of [k] bytes, at the await [n]. *)
Definition delivers (env : nat → list request → moment) (n : nat) (k : Z) (w : World) (v : option bytes) (w' : World)
    : Prop :=
  answer (env n [ReadExact k]) = BytesRead v ∧ w' = resume (env n [ReadExact k]) w.
(** A message of at most 4096 bytes after its length in two. *)
Definition received (env : nat → list request → moment) (n : nat) (w : World) (msg : bytes) (w' : World) : Prop :=
  len msg ≤ MAX_MSG_LEN ∧
  ∃ w1, delivers env n 2 w (Some (be16 (len msg))) w1 ∧ delivers env (S n) (len msg) w1 (Some msg) w'.
(** The reply, after its length in two bytes, is the next thing written. *)
Definition written (env : nat → list request → moment) (n : nat) (reply : bytes) (ok : bool) (w w' : World) : Prop :=
  let m := env n [WriteAll (be16 (len reply) ++ reply)] in
  answer m = Written ok ∧ w' = resume m w.
Definition then_log (x : bytes * option bytes) (r : outcome (list (bytes * option bytes)))
    : outcome (list (bytes * option bytes)) := let? log := r in Ok (x :: log).

(** The conversation of at most so many messages on a connection, from the await [n] and the
    state [w]: what was read and replied, and where it ends. It goes on as long as a message is read and
    its reply is written. *)
Inductive conversation (transport : Transport.t) (src : SocketAddr) (env : nat → list request → moment)
    : nat → nat → World → outcome (list (bytes * option bytes)) → nat → World → Prop :=
  | enough n w : conversation transport src env 0 n w (Ok []) n w
  | nothing_read turns n w w1 :
      delivers env n 2 w None w1 → conversation transport src env (S turns) n w (Ok []) (S n) w1
  | too_long turns n w a b w1 :
      delivers env n 2 w (Some [a; b]) w1 → MAX_MSG_LEN < from_be16 a b →
      conversation transport src env (S turns) n w (Ok []) (S n) w1
  | cut_short turns n w a b w1 w2 :
      delivers env n 2 w (Some [a; b]) w1 → from_be16 a b ≤ MAX_MSG_LEN →
      delivers env (S n) (from_be16 a b) w1 None w2 →
      conversation transport src env (S turns) n w (Ok []) (S (S n)) w2
  | panicked turns n w msg w2 n3 w3 :
      received env n w msg w2 → reply_panics src env msg (S (S n)) w2 →
      conversation transport src env (S turns) n w Panic n3 w3
  | unanswered turns n w msg w2 n3 w3 :
      received env n w msg w2 → replied transport src env msg (S (S n)) w2 None n3 w3 →
      conversation transport src env (S turns) n w (Ok [(msg, None)]) n3 w3
  | not_written turns n w msg reply w2 n3 w3 w4 :
      received env n w msg w2 → replied transport src env msg (S (S n)) w2 (Some reply) n3 w3 →
      written env n3 reply false w3 w4 →
      conversation transport src env (S turns) n w (Ok [(msg, Some reply)]) (S n3) w4
  | goes_on turns n w msg reply w2 n3 w3 w4 r n' w' :
      received env n w msg w2 → replied transport src env msg (S (S n)) w2 (Some reply) n3 w3 →
      written env n3 reply true w3 w4 → conversation transport src env turns (S n3) w4 r n' w' →
      conversation transport src env (S turns) n w (then_log (msg, Some reply) r) n' w'.

(** A single await, in an environment that fits. *)
Lemma fits_env env n q w : env_ok good fits env → good w →
  fits q (answer (env n [q])) ∧ good (resume (env n [q]) w).
Proof.
  intros He Hs. destruct (He n q []) as [(q' & Hq & Hf) Hr]. split; [|by apply Hr].
  destruct (pick _) as [|[|]]; [by injection Hq as <-|done..].
Qed.
Lemma read_exact_run env n k w : env_ok good fits env → good w →
  ∃ v w1, run_to (read_exact k) env n w = (Ok v, (S n, w1)) ∧ delivers env n k w v w1 ∧ good w1 ∧
    match v with Some d => len d = k ∧ all_bytes d | None => True end.
Proof.
  intros He Hs. destruct (fits_env env n (ReadExact k) w He Hs) as [Hf Hg]. unfold delivers. cbn.
  destruct (answer _) as [| | | |v|]; try done. exists v. eexists. by split_and!.
Qed.
Lemma replied_wire transport src env msg n w wire n' w' : all_bytes msg →
  replied transport src env msg n w (Some wire) n' w' → len wire ≤ BUF_SIZE.
Proof.
  intros Hm. unfold replied. assert (Hr : len (refusal msg) ≤ BUF_SIZE).
  { unfold refusal. rewrite len_app. unfold len. rewrite length_take, length_app. cbn [length]. unfold BUF_SIZE. lia. }
  destruct (fst _) as [query|e| |].
  - intros (_ & p & Ha). apply Ha.
  - by intros ([= ->] & _).
  - by intros ([= ->] & _).
  - by intros ([= ->] & _).
Qed.
Lemma write_framed_run env n reply w : env_ok good fits env → good w → len reply ≤ BUF_SIZE →
  ∃ ok w1, run_to (write_framed reply) env n w = (Ok ok, (S n, w1)) ∧ written env n reply ok w w1 ∧ good w1.
Proof.
  intros He Hs Hl. unfold write_framed, framed, written.
  assert (Hu : as_u16 (len reply) = len reply).
  { unfold as_u16. apply Z.mod_small. pose proof (len_nonneg reply). unfold BUF_SIZE in Hl. lia. }
  rewrite Hu. destruct (fits_env env n (WriteAll (be16 (len reply) ++ reply)) w He Hs) as [Hf Hg]. cbn.
  destruct (answer _) as [| | | | |ok]; try done. exists ok. eexists. by split_and!.
Qed.
Lemma handle_framed_run transport src env : env_ok good fits env → ∀ turns n w, good w →
  let x := run_to (handle_framed iter keys local_ip_toward turns src transport) env n w in
  good (snd (snd x)) ∧ conversation transport src env turns n w (fst x) (fst (snd x)) (snd (snd x)).
Proof.
  intros He. induction turns as [|turns IH]; intros n w Hs; cbn [handle_framed]; [split; [exact Hs|constructor]|].
  rewrite run_to_bind. destruct (read_exact_run env n 2 w He Hs) as (v & w1 & -> & Hd & G1 & Hv). cbn [and_then].
  destruct v as [[|a [|b [|]]]|]; try (exfalso; destruct Hv as [Hv _]; unfold len in Hv; cbn [length] in Hv; lia);
    [|split; [exact G1|by apply nothing_read]].
  destruct Hv as [_ Hab]. apply Forall_cons_1 in Hab as [Ha Hb]. apply Forall_cons_1 in Hb as [Hb _].
  cbv zeta. destruct (Z.ltb_spec MAX_MSG_LEN (from_be16 a b)) as [Hlt|Hle].
  { split; [exact G1|]. by eapply too_long. }
  rewrite run_to_bind. destruct (read_exact_run env (S n) (from_be16 a b) w1 He G1) as (v & w2 & -> & Hd2 & G2 & Hv).
  cbn [and_then]. destruct v as [msg|]; [|split; [exact G2|by eapply cut_short]]. destruct Hv as [Hlm Hm].
  assert (Hrec : received env n w msg w2).
  { split; [lia|]. exists w1. rewrite Hlm, be16_from_be16 by done. exact (conj Hd Hd2). }
  rewrite run_to_bind. pose proof (answer_framed_run transport src env msg (S (S n)) w2 He Hm G2) as [G3 Hr].
  destruct (run_to (answer_framed _ _ _ _ _ _) env (S (S n)) w2) as [[reply|e| |] [n3 w3]];
    cbn [fst snd and_then] in *; [|destruct Hr| |destruct Hr].
  2: { split; [exact G3|]. by eapply panicked. }
  rewrite run_to_bind. destruct reply as [reply|]; cbn [run_to and_then ret].
  2: { split; [exact G3|]. by eapply unanswered. }
  pose proof (replied_wire _ _ _ _ _ _ _ _ _ Hm Hr) as Hlw.
  destruct (write_framed_run env n3 reply w3 He G3 Hlw) as ([|] & w4 & -> & Hwr & G4); cbn [and_then].
  2: { split; [exact G4|]. by eapply not_written. }
  rewrite run_to_bind. destruct (IH (S n3) w4 G4) as [G5 Hc].
  pose proof (goes_on transport src env turns n w msg reply w2 n3 w3 w4 _ _ _ Hrec Hr Hwr Hc) as Hc'.
  revert G5 Hc'. destruct (run_to (handle_framed _ _ _ _ _ _) env (S n3) w4) as [[log|e| |] [n5 w5]];
    cbn [fst snd and_then ret run_to then_log obind]; intros G5 Hc'; exact (conj G5 Hc').
Qed.

Lemma on_stats_good st s : good s → good (on_stats st s).
Proof. intros Hs. by apply (good_core J s). Qed.

(** C6: every message of a connection is replied to. A connection whose PROXY header, client or
    handshake does not pass the gates reads nothing and changes no more than a counter. Any
    other is served as a conversation: whatever the peer sends, the network does and other
    tasks do, the next message is read, of at most 4096 bytes after its length in two, and its
    reply, under its own length, is the next thing written; until a message cannot be read or
    is too long, or its reply cannot be written. The reply is what the message resolves to at
    that point of the run, for the client the gates found: the encoding of a message of at most
    4096 bytes that answers the query; SERVFAIL, when it asks nothing; or, for what cannot be parsed,
    FORMERR under its first two bytes. Only a query whose own questions do not fit has none,
    and ends the connection. It panics only where resolving a message does. *)
Theorem stream_served (acl : AllowFromAcl) (pp : option PpConfig) (tcp_peer : SocketAddr)
    (read : HeaderRead) (tls_accepted : bool) (transport : Transport.t) (turns : nat)
    (env : nat → list request → moment) (n : nat) (w : World) :
  env_ok good fits env → good w →
  let '(r, w') := run (serve_stream iter keys local_ip_toward acl pp tcp_peer read tls_accepted
    transport turns) env n w in
  let '(passed, s) := handshake tcp_peer pp read (stats (ctx w)) in
  let refused := r = Ok None ∧ w' = on_stats s w in
  good w' ∧
  match passed with
  | Some (_, src, local_command) =>
      if admits acl (ip src) local_command && tls_accepted
      then ∃ log n', r = (let? l := log in Ok (Some l)) ∧
             conversation transport src env turns n (on_stats s w) log n' w'
      else refused
  | None => refused
  end.
Proof.
  intros He Hw. unfold serve_stream. cbn [run].
  destruct (handshake tcp_peer pp read (stats (ctx w))) as [passed s]. cbn [run].
  pose proof (on_stats_good s w Hw) as Hg.
  destruct passed as [[[p src] local_command]|]; [|exact (conj Hg (conj eq_refl eq_refl))].
  destruct (admits acl (ip src) local_command); [|exact (conj Hg (conj eq_refl eq_refl))].
  destruct tls_accepted; [|exact (conj Hg (conj eq_refl eq_refl))]. cbn [negb andb].
  rewrite run_run_to, run_to_bind.
  destruct (handle_framed_run transport src env He turns n _ Hg) as [G Hc]. revert G Hc.
  destruct (run_to (handle_framed _ _ _ _ _ _) env n (on_stats s w)) as [r [n' w']].
  cbn [fst snd]. intros G Hc. destruct r; (split; [exact G|]); exists r || eexists; exists n';
    (split; [|exact Hc]); reflexivity.
Qed.

(** * DNS over HTTPS *)

(** The age a response may be kept for: the shortest TTL of its answers, 0 without any. *)
Definition shortest (p : DnsPacket) : Z := default 0 (min_of (map ttl (answers p))).
Lemma sound_packet_ok p : sound p → no_lookalike p → packet_ok p.
Proof.
  intros (Hh & Hq & Ha & Hn & Hr & He) Hl. unfold no_lookalike in Hl. rewrite !Forall_app in Hl.
  destruct Hl as (_ & _ & Hl). by split_and!.
Qed.
Lemma extract_min_ttl_sent p w : sound p → packet_wire p = Some w → len w ≤ BUF_SIZE →
  ∃ t, extract_min_ttl w = Ok t ∧ (no_lookalike p → t = shortest p).
Proof.
  intros Hp Hw Hl. pose proof (packet_fields_bytes p w Hp Hw) as Hb. unfold extract_min_ttl.
  destruct (decide (no_lookalike p)) as [Hn|Hn].
  - pose proof (sound_packet_ok p Hp Hn) as Hok. unfold BUF_SIZE in Hl.
    rewrite (scan_packet p w), (min_ttl_packet p w) by (done || lia). cbn [obind]. by eexists.
  - pose proof (scan_ttl_offsets_yields w Hb) as Hy.
    destruct (scan_ttl_offsets w) as [meta|e| |]; [|by exists 0|done|done].
    destruct Hy as [Ho Ha]. unfold min_ttl_from_wire.
    destruct (min_ttls_ok w (take (Z.to_nat (answer_count meta)) (ttl_offsets meta))) as (ts & _ & E);
      [by apply Forall_take|]. rewrite E. cbn [obind]. by eexists.
Qed.

(** The response to a message sent over HTTPS, and how long it may be kept. *)
Definition doh_answer (src : SocketAddr) (env : nat → list request → moment) (msg : bytes) (n : nat) (w : World)
    (r : outcome HttpResponse) : Prop :=
  match fst (from_buffer (from_bytes msg)) with
  | Ok query =>
      match r with
      | Ok (DnsMessage wire max_age) => ∃ p,
          answered Transport.Doh src env query msg n w wire p ∧ (no_lookalike p → max_age = shortest p)
      | Ok (Status code text) => code = 500 ∧ text = [] ∧ unanswerable query
      | Panic => panics env query msg src n w
      | _ => False
      end
  | _ => r = Ok (DnsMessage (refusal msg) 0)
  end.

Lemma resolve_doh_run src env msg n w : env_ok good fits env → all_bytes msg → good w →
  let x := run_to (resolve_doh iter keys local_ip_toward msg src) env n w in
  good (snd (snd x)) ∧ doh_answer src env msg n w (fst x).
Proof.
  intros He Hm Hs. unfold resolve_doh, doh_answer. pose proof (parse_cases msg Hm) as Hc.
  destruct (from_buffer (from_bytes msg)) as [[query|e| |] b] eqn:Hp; [| |by destruct Hc..]; cbn [fst].
  2: { destruct (formerr_encodes msg Hm) as [_ Hf]. unfold serialize_response. rewrite Hf.
       exact (conj Hs eq_refl). }
  destruct Hc as [Hq Hw]. rewrite run_to_bind, run_to_catch.
  pose proof (resolve_query_run iter keys J local_ip_toward local_ip_toward_ok query msg src Transport.Doh
    env n w He Hq Hs) as [G Hr].
  destruct (run_to (resolve query msg src Transport.Doh) env n w) as [[[bf path]|e| |] [n1 w1]] eqn:E;
    cbn [fst snd caught and_then] in G, Hr |- *.
  - destruct Hr as (q & st & _ & _ & wire & p & Hf & Hl & Hpw & Hp' & Hto & _).
    rewrite Hf. cbn [bind]. destruct (extract_min_ttl_sent p wire Hp' Hpw Hl) as (t & -> & Ht). cbn [bind].
    split; [exact G|]. exists p. split; [|exact Ht]. unfold answered. rewrite E.
    exact (conj Hl (conj Hp' (conj Hpw (conj Hf Hto)))).
  - cbn [gets run_to ret bind]. rewrite servfail_bare. cbn [bind run_to].
    pose proof (failed_answer Transport.Doh src env query msg n w e Hq Hw ltac:(by rewrite E) Hr) as Hsv.
    unfold serialize_response. destruct (encode _) as [wire|e'| |]; cbn [run_to fst snd]; [| |destruct Hsv..];
      (split; [exact G|]); [|exact (conj eq_refl (conj eq_refl Hsv))].
    eexists. split; [exact Hsv|]. intros _. reflexivity.
  - exact (conj G Hr).
  - destruct Hr.
Qed.

Context `{!Base64Lib}.
(** Decoded text is bytes. *)
Context (base64_bytes : ∀ t d, base64_decode t = Some d → all_bytes d).

(** The request asks for a resolution: of these bytes, for this source. Otherwise it is refused
    with a status. *)
Definition doh_body (get : bool) (req : HttpRequest) : Z + bytes :=
  if get then
    match dns_param (uri_query req) with
    | [] => inl 400
    | param => match base64_decode param with
               | None => inl 400
               | Some d => if MAX_DNS_MSG <? len d then inl 413 else inr d
               end
    end
  else if negb (starts_with DOH_CONTENT_TYPE (default [] (content_type req))) then inl 415
  else match body req with None => inl 413 | Some [] => inl 400 | Some d => inr d end.
Definition doh_handler (get : bool) := if get then doh_get iter keys local_ip_toward else doh_post iter keys local_ip_toward.

Lemma doh_handler_cases get acl remote_addr req w :
  match doh_validate acl remote_addr (extract_host req) (proxy_tld (ctx w)) with
  | inl code => ∀ env n, run (doh_handler get acl remote_addr req) env n w = (Ok (Status code []), w)
  | inr src =>
      match doh_body get req with
      | inl code => ∃ text, ∀ env n, run (doh_handler get acl remote_addr req) env n w = (Ok (Status code text), w)
      | inr d => ∀ env n, run (doh_handler get acl remote_addr req) env n w =
                          run (resolve_doh iter keys local_ip_toward d src) env n w
      end
  end.
Proof.
  unfold doh_handler, doh_body. destruct get.
  - unfold doh_get. cbn [run]. destruct (doh_validate _ _ _ _) as [code|src]; [done|].
    destruct (dns_param (uri_query req)) as [|c t]; [by eexists|].
    destruct (base64_decode (c :: t)); [|by eexists]. destruct (_ <? _); [by eexists|]. done.
  - unfold doh_post. cbn [run]. destruct (doh_validate _ _ _ _) as [code|src]; [done|].
    destruct (negb _); [by eexists|]. destruct (body req) as [[|c t]|]; [by eexists| |by eexists]. done.
Qed.

(** C13: DNS over HTTPS. A request that the gate or its form refuses gets exactly its status, at once
    and without any change. Every other is answered, for the source the gate found, whatever the
    network and the other tasks do: a message that parses with what it resolves to in this run, the
    encoding of at most 4096 bytes of a message that answers the query, and an age that is the shortest TTL among
    its answers (0 without answers; of a message without records that look like OPT), or with
    SERVFAIL, when it asks nothing; and what cannot be parsed with FORMERR under its first two
    bytes. Only a query whose own questions do not fit gets 500. The state stays as other
    queries need it, and it panics only where resolving the query does. *)
Theorem doh_served (get : bool) (acl : AllowFromAcl) (remote_addr : option SocketAddr)
    (req : HttpRequest) (env : nat → list request → moment) (n : nat) (w : World) :
  match body req with Some d => all_bytes d | None => True end → env_ok good fits env → good w →
  let '(r, w') := run (doh_handler get acl remote_addr req) env n w in
  match doh_validate acl remote_addr (extract_host req) (proxy_tld (ctx w)), doh_body get req with
  | inl code, _ => r = Ok (Status code []) ∧ w' = w
  | inr _, inl code => ∃ text, r = Ok (Status code text) ∧ w' = w
  | inr src, inr msg => good w' ∧ doh_answer src env msg n w r
  end.
Proof.
  intros Hb He Hw. pose proof (doh_handler_cases get acl remote_addr req w) as Hc.
  destruct (doh_validate _ _ _ _) as [code|src]; [by rewrite Hc|].
  destruct (doh_body get req) as [code|d] eqn:Hd; [by destruct Hc as [text ->]; exists text|].
  assert (Hdb : all_bytes d).
  { revert Hd. unfold doh_body. destruct get.
    - destruct (dns_param (uri_query req)) as [|c t]; [done|].
      destruct (base64_decode (c :: t)) eqn:E; [|done]. destruct (_ <? _); [done|]. intros [= <-].
      by eapply base64_bytes.
    - destruct (negb _); [done|]. destruct (body req) as [[|c t]|]; [done| |done]. by intros [= <-]. }
  rewrite Hc, run_run_to. exact (resolve_doh_run src env d n w He Hdb Hw).
Qed.

(** * Datagrams *)

Context `{!ProxyLib} `{!ProxyLaws}.

Lemma copy_within_bytes (b : bytes) x y : all_bytes b → 0 ≤ x ≤ y → y ≤ len b →
  ∃ b', copy_within b x y = Ok b' ∧ len b' = len b ∧ all_bytes b' ∧
    take (Z.to_nat (y - x)) b' = take (Z.to_nat (y - x)) (drop (Z.to_nat x) b).
Proof.
  intros Hb Hx Hy. unfold copy_within. rewrite slice_Some by lia. eexists. split; [reflexivity|].
  split; [|split; [apply Forall_app; split; [apply Forall_take|]; by apply Forall_drop|]].
  - unfold len in *. rewrite length_app, !length_drop, length_take, length_drop. lia.
  - rewrite take_app_length'; [done|]. unfold len in *. rewrite length_take, length_drop. lia.
Qed.

(** The source a datagram is resolved for and the message it holds, when the gates let it pass. *)
Definition datagram_gate (acl : AllowFromAcl) (x : UdpPp) (d : bytes) (peer : SocketAddr)
    : option (SocketAddr * bytes) :=
  match x with
  | UdpBare => if allows acl (ip peer) then Some (peer, d) else None
  | UdpProxied src n local_command =>
      if admits acl (ip src) local_command then Some (src, drop (Z.to_nat n) d) else None
  | UdpDrop => None
  end.

(** C11: a datagram passes the gates or vanishes. Whatever its bytes, a datagram that its PROXY
    header or its source does not let pass gets no reply, and changes at most a counter; any other
    is handled for the source the gates found, as the message after its header, whatever the network and other tasks do. *)
Theorem datagram_served (acl : AllowFromAcl) (pp : option PpConfig) (d : bytes) (peer : SocketAddr)
    (env : nat → list request → moment) (n : nat) (w : World) :
  all_bytes d → len d ≤ BUF_SIZE → env_ok good fits env → good w →
  let '(r, w') := run (serve_datagram iter keys local_ip_toward acl pp d peer) env n w in
  let '(x, s) := parse_if_trusted d peer pp (stats (ctx w)) in
  match datagram_gate acl x d peer with
  | None => r = Ok None ∧ w' = on_stats s w
  | Some (src, msg) => good w' ∧
      ∃ b raw_len, pos b = 0 ∧ take (Z.to_nat raw_len) (buf b) = msg ∧
        (r, w') = run (handle_query iter keys local_ip_toward b raw_len src Transport.Udp) env n (on_stats s w) ∧
        handled iter keys local_ip_toward Transport.Udp b raw_len src env n (on_stats s w) r w'
  end.
Proof.
  intros Hd Hl He Hw. unfold serve_datagram. cbv zeta. cbn [run].
  assert (Hx : ∀ src k lc, fst (parse_if_trusted d peer pp (stats (ctx w))) = UdpProxied src k lc → 0 ≤ k ≤ len d).
  { unfold parse_if_trusted. destruct pp as [pp|]; [|done]. destruct (negb _); [done|].
    destruct (pp_parse d) as [[[source|] m]|] eqn:Hp; [| |done]; intros src k lc [= <- <- <-];
      pose proof (pp_parse_len _ _ _ Hp); lia. }
  destruct (parse_if_trusted d peer pp (stats (ctx w))) as [x s]. cbn [run fst] in *.
  pose proof (on_stats_good s w Hw) as Hg. pose proof (len_nonneg d) as Hl0.
  destruct (from_bytes_readable d Hd) as ((Hlen & _) & Hb & _).
  assert (Hbuf : buf (from_bytes d) = d ++ drop (length d) (buf Buffer.new)).
  { unfold from_bytes. rewrite Z.min_l by done. by rewrite to_nat_len, firstn_all. }
  assert (Hrun : ∀ b raw_len src, all_bytes b → len b = BUF_SIZE → 0 ≤ raw_len ≤ BUF_SIZE →
    let '(r, w') := run (handle_query iter keys local_ip_toward {| buf := b; pos := 0; overflow := false |}
                           raw_len src Transport.Udp) env n (on_stats s w) in
    good w' ∧ ∃ b' raw_len', pos b' = 0 ∧
      take (Z.to_nat raw_len') (buf b') = take (Z.to_nat raw_len) b ∧
      (r, w') = run (handle_query iter keys local_ip_toward b' raw_len' src Transport.Udp) env n (on_stats s w) ∧
      handled iter keys local_ip_toward Transport.Udp b' raw_len' src env n (on_stats s w) r w').
  { intros b raw_len src Hbb Hbl Hraw. set (b0 := {| buf := b; pos := 0; overflow := false |}).
    assert (Hread : readable b0).
    { split; [|split; [exact Hbb|unfold BUF_SIZE; cbn; lia]]. split; [exact Hbl|cbn; lia]. }
    pose proof (handle_query_run iter keys J local_ip_toward local_ip_toward_ok b0 raw_len src Transport.Udp
      env n _ He Hread Hraw Hg) as Hr.
    destruct (run (handle_query iter keys local_ip_toward b0 raw_len src Transport.Udp) env n (on_stats s w))
      as [r w'] eqn:E. destruct Hr as [Hr1 Hr2]. split; [exact Hr1|].
    exists b0, raw_len. rewrite E. exact (conj eq_refl (conj eq_refl (conj eq_refl Hr2))). }
  destruct x as [|src k local_command|]; cbn [udp_apply datagram_gate].
  - unfold admits. cbn [orb]. destruct (allows acl (ip peer)); cbn [negb]; [|exact (conj eq_refl eq_refl)].
    pose proof (Hrun (buf (from_bytes d)) (len d) peer Hb Hlen ltac:(lia)) as Hr.
    destruct (run _ _ _ _) as [r w']. rewrite Hbuf in Hr. by rewrite to_nat_len, take_app_length in Hr.
  - specialize (Hx src k local_command eq_refl).
    destruct (copy_within_bytes (buf (from_bytes d)) k (len d) Hb Hx) as (b' & -> & Hb1 & Hb2 & Hb3); [lia|].
    cbn [obind]. destruct (admits acl (ip src) local_command); cbn [negb]; [|exact (conj eq_refl eq_refl)].
    pose proof (Hrun b' (len d - k) src Hb2 ltac:(lia) ltac:(lia)) as Hr.
    destruct (run _ _ _ _) as [r w']. rewrite Hb3, Hbuf, drop_app_le in Hr by (unfold len in *; lia).
    rewrite take_app_length' in Hr by (unfold len in *; rewrite length_drop; lia). exact Hr.
  - exact (conj eq_refl eq_refl).
Qed.
End serving.

(** * Which hosts are this server *)

Section hosts.
Context `{NetLib} `{!Lowercase} `{!LowercaseLaws}.
Definition ascii (s : bytes) : Prop := Forall (λ b, 0 <= b < 128) s.

Lemma before_none c s : c ∉ before c s.
Proof.
  induction s as [|b s IH]; cbn; [apply not_elem_of_nil|]. destruct (Z.eqb_spec b c) as [->|Hne]; [apply not_elem_of_nil|].
  intros [->|Hin]%elem_of_cons; [done|by apply IH].
Qed.
Lemma before_Forall (P : Z → Prop) c s : Forall P s → Forall P (before c s).
Proof. induction 1; cbn; [constructor|]. destruct (_ =? _); by constructor. Qed.
Lemma lower_colon s : 58 ∉ s → 58 ∉ ascii_lower s.
Proof.
  intros Hs [b [Hb Hin]]%list_elem_of_In%in_map_iff. apply Hs. apply list_elem_of_In in Hin.
  unfold to_ascii_lowercase in Hb. destruct (_ && _) eqn:E; [|by subst].
  apply andb_true_iff in E as [?%Z.leb_le ?%Z.leb_le]. lia.
Qed.
Lemma split_once_in p s a b : split_once p s = Some (a, b) → s = a ++ p ++ b.
Proof.
  revert a b. induction s as [|c s IH]; intros a b; cbn; destruct (strip_prefix p _) as [r|] eqn:E; try done.
  - intros [= <- <-]. by apply strip_prefix_spec in E.
  - intros [= <- <-]. by apply strip_prefix_spec in E.
  - destruct (split_once p s) as [[a' b']|]; [|done]. intros [= <- <-]. cbn. by rewrite (IH a' b').
Qed.
Lemma rsplit_once_in p s a b : rsplit_once p s = Some (a, b) → s = a ++ p ++ b.
Proof.
  unfold rsplit_once. destruct (split_once _ _) as [[x y]|] eqn:E; [|done]. intros [= <- <-].
  apply split_once_in in E. rewrite <- (reverse_involutive s), E, !reverse_app, reverse_involutive.
  by rewrite <- app_assoc.
Qed.
(** A text without colons has no port to strip. *)
Lemma strip_port_free h : 58 ∉ h → strip_port h = None.
Proof.
  intros Hh. unfold strip_port. destruct (starts_with _ h).
  - destruct (rsplit_once (str "]:") h) as [[a b]|] eqn:E; [|done]. exfalso. apply Hh.
    apply rsplit_once_in in E. rewrite E, !elem_of_app. right. left. by vm_compute; right; left.
  - destruct (rsplit_once (str ":") h) as [[a b]|] eqn:E; [|done]. exfalso. apply Hh.
    apply rsplit_once_in in E. rewrite E, !elem_of_app. right. left. by vm_compute; left.
Qed.
Lemma is_tld_match_spec h tld : is_tld_match h tld = true ↔ h = tld ∨ h = tld ++ str "." ++ tld.
Proof.
  unfold is_tld_match. rewrite orb_true_iff, !andb_true_iff, bool_decide_eq_true, Z.eqb_eq, bool_decide_eq_true.
  split; (intros [->|Hh]; [by left|right]).
  - destruct Hh as (((Hl & [r ->]%starts_with_spec) & Hi) & He). f_equal.
    rewrite len_app in Hl. destruct r as [|c r]; [len_lia|]. rewrite len_cons in Hl.
    rewrite (index_app tld c r _ eq_refl) in Hi. injection Hi as ->. cbn [str app]. f_equal.
    unfold ends_with in He. apply starts_with_spec in He as [q Hq].
    assert (Hr : tld ++ 46 :: r = reverse q ++ tld).
    { rewrite <- (reverse_involutive (tld ++ 46 :: r)), Hq, reverse_app, reverse_involutive. done. }
    change (46 :: r) with ([46] ++ r) in Hr. rewrite app_assoc in Hr.
    apply app_inj_2 in Hr as [_ ?]; [done|]. unfold len in Hl. lia.
  - subst h. rewrite !len_app. split; [split; [split|]|].
    + cbn. len_lia.
    + apply starts_with_spec. by eexists.
    + exact (index_app tld 46 tld _ eq_refl).
    + unfold ends_with. apply starts_with_spec. rewrite !reverse_app, <- app_assoc. by eexists.
Qed.

(** Who is served over HTTPS. A request of an ASCII host header is taken for one to this
    server exactly when the text before its first colon is, letter case apart, [127.0.0.1],
    [localhost], the proxy's domain or that domain under itself; never when it is an IPv6
    address, the loopback address [[::1]] included, with or without a port. Then, if an
    allowlist is on, its peer has to be known and allowed. The query is resolved for that
    peer, or for the loopback address when it is not known. *)
Theorem doh_gate (acl : AllowFromAcl) (remote_addr : option SocketAddr) (req : HttpRequest) (tld : bytes) :
  match host req with Some h => ascii h | None => True end → 58 ∉ tld →
  (∀ src, doh_validate acl remote_addr (extract_host req) tld = inr src ↔
    (∃ h, host req = Some h ∧
       ascii_lower (before 58 h) ∈ [str "127.0.0.1"; str "localhost"; tld; tld ++ str "." ++ tld]) ∧
    (acl_is_enabled acl = true → ∃ a, remote_addr = Some a ∧ allows acl (ip a) = true) ∧
    src = default (MkSock (V4 (Ipv4 127 0 0 1)) 0) remote_addr) ∧
  (∀ a rest, host req = Some (str "[" ++ a ++ rest) → 58 ∈ a → ¬ (∃ t, tld = str "[" ++ t) →
    doh_validate acl remote_addr (extract_host req) tld = inl 404).
Proof.
  intros Hh Ht.
  assert (Hx : is_doh_host (extract_host req) tld = true ↔ ∃ h, host req = Some h ∧
    ascii_lower (before 58 h) ∈ [str "127.0.0.1"; str "localhost"; tld; tld ++ str "." ++ tld]).
  { unfold extract_host. destruct (host req) as [h|]; cbn [option_map is_doh_host]; [|by split; [|intros (? & ? & _)]].
    rewrite to_lowercase_ascii by by apply before_Forall.
    assert (Hf : 58 ∉ ascii_lower (before 58 h)) by apply lower_colon, before_none.
    rewrite strip_port_free by done. cbn [default]. set (name := ascii_lower (before 58 h)) in *.
    rewrite orb_true_iff, is_tld_match_spec. unfold is_loopback_host. rewrite bool_decide_eq_true.
    assert (Hnot : name ≠ str "::1" ∧ name ≠ str "[::1]").
    { split; intros E; apply Hf; rewrite E; vm_compute; [by left|by right; left]. }
    destruct Hnot as [Hn1 Hn2]. rewrite !elem_of_cons. split.
    - intros Hd. exists h. split; [done|]. fold name. set_solver.
    - intros (h' & [= <-] & Hd). fold name in Hd. set_solver. }
  assert (Hv : ∀ src, doh_validate acl remote_addr (extract_host req) tld = inr src ↔
    is_doh_host (extract_host req) tld = true ∧
    (acl_is_enabled acl = true → ∃ a, remote_addr = Some a ∧ allows acl (ip a) = true) ∧
    src = default (MkSock (V4 (Ipv4 127 0 0 1)) 0) remote_addr).
  { intros src. unfold doh_validate. destruct (is_doh_host _ _); cbn [negb]; [|by split; [|intros []]].
    destruct (acl_is_enabled acl), remote_addr as [a|]; cbn [andb negb default].
    - destruct (allows acl (ip a)) eqn:Ea; cbn [negb].
      + split; [intros [= <-]|intros (_ & _ & ->)]; [|done]. split; [done|]. split; [|done]. intros _. by exists a.
      + split; [done|]. intros (_ & Hc & _). destruct (Hc eq_refl) as (a' & [= <-] & Hc'). congruence.
    - split; [done|]. intros (_ & Hc & _). by destruct (Hc eq_refl) as (a' & ? & _).
    - split; [intros [= <-]; by split|by intros (_ & _ & ->)].
    - split; [intros [= <-]; by split|by intros (_ & _ & ->)]. }
  split; [intros src; by rewrite Hv, Hx|]. intros a rest Hreq Ha Ht'.
  unfold doh_validate. replace (is_doh_host _ _) with false; [done|]. symmetry. apply not_true_iff_false.
  rewrite Hx. intros (h & Hh' & Hin). rewrite Hreq in Hh'. apply (inj Some) in Hh' as <-.
  assert (Hb : ∃ t, ascii_lower (before 58 (str "[" ++ a ++ rest)) = str "[" ++ t) by (by eexists).
  destruct Hb as [t Hb]. rewrite Hb in Hin. clear Hb.
  repeat (apply elem_of_cons in Hin as [Hin|Hin]).
  - discriminate Hin.
  - discriminate Hin.
  - apply Ht'. by exists t.
  - destruct tld as [|c tld]; [discriminate Hin|]. cbn in Hin. injection Hin as <- _. apply Ht'. by exists tld.
  - by apply elem_of_nil in Hin.
Qed.
End hosts.

(** * The proxy and the names it serves *)

Section proxy.
Context `{Lowercase} `{NetLib} (local_ip_toward : IpAddr → option Ipv4Addr)
  (show_ipv6 : Ipv6Addr → bytes) (uri_parse : bytes → bool).



End proxy.

(** * Instances *)

#[local] Existing Instance sample_net.
#[local] Existing Instance lowercase_ascii.
#[local] Existing Instance lowercase_ascii_laws.
Definition open_acl : AllowFromAcl := MkAcl (@MkMatcher sample_net [] []).
Definition lan_acl : AllowFromAcl := MkAcl (@MkMatcher sample_net [(V4 (Ipv4 192 168 1 0), 3)] []).

(** A decoder of the URL-safe alphabet. *)
Definition sextet (c : Z) : option Z :=
  if (65 <=? c) && (c <=? 90) then Some (c - 65)
  else if (97 <=? c) && (c <=? 122) then Some (c - 71)
  else if (48 <=? c) && (c <=? 57) then Some (c + 4)
  else if c =? 45 then Some 62 else if c =? 95 then Some 63 else None.
Fixpoint octets (s : list Z) : option (list Z) :=
  match s with
  | [] => Some []
  | [a; b] => Some [a * 4 + b / 16]
  | [a; b; c] => Some [a * 4 + b / 16; b * 16 + c / 4]
  | a :: b :: c :: d :: s => r ← octets s; Some (a * 4 + b / 16 :: b * 16 + c / 4 :: c * 64 + d :: r)
  | _ => None
  end.
Definition base64url (t : bytes) : option bytes := option_map (map as_u8) (mapM sextet t ≫= octets).
#[local] Instance sample_base64 : Base64Lib := base64url.
Lemma base64url_bytes t d : base64url t = Some d → all_bytes d.
Proof.
  unfold base64url. destruct (mapM sextet t ≫= octets) as [l|]; cbn [option_map]; [|done]. intros [= <-].
  apply Forall_forall. intros x [z [<- _]]%list_elem_of_In%in_map_iff.
  unfold is_byte, as_u8. apply Z.mod_pos_bound. lia.
Qed.

(** A peer that sends this message again and again and takes every reply; upstreams that answer
    with these bytes. *)
Definition framed_env (msg : bytes) (wire : result) (n : nat) (rs : list request) : @moment World reply :=
  {| pick := 0%nat;
     answer := match rs with
               | Failover _ _ :: _ => Attempts (λ _ _ _, (wire, 5))
               | Exchange _ _ :: _ => Data (inl NoneValue)
               | Recv _ :: _ => Received None
               | ReadExact n :: _ => BytesRead (if n =? 2 then Some (be16 (len msg))
                                                else if n =? len msg then Some msg else None)
               | WriteAll _ :: _ => Written true
               | _ => Elapsed
               end;
     resume := λ w, w |}.
Lemma framed_env_ok J msg wire : all_bytes msg → result_bytes wire →
  env_ok (good J) fits (framed_env msg wire).
Proof.
  intros Hm Hw n q qs. split; [|done]. exists q. split; [done|]. destruct q; try done.
  cbn. destruct (Z.eqb_spec n0 2) as [->|]; [split; [done|apply be16_is_bytes]|].
  by destruct (Z.eqb_spec n0 (len msg)) as [->|].
Qed.
Definition anything : RebindFilter * bool * bool → Prop := λ _, True.
Lemma evil_datagram_bytes : all_bytes evil_datagram.
Proof. apply (bool_decide_unpack _). vm_compute. exact I. Qed.

Definition framed_session : outcome (option (list (bytes * option bytes))) * World :=
  run (@serve_stream _ _ iter_list keys_list (λ _, None)
    (constant_validator Indeterminate) open_acl None sample_client HeaderTimeout true Transport.Dot 2)
    (framed_env evil_datagram rebinding_reply) 0 forward_world.
Lemma stream_served_witness :
  let '(r, w') := framed_session in
  good anything w' ∧
  (∃ log n', r = (let? l := log in Ok (Some l)) ∧
     @conversation _ _ iter_list keys_list (λ _, None) (constant_validator Indeterminate) Transport.Dot
       sample_client (framed_env evil_datagram rebinding_reply) 2 0 (on_stats (stats (ctx forward_world)) forward_world)
       log n' w') ∧
  match r with Ok (Some [(m, Some _); (_, Some _)]) => m = evil_datagram | _ => False end.
Proof.
  pose proof (@stream_served _ _ iter_list _ keys_list anything (λ _, None) ltac:(discriminate)
    (constant_validator Indeterminate) (constant_validator_ends _ _) open_acl None sample_client
    HeaderTimeout true Transport.Dot 2 (framed_env evil_datagram rebinding_reply) 0 forward_world
    (framed_env_ok anything _ _ evil_datagram_bytes rebinding_reply_bytes)
    (forward_world_good anything I)) as Hc.
  assert (Hr : match fst framed_session with
    | Ok (Some [(m, Some _); (_, Some _)]) => m = evil_datagram | _ => False end)
    by (vm_compute; reflexivity).
  unfold framed_session in *. destruct (run _ _ _ _) as [r w']. destruct Hc as (Hg & Hc).
  split; [exact Hg|]. split; [exact Hc|exact Hr].
Defined.

(** The query of [evil_datagram] as the URL of a GET. *)
Definition doh_request (host_header : string) : HttpRequest :=
  MkHttp (Some (str host_header)) None (str "/dns-query")
    (Some (str "ct=&dns=AAcBAAABAAAAAAAABGV2aWwHZXhhbXBsZQAAAQAB")) false None.
Lemma doh_served_witness :
  let '(r, w') := run (@doh_handler _ _ iter_list keys_list (λ _, None)
    (constant_validator Indeterminate) sample_base64 true lan_acl (Some sample_client) (doh_request "Numa:443"))
    (upstream_env rebinding_reply) 0 forward_world in
  good anything w' ∧
  @doh_answer _ _ iter_list keys_list (λ _, None) (constant_validator Indeterminate) sample_client
    (upstream_env rebinding_reply) evil_datagram 0 forward_world r ∧
  match r with Ok (DnsMessage _ age) => age = 60 | _ => False end.
Proof.
  pose proof (@doh_served _ _ iter_list _ keys_list anything (λ _, None) ltac:(discriminate)
    (constant_validator Indeterminate) (constant_validator_ends _ _) sample_base64 base64url_bytes
    true lan_acl (Some sample_client) (doh_request "Numa:443") (upstream_env rebinding_reply) 0
    forward_world I (upstream_env_ok anything _ rebinding_reply_bytes) (forward_world_good anything I)) as Hc.
  assert (Hr : match fst (run (@doh_handler _ _ iter_list keys_list (λ _, None)
    (constant_validator Indeterminate) sample_base64 true lan_acl (Some sample_client) (doh_request "Numa:443"))
    (upstream_env rebinding_reply) 0 forward_world) with
    | Ok (DnsMessage _ age) => age = 60 | _ => False end) by (vm_compute; reflexivity).
  assert (Hv : doh_validate lan_acl (Some sample_client) (extract_host (doh_request "Numa:443"))
    (proxy_tld (ctx forward_world)) = inr sample_client) by (vm_compute; reflexivity).
  assert (Hd : @doh_body sample_base64 true (doh_request "Numa:443") = inr evil_datagram) by (vm_compute; reflexivity).
  rewrite Hv, Hd in Hc. destruct (run _ _ _ _) as [r w']. destruct Hc as (Hg & Hc).
  split; [exact Hg|]. split; [exact Hc|exact Hr].
Defined.

#[local] Instance no_headers : ProxyLib := λ _, None.
Lemma datagram_served_witness :
  let '(r, w') := run (@serve_datagram _ _ iter_list keys_list (λ _, None)
    (constant_validator Indeterminate) no_headers lan_acl None evil_datagram sample_client)
    (upstream_env rebinding_reply) 0 forward_world in
  good anything w' ∧
  (∃ b raw_len, take (Z.to_nat raw_len) (buf b) = evil_datagram ∧
     @handled _ _ iter_list keys_list (λ _, None) (constant_validator Indeterminate) Transport.Udp b raw_len
       sample_client (upstream_env rebinding_reply) 0 (on_stats (stats (ctx forward_world)) forward_world) r w') ∧
  match r with Ok (Some _) => True | _ => False end.
Proof.
  pose proof (@datagram_served _ _ iter_list _ keys_list anything (λ _, None) ltac:(discriminate)
    (constant_validator Indeterminate) (constant_validator_ends _ _) no_headers ltac:(discriminate)
    lan_acl None evil_datagram sample_client (upstream_env rebinding_reply) 0 forward_world
    evil_datagram_bytes ltac:(vm_compute; discriminate) (upstream_env_ok anything _ rebinding_reply_bytes)
    (forward_world_good anything I)) as Hc.
  assert (Hr : match fst (run (@serve_datagram _ _ iter_list keys_list (λ _, None)
    (constant_validator Indeterminate) no_headers lan_acl None evil_datagram sample_client)
    (upstream_env rebinding_reply) 0 forward_world) with Ok (Some _) => True | _ => False end)
    by (vm_compute; exact I).
  destruct (run _ _ _ _) as [r w'].
  assert (Hx : @datagram_gate sample_net lan_acl UdpBare evil_datagram sample_client = Some (sample_client, evil_datagram))
    by (vm_compute; reflexivity).
  cbn [parse_if_trusted] in Hc. rewrite Hx in Hc.
  destruct Hc as (Hg & b & raw_len & _ & Hb & _ & Hh). split; [exact Hg|].
  split; [exists b, raw_len; exact (conj Hb Hh)|exact Hr].
Defined.

Lemma doh_gate_witness :
  doh_validate lan_acl (Some sample_client) (extract_host (doh_request "NUMA.numa:443")) (str "numa") = inr sample_client ∧
  doh_validate open_acl None (extract_host (doh_request "[::1]:443")) (str "numa") = inl 404.
Proof.
  split.
  - apply (doh_gate lan_acl (Some sample_client) (doh_request "NUMA.numa:443") (str "numa")).
    + apply (bool_decide_unpack (ascii _)). vm_compute. exact I.
    + apply (bool_decide_unpack _). vm_compute. exact I.
    + split; [|split; [|reflexivity]].
      * eexists. split; [reflexivity|]. apply (bool_decide_unpack _). vm_compute. exact I.
      * intros _. exists sample_client. split; [reflexivity|]. vm_compute. reflexivity.
  - apply (doh_gate open_acl None (doh_request "[::1]:443") (str "numa")) with (a := str "::1") (rest := str "]:443").
    + apply (bool_decide_unpack (ascii _)). vm_compute. exact I.
    + apply (bool_decide_unpack _). vm_compute. exact I.
    + reflexivity.
    + apply (bool_decide_unpack _). vm_compute. exact I.
    + intros [t Ht]. discriminate Ht.
Defined.

