(* ===== verification/SystemDns.v ===== *)
(** [src/src/system_dns.rs]: what the operating system's resolver settings say, and how
    installing and uninstalling change them. The contents of files and the output of commands
    are arguments or part of the state, as text; reading and writing succeed unless a missing
    file is said to matter. Windows is not modelled. *)
From stdpp Require Import gmap.
From S2P Require Import Prelude Net Ip Text Domains QueryLog Forward Zones.
Open Scope outcome_scope.

Definition is_loopback_or_stub (addr : bytes) : bool :=
  bool_decide (addr ∈ [str "127.0.0.1"; str "127.0.0.53"; str "0.0.0.0"; str "::1"; str "fec0:0:0:ffff::1";
                       str "fec0:0:0:ffff::2"; str "fec0:0:0:ffff::3"; []]).
Definition is_real (addr : bytes) : bool := negb (is_loopback_or_stub addr).

Record SystemDnsInfo := MkDns {
  default_upstream : option bytes;
  forwarding_rules : list (ForwardingRule UpstreamPool)
}.

Definition make_rule (domain nameserver : bytes) : option (ForwardingRule UpstreamPool) :=
  match parse_upstream_addr nameserver 53 with
  | Ok addr => Some (rule_new domain (MkPool [Udp addr] []))
  | _ => None
  end.
Definition is_port_53 (bind_addr : bytes) : bool :=
  match parse_socket bind_addr with Some s => port s =? 53 | None => false end.

(** * macOS: the output of [scutil --dns] *)

Section scutil.
Context `{Lowercase}.

Record ScutilState := MkScutil {
  rules : list (ForwardingRule UpstreamPool);
  scutil_upstream : option bytes;
  current_domain : option bytes;
  current_nameserver : option bytes;
  is_supplemental : bool
}.
Definition scutil_default : ScutilState := MkScutil [] None None None false.

Definition flush (s : ScutilState) : ScutilState :=
  let rs := match current_domain s, current_nameserver s, is_supplemental s with
            | Some domain, Some ns, true => option_list (make_rule domain ns)
            | _, _, _ => []
            end in
  MkScutil (rules s ++ rs) (scutil_upstream s) None None false.
(** [line.split(':').nth(1)]. *)
Definition second_field (line : bytes) : option bytes := nth_error (split_on 58 line) 1.
Definition set_domain (line : bytes) (s : ScutilState) : ScutilState :=
  match second_field line with
  | None => s
  | Some val =>
      let domain := to_lowercase (trim_end_byte 46 (trim val)) in
      if bool_decide (domain = []) || bool_decide (domain = str "local")
         || ends_with (str "in-addr.arpa") domain || ends_with (str "ip6.arpa") domain then s
      else MkScutil (rules s) (scutil_upstream s) (Some domain) (current_nameserver s) (is_supplemental s)
  end.
Definition set_nameserver (line : bytes) (s : ScutilState) : ScutilState :=
  match second_field line with
  | None => s
  | Some val =>
      let ns := trim val in
      match parse_ipv4 ns with
      | None => s
      | Some _ =>
          let up := if negb (is_supplemental s) && bool_decide (scutil_upstream s = None)
                       && negb (is_loopback_or_stub ns)
                    then Some ns else scutil_upstream s in
          MkScutil (rules s) up (current_domain s) (Some ns) (is_supplemental s)
      end
  end.
(** Whether the parser stops, and the state. *)
Definition handle_line (line : bytes) (s : ScutilState) : bool * ScutilState :=
  if starts_with (str "resolver #") line then (false, flush s)
  else if starts_with (str "domain") line && contains 58 line then (false, set_domain line s)
  else if starts_with (str "nameserver[0]") line && contains 58 line then (false, set_nameserver line s)
  else if starts_with (str "flags") line && contains_text (str "Supplemental") line then
    (false, MkScutil (rules s) (scutil_upstream s) (current_domain s) (current_nameserver s) true)
  else if starts_with (str "DNS configuration (for scoped") line then (true, flush s)
  else (false, s).
Fixpoint handle_lines (ls : list bytes) (s : ScutilState) : ScutilState :=
  match ls with
  | [] => s
  | l :: ls => let '(stop, s) := handle_line (trim l) s in if stop then s else handle_lines ls s
  end.
Definition discover_macos (scutil : option bytes) : SystemDnsInfo :=
  match scutil with
  | None => MkDns None []
  | Some text =>
      let s := flush (handle_lines (lines text) scutil_default) in
      MkDns (scutil_upstream s) (sort_by_key (λ r, - len (suffix r)) (rules s))
  end.
End scutil.

(** [ipconfig getpacket] of the interfaces tried; a command that cannot be run ends the search. *)
Definition dhcp_server (text : bytes) : option bytes :=
  head (omap (λ line,
    if contains_text (str "domain_name_server") line then
      braces ← nth_error (split_on 123 line) 1;
      head (List.filter (λ addr, negb (is_loopback_or_stub addr)
                                 && match parse_ipv4 addr with Some _ => true | None => false end)
              (map trim (split_on 44 (trim (trim_end_byte 125 braces)))))
    else None) (lines text)).
Fixpoint detect_dhcp_dns_macos (outputs : list (option bytes)) : option bytes :=
  match outputs with
  | [] => None
  | None :: _ => None
  | Some text :: outputs => match dhcp_server text with Some a => Some a | None => detect_dhcp_dns_macos outputs end
  end.

(** * Linux: [/etc/resolv.conf] and [resolvectl] *)

Definition CLOUD_VPC_RESOLVER : bytes := str "169.254.169.253".

Definition nameserver_of (line : bytes) : option bytes :=
  match split_whitespace line with
  | w :: rest => if bool_decide (w = str "nameserver") then head rest else None
  | [] => None
  end.
Definition iter_nameservers (content : bytes) : list bytes := omap nameserver_of (lines content).
Definition search_domains_of (line : bytes) : list bytes :=
  let line := trim line in
  if starts_with (str "search") line || starts_with (str "domain") line
  then List.filter (λ d, negb (bool_decide (d = [])))
         (map (trim_end_byte 46) (drop 1 (split_whitespace line)))
  else [].
(** [None] is a file that cannot be read. *)
Definition parse_resolv_conf (file : option bytes) : option bytes * list bytes :=
  match file with
  | None => (None, [])
  | Some text => (head (List.filter is_real (iter_nameservers text)), flat_map search_domains_of (lines text))
  end.
Definition resolv_conf_has_real_upstream (content : bytes) : bool := existsb is_real (iter_nameservers content).
Definition resolv_conf_is_numa_managed (content : bytes) : bool :=
  contains_text (str "Generated by Numa") content || negb (resolv_conf_has_real_upstream content).

Definition server_of_line (line : bytes) : option bytes :=
  if contains_text (str "DNS Servers") line || contains_text (str "Current DNS Server") line then
    let ip := trim (List.last (split_on 58 line) []) in
    if match parse_ip ip with Some _ => true | None => false end && negb (is_loopback_or_stub ip)
    then Some ip else None
  else None.
Definition resolvectl_dns_server (resolvectl : option bytes) : option bytes :=
  match resolvectl with None => None | Some text => head (omap server_of_line (lines text)) end.

Definition discover_linux (resolv backup resolvectl : option bytes) : SystemDnsInfo :=
  let '(up, search_domains) := parse_resolv_conf resolv in
  let default_upstream :=
    match up with
    | Some ns => Some ns
    | None => match resolvectl_dns_server resolvectl with
              | Some ns => Some ns
              | None => fst (parse_resolv_conf backup)
              end
    end in
  let forwarder := default CLOUD_VPC_RESOLVER (resolvectl_dns_server resolvectl) in
  MkDns default_upstream (omap (λ domain, make_rule domain forwarder) search_domains).

(** * Installing and uninstalling *)

(** The files of a Linux machine: whether the drop-in of systemd-resolved is there, and the
    contents of [resolv.conf] and of its backup. *)
Record LinuxFiles := MkFiles { drop_in : bool; resolv : option bytes; backup : option bytes }.
Definition NUMA_RESOLV_CONF : bytes :=
  str "# Generated by Numa — run 'sudo numa uninstall' to restore" ++ [10] ++ str "nameserver 127.0.0.1"
    ++ [10] ++ str "search numa" ++ [10].

Definition install_linux (systemd_resolved_active : bool) (f : LinuxFiles) : LinuxFiles :=
  if systemd_resolved_active then MkFiles true (resolv f) (backup f)
  else
    let managed := match resolv f with Some c => resolv_conf_is_numa_managed c | None => false end in
    let useful := match backup f with Some c => resolv_conf_has_real_upstream c | None => false end in
    let backup' := if useful || managed then backup f
                   else match resolv f with Some c => Some c | None => backup f end in
    MkFiles (drop_in f) (Some NUMA_RESOLV_CONF) backup'.
Definition uninstall_linux (f : LinuxFiles) : LinuxFiles :=
  if drop_in f then MkFiles false (resolv f) (backup f)
  else match backup f with
       | Some c => MkFiles false (Some c) None
       | None => f
       end.

(** The network services of a Mac, with their DNS servers and search domains (none: those of
    DHCP), the backup file, and whether [/etc/resolver/numa] is there. *)
Record MacDns := MkMac {
  services : list bytes;
  servers : gmap bytes (list bytes);
  search_domains : gmap bytes (list bytes);
  mac_backup : option (gmap bytes (list bytes));
  dropin : bool
}.
(** The output of [networksetup -listallnetworkservices] and [-getdnsservers]. *)
Definition get_network_services (text : bytes) : list bytes :=
  List.filter (λ l, negb (bool_decide (l = [])))
    (map (λ l, trim (drop_while 42 l)) (drop 1 (lines text))).
Definition get_dns_servers (text : bytes) : list bytes :=
  let text := trim text in
  if contains_text (str "aren't any DNS Servers") text then [] else map trim (lines text).

Definition backup_has_real_upstream_macos (b : gmap bytes (list bytes)) : bool :=
  existsb (λ kv : bytes * list bytes, existsb is_real (snd kv)) (map_to_list b).
Definition servers_of (m : MacDns) (service : bytes) : list bytes := default [] (servers m !! service).

(** Each call of [networksetup] is for one service. *)
Fixpoint set_each (ss : list bytes) (v : list bytes) (m : gmap bytes (list bytes)) : gmap bytes (list bytes) :=
  match ss with [] => m | s :: ss => set_each ss v (<[s := v]> m) end.
Definition install_macos (m : MacDns) : MacDns :=
  let useful := match mac_backup m with Some b => backup_has_real_upstream_macos b | None => false end in
  let backup := if useful then mac_backup m
                else Some (foldl (λ b s, <[s := List.filter is_real (servers_of m s)]> b) ∅ (services m)) in
  MkMac (services m) (set_each (services m) [str "127.0.0.1"] (servers m))
    (set_each (services m) [str "numa"] (search_domains m)) backup true.
(** Restoring a service that is gone fails with a warning. *)
Definition restore (m : MacDns) (original : gmap bytes (list bytes)) : MacDns :=
  let known := List.filter (λ kv : bytes * list bytes, bool_decide (fst kv ∈ services m)) (map_to_list original) in
  MkMac (services m) (foldl (λ d kv, <[fst kv := snd kv]> d) (servers m) known)
    (foldl (λ d kv, <[fst kv := []]> d) (search_domains m) known) None false.
Definition uninstall_macos (m : MacDns) : MacDns :=
  match mac_backup m with
  | None => MkMac (services m) (servers m) (search_domains m) None false
  | Some original => restore m original
  end.

(** * What discovery finds *)

Lemma head_omap_in {A B} (f : A → option B) l y : head (omap f l) = Some y → ∃ x, x ∈ l ∧ f x = Some y.
Proof.
  induction l as [|x l IH]; [done|]. cbn. destruct (f x) as [z|] eqn:E.
  - intros [= <-]. exists x. split; [by left|done].
  - intros H. destruct (IH H) as (x' & Hx & Hf). exists x'. split; [by right|done].
Qed.
Lemma head_filter_in {A} (p : A → bool) l y : head (List.filter p l) = Some y → y ∈ l ∧ p y = true.
Proof.
  intros H. assert (Hin : In y (List.filter p l)) by (destruct (List.filter p l); [done|injection H as ->; by left]).
  apply filter_In in Hin as [Hin Hp]. split; [by apply list_elem_of_In|done].
Qed.
Lemma parse_resolv_conf_real file ns : fst (parse_resolv_conf file) = Some ns → is_real ns = true.
Proof. destruct file as [text|]; [|done]. cbn. intros [_ H]%head_filter_in. exact H. Qed.
Lemma resolvectl_real text ns : resolvectl_dns_server text = Some ns → is_real ns = true ∧ is_Some (parse_ip ns).
Proof.
  destruct text as [text|]; [|done]. cbn. intros (line & _ & Hl)%head_omap_in. revert Hl. unfold server_of_line.
  destruct (_ || _); [|done]. set (ip := trim _). destruct (parse_ip ip) eqn:Ei; cbn [andb]; [|done].
  destruct (negb _) eqn:E; [|done]. intros [= <-]. rewrite Ei. split; [exact E|done].
Qed.

(** An IPv4 address is an upstream as it stands. *)
Lemma read_ipv4_digit s r : read_ipv4_addr s = Some r → ∃ c t d, s = c :: t ∧ digit_value 10 c = Some d.
Proof.
  unfold read_ipv4_addr. cbn [read_octets read_separator]. unfold read_number at 1.
  destruct s as [|c t]; [done|]. cbn [read_digits]. destruct (digit_value 10 c) as [d|] eqn:Hd; [|done].
  intros _. by exists c, t, d.
Qed.
Lemma not_digit_prefix p s c t d : s = c :: t → digit_value 10 c = Some d →
  match p with x :: _ => digit_value 10 x = None | [] => False end → strip_prefix p s = None.
Proof.
  intros -> Hd Hp. destruct p as [|x p]; [done|]. cbn. destruct (Z.eqb_spec x c) as [->|]; [congruence|done].
Qed.
Lemma parse_upstream_ipv4 s a port : parse_ipv4 s = Some a → parse_upstream s port = Ok (Udp (MkSock (V4 a) port)).
Proof.
  unfold parse_ipv4. destruct (15 <? len s); [done|]. destruct (read_ipv4_addr s) as [[a' [|]]|] eqn:E; try done.
  intros [= ->]. destruct (read_ipv4_digit _ _ E) as (c & t & d & Hs & Hd).
  unfold parse_upstream, starts_with. rewrite !(not_digit_prefix _ s c t d) by done.
  unfold parse_upstream_addr, parse_socket, read_socket_v4, parse_ip. rewrite E. cbn [read_port read_char].
  assert (Hv6 : read_socket_v6 s = None).
  { unfold read_socket_v6. rewrite Hs. cbn [read_char]. destruct (Z.eqb_spec c 91) as [->|]; [|done].
    vm_compute in Hd. discriminate Hd. }
  by rewrite Hv6.
Qed.

Section discovery.
Context `{Lowercase}.

(** The upstream found so far is a real IPv4 address. *)
Definition scutil_ok (s : ScutilState) : Prop :=
  ∀ ns, scutil_upstream s = Some ns → is_real ns = true ∧ is_Some (parse_ipv4 ns).
Lemma handle_line_ok line s : scutil_ok s → scutil_ok (snd (handle_line line s)).
Proof.
  intros Hs. unfold handle_line. destruct (starts_with _ line); [exact Hs|].
  destruct (_ && _).
  { unfold set_domain. destruct (second_field line); [|exact Hs]. destruct (_ || _); exact Hs. }
  destruct (_ && _).
  { unfold set_nameserver. destruct (second_field line) as [val|]; [|exact Hs].
    destruct (parse_ipv4 (trim val)) eqn:Ep; [|exact Hs]. cbn [snd]. intros ns. cbn [scutil_upstream].
    destruct (_ && _ && _) eqn:E; [|apply Hs]. intros [= <-]. rewrite Ep.
    apply andb_true_iff in E as [_ E]. split; [exact E|by eexists]. }
  destruct (_ && _); [exact Hs|]. destruct (starts_with _ line); exact Hs.
Qed.
Lemma handle_lines_ok ls : ∀ s, scutil_ok s → scutil_ok (handle_lines ls s).
Proof.
  induction ls as [|l ls IH]; intros s Hs; cbn [handle_lines]; [done|].
  pose proof (handle_line_ok (trim l) s Hs) as Hl. destruct (handle_line (trim l) s) as [[] s1]; [done|by apply IH].
Qed.
Lemma dhcp_server_real text ns : dhcp_server text = Some ns → is_real ns = true ∧ is_Some (parse_ipv4 ns).
Proof.
  intros (line & _ & Hl)%head_omap_in. revert Hl. cbv beta. destruct (contains_text _ line); [|done].
  destruct (nth_error _ 1) as [braces|]; [|done]. cbn [mbind option_bind].
  intros [_ [Hr Hp]%andb_true_iff]%head_filter_in. split; [exact Hr|].
  by destruct (parse_ipv4 ns); [eexists|].
Qed.

(** What is discovered is not the server itself. Whatever the files and commands of the system
    say, a server discovered as upstream is none of the addresses that stand for the machine
    itself or for no server; and one found on macOS, or in its leases, is an IPv4 address that
    the pool is built from without an error. *)
Theorem discovered_upstream_real (scutil resolv backup resolvectl : option bytes)
    (leases : list (option bytes)) (ns : bytes) :
  (default_upstream (discover_linux resolv backup resolvectl) = Some ns → is_loopback_or_stub ns = false) ∧
  (default_upstream (discover_macos scutil) = Some ns ∨ detect_dhcp_dns_macos leases = Some ns →
   is_loopback_or_stub ns = false ∧
   ∃ a, parse_ipv4 ns = Some a ∧ ∀ port, parse_upstream ns port = Ok (Udp (MkSock (V4 a) port))).
Proof.
  assert (Hreal : is_real ns = true → is_loopback_or_stub ns = false) by apply negb_true_iff.
  split.
  - intros H1. apply Hreal. unfold discover_linux in H1.
    pose proof (parse_resolv_conf_real resolv) as Hr. destruct (parse_resolv_conf resolv) as [up sd].
    cbn [default_upstream fst] in *. destruct up as [u|]; [by apply Hr|].
    destruct (resolvectl_dns_server resolvectl) as [u|] eqn:E.
    + injection H1 as ->. by apply resolvectl_real in E as [? _].
    + by apply parse_resolv_conf_real in H1.
  - intros Hd. assert (Hn : is_real ns = true ∧ is_Some (parse_ipv4 ns)).
    { destruct Hd as [Hd|Hd].
      - destruct scutil as [text|]; [|done]. revert Hd. cbn. apply (handle_lines_ok (lines text) scutil_default).
        by intros ?.
      - revert Hd. induction leases as [|[text|] leases IH]; [done| |done]. cbn [detect_dhcp_dns_macos].
        destruct (dhcp_server text) as [x|] eqn:E; [|exact IH]. intros [= ->]. by apply dhcp_server_real in E. }
    destruct Hn as [Hn [a Ha]]. split; [by apply Hreal|]. exists a. split; [done|].
    intros port. by apply parse_upstream_ipv4.
Qed.
End discovery.

(** * Installing is undone by uninstalling *)

Lemma numa_conf_managed : resolv_conf_is_numa_managed NUMA_RESOLV_CONF = true.
Proof. vm_compute. reflexivity. Qed.

(** Installations one after the other, each with whether [systemd-resolved] was active. *)
Definition installs (modes : list bool) (f : LinuxFiles) : LinuxFiles :=
  fold_left (λ f active, install_linux active f) modes f.
(** Some installation wrote [resolv.conf] itself; some wrote the drop-in. *)
Definition direct (modes : list bool) : bool := existsb negb modes.
Definition via_resolved (modes : list bool) : bool := existsb id modes.

(** The backup after an installation that wrote [resolv.conf]: the useful one there was, else the file
    found, unless that was Numa's or useless too. *)
Definition saved (c : bytes) (b : option bytes) : option bytes :=
  match b with
  | Some o => if resolv_conf_has_real_upstream o then Some o
              else if resolv_conf_is_numa_managed c then Some o else Some c
  | None => if resolv_conf_is_numa_managed c then None else Some c
  end.
Lemma saved_again c b : saved NUMA_RESOLV_CONF (saved c b) = saved c b.
Proof.
  unfold saved. rewrite numa_conf_managed. destruct b as [o|].
  - destruct (resolv_conf_has_real_upstream o) eqn:E; [by rewrite E|].
    destruct (resolv_conf_is_numa_managed c); [by rewrite E|]. by destruct (resolv_conf_has_real_upstream c).
  - destruct (resolv_conf_is_numa_managed c); [done|]. by destruct (resolv_conf_has_real_upstream c).
Qed.
Lemma install_direct d c b :
  install_linux false (MkFiles d (Some c) b) = MkFiles d (Some NUMA_RESOLV_CONF) (saved c b).
Proof.
  unfold install_linux, saved. cbn [resolv backup drop_in]. f_equal. destruct b as [o|].
  - by destruct (resolv_conf_has_real_upstream o), (resolv_conf_is_numa_managed c).
  - by destruct (resolv_conf_is_numa_managed c).
Qed.
Lemma installs_files modes : ∀ d c b, installs modes (MkFiles d (Some c) b) =
  MkFiles (d || via_resolved modes) (Some (if direct modes then NUMA_RESOLV_CONF else c))
    (if direct modes then saved c b else b).
Proof.
  unfold installs, direct, via_resolved. induction modes as [|m modes IH]; intros d c b.
  - cbn. by rewrite orb_false_r.
  - cbn [fold_left existsb id]. destruct m; cbn [negb orb].
    + change (install_linux true _) with (MkFiles true (Some c) b). rewrite IH. by rewrite orb_true_r.
    + rewrite install_direct, IH. rewrite saved_again. by destruct (existsb negb modes).
Qed.

(** What is given back: the backup, and with it no backup is left; without one, Numa's file stays. *)
Definition given_back (c : bytes) (b : option bytes) : LinuxFiles :=
  MkFiles false (Some (default NUMA_RESOLV_CONF (saved c b))) None.

Lemma installed_search o resolvectl :
  let found := discover_linux (Some NUMA_RESOLV_CONF) o resolvectl in
  map suffix (forwarding_rules found) = [str "numa"] ∧
  default_upstream found = match resolvectl_dns_server resolvectl with
                           | Some ns => Some ns
                           | None => fst (parse_resolv_conf o)
                           end.
Proof.
  intros found. unfold found, discover_linux.
  change (parse_resolv_conf (Some NUMA_RESOLV_CONF)) with (None : option bytes, [str "numa"]).
  cbn [forwarding_rules default_upstream omap list_omap]. split; [|by destruct (resolvectl_dns_server resolvectl)].
  assert (Hf : ∃ a, parse_upstream_addr (default CLOUD_VPC_RESOLVER (resolvectl_dns_server resolvectl)) 53 = Ok a).
  { unfold parse_upstream_addr. destruct (parse_socket _); [by eexists|].
    destruct (resolvectl_dns_server resolvectl) as [ns|] eqn:E; [|vm_compute; by eexists].
    apply resolvectl_real in E as [_ [a Ha]]. change (default _ (Some ns)) with ns. rewrite Ha. by eexists. }
  destruct Hf as [a Ha]. unfold make_rule. rewrite Ha. done.
Qed.

(** C35: what uninstalling on Linux gives back. Take any files, a [resolv.conf] with content [c]
    among them, and any number of installations, with [systemd-resolved] active or not at each. When
    it always was, and no drop-in was there, uninstalling gives back every file as it was. When it never was, and no drop-in was
    there, it gives back the useful backup of before, if there was one, and otherwise [c], if [c] is not
    Numa's and names a server of another machine; any other [c] is lost, and the useless backup
    of before comes back, or Numa's file stays. When it sometimes was, or a drop-in was there, uninstalling only removes the
    drop-in: [resolv.conf] stays Numa's, until it is uninstalled once more. While [resolv.conf] is
    Numa's, the server still finds the name server of what will be given back, unless
    [resolvectl] names one; but of search domains only its own, [numa]. *)
Theorem linux_uninstall_restores (mode : bool) (modes : list bool) (d : bool) (c : bytes)
    (b resolvectl : option bytes) :
  let f := MkFiles d (Some c) b in
  let all := mode :: modes in
  let installed := installs all f in
  let found f := discover_linux (resolv f) (backup f) resolvectl in
  if direct all then
    (if d || via_resolved all
     then resolv (uninstall_linux installed) = Some NUMA_RESOLV_CONF ∧
          uninstall_linux (uninstall_linux installed) = given_back c b
     else uninstall_linux installed = given_back c b) ∧
    (b = None → resolv_conf_is_numa_managed c = false → given_back c b = MkFiles false (Some c) b) ∧
    map suffix (forwarding_rules (found installed)) = [str "numa"] ∧
    default_upstream (found installed) =
      match resolvectl_dns_server resolvectl with
      | Some ns => Some ns
      | None => fst (parse_resolv_conf (saved c b))
      end
  else uninstall_linux installed = MkFiles false (Some c) b ∧ found installed = found f.
Proof.
  intros f all installed found. unfold found, installed, f. rewrite installs_files. cbn [resolv backup].
  assert (Hgb : uninstall_linux (MkFiles false (Some NUMA_RESOLV_CONF) (saved c b)) = given_back c b)
    by (unfold uninstall_linux, given_back; by destruct (saved c b)).
  destruct (direct all) eqn:Hd.
  - split; [|split].
    + destruct (d || via_resolved all); [|exact Hgb]. split; [reflexivity|exact Hgb].
    + intros -> Hm. unfold given_back, saved. by rewrite Hm.
    + apply installed_search.
  - assert (Hv : via_resolved all = true) by (unfold all, direct in *; by destruct mode).
    rewrite Hv, orb_true_r. split; reflexivity.
Qed.

(** Once with [systemd-resolved] and once without: uninstalling leaves Numa's file. And a backup of
    long ago comes back instead of the file found. *)
Example mixed_and_stale :
  let conf ns := str "nameserver " ++ ns in
  let f b := MkFiles false (Some (conf (str "192.0.2.53"))) b in
  resolv (uninstall_linux (installs [true; false] (f None))) = Some NUMA_RESOLV_CONF ∧
  uninstall_linux (installs [false; false] (f None)) = f None ∧
  resolv (uninstall_linux (installs [false] (f (Some (conf (str "198.51.100.53")))))) =
    Some (conf (str "198.51.100.53")).
Proof. split_and!; vm_compute; reflexivity. Qed.

(** ** macOS *)

Lemma set_each_lookup ss v : ∀ m s, set_each ss v m !! s = if decide (s ∈ ss) then Some v else m !! s.
Proof.
  induction ss as [|x ss IH]; intros m s; cbn [set_each]; [by rewrite decide_False by apply not_elem_of_nil|].
  rewrite IH. destruct (decide (s ∈ ss)).
  - by rewrite decide_True by by right.
  - destruct (decide (s = x)) as [->|Hne]; [by rewrite lookup_insert_eq, decide_True by by left|].
    rewrite lookup_insert_ne by done. rewrite decide_False; [done|]. by intros [?|?]%elem_of_cons.
Qed.
Lemma captured_lookup (f : bytes → list bytes) ss : ∀ (m : gmap bytes (list bytes)) s,
  foldl (λ b s, <[s := f s]> b) m ss !! s = if decide (s ∈ ss) then Some (f s) else m !! s.
Proof.
  induction ss as [|x ss IH]; intros m s; cbn [foldl]; [by rewrite decide_False by apply not_elem_of_nil|].
  rewrite IH. destruct (decide (s ∈ ss)).
  - by rewrite decide_True by by right.
  - destruct (decide (s = x)) as [->|Hne]; [by rewrite lookup_insert_eq, decide_True by by left|].
    rewrite lookup_insert_ne by done. rewrite decide_False; [done|]. by intros [?|?]%elem_of_cons.
Qed.
Lemma restored_lookup {B} (g : bytes * list bytes → B) l : ∀ (d : gmap bytes B), NoDup (map fst l) → ∀ s,
  foldl (λ d kv, <[fst kv := g kv]> d) d l !! s =
  match List.find (λ kv, bool_decide (fst kv = s)) l with Some kv => Some (g kv) | None => d !! s end.
Proof.
  induction l as [|[k v] l IH]; intros d Hnd s; cbn [foldl find fst]; [done|].
  apply NoDup_cons in Hnd as [Hk Hnd]. rewrite IH by done. case_bool_decide as Hs.
  - subst k. destruct (find _ l) as [kv|] eqn:E; [|by rewrite lookup_insert_eq].
    apply find_some in E as [Hin He%bool_decide_eq_true]. exfalso. apply Hk.
    apply list_elem_of_In, in_map_iff. by exists kv.
  - destruct (find _ l); [done|]. by rewrite lookup_insert_ne.
Qed.

(** The services' settings after installations on [m]: everything points here, and the real servers
    of before are backed up. *)
Definition installed_on (m m' : MacDns) : Prop :=
  services m' = services m ∧ dropin m' = true ∧
  (∀ s, servers m' !! s = if decide (s ∈ services m) then Some [str "127.0.0.1"] else servers m !! s) ∧
  (∀ s, search_domains m' !! s = if decide (s ∈ services m) then Some [str "numa"] else search_domains m !! s) ∧
  ∃ b, mac_backup m' = Some b ∧
    ∀ s, b !! s = if decide (s ∈ services m) then Some (List.filter is_real (servers_of m s)) else None.
Definition useless_backup (m : MacDns) : Prop :=
  match mac_backup m with Some b => backup_has_real_upstream_macos b = false | None => True end.

Lemma no_real_upstream b s l : backup_has_real_upstream_macos b = false → b !! s = Some l → List.filter is_real l = [].
Proof.
  intros Hb Hs. destruct (List.filter is_real l) as [|x r] eqn:E; [done|]. exfalso.
  assert (Hin : In x (List.filter is_real l)) by (rewrite E; by left). apply filter_In in Hin as [Hin Hx].
  apply not_true_iff_false in Hb. apply Hb. apply existsb_exists. exists (s, l).
  split; [by apply list_elem_of_In, elem_of_map_to_list|]. apply existsb_exists. by exists x.
Qed.
Lemma filter_real_twice l : List.filter is_real (List.filter is_real l) = List.filter is_real l.
Proof.
  induction l as [|x l IH]; [done|]. cbn [List.filter]. destruct (is_real x) eqn:E; [|exact IH].
  cbn [List.filter]. by rewrite E, IH.
Qed.
Lemma install_first m : useless_backup m → installed_on m (install_macos m).
Proof.
  intros Hu. unfold install_macos, useless_backup in *. set (useful := match mac_backup m with Some _ => _ | None => _ end).
  assert (Hf : useful = false) by (unfold useful; by destruct (mac_backup m)). rewrite Hf.
  split; [done|]. split; [done|]. split; [apply set_each_lookup|]. split; [apply set_each_lookup|].
  eexists. split; [reflexivity|]. intros s. rewrite captured_lookup. by destruct (decide _).
Qed.
Lemma install_again m m' : installed_on m m' → installed_on m (install_macos m').
Proof.
  intros (Hs & Hd & Hsv & Hse & b & Hb & Hbl). unfold install_macos. rewrite Hb, Hs.
  split; [done|]. split; [done|].
  split; [intros s; cbn [servers]; rewrite set_each_lookup, Hsv; by destruct (decide _)|].
  split; [intros s; cbn [search_domains]; rewrite set_each_lookup, Hse; by destruct (decide _)|].
  destruct (backup_has_real_upstream_macos b) eqn:Hu; [by exists b|].
  eexists. split; [reflexivity|]. intros s. rewrite captured_lookup.
  pose proof (Hbl s) as Hb1. unfold servers_of. rewrite Hsv. destruct (decide (s ∈ services m)); [|done]. f_equal.
  pose proof (no_real_upstream b s _ Hu Hb1) as Hnil. rewrite filter_real_twice in Hnil.
  unfold servers_of in Hnil. by rewrite Hnil.
Qed.
Lemma restore_lookup m b : ∀ s, let m' := restore m b in
  servers m' !! s = (if decide (s ∈ services m) then match b !! s with Some v => Some v | None => servers m !! s end
                     else servers m !! s) ∧
  search_domains m' !! s = (if decide (s ∈ services m)
    then match b !! s with Some v => Some [] | None => search_domains m !! s end else search_domains m !! s).
Proof.
  intros s m'. unfold m', restore. cbn [servers search_domains].
  set (known := List.filter _ _).
  assert (Hnd : NoDup (map fst known)).
  { pose proof (NoDup_fst_map_to_list b) as Hn. unfold known. revert Hn. generalize (map_to_list b). intros l.
    induction l as [|[k v] l IH]; cbn; [done|]. intros [Hk Hn]%NoDup_cons. case_bool_decide; cbn; [|by apply IH].
    apply NoDup_cons. split; [|by apply IH]. intros Hin. apply Hk. apply list_elem_of_In, in_map_iff in Hin as (x & Hx & Hin).
    apply filter_In in Hin as [Hin _]. apply list_elem_of_In, in_map_iff. by exists x. }
  rewrite !restored_lookup by done.
  destruct (List.find (λ kv, bool_decide (fst kv = s)) known) as [[k v]|] eqn:E.
  - apply find_some in E as [Hin He%bool_decide_eq_true]. cbn in He. subst k.
    apply filter_In in Hin as [Hin Hs%bool_decide_eq_true]. apply list_elem_of_In, elem_of_map_to_list in Hin.
    cbn in Hs. rewrite Hin. destruct (decide (s ∈ services m)); [split; reflexivity|done].
  - destruct (decide (s ∈ services m)); [|done]. destruct (b !! s) as [v|] eqn:Hb; [|done]. exfalso.
    assert (Hin : In (s, v) known).
    { apply filter_In. split; [by apply list_elem_of_In, elem_of_map_to_list|by apply bool_decide_eq_true]. }
    pose proof (find_none _ _ E (s, v) Hin) as Hf. by apply bool_decide_eq_false in Hf.
Qed.

(** Installing on macOS. After any number of installations, uninstalling gives every network
    service back its own servers, but for those that stand for the machine itself, and touches no
    other service; the anchor of the domain [numa] and the backup are gone. Search domains are not
    backed up: every service has lost its own. *)
Theorem mac_install_reversible (n : nat) (m : MacDns) : useless_backup m →
  let m' := uninstall_macos (Nat.iter (S n) install_macos m) in
  services m' = services m ∧ mac_backup m' = None ∧ dropin m' = false ∧
  ∀ s, if decide (s ∈ services m)
       then servers_of m' s = List.filter is_real (servers_of m s) ∧ search_domains m' !! s = Some []
       else servers m' !! s = servers m !! s ∧ search_domains m' !! s = search_domains m !! s.
Proof.
  intros Hu m'. assert (Hi : installed_on m (Nat.iter (S n) install_macos m)).
  { induction n as [|n IH]; [by apply install_first|]. by apply install_again. }
  unfold m'. clear m'. destruct Hi as (Hs & Hd & Hsv & Hse & b & Hb & Hbl). unfold uninstall_macos. rewrite Hb.
  split; [exact Hs|]. split; [done|]. split; [done|]. intros s.
  destruct (restore_lookup (Nat.iter (S n) install_macos m) b s) as [H1 H2]. unfold servers_of.
  rewrite H1, H2, Hs, Hbl, Hsv, Hse. by destruct (decide (s ∈ services m)).
Qed.

(** * Rules from the system *)

(** A rule matches the names of its suffix. *)
Definition rule_ok {A} (r : ForwardingRule A) : Prop := dot_suffix_text r = 46 :: suffix r.
Lemma make_rule_ok d ns r : make_rule d ns = Some r → rule_ok r ∧ suffix r = d.
Proof. unfold make_rule. destruct (parse_upstream_addr ns 53); by intros [= <-]. Qed.
Lemma matches_rule {A} (d : bytes) (r : ForwardingRule A) rs : rule_ok r →
  (dot_suffix (suffix r) d → match_forwarding_rule d (r :: rs) = Some (upstream r)) ∧
  (¬ dot_suffix (suffix r) d → match_forwarding_rule d (r :: rs) = match_forwarding_rule d rs) ∧
  (dot_suffix (suffix r) d ∨ ¬ dot_suffix (suffix r) d).
Proof.
  intros Hr. cbn [match_forwarding_rule]. rewrite Hr.
  assert (Hm : bool_decide (d = suffix r) || ends_with (46 :: suffix r) d = true ↔ dot_suffix (suffix r) d).
  { rewrite orb_true_iff, bool_decide_eq_true, ends_with_spec. unfold dot_suffix, proper_suffix. naive_solver. }
  destruct (_ || _); split; [done|split; [intros Hn; by destruct Hn; apply Hm|left; by apply Hm]| |split; [done|]].
  - by intros ?%Hm.
  - right. by intros ?%Hm.
Qed.
(** The first rule that covers a name decides. *)
Lemma match_first {A} (d : bytes) (rs : list (ForwardingRule A)) : Forall rule_ok rs →
  match match_forwarding_rule d rs with
  | Some u => ∃ before r after, rs = before ++ r :: after ∧ upstream r = u ∧ dot_suffix (suffix r) d ∧
                Forall (λ r, ¬ dot_suffix (suffix r) d) before
  | None => Forall (λ r, ¬ dot_suffix (suffix r) d) rs
  end.
Proof.
  induction 1 as [|r rs Hr Hrs IH]; [constructor|]. destruct (matches_rule d r rs Hr) as (Hyes & Hno & [Hd|Hd]).
  - rewrite (Hyes Hd). by exists [], r, rs.
  - rewrite (Hno Hd). destruct (match_forwarding_rule d rs) as [u|]; [|by constructor].
    destruct IH as (b & r' & a & -> & Hu & Hs & Hb). exists (r :: b), r', a. split_and!; try done. by constructor.
Qed.
Lemma match_app {A} (d : bytes) (l1 l2 : list (ForwardingRule A)) :
  match_forwarding_rule d (l1 ++ l2) =
  match match_forwarding_rule d l1 with Some u => Some u | None => match_forwarding_rule d l2 end.
Proof. induction l1 as [|r l1 IH]; [done|]. cbn. by destruct (_ || _). Qed.

Section rules.
Context `{Lowercase}.
Lemma handle_line_rules line s : Forall rule_ok (rules s) → Forall rule_ok (rules (snd (handle_line line s))).
Proof.
  assert (Hfl : ∀ s, Forall rule_ok (rules s) → Forall rule_ok (rules (flush s))).
  { intros t Ht. unfold flush. cbn [rules]. apply Forall_app. split; [done|].
    destruct (current_domain t) as [d|], (current_nameserver t) as [ns|], (is_supplemental t); try constructor.
    destruct (make_rule d ns) as [r|] eqn:E; cbn [option_list]; constructor; [|constructor]. by eapply make_rule_ok. }
  intros Hs. unfold handle_line. destruct (starts_with _ line); [by apply Hfl|].
  destruct (_ && _).
  { unfold set_domain. destruct (second_field line); [|exact Hs]. destruct (_ || _); exact Hs. }
  destruct (_ && _).
  { unfold set_nameserver. destruct (second_field line) as [val|]; [|exact Hs].
    destruct (parse_ipv4 (trim val)); exact Hs. }
  destruct (_ && _); [exact Hs|]. destruct (starts_with _ line); [by apply Hfl|exact Hs].
Qed.
Lemma handle_lines_rules ls : ∀ s, Forall rule_ok (rules s) → Forall rule_ok (rules (flush (handle_lines ls s))).
Proof.
  assert (Hfl : ∀ s, Forall rule_ok (rules s) → Forall rule_ok (rules (flush s))).
  { intros t Ht. exact (handle_line_rules (str "resolver #") t Ht). }
  induction ls as [|l ls IH]; intros s Hs; cbn [handle_lines]; [by apply Hfl|].
  pose proof (handle_line_rules (trim l) s Hs) as Hl. destruct (handle_line (trim l) s) as [[] s1]; cbn in Hl;
    [by apply Hfl|by apply IH].
Qed.
(** On macOS the rule of the longest domain that covers a name decides. *)
Lemma macos_rules_ok scutil : Forall rule_ok (forwarding_rules (discover_macos scutil)).
Proof.
  destruct scutil as [text|]; [|constructor]. cbn [discover_macos forwarding_rules]. rewrite sort_by_key_perm.
  apply handle_lines_rules. constructor.
Qed.
Lemma macos_longest scutil d u : match_forwarding_rule d (forwarding_rules (discover_macos scutil)) = Some u →
  ∃ r, r ∈ forwarding_rules (discover_macos scutil) ∧ upstream r = u ∧ dot_suffix (suffix r) d ∧
    ∀ r', r' ∈ forwarding_rules (discover_macos scutil) → dot_suffix (suffix r') d → len (suffix r') ≤ len (suffix r).
Proof.
  intros Hm. pose proof (match_first d _ (macos_rules_ok scutil)) as Hf. rewrite Hm in Hf.
  destruct Hf as (b & r & a & He & Hu & Hd & Hb). exists r. rewrite He. split; [apply elem_of_app; right; by left|].
  split; [done|]. split; [done|]. intros r' Hr' Hd'.
  assert (Hs : StronglySorted (λ a b, - len (suffix a) <= - len (suffix b)) (b ++ r :: a)).
  { rewrite <- He. destruct scutil as [text|]; [apply sort_by_key_sorted|constructor]. }
  apply elem_of_app in Hr' as [Hr'|[->|Hr']%elem_of_cons]; [|lia|].
  - rewrite Forall_forall in Hb. by destruct (Hb r' Hr').
  - clear -Hs Hr'. induction b as [|x b IH]; cbn in Hs; [|apply IH; by inversion Hs].
    inversion Hs as [|? ? _ Hall]. rewrite Forall_forall in Hall. specialize (Hall r' Hr'). lia.
Qed.
End rules.

Lemma linux_rules_ok resolv backup resolvectl : Forall rule_ok (forwarding_rules (discover_linux resolv backup resolvectl)).
Proof.
  unfold discover_linux. destruct (parse_resolv_conf resolv) as [up sd]. cbn [forwarding_rules].
  induction sd as [|d sd IH]; cbn; [constructor|]. destruct (make_rule d _) as [r|] eqn:E; [|exact IH].
  constructor; [by eapply make_rule_ok|exact IH].
Qed.

(** Search domains go astray. On a Linux machine without [resolvectl], every search domain of
    [resolv.conf] becomes a rule that forwards its names to 169.254.169.253, the resolver of one cloud
    provider, whatever name servers the file names; and the rule of a domain written with
    a capital letter matches no name at all, since the names asked for are in lower
    case. *)
Theorem search_domains_misrouted (text : bytes) (backup : option bytes) :
  let rules := forwarding_rules (discover_linux (Some text) backup None) in
  map suffix rules = snd (parse_resolv_conf (Some text)) ∧
  Forall (λ r, upstream r = MkPool [Udp (MkSock (V4 (Ipv4 169 254 169 253)) 53)] [] ∧
    ∀ d, ascii_lower d = d → dot_suffix (suffix r) d → ascii_lower (suffix r) = suffix r) rules.
Proof.
  intros rs. unfold rs, discover_linux. destruct (parse_resolv_conf (Some text)) as [up sd].
  change (default _ (resolvectl_dns_server None)) with CLOUD_VPC_RESOLVER. cbn [forwarding_rules snd].
  assert (Hp : ∀ d, make_rule d CLOUD_VPC_RESOLVER =
    Some (rule_new d (MkPool [Udp (MkSock (V4 (Ipv4 169 254 169 253)) 53)] []))) by (intros d; reflexivity).
  clear rs. induction sd as [|d sd [IH1 IH2]]; [done|]. cbn [omap list_omap]. rewrite Hp.
  cbn [map suffix rule_new]. split; [by f_equal|]. constructor; [|done]. split; [done|]. cbn [suffix rule_new].
  intros q Hq [Hd|[pre Hd]].
  - by rewrite Hd.
  - rewrite Hd in Hq. unfold ascii_lower in Hq. rewrite map_app in Hq. cbn [map] in Hq.
    apply app_inj_1 in Hq as [_ Hq]; [|by rewrite length_map]. by injection Hq.
Qed.
(** A network with its own name server and domain. *)
Example home_network_misrouted :
  let info := discover_linux (Some (str "nameserver 192.168.1.1" ++ 10 :: str "search home.lan" ++ [10])) None None in
  default_upstream info = Some (str "192.168.1.1") ∧
  match_forwarding_rule (str "nas.home.lan") (forwarding_rules info) =
    Some (MkPool [Udp (MkSock (V4 (Ipv4 169 254 169 253)) 53)] []).
Proof. split; reflexivity. Qed.

(** * Instances *)

#[local] Existing Instance lowercase_ascii.
(** A Mac on which the server is installed, with a VPN for one domain. *)
Definition scutil_text : bytes :=
  join [10] [str "DNS configuration"; []; str "resolver #1"; str "  nameserver[0] : 127.0.0.1"; str "  flags    : Request A records";
             []; str "resolver #2"; str "  domain   : Corp.Example."; str "  nameserver[0] : 100.100.100.100";
             str "  flags    : Supplemental, Request A records"; []; str "DNS configuration (for scoped queries)";
             str "resolver #1"; str "  nameserver[0] : 192.168.1.1"].
(** The flag of a resolver follows its name servers, so the server of the VPN is taken for the default
    one when the first resolver is this machine. *)
Example supplemental_upstream :
  default_upstream (discover_macos (Some scutil_text)) = Some (str "100.100.100.100") ∧
  map suffix (forwarding_rules (discover_macos (Some scutil_text))) = [str "corp.example"].
Proof. split; vm_compute; reflexivity. Qed.

Lemma discovered_upstream_real_witness : is_loopback_or_stub (str "100.100.100.100") = false ∧
  ∃ a, parse_ipv4 (str "100.100.100.100") = Some a.
Proof.
  destruct (discovered_upstream_real (Some scutil_text) None None None [] (str "100.100.100.100")) as [_ H].
  destruct H as (Hr & a & Ha & _); [left; vm_compute; reflexivity|]. split; [exact Hr|]. exists a. exact Ha.
Defined.

Definition sample_mac : MacDns :=
  MkMac [str "Wi-Fi"; str "Ethernet"] {[str "Wi-Fi" := [str "127.0.0.1"; str "1.1.1.1"]]}
    {[str "Wi-Fi" := [str "home.lan"]]} None false.
Lemma mac_install_reversible_witness :
  let m' := uninstall_macos (Nat.iter 3 install_macos sample_mac) in
  servers_of m' (str "Wi-Fi") = [str "1.1.1.1"] ∧ search_domains m' !! str "Wi-Fi" = Some [].
Proof.
  destruct (mac_install_reversible 2 sample_mac I) as (_ & _ & _ & H). specialize (H (str "Wi-Fi")).
  rewrite decide_True in H by (cbn; left). exact H.
Defined.
