(* ===== verification/Bootstrap.v ===== *)
(** [src/src/bootstrap_resolver.rs]: how the server resolves the hosts of its own HTTPS requests,
    so that they do not come back to itself. *)
From stdpp Require Import gmap.
From S2P Require Import Prelude Net Ip Text Acl Srtt Stats Forward Cache Local Shape Buffer.
From S2P Require Import Question Header Record Packet Async Recursive.
Open Scope outcome_scope.
Open Scope fut_scope.

Definition DEFAULT_BOOTSTRAP : list SocketAddr := [MkSock (V4 (Ipv4 9 9 9 9)) 53; MkSock (V4 (Ipv4 1 1 1 1)) 53].

Record NumaResolver := MkResolver { bootstrap : list SocketAddr; overrides : gmap bytes (list IpAddr) }.

Definition ip_literal (entry : bytes) : option SocketAddr :=
  match parse_upstream_addr entry 53 with Ok a => Some a | _ => None end.
Definition resolver_new (fallback : list bytes) (overrides : gmap bytes (list IpAddr)) : NumaResolver :=
  let literals := omap ip_literal fallback in
  {| bootstrap := if bool_decide (literals = []) then DEFAULT_BOOTSTRAP else literals; overrides := overrides |}.

Definition record_addr (r : DnsRecord.t) : option SocketAddr :=
  match r with
  | DnsRecord.A _ addr _ => Some (MkSock (V4 addr) 0)
  | DnsRecord.AAAA _ addr _ => Some (MkSock (V6 addr) 0)
  | _ => None
  end.
Definition extract_addrs (pkt : DnsPacket) : list SocketAddr := omap record_addr (answers pkt).
Definition reply_addrs (r : error + DnsPacket) : list SocketAddr :=
  match r with inr pkt => extract_addrs pkt | inl _ => [] end.

Section resolver.
Context `{Lowercase} `{NetLib}.
Abbreviation async A := (fut World request reply A).

Definition query_with_tcp_fallback (query : DnsPacket) (server : SocketAddr) : async DnsPacket :=
  let* r := catch (forward_udp query server) in
  match r with
  | inr pkt => ret pkt
  | inl _ => forward_tcp query server
  end.
(** The two queries of [tokio::join!] touch nothing shared; they are taken one after the other.
    The error of an A query is kept, without the text that says which server it was. *)
Fixpoint resolve_servers (hostname : bytes) (bootstrap : list SocketAddr) (last_err : option error)
    : async (list SocketAddr) :=
  match bootstrap with
  | [] => fail (default (Message "no bootstrap servers reachable") last_err)
  | server :: bootstrap =>
      let* a_res := catch (query_with_tcp_fallback (Packet.query 0xBEEF hostname QueryType.A) server) in
      let* aaaa_res := catch (query_with_tcp_fallback (Packet.query 0xBEF0 hostname QueryType.AAAA) server) in
      let out := reply_addrs a_res ++ reply_addrs aaaa_res in
      if bool_decide (out = [])
      then resolve_servers hostname bootstrap (match a_res with inl e => Some e | inr _ => last_err end)
      else ret out
  end.
Definition resolve_via_bootstrap (hostname : bytes) (bootstrap : list SocketAddr) : async (list SocketAddr) :=
  resolve_servers hostname bootstrap None.
Definition resolve (hostname : bytes) (r : NumaResolver) : async (list SocketAddr) :=
  match overrides r !! hostname with
  | Some ips => ret (map (λ ip, MkSock ip 0) ips)
  | None => resolve_via_bootstrap hostname (bootstrap r)
  end.
End resolver.

(** * Where it asks *)

Section asks.
Context `{Lowercase} `{NetLib}.
Abbreviation async A := (fut World request reply A).

(** A task that leaves the shared state alone, and each of whose awaits is an exchange of one
    message with one server, both as [P] says. *)
Fixpoint asks_only {A} (P : SocketAddr → bytes → Prop) (t : async A) : Prop :=
  match t with
  | Return _ => True
  | Get _ | Put _ _ => False
  | Await q qs k =>
      qs = [] ∧ (∃ a msg, P a msg ∧ (q = Exchange (Udp a) msg ∨ q = Exchange (Tcp a) msg)) ∧
      ∀ i r, asks_only P (k i r)
  end.
Lemma asks_bind {A B} P (t : async A) (f : A → async B) :
  asks_only P t → (∀ a, asks_only P (f a)) → asks_only P (bind t f).
Proof.
  intros Ht Hf. induction t as [r|k IH|s k IH|q qs k IH]; cbn in *.
  - destruct r; [apply Hf|done..].
  - done.
  - done.
  - destruct Ht as (-> & Hq & Hk). split_and!; [done|done|]. intros i r. by apply IH.
Qed.
Lemma asks_catch {A} P (t : async A) : asks_only P t → asks_only P (catch t).
Proof.
  intros Ht. induction t as [r|k IH|s k IH|q qs k IH]; cbn in *.
  - by destruct r.
  - done.
  - done.
  - destruct Ht as (-> & Hq & Hk). split_and!; [done|done|]. intros i r. by apply IH.
Qed.
Lemma asks_forward P u a query : (u = Udp a ∨ u = Tcp a) →
  (∀ msg, encode query = Ok msg → P a msg) → asks_only P (forward_to u query).
Proof.
  intros Hu HP. unfold forward_to. destruct (encode query) as [msg|e| |]; [|done..]. cbn.
  split_and!; [done| |done]. exists a, msg. split; [by apply HP|]. by destruct Hu as [-> | ->]; auto.
Qed.

(** What may be asked: the addresses of one host, of servers of a list. *)
Definition lookup_of (hostname : bytes) (servers : list SocketAddr) (a : SocketAddr) (msg : bytes) : Prop :=
  a ∈ servers ∧ (encode (Packet.query 0xBEEF hostname QueryType.A) = Ok msg ∨
                 encode (Packet.query 0xBEF0 hostname QueryType.AAAA) = Ok msg).
Lemma asks_query P query server : (∀ msg, encode query = Ok msg → P server msg) →
  asks_only P (query_with_tcp_fallback query server).
Proof.
  intros HP. apply asks_bind; [by apply asks_catch, (asks_forward _ _ server); [left|]|].
  intros [e|pkt]; [by apply (asks_forward _ _ server); [right|]|done].
Qed.
Lemma asks_servers hostname servers l last_err : incl l servers →
  asks_only (lookup_of hostname servers) (resolve_servers hostname l last_err).
Proof.
  revert last_err. induction l as [|a l IH]; intros last_err Hl; [done|].
  assert (a ∈ servers) by by apply list_elem_of_In, Hl; left.
  cbn [resolve_servers].
  apply asks_bind; [by apply asks_catch, asks_query; split; auto|]. intros a_res.
  apply asks_bind; [by apply asks_catch, asks_query; split; auto|]. intros aaaa_res.
  case_bool_decide; [|done]. apply IH. intros x Hx. by apply Hl; right.
Qed.

(** ** It ends *)

Context (J : Rebind.RebindFilter * bool * bool → Prop).
Abbreviation safe := (Async.safe (good J) fits).
(** An error, or addresses that satisfy [P]. *)
Definition addresses (P : list SocketAddr → Prop) (r : outcome (list SocketAddr)) : Prop :=
  match r with Ok l => P l | Err _ => True | _ => False end.
Lemma safe_query query server s : good J s → safe fine (query_with_tcp_fallback query server) s.
Proof.
  intros Hs. apply safe_caught; [by apply safe_forward_to|by split|]. intros. by apply safe_forward_to.
Qed.
Lemma safe_servers hostname l : ∀ last_err s, good J s →
  safe (addresses (.≠ [])) (resolve_servers hostname l last_err) s.
Proof.
  induction l as [|a l IH]; intros last_err s Hs; cbn [resolve_servers]; [by split|].
  assert (Hnext : ∀ a_res aaaa_res s, good J s → safe (addresses (.≠ []))
    (let out := reply_addrs a_res ++ reply_addrs aaaa_res in
     if bool_decide (out = [])
     then resolve_servers hostname l (match a_res with inl e => Some e | inr _ => last_err end)
     else ret out) s).
  { intros a_res aaaa_res s1 G1. cbv zeta. case_bool_decide as Hout; [by apply IH|by split]. }
  assert (Hsecond : ∀ a_res s, good J s → safe (addresses (.≠ []))
    (let* aaaa_res := catch (query_with_tcp_fallback (Packet.query 0xBEF0 hostname QueryType.AAAA) a) in
     let out := reply_addrs a_res ++ reply_addrs aaaa_res in
     if bool_decide (out = [])
     then resolve_servers hostname l (match a_res with inl e => Some e | inr _ => last_err end)
     else ret out) s).
  { intros a_res s1 G1. apply safe_tried; [by apply safe_query|..]; intros; by apply Hnext. }
  apply safe_tried; [by apply safe_query|..]; intros; by apply Hsecond.
Qed.

(** C21: The server's own HTTPS requests find their hosts without asking the server itself, unless
    its configuration names it. The servers asked are never none: the fallback entries
    that are IP literals, or, when there is none, the two built-in ones. A host with configured
    addresses is answered from them with nothing sent. For any other host the
    only messages sent, by UDP and again by TCP when that fails, are its A and AAAA queries,
    and nothing of the server's state is read or written. Whatever is replied, resolution ends
    with at least one address or with an error. *)
Theorem bootstrap_apart (fallback : list bytes) (ovr : gmap bytes (list IpAddr)) (hostname : bytes) :
  let r := resolver_new fallback ovr in
  bootstrap r ≠ [] ∧
  (∀ a, a ∈ bootstrap r → (∃ e, e ∈ fallback ∧ ip_literal e = Some a) ∨
     (Forall (λ e, ip_literal e = None) fallback ∧ a ∈ DEFAULT_BOOTSTRAP)) ∧
  (∀ ips, ovr !! hostname = Some ips → resolve hostname r = ret (map (λ ip, MkSock ip 0) ips)) ∧
  asks_only (lookup_of hostname (bootstrap r)) (resolve hostname r) ∧
  (ovr !! hostname = None → ∀ s, good J s → safe (addresses (.≠ [])) (resolve hostname r) s).
Proof.
  cbv zeta. unfold resolver_new. split_and!.
  - cbn. case_bool_decide as Hl; [discriminate|exact Hl].
  - intros a. case_bool_decide as Hl; cbn.
    + intros Ha. right. split; [|done]. rewrite Forall_forall. intros e He.
      destruct (ip_literal e) as [x|] eqn:Hx; [|done].
      assert (Hin : x ∈ omap ip_literal fallback) by (apply list_elem_of_omap; eauto).
      rewrite Hl in Hin. by apply not_elem_of_nil in Hin.
    + intros (e & He & Ha)%list_elem_of_omap. left. eauto.
  - intros ips Hips. unfold resolve. cbn [overrides]. by rewrite Hips.
  - unfold resolve. cbn [overrides bootstrap]. destruct (ovr !! hostname); [done|].
    apply asks_servers, incl_refl.
  - intros Hn s Hs. unfold resolve. cbn [overrides]. rewrite Hn. by apply safe_servers.
Qed.
End asks.

(** * Examples *)

#[local] Existing Instance sample_net.
#[local] Existing Instance lowercase_ascii.

Example literals_only : bootstrap (resolver_new [str "9.9.9.9"; str "dns.quad9.net"; str "1.1.1.1:5353"] ∅)
  = [MkSock (V4 (Ipv4 9 9 9 9)) 53; MkSock (V4 (Ipv4 1 1 1 1)) 5353].
Proof. vm_compute. reflexivity. Qed.
