(* ===== verification/Config.v ===== *)
(** [src/src/config.rs]: the settings of upstream servers, oblivious DNS and forwarding, how they
    are checked, and the rules and addresses the running server takes from them. The TOML file
    is read by a library: its result, with defaults for what is absent, is the argument. *)
From stdpp Require Import gmap.
From S2P Require Import Prelude Net Ip Text Acl Domains QueryLog Forward Zones Rebind Cache.
From S2P Require Import Local Buffer Question Header Record Packet Async Recursive Bootstrap SystemDns.
Open Scope outcome_scope.

(** * Forwarding rules *)

Record ForwardingRuleConfig := MkRuleConfig { config_suffix : list bytes; config_upstream : list bytes }.

Definition to_runtime_rules (r : ForwardingRuleConfig) : outcome (list (ForwardingRule UpstreamPool)) :=
  match config_upstream r with
  | [] => Err (Message "forwarding rule: upstream must not be empty")
  | us =>
      match parse_upstream_list us 53 with
      | Ok primary => Ok (map (λ s, rule_new s (MkPool primary [])) (config_suffix r))
      | Err _ => Err (Message "forwarding rule for upstream")
      | Panic => Panic
      | OutOfFuel => OutOfFuel
      end
  end.
Fixpoint config_rules (rules : list ForwardingRuleConfig) : outcome (list (ForwardingRule UpstreamPool)) :=
  match rules with
  | [] => Ok []
  | rule :: rules => let? rs := to_runtime_rules rule in let? rest := config_rules rules in Ok (rs ++ rest)
  end.
Definition merge_forwarding_rules (rules : list ForwardingRuleConfig)
    (discovered : list (ForwardingRule UpstreamPool)) : outcome (list (ForwardingRule UpstreamPool)) :=
  let? merged := config_rules rules in Ok (merged ++ discovered).

(** * Upstream settings *)

(** A duration in milliseconds. *)
Definition hedge_delay (mode : UpstreamMode) (hedge_ms : Z) : Z :=
  match mode with ModeOdoh => 0 | _ => hedge_ms end.
Definition mode_str (mode : UpstreamMode) : bytes :=
  match mode with
  | ModeAuto => str "auto"
  | ModeForward => str "forward"
  | ModeRecursive => str "recursive"
  | ModeOdoh => str "odoh"
  end.

Record UpstreamConfig := MkUpstream {
  mode : UpstreamMode;
  address : list bytes;
  upstream_port : Z;
  upstream_fallback : list bytes;
  timeout_ms : Z;
  hedge_ms : Z;
  root_hint_list : list bytes;
  prime_tld_list : list bytes;
  use_srtt : bool;
  relay : option bytes;
  target : option bytes;
  strict_odoh : option bool;
  relay_ip : option IpAddr;
  target_ip : option IpAddr
}.

Definition default_prime_tlds : list bytes :=
  map str ["com"; "net"; "org"; "info"; "io"; "dev"; "app"; "xyz"; "me"; "eu"; "uk"; "de"; "fr"; "nl"; "it";
    "es"; "pl"; "se"; "no"; "dk"; "fi"; "at"; "be"; "ie"; "pt"; "cz"; "ro"; "gr"; "hu"; "bg"; "hr"; "sk"; "si";
    "lt"; "lv"; "ee"; "ch"; "is"; "co"; "br"; "au"; "ca"; "jp"]%string.
Definition default_root_hints : list bytes :=
  map str ["198.41.0.4"; "199.9.14.201"; "192.33.4.12"; "199.7.91.13"; "192.203.230.10"; "192.5.5.241";
    "192.112.36.4"; "198.97.190.53"; "192.36.148.17"; "192.58.128.30"; "193.0.14.129"; "199.7.83.42";
    "202.12.27.33"]%string.
Definition default_upstream_config : UpstreamConfig :=
  {| mode := ModeForward; address := []; upstream_port := 53; upstream_fallback := []; timeout_ms := 5000;
     hedge_ms := 0; root_hint_list := default_root_hints; prime_tld_list := default_prime_tlds;
     use_srtt := true; relay := None; target := None; strict_odoh := None; relay_ip := None; target_ip := None |}.

(** * Oblivious DNS *)

(** What [reqwest::Url] says of a text, and the registrable domain of a host ([psl::domain]). *)
Record UrlParts := MkUrl { scheme : bytes; host_str : option bytes; url_path : bytes; known_port : option Z }.
Class UrlLib := { url_parse : bytes → option UrlParts; psl_domain : bytes → option bytes }.

Record OdohUpstream := MkOdoh {
  relay_url : bytes;
  relay_host : bytes;
  target_host : bytes;
  target_path : bytes;
  strict : bool;
  relay_bootstrap : option SocketAddr;
  target_bootstrap : option SocketAddr
}.

(** [out.entry(host).or_insert_with(Vec::new).push(addr.ip())]. *)
Definition push_override (host : bytes) (addr : option SocketAddr) (out : gmap bytes (list IpAddr))
    : gmap bytes (list IpAddr) :=
  match addr with
  | Some a => <[host := default [] (out !! host) ++ [ip a]]> out
  | None => out
  end.
Definition host_ip_overrides (o : OdohUpstream) : gmap bytes (list IpAddr) :=
  push_override (target_host o) (target_bootstrap o) (push_override (relay_host o) (relay_bootstrap o) ∅).

Section odoh.
Context `{UrlLib}.

(** Hosts are UTF-8 text. *)
Definition shared_registrable_domain (relay_host target_host : bytes) : option bytes :=
  match psl_domain relay_host, psl_domain target_host with
  | Some r, Some t => if bool_decide (r = t) then Some r else None
  | _, _ => None
  end.
Definition required {A} (x : option A) (e : string) : outcome A :=
  match x with Some a => Ok a | None => Err (Message e) end.
Definition odoh_upstream (c : UpstreamConfig) : outcome OdohUpstream :=
  let? relay := required (relay c) "mode = odoh requires upstream.relay" in
  let? target := required (target c) "mode = odoh requires upstream.target" in
  let? relay_url := required (url_parse relay) "upstream.relay invalid URL" in
  let? target_url := required (url_parse target) "upstream.target invalid URL" in
  if negb (bool_decide (scheme relay_url = str "https")) || negb (bool_decide (scheme target_url = str "https"))
  then Err (Message "upstream.relay and upstream.target must both use https://")
  else
    let? relay_host := required (host_str relay_url) "upstream.relay must include a host" in
    let? target_host := required (host_str target_url) "upstream.target must include a host" in
    if bool_decide (relay_host = target_host)
    then Err (Message "upstream.relay and upstream.target resolve to the same host")
    else
      match shared_registrable_domain relay_host target_host with
      | Some _ => Err (Message "upstream.relay and upstream.target share the registrable domain")
      | None =>
          let target_path := if bool_decide (url_path target_url = []) then str "/" else url_path target_url in
          let relay_port := default 443 (known_port relay_url) in
          let target_port := default 443 (known_port target_url) in
          Ok {| relay_url := relay; relay_host := relay_host; target_host := target_host;
                target_path := target_path; strict := default true (strict_odoh c);
                relay_bootstrap := option_map (λ ip, MkSock ip relay_port) (relay_ip c);
                target_bootstrap := option_map (λ ip, MkSock ip target_port) (target_ip c) |}
      end.
End odoh.

(** * The first pool *)

Definition QUAD9_IP : bytes := str "9.9.9.9".
Definition DOH_FALLBACK : bytes := str "https://9.9.9.9/dns-query".
(** A placeholder: recursion does not use the pool. *)
Definition recursive_pool : UpstreamPool := MkPool [Udp (MkSock (V4 (Ipv4 0 0 0 0)) 0)] [].

Fixpoint tcp_siblings (primary fallback : list Upstream) : list Upstream :=
  match primary with
  | [] => fallback
  | Udp addr :: primary =>
      tcp_siblings primary
        (if existsb (upstream_eqb (Tcp addr)) fallback then fallback else fallback ++ [Tcp addr])
  | _ :: primary => tcp_siblings primary fallback
  end.
(** The server [detect_dhcp_dns] knows of is used when the system's settings name none. *)
Definition detected (system dhcp : option bytes) : option bytes :=
  match system with Some a => Some a | None => dhcp end.
Definition forward_pool (c : UpstreamConfig) (system dhcp : option bytes) : outcome UpstreamPool :=
  let addrs := match address c with
               | [] => [default DOH_FALLBACK (detected system dhcp)]
               | a => a
               end in
  let? primary := parse_upstream_list addrs (upstream_port c) in
  let? fallback := parse_upstream_list (upstream_fallback c) (upstream_port c) in
  Ok (MkPool primary (tcp_siblings primary fallback)).

Open Scope fut_scope.
Section pool.
Context `{Lowercase} `{NetLib} `{UrlLib}.

(** The mode the server runs in, whether its upstream is followed when the network changes, and
    the pool. *)
Definition resolve_upstream_pool (c : UpstreamConfig) (system dhcp : option bytes) (root_hints : list SocketAddr)
    : fut World request reply (UpstreamMode * bool * UpstreamPool) :=
  match mode c with
  | ModeAuto =>
      let* recursive := probe_recursive root_hints in
      ret (if recursive : bool then (ModeRecursive, false, recursive_pool)
           else (ModeForward, false, MkPool [Doh DOH_FALLBACK] []))
  | ModeRecursive => ret (ModeRecursive, false, recursive_pool)
  | ModeForward =>
      let* pool := Return (forward_pool c system dhcp) in
      ret (ModeForward, bool_decide (address c = []), pool)
  | ModeOdoh =>
      let* o := Return (odoh_upstream c) in
      let primary := [Odoh (relay_url o) (target_path o) (target_host o)] in
      let* fallback := Return (if strict o then Ok [] else parse_upstream_list (upstream_fallback c) (upstream_port c)) in
      ret (ModeOdoh, false, MkPool primary fallback)
  end.
(** The resolver for the server's own requests. *)
Definition bootstrap_resolver (c : UpstreamConfig) : NumaResolver :=
  resolver_new (upstream_fallback c)
    match mode c with
    | ModeOdoh => match odoh_upstream c with Ok o => host_ip_overrides o | _ => ∅ end
    | _ => ∅
    end.
End pool.

(** * Rules of the configuration come first *)

(** A suffix of the rule covers a name, or none. *)
Definition covers (d : bytes) (r : ForwardingRuleConfig) : Prop := ∃ s, s ∈ config_suffix r ∧ dot_suffix s d.
Definition elsewhere (d : bytes) (r : ForwardingRuleConfig) : Prop :=
  Forall (λ s, ¬ dot_suffix s d) (config_suffix r).
Lemma rules_of_pool (d : bytes) (p : UpstreamPool) ss :
  ((∃ s, s ∈ ss ∧ dot_suffix s d) → match_forwarding_rule d (map (λ s, rule_new s p) ss) = Some p) ∧
  (Forall (λ s, ¬ dot_suffix s d) ss → match_forwarding_rule d (map (λ s, rule_new s p) ss) = None).
Proof.
  induction ss as [|s ss [IHyes IHno]].
  - split; [by intros (s & []%not_elem_of_nil & _)|done].
  - destruct (matches_rule d (rule_new s p) (map (λ s, rule_new s p) ss) eq_refl) as (Hyes & Hno & Hd).
    change (suffix (rule_new s p)) with s in *. cbn [map]. split.
    + intros (x & [->|Hx]%elem_of_cons & Hs); [by apply Hyes|].
      destruct Hd as [Hd|Hd]; [by apply Hyes|]. rewrite (Hno Hd). eauto.
    + intros [Hs Hss]%Forall_cons. rewrite (Hno Hs). by apply IHno.
Qed.
Definition rule_parses (r : ForwardingRuleConfig) (us : list Upstream) : Prop :=
  config_upstream r ≠ [] ∧ parse_upstream_list (config_upstream r) 53 = Ok us.
Lemma to_runtime_rules_cases r :
  match to_runtime_rules r with
  | Ok l => ∃ us, rule_parses r us ∧ l = map (λ s, rule_new s (MkPool us [])) (config_suffix r)
  | _ => ∀ us, ¬ rule_parses r us
  end.
Proof.
  unfold to_runtime_rules, rule_parses. destruct (config_upstream r) as [|u us]; [by intros us []|].
  destruct (parse_upstream_list (u :: us) 53); [by eexists|..]; by intros us' [_ ?].
Qed.
Lemma config_rules_cases rules :
  match config_rules rules with
  | Ok l => Forall (λ r, ∃ us, rule_parses r us) rules ∧ ∀ d : bytes,
      (∀ pre r post us, rules = pre ++ r :: post → Forall (elsewhere d) pre → covers d r → rule_parses r us →
         match_forwarding_rule d l = Some (MkPool us [])) ∧
      (Forall (elsewhere d) rules → match_forwarding_rule d l = None)
  | _ => ¬ Forall (λ r, ∃ us, rule_parses r us) rules
  end.
Proof.
  induction rules as [|r rules IH]; cbn [config_rules].
  { split; [constructor|]. intros d. split; [by intros []|done]. }
  pose proof (to_runtime_rules_cases r) as Hr. destruct (to_runtime_rules r) as [rs| | |]; cbn [obind];
    [|intros [[us Hu] _]%Forall_cons; exact (Hr us Hu)..].
  destruct (config_rules rules) as [l| | |]; cbn [obind]; [|by intros [_ ?]%Forall_cons..].
  destruct Hr as (us & Hp & ->), IH as [Hall Hm]. split; [constructor; eauto|]. intros d.
  destruct (Hm d) as [Hfirst Hnone]. destruct (rules_of_pool d (MkPool us []) (config_suffix r)) as [Hyes Hno].
  rewrite match_app. split.
  - intros [|r0 pre] r1 post us1 [= <- Hpost] Hpre Hcov Hp1.
    + assert (us1 = us) as -> by (destruct Hp, Hp1; congruence).
      by rewrite Hyes.
    + apply Forall_cons in Hpre as [H0 Hpre]. rewrite Hno by done. by eapply Hfirst.
  - intros [H0 Hrest]%Forall_cons. rewrite Hno by done. by apply Hnone.
Qed.

(** C28: which servers a name is forwarded to. The configured rules are accepted exactly when each names
    at least one upstream and all its upstreams can be parsed. Then the first rule of the
    file that has a suffix covering the name decides, with all its upstreams and no fallback,
    and the rules found in the system's settings decide only for names that no configured
    rule covers. *)
Theorem config_rules_win (rules : list ForwardingRuleConfig) (discovered : list (ForwardingRule UpstreamPool)) :
  match merge_forwarding_rules rules discovered with
  | Ok merged =>
      Forall (λ r, ∃ us, rule_parses r us) rules ∧ ∀ d : bytes,
        (∀ pre r post us, rules = pre ++ r :: post → Forall (elsewhere d) pre → covers d r → rule_parses r us →
           match_forwarding_rule d merged = Some (MkPool us [])) ∧
        (Forall (elsewhere d) rules → match_forwarding_rule d merged = match_forwarding_rule d discovered)
  | _ => ¬ Forall (λ r, ∃ us, rule_parses r us) rules
  end.
Proof.
  unfold merge_forwarding_rules. pose proof (config_rules_cases rules) as Hr.
  destruct (config_rules rules) as [l| | |]; [|exact Hr..]. destruct Hr as [Hall Hm]. cbn [obind].
  split; [done|]. intros d. destruct (Hm d) as [Hfirst Hnone]. rewrite match_app. split.
  - intros pre r post us He Hpre Hr Hp. by rewrite (Hfirst pre r post us).
  - intros He. by rewrite Hnone.
Qed.

(** * Oblivious queries go through the relay *)

Lemma lookup_overrides o : relay_host o ≠ target_host o →
  (∀ a, relay_bootstrap o = Some a → host_ip_overrides o !! relay_host o = Some [ip a]) ∧
  (∀ a, target_bootstrap o = Some a → host_ip_overrides o !! target_host o = Some [ip a]).
Proof.
  intros Hne. unfold host_ip_overrides, push_override. split.
  - intros a ->. destruct (target_bootstrap o); [rewrite lookup_insert_ne by done|]; by rewrite lookup_insert_eq.
  - intros a ->. rewrite lookup_insert_eq.
    destruct (relay_bootstrap o); [by rewrite lookup_insert_ne, lookup_empty|by rewrite lookup_empty].
Qed.

Section pool_facts.
Context `{Lowercase} `{NetLib} `{UrlLib}.

Lemma required_ok {A} (x : option A) e y : required x e = Ok y → x = Some y.
Proof. by destruct x; intros [= ->]. Qed.
Lemma required_bind {A B} (x : option A) e (f : A → outcome B) b :
  (let? a := required x e in f a) = Ok b → ∃ a, x = Some a ∧ f a = Ok b.
Proof. destruct x as [a|]; [|done]. intros Hf. by exists a. Qed.

(** The endpoint named by a text: an https URL of a host. *)
Definition https_host (text : option bytes) (url : bytes) (parts : UrlParts) (host : bytes) : Prop :=
  text = Some url ∧ url_parse url = Some parts ∧ scheme parts = str "https" ∧ host_str parts = Some host.
(** Two hosts that differ, and so do their registrable domains when both have one. *)
Definition apart (a b : bytes) : Prop :=
  a ≠ b ∧ ∀ d, psl_domain a = Some d → psl_domain b ≠ Some d.

Lemma odoh_upstream_ok c o : odoh_upstream c = Ok o →
  (∃ parts, https_host (relay c) (relay_url o) parts (relay_host o) ∧
     relay_bootstrap o = option_map (λ ip, MkSock ip (default 443 (known_port parts))) (relay_ip c)) ∧
  (∃ url parts, https_host (target c) url parts (target_host o) ∧
     target_bootstrap o = option_map (λ ip, MkSock ip (default 443 (known_port parts))) (target_ip c)) ∧
  apart (relay_host o) (target_host o) ∧ target_path o ≠ [] ∧ strict o = default true (strict_odoh c).
Proof.
  unfold odoh_upstream. intros (r & Hr & (t & Ht & (ru & Hru & (tu & Htu & Hk)%required_bind)%required_bind)%required_bind)%required_bind.
  case_bool_decide as Hs1; [|done]. case_bool_decide as Hs2; [|done]. cbn [negb orb] in Hk.
  apply required_bind in Hk as (rh & Hrh & (th & Hth & Hk)%required_bind).
  case_bool_decide as Hne; [done|]. unfold shared_registrable_domain in Hk.
  destruct (match psl_domain rh with Some _ => _ | None => _ end) eqn:Hp; [done|].
  apply (inj Ok) in Hk as <-. cbn. split_and!; [by exists ru|by exists t, tu| | |done].
  - split; [done|]. intros d Hd Hd'. rewrite Hd, Hd' in Hp. by rewrite bool_decide_eq_true_2 in Hp.
  - case_bool_decide; done.
Qed.

(** C20: an oblivious set-up that is accepted separates who asks from what is asked. The relay and the
    target are https URLs of different hosts, which do not share a registrable domain. Unless the
    configuration says [strict = false], the pool is the relay alone: failover
    asks nothing else, whatever happens, and no query is hedged. The addresses configured for
    the relay and the target are those the server's own requests connect to, and
    nothing is asked to find them. *)
Theorem oblivious_pool (c : UpstreamConfig) (o : OdohUpstream) (system dhcp : option bytes)
    (hints : list SocketAddr) : mode c = ModeOdoh → odoh_upstream c = Ok o →
  (∃ parts, https_host (relay c) (relay_url o) parts (relay_host o)) ∧
  (∃ url parts, https_host (target c) url parts (target_host o)) ∧
  apart (relay_host o) (target_host o) ∧
  (strict_odoh c ≠ Some false →
     let pool := MkPool [Odoh (relay_url o) (target_path o) (target_host o)] [] in
     resolve_upstream_pool c system dhcp hints = ret (ModeOdoh, false, pool) ∧
     ∀ now srtt, failover_order now pool srtt = [Odoh (relay_url o) (target_path o) (target_host o)]) ∧
  hedge_delay (mode c) (hedge_ms c) = 0 ∧
  (∀ ip, relay_ip c = Some ip → resolve (relay_host o) (bootstrap_resolver c) = ret [MkSock ip 0]) ∧
  (∀ ip, target_ip c = Some ip → resolve (target_host o) (bootstrap_resolver c) = ret [MkSock ip 0]).
Proof.
  intros Hm Ho. destruct (odoh_upstream_ok c o Ho) as ((ru & Hr & Hrb) & (t & tu & Ht & Htb) & Hap & _ & Hstrict).
  destruct (lookup_overrides o (proj1 Hap)) as [Hl1 Hl2].
  assert (Hres : ∀ host ip, host_ip_overrides o !! host = Some [ip] →
    resolve host (bootstrap_resolver c) = ret [MkSock ip 0]).
  { intros host ip Hh. unfold resolve, bootstrap_resolver. cbn [resolver_new overrides]. by rewrite Hm, Ho, Hh. }
  split_and!; [by exists ru|by exists t, tu|done| |by rewrite Hm| |].
  - intros Hns pool. split; [|intros; reflexivity]. unfold resolve_upstream_pool. rewrite Hm, Ho. cbn [bind]. rewrite Hstrict.
    destruct (strict_odoh c) as [[]|]; done.
  - intros ip Hip. rewrite Hip in Hrb. apply Hres. by rewrite (Hl1 _ Hrb).
  - intros ip Hip. rewrite Hip in Htb. apply Hres. by rewrite (Hl2 _ Htb).
Qed.

(** * Siblings *)

Lemma upstream_eqb_tcp a u : upstream_eqb (Tcp a) u = true ↔ u = Tcp a.
Proof. destruct u; cbn; rewrite ?bool_decide_eq_true; naive_solver. Qed.
Lemma tcp_siblings_spec prim fb : ∃ more, tcp_siblings prim fb = fb ++ more ∧ NoDup more ∧
  ∀ u, u ∈ more ↔ ∃ a, u = Tcp a ∧ Udp a ∈ prim ∧ u ∉ fb.
Proof.
  revert fb. induction prim as [|p prim IH]; intros fb.
  { exists []. rewrite app_nil_r. split; [done|]. split; [constructor|]. intros u. split; [by intros ?%not_elem_of_nil|].
    by intros (a & _ & []%not_elem_of_nil & _). }
  assert (Hskip : (∀ a, p = Udp a → Tcp a ∈ fb) → ∃ more, tcp_siblings prim fb = fb ++ more ∧ NoDup more ∧
    ∀ u, u ∈ more ↔ ∃ a, u = Tcp a ∧ Udp a ∈ p :: prim ∧ u ∉ fb).
  { intros Hp. destruct (IH fb) as (more & He & Hn & Hm). exists more. split; [done|]. split; [done|].
    intros u. rewrite Hm. split; intros (a & -> & Ha & Hu); exists a; (split; [done|]; split; [|done]).
    - by right.
    - apply elem_of_cons in Ha as [Ha|Ha]; [|done]. by destruct Hu; apply Hp. }
  destruct p as [a|a|url|a n|r t h]; try (cbn [tcp_siblings]; by apply Hskip).
  cbn [tcp_siblings]. destruct (existsb _ fb) eqn:E.
  - apply Hskip. intros a' [= <-]. apply existsb_exists in E as (u & Hin & Hu%upstream_eqb_tcp).
    subst u. by apply list_elem_of_In.
  - assert (Ha : Tcp a ∉ fb).
    { intros Hin%list_elem_of_In. apply not_true_iff_false in E. apply E, existsb_exists.
      exists (Tcp a). split; [done|]. by apply upstream_eqb_tcp. }
    destruct (IH (fb ++ [Tcp a])) as (more & He & Hn & Hm). exists (Tcp a :: more).
    rewrite He, <- app_assoc. split; [done|]. split.
    + constructor; [|done]. intros (a' & _ & _ & Hu)%Hm. apply Hu, elem_of_app. right. by left.
    + intros u. rewrite elem_of_cons, Hm. split.
      * intros [->|(a' & -> & Hin & Hu)]; [exists a; by split_and!; [|left|]|].
        exists a'. split; [done|]. split; [by right|]. intros Hf. apply Hu, elem_of_app. by left.
      * intros (a' & -> & [Heq|Hin]%elem_of_cons & Hu); [left; by injection Heq as ->|].
        destruct (decide (a' = a)) as [->|Hne]; [by left|]. right. exists a'. split_and!; [done|done|].
        intros [?|Hl]%elem_of_app; [done|]. apply list_elem_of_singleton in Hl. by injection Hl.
Qed.

(** The pool of a forwarding server. Its primary servers are the configured addresses, or, when none
    is configured, the one of the system's settings or the built-in one; its fallback is the
    configured one, followed by the TCP sibling of each primary UDP server that is not there
    already, each once. The set-up fails exactly when an address cannot be parsed. *)
Theorem forward_pool_spec (c : UpstreamConfig) (system dhcp : option bytes) :
  let addrs := if bool_decide (address c = []) then [default DOH_FALLBACK (detected system dhcp)] else address c in
  match forward_pool c system dhcp with
  | Ok p =>
      parse_upstream_list addrs (upstream_port c) = Ok (primary p) ∧
      ∃ fb more, parse_upstream_list (upstream_fallback c) (upstream_port c) = Ok fb ∧
        fallback p = fb ++ more ∧ NoDup more ∧
        ∀ u, u ∈ more ↔ ∃ a, u = Tcp a ∧ Udp a ∈ primary p ∧ u ∉ fb
  | _ => (∀ us, parse_upstream_list addrs (upstream_port c) ≠ Ok us) ∨
         ∀ us, parse_upstream_list (upstream_fallback c) (upstream_port c) ≠ Ok us
  end.
Proof.
  intros addrs. assert (He : forward_pool c system dhcp =
    (let? primary := parse_upstream_list addrs (upstream_port c) in
     let? fallback := parse_upstream_list (upstream_fallback c) (upstream_port c) in
     Ok (MkPool primary (tcp_siblings primary fallback)))%outcome).
  { unfold forward_pool, addrs. by destruct (address c). }
  rewrite He. destruct (parse_upstream_list addrs _) as [prim| | |]; [|by left..]. cbn [obind].
  destruct (parse_upstream_list (upstream_fallback c) _) as [fb| | |]; [|by right..]. cbn.
  split; [done|]. destruct (tcp_siblings_spec prim fb) as (more & Hs & Hn & Hm). by exists fb, more.
Qed.
End pool_facts.

(** * Instances *)

#[local] Existing Instance sample_net.
#[local] Existing Instance lowercase_ascii.
(** URLs without a port or user, in lower case; registrable domains under one-label suffixes. *)
Definition https_url (s : bytes) : option UrlParts :=
  match strip_prefix (str "https://") s with
  | Some rest =>
      let '(host, path) := match after 47 rest with Some p => (before 47 rest, 47 :: p) | None => (rest, [47]) end in
      Some (MkUrl (str "https") (if bool_decide (host = []) then None else Some host) path (Some 443))
  | None => None
  end.
Definition last_two (host : bytes) : option bytes :=
  match reverse (split_on 46 host) with
  | b :: a :: _ => Some (a ++ 46 :: b)
  | _ => None
  end.
#[local] Instance sample_urls : UrlLib := {| url_parse := https_url; psl_domain := last_two |}.

Definition odoh_settings (relay target : string) (strict : option bool) : UpstreamConfig :=
  {| mode := ModeOdoh; address := []; upstream_port := 53; upstream_fallback := [str "9.9.9.9"]; timeout_ms := 5000;
     hedge_ms := 10; root_hint_list := []; prime_tld_list := []; use_srtt := true; relay := Some (str relay);
     target := Some (str target); strict_odoh := strict; relay_ip := Some (V4 (Ipv4 178 104 229 30)); target_ip := None |}.
Definition oblivious_settings : UpstreamConfig :=
  odoh_settings "https://odoh-relay.numa.rs/relay" "https://odoh.cloudflare-dns.com/dns-query" None.
Definition oblivious_upstream : OdohUpstream :=
  {| relay_url := str "https://odoh-relay.numa.rs/relay"; relay_host := str "odoh-relay.numa.rs";
     target_host := str "odoh.cloudflare-dns.com"; target_path := str "/dns-query"; strict := true;
     relay_bootstrap := Some (MkSock (V4 (Ipv4 178 104 229 30)) 443); target_bootstrap := None |}.
Example same_operator_rejected :
  odoh_upstream (odoh_settings "https://relay.cloudflare.com/r" "https://odoh.cloudflare.com/dns-query" None)
  = Err (Message "upstream.relay and upstream.target share the registrable domain").
Proof. vm_compute. reflexivity. Qed.

Lemma oblivious_pool_witness :
  mode oblivious_settings = ModeOdoh ∧ odoh_upstream oblivious_settings = Ok oblivious_upstream ∧
  apart (str "odoh-relay.numa.rs") (str "odoh.cloudflare-dns.com") ∧
  resolve (str "odoh-relay.numa.rs") (bootstrap_resolver oblivious_settings) =
    ret [MkSock (V4 (Ipv4 178 104 229 30)) 0].
Proof.
  assert (Hm : mode oblivious_settings = ModeOdoh) by reflexivity.
  assert (Ho : odoh_upstream oblivious_settings = Ok oblivious_upstream) by (vm_compute; reflexivity).
  split; [exact Hm|]. split; [exact Ho|].
  destruct (oblivious_pool oblivious_settings oblivious_upstream None None [] Hm Ho)
    as (_ & _ & Ha & _ & _ & Hr & _).
  split; [exact Ha|]. apply Hr. reflexivity.
Defined.
