(* ===== verification/Startup.v ===== *)
(** [src/src/serve.rs] and the downloads of [src/src/blocklist.rs]: the server's first state, made
    from the configuration and from what the machine says of itself, and the tasks that run in the background
    afterwards. Certificates, the listeners' sockets and the banner are left out. *)
From stdpp Require Import gmap.
From S2P Require Import Prelude Net Ip Text Acl Policy Domains Overrides Services Peers Stats Srtt.
From S2P Require Import QueryLog Forward Zones Rebind Cache Local Shape Buffer Question Header Record.
From S2P Require Import Packet Async Recursive Resolve Query Bootstrap SystemDns Config.
Open Scope outcome_scope.
Open Scope fut_scope.

(** * Starting *)

(** The configuration, as far as the resolver's state comes from it. *)
Record Configuration := MkConfiguration {
  c_bind_addr : list bytes;
  c_api_port : Z;
  c_api_bind_addr : bytes;
  c_filter_aaaa : bool;
  c_allow_from : list bytes;
  c_rebind_protect : bool;
  c_rebind_allowlist : list bytes;
  c_rebind_ranges : list bytes;
  c_upstream : UpstreamConfig;
  c_max_entries : Z;
  c_min_ttl : Z;
  c_max_ttl : Z;
  c_warm : list bytes;
  c_blocking : bool;
  c_lists : list bytes;
  c_allowlist : list bytes;
  c_zones : list ZoneRecord;
  c_proxy_tld : bytes;
  c_services : list config_entry;
  c_peer_timeout : Z;
  c_dnssec : bool;
  c_dnssec_strict : bool;
  c_forwarding : list ForwardingRuleConfig;
  c_policies : list ClientPolicyConfig
}.
(** What the machine says: its resolver settings and address, the persisted files, the sockets
    that can be bound, and the time. *)
Record Machine := MkMachine {
  m_dns : SystemDnsInfo;
  m_dhcp : option bytes;
  m_lan_ip : option Ipv4Addr;
  m_allow_file : list bytes;
  m_block_file : list bytes;
  m_rebind_file : list bytes;
  m_services_file : list ServiceEntry;
  m_binds : bytes → bool;
  m_now : Z
}.

(** The port-53 advisory, after which the process exits, is an error here. *)
Fixpoint bind_all (binds : bytes → bool) (addrs : list bytes) : outcome unit :=
  match addrs with
  | [] => Ok tt
  | addr :: addrs => if binds addr then bind_all binds addrs else Err (Message "cannot bind")
  end.
Definition bind_udp_listeners (binds : bytes → bool) (addrs : list bytes) : outcome unit :=
  match addrs with
  | [] => Err (Message "server.bind_addr is empty")
  | _ => bind_all binds addrs
  end.

Section start.
Context `{Lowercase} `{Uppercase} `{NetLib} `{UrlLib}.
Abbreviation async A := (fut World request reply A).

Definition initial_blocklist (c : Configuration) (m : Machine) : BlocklistStore :=
  let b := store_new (Domains.new (m_allow_file m) (c_allowlist c)) (Domains.new (m_block_file m) []) in
  if c_blocking c then b else Domains.set_enabled false b.
Definition initial_services (c : Configuration) (m : Machine) : ServiceStore :=
  Services.start ((str "numa", c_api_port c, None, []) :: c_services c) (m_services_file m).

(** The address of the HTTP API, parsed when the background services are spawned. *)
Definition api_addr (c : Configuration) : outcome SocketAddr :=
  match parse_socket (c_api_bind_addr c ++ 58 :: show_u16 (c_api_port c)) with
  | Some a => Ok a
  | None => Err (Message "invalid socket address syntax")
  end.

(** [run] as far as the state is concerned: the context and the allowlist of the listeners. *)
Definition start (c : Configuration) (m : Machine) : async (ServerCtx * AllowFromAcl) :=
  let root_hints := parse_root_hints (root_hint_list (c_upstream c)) in
  let* (resolved_mode, upstream_auto, pool) :=
    resolve_upstream_pool (c_upstream c) (default_upstream (m_dns m)) (m_dhcp m) root_hints in
  let* forwarding_rules := Return (merge_forwarding_rules (c_forwarding c) (SystemDns.forwarding_rules (m_dns m))) in
  let* allow_from := Return (acl_from_entries (c_allow_from c)) in
  let* client_policy := Return (from_configs (m_now m) (c_policies c)) in
  let* rebind := Return (rebind_new (c_rebind_protect c)
    (Domains.new (m_rebind_file m) (c_rebind_allowlist c)) (c_rebind_ranges c)) in
  let* _ := Return (bind_udp_listeners (m_binds m) (c_bind_addr c)) in
  let* zone_map := Return (build_zone_map (c_zones c)) in
  let* _ := Return (api_addr c) in
  ret ({| zone_map := zone_map;
          cache := Cache.new (c_max_entries c) (c_min_ttl c) (c_max_ttl c);
          refreshing := ∅;
          stats := stats_new (m_now m);
          Local.overrides := ∅;
          blocklist := initial_blocklist c m;
          query_log := log_new 1000;
          Local.services := initial_services c m;
          lan_peers := peers_new (c_peer_timeout c);
          Local.forwarding_rules := forwarding_rules;
          upstream_pool := pool;
          lan_ip := default (Ipv4 127 0 0 1) (m_lan_ip m);
          proxy_tld := c_proxy_tld c;
          proxy_tld_suffix := match c_proxy_tld c with [] => [] | tld => 46 :: tld end;
          upstream_mode := resolved_mode;
          root_hints := root_hints;
          srtt := srtt_new (use_srtt (c_upstream c));
          dnssec_enabled := c_dnssec c;
          dnssec_strict := c_dnssec_strict c;
          Local.filter_aaaa := c_filter_aaaa c;
          Local.client_policy := client_policy;
          Local.rebind := rebind |}, allow_from).
End start.

(** * Watching the network *)

(** What a turn finds. *)
Record Observation := MkObs { o_lan_ip : option Ipv4Addr; o_system : option bytes; o_dhcp : option bytes }.

Section watch.
Context `{Lowercase} `{NetLib} (iter : Entries → list visit) (keys : srtt_map → list Srtt.key).
Abbreviation async A := (fut World request reply A).
(** [ctx.upstream_auto] and [ctx.upstream_port]. *)
Context (upstream_auto : bool) (upstream_port : Z).

Definition check_lan_ip (found : option Ipv4Addr) (w : World) : bool * World :=
  match found with
  | Some new_ip =>
      if bool_decide (new_ip = lan_ip (ctx w)) then (false, w)
      else (true, reset_udp_state (set_ctx (set_lan_ip new_ip (ctx w)) w))
  | None => (false, w)
  end.
Definition redetect (tick : Z) (o : Observation) (changed : bool) (w : World) : bool * World :=
  if upstream_auto && (changed || (tick mod 6 =? 0)) then
    let new_addr := default QUAD9_IP (detected (o_system o) (o_dhcp o)) in
    let '(updated, pool) := maybe_update_primary new_addr upstream_port (upstream_pool (ctx w)) in
    (changed || updated, set_ctx (set_upstream_pool pool (ctx w)) w)
  else (changed, w).
Definition flush_peers (changed : bool) (w : World) : World :=
  if changed then set_ctx (set_lan_peers (peer_clear (lan_peers (ctx w))) (ctx w)) w else w.
(** The part of a turn that does not wait. *)
Definition watch (tick : Z) (o : Observation) (w : World) : World :=
  let '(changed, w) := check_lan_ip (o_lan_ip o) w in
  let '(changed, w) := redetect tick o changed w in
  flush_peers changed w.
Definition watch_turn (tick : Z) (o : Observation) : async unit :=
  let* _ := modify (watch tick o) in
  let* hints := gets (λ w, root_hints (ctx w)) in
  if tick mod 60 =? 0 then probe_udp hints else ret tt.

Definition sleep (ms : Z) : async unit := Await (Sleep ms) [] (λ _ _, ret tt).
(** The loop, for as many turns as there are observations; the counter does not wrap. *)
Fixpoint network_watch_loop (tick : Z) (os : list Observation) : async unit :=
  match os with
  | [] => ret tt
  | o :: os =>
      let* _ := sleep 5000 in
      let* _ := watch_turn (tick + 1) o in
      network_watch_loop (tick + 1) os
  end.

(** * Keeping the cache warm *)

Definition warm_domain (domain : bytes) : async unit :=
  let* _ := refresh_entry iter keys domain QueryType.A in
  refresh_entry iter keys domain QueryType.AAAA.
Fixpoint warm_all (domains : list bytes) : async unit :=
  match domains with
  | [] => ret tt
  | d :: domains => let* _ := warm_domain d in warm_all domains
  end.
Fixpoint warm_due (domains : list bytes) : async unit :=
  match domains with
  | [] => ret tt
  | d :: domains =>
      let* refresh := gets (λ w, needs_warm (clock w) (cache (ctx w)) d) in
      let* _ := if refresh : bool then warm_domain d else ret tt in
      warm_due domains
  end.
Fixpoint warm_turns (n : nat) (domains : list bytes) : async unit :=
  match n with
  | O => ret tt
  | S n => let* _ := sleep 30000 in let* _ := warm_due domains in warm_turns n domains
  end.
(** The loop, for [n] turns. *)
Definition cache_warm_loop (n : nat) (domains : list bytes) : async unit :=
  let* _ := sleep 2000 in
  let* _ := warm_all domains in
  warm_turns n domains.

(** * Keeping the upstream connection open *)

(** [. NS], recursion desired. *)
Definition KEEPALIVE_QUERY : bytes := [0; 0; 1; 0; 0; 1; 0; 0; 0; 0; 0; 0; 0; 0; 2; 0; 1].
Definition keepalive_doh (u : Upstream) : async unit :=
  match u with
  | Doh _ => let* _ := exchange u KEEPALIVE_QUERY in ret tt
  | _ => ret tt
  end.
(** The loop, for [n] turns; the first is at once. *)
Fixpoint doh_keepalive_loop (n : nat) : async unit :=
  match n with
  | O => ret tt
  | S n =>
      let* pool := gets (λ w, upstream_pool (ctx w)) in
      let* _ := match preferred pool with Some u => keepalive_doh u | None => ret tt end in
      let* _ := sleep 25000 in
      doh_keepalive_loop n
  end.

(** * Loading blocklists *)

(** Parsing is outside the lock, and so is downloading: the swap is a single step. *)
Definition load_blocklists (downloaded : list (bytes * bytes)) (w : World) : World :=
  let all_domains := foldl (λ s d, s ∪ parse_blocklist (snd d)) ∅ downloaded in
  set_ctx (set_blocklist (swap_domains (clock w) all_domains (map fst downloaded) (blocklist (ctx w))) (ctx w)) w.
(** The ticks of [tokio::time::interval] after the first, each awaited after what the one before
    downloaded was loaded; a tick that was missed comes at once. *)
Fixpoint blocklist_refreshes (period deadline : Z) (downloads : list (list (bytes * bytes))) : async unit :=
  match downloads with
  | [] => ret tt
  | d :: downloads =>
      let* now := gets clock in
      let* _ := sleep (Z.max 0 (deadline - now) / 1000000) in
      let* _ := modify (load_blocklists d) in
      blocklist_refreshes period (deadline + period) downloads
  end.
(** The seconds between two refreshes, as the release build computes them. *)
Definition refresh_secs (hours : Z) : Z := as_u64 (hours * 3600).
(** The first load, and a refresh every [refresh_hours], each with what it downloaded. The interval
    panics on a period of zero; its first tick is at once. *)
Definition blocklist_loop (hours : Z) (first : list (bytes * bytes)) (downloads : list (list (bytes * bytes)))
    : async unit :=
  let* _ := modify (load_blocklists first) in
  let period := refresh_secs hours * 1000000000 in
  if period =? 0 then Return Panic
  else
    let* start := gets clock in
    blocklist_refreshes period (start + period) downloads.
End watch.

(** ** Downloads *)

Definition RETRY_DELAYS_SECS : list Z := [2; 10; 30].
(** On Unix. *)
Definition local_path (source : bytes) : option bytes :=
  match strip_prefix (str "file://") source with
  | Some rest => Some rest
  | None => if starts_with (str "/") source then Some source else None
  end.
(** The attempts at one URL, by their number, and the delays waited. *)
Fixpoint fetch_attempts (fetch_once : nat → option bytes) (attempt : nat) (delays : list Z) : option bytes * list Z :=
  match fetch_once attempt, delays with
  | Some text, _ => (Some text, [])
  | None, [] => (None, [])
  | None, delay :: delays =>
      let '(r, slept) := fetch_attempts fetch_once (S attempt) delays in (r, delay :: slept)
  end.
Definition fetch_with_retry_delays (fetch_once : nat → option bytes) (delays : list Z) : option bytes * list Z :=
  fetch_attempts fetch_once 1 delays.
Definition fetch_with_retry (fetch_once : nat → option bytes) : option bytes :=
  fst (fetch_with_retry_delays fetch_once RETRY_DELAYS_SECS).
(** The fetches run together; their results are in the order of the sources. *)
Definition download_blocklists (read_file : bytes → option bytes) (fetch : bytes → nat → option bytes)
    (lists : list bytes) : list (bytes * bytes) :=
  omap (λ source,
    option_map (pair source)
      match local_path source with
      | Some path => read_file path
      | None => fetch_with_retry (fetch source)
      end) lists.

(** * The configurations that start *)

Definition succeeds {A} (o : outcome A) : Prop := ∃ a, o = Ok a.
Lemma returns_bind {A B} (o : outcome A) (k : A → outcome B) :
  returns o → (∀ a, returns (k a)) → returns (obind o k).
Proof. by destruct o; cbn; auto. Qed.
Lemma parse_upstream_addr_returns s port : returns (parse_upstream_addr s port).
Proof. unfold parse_upstream_addr. destruct (parse_socket s); [done|]. by destruct (parse_ip s). Qed.
Lemma parse_upstream_returns s port : returns (parse_upstream s port).
Proof.
  unfold parse_upstream. destruct (starts_with _ s); [done|]. destruct (strip_prefix _ s) as [rest|].
  - destruct (after 35 rest); (apply returns_bind; [apply parse_upstream_addr_returns|done]).
  - destruct (strip_prefix _ s); (apply returns_bind; [apply parse_upstream_addr_returns|done]).
Qed.
Lemma parse_upstream_list_returns us port : returns (parse_upstream_list us port).
Proof.
  induction us as [|s us IH]; [done|]. cbn [parse_upstream_list]. apply returns_bind; [apply parse_upstream_returns|].
  intros u. by apply returns_bind.
Qed.
Lemma parse_upstream_list_nonempty us port l : us ≠ [] → parse_upstream_list us port = Ok l → l ≠ [].
Proof.
  destruct us as [|s us]; [done|]. intros _. cbn [parse_upstream_list]. destruct (parse_upstream s port); [|done..].
  cbn [obind]. destruct (parse_upstream_list us port); [|done..]. cbn [obind]. intros H. by apply (inj Ok) in H as <-.
Qed.
Lemma returns_cases {A} (o : outcome A) : returns o → succeeds o ∨ ∃ e, o = Err e.
Proof. destruct o; [|by right; eexists|done..]. left. by eexists. Qed.

Section accepted.
Context `{Lowercase} `{Uppercase} `{NetLib} `{UrlLib}.

Definition upstream_accepted (c : UpstreamConfig) (m : Machine) : Prop :=
  match mode c with
  | ModeAuto | ModeRecursive => True
  | ModeForward => succeeds (forward_pool c (default_upstream (m_dns m)) (m_dhcp m))
  | ModeOdoh => ∃ o, odoh_upstream c = Ok o ∧
      (strict o = true ∨ succeeds (parse_upstream_list (upstream_fallback c) (upstream_port c)))
  end.
(** Every part of the configuration can be used on this machine. *)
Record accepted (c : Configuration) (m : Machine) : Prop := {
  ac_upstream : upstream_accepted (c_upstream c) m;
  ac_forwarding : Forall (λ r, ∃ us, rule_parses r us) (c_forwarding c);
  ac_allow_from : succeeds (acl_from_entries (c_allow_from c));
  ac_policies : succeeds (from_configs (m_now m) (c_policies c));
  ac_rebind : succeeds (rebind_new (c_rebind_protect c) (Domains.new (m_rebind_file m) (c_rebind_allowlist c))
                          (c_rebind_ranges c));
  ac_bind : c_bind_addr c ≠ [] ∧ Forall (λ a, m_binds m a = true) (c_bind_addr c);
  ac_zones : succeeds (build_zone_map (c_zones c));
  ac_api : succeeds (api_addr c)
}.

(** ** Every step returns *)

Lemma matcher_returns inc exc : returns (matcher_from_entries inc exc).
Proof.
  apply returns_bind; [apply parse_cidr_list_returns|]. intros i.
  apply returns_bind; [apply parse_cidr_list_returns|done].
Qed.
Lemma from_configs_returns now l : returns (from_configs now l).
Proof.
  apply returns_bind; [|done]. induction l as [|cfg l IH]; [done|]. cbn [rules_from_configs].
  apply returns_bind; [|by intros; apply returns_bind]. unfold policy_from_config.
  case_bool_decide; [done|]. cbv zeta. destruct (_ && _); [done|]. apply returns_bind; [apply matcher_returns|done].
Qed.
Lemma forward_pool_returns c system dhcp : returns (forward_pool c system dhcp).
Proof.
  unfold forward_pool. cbv zeta. apply returns_bind; [apply parse_upstream_list_returns|]. intros p.
  apply returns_bind; [apply parse_upstream_list_returns|done].
Qed.
Lemma required_returns {A B} (x : option A) e (k : A → outcome B) :
  (∀ a, returns (k a)) → returns (obind (required x e) k).
Proof. intros Hk. by apply returns_bind; [destruct x|]. Qed.
Lemma odoh_upstream_returns c : returns (odoh_upstream c).
Proof.
  unfold odoh_upstream. repeat (apply required_returns; intros). destruct (_ || _); [done|].
  repeat (apply required_returns; intros). case_bool_decide; [done|]. by destruct (shared_registrable_domain _ _).
Qed.
Lemma bind_all_spec binds addrs :
  returns (bind_all binds addrs) ∧ (succeeds (bind_all binds addrs) ↔ Forall (λ a, binds a = true) addrs).
Proof.
  induction addrs as [|a addrs IH]; cbn [bind_all].
  { split; [done|]. split; [constructor|]. intros _. by exists tt. }
  destruct (binds a) eqn:Ha.
  - destruct IH as [Hr Hs]. split; [done|]. rewrite Hs, Forall_cons. by intuition.
  - split; [done|]. rewrite Forall_cons, Ha. split; [by intros []|by intros []].
Qed.
Lemma bind_udp_spec binds addrs : returns (bind_udp_listeners binds addrs) ∧
  (succeeds (bind_udp_listeners binds addrs) ↔ addrs ≠ [] ∧ Forall (λ a, binds a = true) addrs).
Proof.
  destruct addrs as [|a addrs]; [split; [done|]; split; [by intros []|by intros []]|].
  destruct (bind_all_spec binds (a :: addrs)) as [Hr Hs]. split; [done|]. cbn [bind_udp_listeners].
  rewrite Hs. split; [done|by intros []].
Qed.
Lemma merge_returns c d : returns (merge_forwarding_rules c d) ∧
  (succeeds (merge_forwarding_rules c d) ↔ Forall (λ r, ∃ us, rule_parses r us) c).
Proof.
  unfold merge_forwarding_rules. pose proof (config_rules_cases c) as Hc.
  assert (Hr : returns (config_rules c)).
  { clear Hc. induction c as [|r c IH]; [done|]. cbn [config_rules]. apply returns_bind; [|by intros; apply returns_bind].
    unfold to_runtime_rules. pose proof (parse_upstream_list_returns (config_upstream r) 53) as Hp.
    destruct (config_upstream r); [done|]. by destruct (parse_upstream_list _ 53). }
  destruct (config_rules c) as [l| | |]; [|split; [done|]; split; [by intros []|by intros ?%Hc]|done..].
  cbn [obind]. split; [done|]. split; [by intros _; apply Hc|]. intros _. by eexists.
Qed.
Lemma build_zone_map_returns zones : returns (build_zone_map zones).
Proof. pose proof (build_zone_map_answers zones) as Hb. by destruct (build_zone_map zones). Qed.

(** ** The records of the configured zones *)

Context (lowercase_bytes : ∀ s, all_bytes s → all_bytes (to_lowercase s)).

(** Fields of the widths of the Rust types. *)
Definition zone_fields (z : ZoneRecord) : Prop :=
  all_bytes (Zones.domain z) ∧ all_bytes (value z) ∧ is_u32 (Zones.ttl z).

Lemma zone_key_bytes z w d : all_bytes (Zones.domain z) → zone_key z = Ok (w, d) → all_bytes d.
Proof.
  intros Hz. unfold zone_key. set (raw := trim_end_byte 46 _).
  assert (Hraw : all_bytes raw).
  { apply Forall_reverse, drop_while_Forall, Forall_reverse. by apply lowercase_bytes. }
  destruct (strip_prefix (str "*.") raw) as [k|] eqn:E; (case_match; [done|]); intros Hk; apply (inj Ok) in Hk;
    injection Hk as <- <-; [|done].
  apply strip_prefix_spec in E. rewrite E in Hraw. by apply Forall_app in Hraw as [_ ?].
Qed.
Lemma zone_record_ok d ty z q r : all_bytes d → zone_fields z → zone_record d ty z = Ok (q, r) → record_ok r.
Proof.
  intros Hd (_ & Hv & Ht). unfold zone_record.
  destruct (bool_decide _).
  { destruct (parse_ipv4 (value z)) eqn:E; [|done]. intros Hr. apply (inj Ok) in Hr. injection Hr as _ <-.
    apply parse_ipv4_ok in E. by split_and!. }
  destruct (bool_decide _).
  { destruct (parse_ipv6 (value z)) eqn:E; [|done]. intros Hr. apply (inj Ok) in Hr. injection Hr as _ <-.
    apply parse_ipv6_ok in E. by split_and!. }
  destruct (bool_decide _); [intros Hr; apply (inj Ok) in Hr; injection Hr as _ <-; by split_and!|].
  destruct (bool_decide _); [intros Hr; apply (inj Ok) in Hr; injection Hr as _ <-; by split_and!|].
  destruct (bool_decide _); [intros Hr; apply (inj Ok) in Hr; injection Hr as _ <-; by split_and!|].
  destruct (bool_decide _); [|done]. unfold split_two. destruct (after 32 (value z)) as [host|] eqn:E; [|done].
  destruct (parse_uint 65535 _) as [p|] eqn:Ep; [|done]. intros Hr. apply (inj Ok) in Hr. injection Hr as _ <-.
  apply parse_uint_bound in Ep; [|lia]. apply after_split in E as [E _]. rewrite E in Hv.
  apply Forall_app in Hv as [_ Hv]. apply Forall_cons in Hv as [_ Hv].
  split; [done|]. split; [done|]. split; [|done]. unfold is_u16. lia.
Qed.
Lemma zone_entry_record z w d q r : zone_fields z → zone_entry z = Ok (w, d, q, r) → record_ok r.
Proof.
  intros Hz. unfold zone_entry. destruct (zone_key z) as [[w' d']| | |] eqn:Hk; cbn [obind]; [|done..].
  destruct (zone_record d' (to_uppercase (record_type z)) z) as [[q' r']| | |] eqn:Hr; cbn [obind]; [|done..].
  intros He. apply (inj Ok) in He. injection He as <- <- <- <-.
  eapply (zone_record_ok d'); [|done|exact Hr]. by apply (zone_key_bytes z w' d'); [apply Hz|].
Qed.
Lemma at_name_records w d es : Forall (λ e : entry, record_ok (snd e)) es →
  Forall (λ x : QueryType.t * DnsRecord.t, record_ok (snd x)) (at_name w d es).
Proof.
  unfold at_name. induction 1 as [|[[[w' d'] q] r] es He _ IH]; [constructor|].
  cbn. case_decide; [|done]. by constructor.
Qed.
Lemma answer_of_records rs q : Forall (λ x : QueryType.t * DnsRecord.t, record_ok (snd x)) rs →
  Forall record_ok (answer_of rs q).
Proof.
  intros Hrs. rewrite Forall_forall in Hrs. apply Forall_forall. intros r Hr.
  unfold answer_of in Hr. destruct (of_type q rs) eqn:Hq.
  - case_decide; [by apply elem_of_nil in Hr|]. apply of_type_In in Hr. exact (Hrs _ Hr).
  - rewrite <- Hq in Hr. apply of_type_In in Hr. exact (Hrs _ Hr).
Qed.
Lemma zones_records_ok zones m : Forall zone_fields zones → build_zone_map zones = Ok m →
  ∀ q t rs, all_bytes q → zone_lookup q t m = Some rs → Forall record_ok rs.
Proof.
  intros Hz Hm q t rs Hq Hl. pose proof (build_zone_map_answers zones) as Hb. rewrite Hm in Hb.
  destruct Hb as (es & Hes & Ha). specialize (Ha q t). rewrite Hl in Ha.
  assert (Hrec : Forall (λ e : entry, record_ok (snd e)) es).
  { clear -Hes Hz lowercase_bytes. induction Hes as [|z [[[w d] q] r] zs es He _ IH]; [constructor|].
    apply Forall_cons in Hz as [Hz Hzs]. constructor; [by eapply zone_entry_record|by apply IH]. }
  inversion Ha; subst.
  - by apply answer_of_records, at_name_records.
  - apply Forall_map. eapply Forall_impl; [by apply (answer_of_records (at_name true s es) t), at_name_records|].
    intros r (Hd & Ht & Hr). destruct r; by split_and!.
Qed.

(** ** The first state *)

Abbreviation anything := (λ _ : Rebind.RebindFilter * bool * bool, True).
Abbreviation good := (Recursive.good anything).
Abbreviation safe := (Async.safe good fits).

Lemma safe_return {A B} (Q : outcome B → Prop) (o : outcome A) (k : A → fut World request reply B) s :
  good s → returns o → (∀ a, o = Ok a → safe Q (k a) s) → (¬ succeeds o → ∀ e, Q (Err e)) →
  safe Q (let* x := Return o in k x) s.
Proof.
  intros Hs Hr Hk He. destruct o as [a|e| |]; [by apply Hk| |done..]. split; [done|]. apply He. by intros [].
Qed.
Definition upstream_ready (c : UpstreamConfig) (m : Machine) (r : outcome (UpstreamMode * bool * UpstreamPool)) : Prop :=
  match r with
  | Ok (resolved, _, pool) => upstream_accepted c m ∧ resolved ≠ ModeAuto ∧
      (mode c ≠ ModeAuto → resolved = mode c) ∧ primary pool ≠ []
  | Err _ => ¬ upstream_accepted c m
  | _ => False
  end.
Lemma safe_upstream_pool c m hints s : good s →
  safe (upstream_ready c m) (resolve_upstream_pool c (default_upstream (m_dns m)) (m_dhcp m) hints) s.
Proof.
  intros Hs. unfold resolve_upstream_pool, upstream_ready, upstream_accepted. destruct (mode c) eqn:Hm.
  - apply (safe_seq anything (λ _, True)); [by apply safe_probe_recursive|]. intros [] s1 _ G1; by split.
  - apply safe_return; [done|apply forward_pool_returns| |done].
    intros p Hp. split; [done|]. split; [by exists p|]. split_and!; [done|done|].
    unfold forward_pool in Hp. set (addrs := match address c with [] => _ | _ => _ end) in Hp.
    assert (Ha : addrs ≠ []) by (unfold addrs; by destruct (address c)).
    destruct (parse_upstream_list addrs _) as [l| | |] eqn:Hl; [|done..]. cbn [obind] in Hp.
    destruct (parse_upstream_list (upstream_fallback c) _); [|done..]. apply (inj Ok) in Hp as <-.
    by eapply parse_upstream_list_nonempty.
  - by split.
  - apply safe_return; [done|apply odoh_upstream_returns| |].
    + intros o Ho. apply safe_return; [done|by destruct (strict o); [|apply parse_upstream_list_returns]| |].
      * intros fb Hfb. split; [done|]. split; [|done]. exists o. split; [done|].
        destruct (strict o); [by left|right; by exists fb].
      * intros Hn e (o' & Ho' & Hs'). rewrite Ho in Ho'. apply (inj Ok) in Ho' as <-. apply Hn.
        destruct (strict o); [by exists []|]. by destruct Hs'.
    + intros Hn e (o & Ho & _). apply Hn. by exists o.
Qed.

(** Nothing is cached, overridden or heard yet; blocking waits for its lists; the pool can be asked,
    in a mode that is decided; the settings are those of the configuration. *)
Record first_state (c : Configuration) (m : Machine) (s : ServerCtx) : Prop := {
  fs_serves : cache_ok (cache s) ∧ locals_ok s;
  fs_mode : upstream_mode s ≠ ModeAuto ∧ (mode (c_upstream c) ≠ ModeAuto → upstream_mode s = mode (c_upstream c));
  fs_pool : primary (upstream_pool s) ≠ [];
  fs_rules : merge_forwarding_rules (c_forwarding c) (SystemDns.forwarding_rules (m_dns m)) = Ok (Local.forwarding_rules s);
  fs_zones : build_zone_map (c_zones c) = Ok (zone_map s);
  fs_policy : from_configs (m_now m) (c_policies c) = Ok (client_policy s);
  fs_rebind : rebind_new (c_rebind_protect c) (Domains.new (m_rebind_file m) (c_rebind_allowlist c))
                (c_rebind_ranges c) = Ok (Local.rebind s);
  fs_dnssec : dnssec_enabled s = c_dnssec c ∧ dnssec_strict s = c_dnssec_strict c;
  fs_empty : cache s = Cache.new (c_max_entries c) (c_min_ttl c) (c_max_ttl c) ∧ Local.overrides s = ∅ ∧
             peers (lan_peers s) = ∅ ∧ Domains.domains (blocklist s) = ∅
}.
(** What the types promise, and that the bounds of cached lifetimes are in order, which nothing checks. *)
Record fields_ok (c : Configuration) (m : Machine) : Prop := {
  fo_zones : Forall zone_fields (c_zones c);
  fo_entries : 0 ≤ c_max_entries c;
  fo_ttls : 0 ≤ c_min_ttl c ≤ c_max_ttl c ∧ c_max_ttl c < 2 ^ 32;
  fo_lan : match m_lan_ip m with Some ip => ipv4_ok ip | None => True end
}.
Definition started (c : Configuration) (m : Machine) (r : outcome (ServerCtx * AllowFromAcl)) : Prop :=
  match r with
  | Ok (s, acl) => accepted c m ∧ first_state c m s ∧ acl_from_entries (c_allow_from c) = Ok acl
  | Err _ => ¬ accepted c m
  | _ => False
  end.
Lemma safe_start c m s : fields_ok c m → good s → safe (started c m) (start c m) s.
Proof.
  intros [Hfz Hfe Hft Hfl] Hs. unfold start. cbv zeta.
  apply (fut_bind good fits (upstream_ready (c_upstream c) m)); [by apply safe_upstream_pool| |by intros e Hn []|done|done].
  intros [[md auto] pool] s1 (Hu & Hmd & Hmode & Hpool) G1.
  destruct (merge_returns (c_forwarding c) (SystemDns.forwarding_rules (m_dns m))) as [Hr1 Hf].
  destruct (bind_udp_spec (m_binds m) (c_bind_addr c)) as [Hr2 Hb].
  apply safe_return; [done|done| |intros Hn e []; by apply Hn, Hf]. intros rules Hrules.
  apply safe_return; [done|apply returns_bind; [apply matcher_returns|done]| |intros Hn e []; by apply Hn].
  intros acl Hacl.
  apply safe_return; [done|apply from_configs_returns| |intros Hn e []; by apply Hn]. intros pol Hpol.
  apply safe_return; [done|apply returns_bind; [apply matcher_returns|done]| |intros Hn e []; by apply Hn].
  intros rb Hrb.
  apply safe_return; [done|done| |intros Hn e []; by apply Hn, Hb]. intros [] Hbind.
  apply safe_return; [done|apply build_zone_map_returns| |intros Hn e []; by apply Hn]. intros zm Hzm.
  apply safe_return; [done|unfold api_addr; by destruct (parse_socket _)| |intros Hn e []; by apply Hn]. intros api Hapi.
  split; [done|]. split_and!; [|split; cbn|done].
  - split; [done|by apply Hf; exists rules|by exists acl|by exists pol|by exists rb|by apply Hb; exists tt|by exists zm|by exists api].
  - split; [apply new_cache_ok; [exact Hfe|apply Hft|apply Hft]|]. split; cbn.
    + apply map_Forall_empty.
    + by apply (zones_records_ok (c_zones c)).
    + apply map_Forall_empty.
    + destruct (m_lan_ip m); [exact Hfl|]. apply (bool_decide_unpack _); vm_compute; exact I.
  - done.
  - done.
  - done.
  - done.
  - done.
  - done.
  - done.
  - unfold initial_blocklist. by destruct (c_blocking c).
Qed.

(** C5: starting the server. It starts exactly when every part of the configuration can be used on this
    machine: the upstream addresses, the forwarding rules, the networks of the allowlist, of the
    policies and of the rebinding filter, the zones, the sockets and the API's address; otherwise it ends with an error,
    whatever the network replies to the probe. The state it starts with is one that
    every query and every later request keeps: the caches are sound, the records of the zones and
    the server's own address can be sent; its pool can be asked, in a mode that is no longer
    automatic, and rules, zones, policies and filters are those the configuration describes. *)
Theorem start_ready (c : Configuration) (m : Machine) (env : nat → list request → moment) (n : nat) (w : World)
    (J : Rebind.RebindFilter * bool * bool → Prop) :
  fields_ok c m → env_ok good fits env → good w →
  let '(r, w') := run (start c m) env n w in
  started c m r ∧
  match r with Ok (s, _) => J (settings s) → Recursive.good J (set_ctx s w') | _ => True end.
Proof.
  intros Hf He Hw. pose proof (safe_run good fits _ _ env He n w (safe_start c m w Hf Hw)) as Hr.
  destruct (run (start c m) env n w) as [r w']. destruct Hr as [G Hr]. split; [done|].
  destruct r as [[s acl]| | |]; [|done..]. intros HJ. destruct Hr as (_ & Hs & _), (fs_serves c m s Hs) as [Hc Hl].
  split; [done|done|done|apply G].
Qed.
End accepted.

(** * What runs in the background *)

Section background.
Context `{Lowercase} `{NetLib} (iter : Entries → list visit) `{!IterOrder iter}
  (keys : srtt_map → list Srtt.key) (J : Rebind.RebindFilter * bool * bool → Prop).
Abbreviation good := (Recursive.good J).
Abbreviation safe := (Async.safe good fits).
Abbreviation quiet := (returns_ok (λ _ : unit, True)).

Lemma safe_forward_and_insert qname qtype pool s : good s →
  safe quiet (forward_and_insert iter keys qname qtype pool) s.
Proof.
  intros Hs. unfold forward_and_insert. pose proof (encode_returns (Packet.query 0 qname qtype)) as He.
  destruct (encode _) as [msg|e| |]; [|by split|done..].
  apply (safe_seq J (λ r, match r with inr w => all_bytes w | inl _ => True end)).
  - apply (safe_catch _ _ _ _ _ _ (safe_forward_raw keys J pool msg s Hs)); done.
  - intros [e|w] s1 Hw G1; [by split|]. by apply safe_insert_wire.
Qed.
Lemma safe_refresh_entry qname qtype s : all_bytes qname → qtype_ok qtype → good s →
  safe quiet (refresh_entry iter keys qname qtype) s.
Proof.
  intros Hn Hq Hs. unfold refresh_entry. cbn [Async.safe].
  destruct (match_forwarding_rule qname _) as [pool|]; [by apply safe_forward_and_insert|].
  case_bool_decide; [|by apply safe_forward_and_insert].
  apply (safe_seq J (λ r, match r with inr p => sound p | inl _ => True end)).
  - apply (safe_catch _ _ _ _ _ _ (safe_resolve_recursive iter keys J qname qtype _ s Hs)); try done.
    intros p (_ & _ & _ & _ & _ & _ & _ & Hp). apply Hp. by apply Query.query_query_ok.
  - intros [e|p] s1 Hp G1; [by split|]. by apply safe_cache_insert.
Qed.
Lemma safe_refresh_task key s : all_bytes (fst key) → qtype_ok (snd key) → good s →
  safe quiet (refresh_task iter keys key) s.
Proof.
  intros Hn Hq Hs. unfold refresh_task. apply (safe_seq J (λ _, True)); [by apply safe_refresh_entry|].
  intros _ s1 _ G1. split; [by apply (good_core J s1)|done].
Qed.
Lemma safe_warm_domain d s : all_bytes d → good s → safe quiet (warm_domain iter keys d) s.
Proof.
  intros Hd Hs. apply (safe_seq J (λ _, True)); [by apply safe_refresh_entry|]. intros. by apply safe_refresh_entry.
Qed.
Lemma safe_sleep ms s : good s → safe quiet (sleep ms) s.
Proof. intros Hs. split; [done|]. intros i q r s1 _ _ G1. by split. Qed.
Lemma safe_warm_loop n ds s : Forall all_bytes ds → good s → safe quiet (cache_warm_loop iter keys n ds) s.
Proof.
  intros Hds Hs. unfold cache_warm_loop. apply (safe_seq J (λ _, True)); [by apply safe_sleep|].
  intros _ s1 _ G1. apply (safe_seq J (λ _, True)).
  { revert s1 G1. induction Hds as [|d ds Hd _ IH]; intros s1 G1; [by split|].
    cbn [warm_all]. apply (safe_seq J (λ _, True)); [by apply safe_warm_domain|]. intros. by apply IH. }
  intros _ s2 _. revert s2. induction n as [|n IHn]; intros s2 G2; [by split|]. cbn [warm_turns].
  apply (safe_seq J (λ _, True)); [by apply safe_sleep|]. intros _ s3 _ G3.
  apply (safe_seq J (λ _, True)); [|intros; by apply IHn].
  clear IHn. revert s3 G3. induction Hds as [|d ds Hd _ IH]; intros s3 G3; [by split|]. cbn [warm_due].
  apply safe_gets. apply (safe_seq J (λ _, True)); [|intros; by apply IH].
  destruct (needs_warm _ _ d); [by apply safe_warm_domain|by split].
Qed.

Lemma safe_keepalive_loop n : ∀ s, good s → safe quiet (doh_keepalive_loop n) s.
Proof.
  induction n as [|n IH]; intros s Hs; [by split|]. cbn [doh_keepalive_loop]. apply safe_gets.
  apply (safe_seq J (λ _, True)).
  - destruct (preferred _) as [[a|a|url|a nm|r p h]|]; by split.
  - intros _ s1 _ G1. apply (safe_seq J (λ _, True)); [by apply safe_sleep|]. intros. by apply IH.
Qed.

Definition observed_ok (o : Observation) : Prop :=
  match o_lan_ip o with Some ip => ipv4_ok ip | None => True end.
Lemma good_ctx w c : settings c = settings (ctx w) → cache c = cache (ctx w) → locals_ok c → good w → good (set_ctx c w).
Proof. intros Hs Hc Hl [Gj Gc _ Gs]. split; cbn; [by rewrite Hs|by rewrite Hc|done|done]. Qed.
Lemma good_watch auto port tick o w : observed_ok o → good w → good (watch auto port tick o w).
Proof.
  intros Ho Gw. unfold watch.
  assert (G1 : good (snd (check_lan_ip (o_lan_ip o) w))).
  { unfold check_lan_ip, observed_ok in *. destruct (o_lan_ip o) as [a|]; [|done]. case_bool_decide; [done|]. cbn [snd].
    unfold reset_udp_state. apply (good_core J (set_ctx (set_lan_ip a (ctx w)) w)); [done|].
    apply good_ctx; [done|done| |done]. destruct Gw as [_ _ [? ? ? ?] _]. by split. }
  destruct (check_lan_ip (o_lan_ip o) w) as [ch w1]. cbn [snd] in G1.
  assert (G2 : good (snd (redetect auto port tick o ch w1))).
  { unfold redetect. destruct (_ && _); [|done]. cbv zeta. destruct (maybe_update_primary _ _ _) as [u p]. cbn [snd].
    by apply (good_core J w1). }
  destruct (redetect auto port tick o ch w1) as [ch' w2]. cbn [snd] in G2.
  unfold flush_peers. destruct ch'; [|done]. apply good_ctx; [done|done| |done].
  apply locals_ok_peers; [apply map_Forall_empty|apply G2].
Qed.
Lemma safe_watch_loop auto port os : Forall observed_ok os → ∀ tick s, good s →
  safe quiet (network_watch_loop auto port tick os) s.
Proof.
  induction 1 as [|o os Ho _ IH]; intros tick s Hs; [by split|]. cbn [network_watch_loop].
  apply (safe_seq J (λ _, True)); [by apply safe_sleep|]. intros _ s1 _ G1.
  apply (safe_seq J (λ _, True)); [|intros; by apply IH].
  unfold watch_turn. apply (safe_seq J (λ _, True)); [split; [by apply good_watch|done]|]. intros _ s2 _ G2.
  apply safe_gets. destruct (_ =? 0); [by apply safe_probe_udp|by split].
Qed.
Lemma good_load d w : good w → good (load_blocklists d w).
Proof. intros Gw. unfold load_blocklists. cbv zeta. by apply (good_core J w). Qed.
Lemma safe_blocklist_refreshes period ds : ∀ deadline s, good s →
  safe quiet (blocklist_refreshes period deadline ds) s.
Proof.
  induction ds as [|d ds IH]; intros deadline s1 G1; [by split|]. cbn [blocklist_refreshes]. apply safe_gets.
  apply (safe_seq J (λ _, True)); [by apply safe_sleep|]. intros _ s2 _ G2.
  apply (safe_seq J (λ _, True)); [split; [by apply good_load|done]|]. intros. by apply IH.
Qed.
Lemma safe_blocklist_loop hours first ds s : refresh_secs hours ≠ 0 → good s →
  safe quiet (blocklist_loop hours first ds) s.
Proof.
  intros Hp Hs. apply (safe_seq J (λ _, True)); [split; [by apply good_load|done]|]. intros _ s1 _ G1. cbv zeta.
  rewrite (proj2 (Z.eqb_neq _ 0)) by lia. apply safe_gets. by apply safe_blocklist_refreshes.
Qed.

(** The tasks the server spawns beside its listeners: those of [spawn_background_services] and the
    refreshes that queries start. *)
Inductive Background :=
  | WatchNetwork (upstream_auto : bool) (upstream_port : Z) (os : list Observation)
  | PrimeTlds (hints : list SocketAddr) (tlds : list bytes)
  | WarmCache (turns : nat) (domains : list bytes)
  | LoadLists (hours : Z) (first : list (bytes * bytes)) (later : list (list (bytes * bytes)))
  | KeepAlive (turns : nat)
  | RefreshEntry (key : bytes * QueryType.t).
Definition background (b : Background) : fut World request reply unit :=
  match b with
  | WatchNetwork auto port os => network_watch_loop auto port 0 os
  | PrimeTlds hints tlds => prime_tld_cache iter keys hints tlds
  | WarmCache n ds => cache_warm_loop iter keys n ds
  | LoadLists hours first later => blocklist_loop hours first later
  | KeepAlive n => doh_keepalive_loop n
  | RefreshEntry key => refresh_task iter keys key
  end.
Definition background_ok (b : Background) : Prop :=
  match b with
  | WatchNetwork _ _ os => Forall observed_ok os
  | WarmCache _ ds => Forall all_bytes ds
  | RefreshEntry key => all_bytes (fst key) ∧ qtype_ok (snd key)
  | PrimeTlds _ _ | LoadLists _ _ _ | KeepAlive _ => True
  end.

(** The one task that cannot run: reloading the lists every zero hours, or every number of hours whose
    seconds wrap to zero. *)
Definition never_refreshes (b : Background) : bool :=
  match b with LoadLists hours _ _ => refresh_secs hours =? 0 | _ => false end.

(** C10: nothing in the background spoils the server. Watching the network, priming and warming the
    cache, reloading the blocklists, keeping the upstream connection open and refreshing entries end without error or panic, for as many
    turns as they are given, and leave the state as every query needs it, whatever the
    servers reply, whatever is downloaded, and whatever the other tasks do that keep
    the state so too. The one exception is a refresh period of zero: that task panics after its first
    load, having changed nothing but the lists. *)
Theorem background_keeps_serving (b : Background) (env : nat → list request → moment) (n : nat) (w : World) :
  background_ok b → env_ok good fits env → good w →
  let '(r, w') := run (background b) env n w in
  good w' ∧
  match b with
  | LoadLists hours first _ =>
      if as_u64 (hours * 3600) =? 0 then r = Panic ∧ w' = load_blocklists first w else r = Ok tt
  | _ => r = Ok tt
  end.
Proof.
  intros Hb He Hw. destruct (never_refreshes b) eqn:Hz.
  { destruct b as [| | |hours first later| |]; try discriminate Hz. cbn [never_refreshes] in Hz.
    apply Z.eqb_eq in Hz. cbn [background]. unfold blocklist_loop. rewrite Hz.
    unfold refresh_secs in Hz. rewrite Hz. cbn.
    split; [by apply good_load|by split]. }
  assert (Hs : safe quiet (background b) w).
  { destruct b; cbn [background background_ok never_refreshes] in *.
    - by apply safe_watch_loop.
    - by apply safe_prime_tld_cache.
    - by apply safe_warm_loop.
    - apply safe_blocklist_loop; [by apply Z.eqb_neq|done].
    - by apply safe_keepalive_loop.
    - destruct Hb. by apply safe_refresh_task. }
  pose proof (safe_run good fits _ _ env He n w Hs) as Hr. destruct (run (background b) env n w) as [r w'].
  destruct Hr as [G Hr]. destruct r as [[]|e| |]; [|destruct Hr..]. split; [exact G|].
  destruct b as [| | |hours first later| |]; try reflexivity. cbn [never_refreshes] in Hz.
  unfold refresh_secs in Hz. by rewrite Hz.
Qed.
End background.

(** * What a refresh of the lists changes *)

(** One source's text: a file that can be read, or the first of four attempts at a URL that succeeds. *)
Definition obtained (read_file : bytes → option bytes) (fetch : bytes → nat → option bytes) (source text : bytes) : Prop :=
  match local_path source with
  | Some path => read_file path = Some text
  | None => ∃ k, (1 ≤ k ≤ 4)%nat ∧ fetch source k = Some text ∧ ∀ j, (1 ≤ j < k)%nat → fetch source j = None
  end.
Lemma fetch_attempts_spec f delays : ∀ a text, fst (fetch_attempts f a delays) = Some text ↔
  ∃ k, (a ≤ k ≤ a + length delays)%nat ∧ f k = Some text ∧ ∀ j, (a ≤ j < k)%nat → f j = None.
Proof.
  induction delays as [|d ds IH]; intros a text; cbn [fetch_attempts].
  - destruct (f a) as [t|] eqn:Ha; cbn [fst].
    + split; [intros [= <-]; exists a; split_and!; [lia|lia|done|lia]|].
      intros (k & Hk & Hf & _). cbn in Hk. assert (k = a) as -> by lia. by rewrite <- Ha.
    + split; [done|]. intros (k & Hk & Hf & _). cbn in Hk. assert (k = a) as -> by lia. by rewrite Ha in Hf.
  - destruct (f a) as [t|] eqn:Ha; cbn [fst].
    + split; [intros [= <-]; exists a; split_and!; [lia|lia|done|lia]|].
      intros (k & Hk & Hf & Hj). destruct (decide (k = a)) as [->|Hne]; [by rewrite <- Ha|].
      specialize (Hj a ltac:(lia)). by rewrite Ha in Hj.
    + destruct (fetch_attempts f (S a) ds) as [r sl] eqn:E. cbn [fst].
      specialize (IH (S a) text). rewrite E in IH. cbn [fst] in IH. rewrite IH. cbn [length]. split.
      * intros (k & Hk & Hf & Hj). exists k. split_and!; [lia|lia|done|]. intros j Hj'.
        destruct (decide (j = a)) as [->|]; [done|]. apply Hj. lia.
      * intros (k & Hk & Hf & Hj). exists k. destruct (decide (k = a)) as [->|]; [by rewrite Ha in Hf|].
        split_and!; [lia|lia|done|]. intros j Hj'. apply Hj. lia.
Qed.
Lemma download_spec read_file fetch lists source text :
  (source, text) ∈ download_blocklists read_file fetch lists ↔ source ∈ lists ∧ obtained read_file fetch source text.
Proof.
  assert (Hone : ∀ s, match local_path s with Some p => read_file p | None => fetch_with_retry (fetch s) end = Some text ↔
    obtained read_file fetch s text).
  { intros s. unfold obtained. destruct (local_path s); [done|].
    unfold fetch_with_retry, fetch_with_retry_delays. rewrite fetch_attempts_spec. done. }
  unfold download_blocklists. rewrite list_elem_of_omap. split.
  - intros (s & Hs & Ho). destruct (match local_path s with Some _ => _ | None => _ end) as [t|] eqn:E; [|done].
    apply (inj Some) in Ho. injection Ho as -> ->. split; [done|]. by apply Hone.
  - intros [Hs Ho]. exists source. split; [done|]. apply Hone in Ho. by rewrite Ho.
Qed.

Section lists.
Context `{Lowercase} `{NetLib}.

Lemma union_parsed (ds : list (bytes * bytes)) d : ∀ s : gset bytes,
  d ∈ foldl (λ s x, s ∪ parse_blocklist (snd x)) s ds ↔ d ∈ s ∨ ∃ x, x ∈ ds ∧ d ∈ parse_blocklist (snd x).
Proof.
  induction ds as [|x ds IH]; intros s; cbn [foldl].
  - split; [by left|]. by intros [?|(x & []%not_elem_of_nil & _)].
  - rewrite IH, elem_of_union. split.
    + intros [[Hd|Hd]|(y & Hy & Hd)]; [by left|right; exists x; split; [by left|done]|].
      right. exists y. split; [by right|done].
    + intros [Hd|(y & [->|Hy]%elem_of_cons & Hd)]; [by left; left|by left; right|]. right. by exists y.
Qed.

(** C29: what is blocked after the lists were reloaded. Blocking, its pause and the names allowed or blocked
    by hand are as before; for the rest a name is blocked exactly when an entry that covers it is in the
    text of a source that could be obtained this time, from its file or within four attempts.
    The old entries are not kept: the names of a source that could not be obtained are
    blocked no more, and when none could be, nothing is that was not blocked by
    hand. *)
Theorem reloaded_lists (read_file : bytes → option bytes) (fetch : bytes → nat → option bytes)
    (lists : list bytes) (w : World) (now : Z) (d : bytes) :
  let w' := load_blocklists (download_blocklists read_file fetch lists) w in
  let s := blocklist (ctx w) in
  is_blocked now d (blocklist (ctx w')) = true ↔
    Domains.enabled s = true ∧ is_paused now s = false ∧
    ¬ covered (normalize d) (config (allowlist s) ∪ user (allowlist s)) ∧
    (covered (normalize d) (config (manual s) ∪ user (manual s)) ∨
     ∃ source text e, source ∈ lists ∧ obtained read_file fetch source text ∧
       e ∈ parse_blocklist text ∧ dot_suffix e (normalize d)).
Proof.
  intros w' s. rewrite is_blocked_iff. unfold blocks, w', load_blocklists. cbv zeta. cbn [ctx set_ctx blocklist set_blocklist].
  unfold swap_domains. cbn [Domains.enabled allowlist manual Domains.domains]. unfold is_paused. cbn [paused_until].
  fold s. rewrite (covered_union _ (_ ∪ _)).
  assert (Hc : covered (normalize d) (foldl (λ s x, s ∪ parse_blocklist (snd x)) ∅ (download_blocklists read_file fetch lists)) ↔
    ∃ source text e, source ∈ lists ∧ obtained read_file fetch source text ∧ e ∈ parse_blocklist text ∧ dot_suffix e (normalize d)).
  { unfold covered. split.
    - intros (e & He & Hin). apply union_parsed in Hin as [Hin|([source text] & Hx & Hp)]; [by apply elem_of_empty in Hin|].
      apply download_spec in Hx as [Hs Ho]. by exists source, text, e.
    - intros (source & text & e & Hs & Ho & Hp & He). exists e. split; [done|]. apply union_parsed. right.
      exists (source, text). split; [by apply download_spec|done]. }
  rewrite Hc. tauto.
Qed.
End lists.

(** * Following the network *)

Section follow.
Context `{Lowercase} `{NetLib} `{UrlLib}.
Definition quad9 : Upstream := Udp (MkSock (V4 (Ipv4 9 9 9 9)) 53).
(** A turn finds no server. *)
Definition nothing_found (o : Observation) : Prop := o_system o = None ∧ o_dhcp o = None.
Definition keeps_pool (env : nat → list request → @moment World reply) : Prop :=
  ∀ n qs s, upstream_pool (ctx (resume (env n qs) s)) = upstream_pool (ctx s).

Lemma watch_pool port tick o w : upstream_pool (ctx (watch true port tick o w)) =
  if match o_lan_ip o with Some ip => negb (bool_decide (ip = lan_ip (ctx w))) | None => false end || (tick mod 6 =? 0)
  then snd (maybe_update_primary (default QUAD9_IP (detected (o_system o) (o_dhcp o))) port (upstream_pool (ctx w)))
  else upstream_pool (ctx w).
Proof.
  unfold watch. set (moved := match o_lan_ip o with Some _ => _ | None => _ end).
  assert (Hc : check_lan_ip (o_lan_ip o) w = (moved, snd (check_lan_ip (o_lan_ip o) w)) ∧
    upstream_pool (ctx (snd (check_lan_ip (o_lan_ip o) w))) = upstream_pool (ctx w)).
  { unfold check_lan_ip, moved. destruct (o_lan_ip o) as [a|]; [|done]. by case_bool_decide. }
  destruct Hc as [-> Hp]. set (w1 := snd _) in *. unfold redetect. cbn [andb].
  destruct (moved || _).
  - destruct (maybe_update_primary _ _ _) as [u p] eqn:E. rewrite Hp in E. rewrite E. cbn [snd].
    unfold flush_peers. by destruct (moved || u).
  - unfold flush_peers. by destruct moved.
Qed.
(** With nothing found, the pool stays or becomes the built-in server. *)
Definition quad9_pool (fb : list Upstream) : UpstreamPool := MkPool [quad9] fb.
Lemma watch_nothing tick o w : nothing_found o →
  (upstream_pool (ctx (watch true 53 tick o w)) = upstream_pool (ctx w) ∨
   upstream_pool (ctx (watch true 53 tick o w)) = quad9_pool (fallback (upstream_pool (ctx w)))) ∧
  (tick mod 6 = 0 → preferred (upstream_pool (ctx w)) = Some (Doh DOH_FALLBACK) →
   upstream_pool (ctx (watch true 53 tick o w)) = quad9_pool (fallback (upstream_pool (ctx w)))).
Proof.
  intros [Hs Hd]. rewrite watch_pool, Hs, Hd. change (default QUAD9_IP (detected None None)) with QUAD9_IP.
  unfold maybe_update_primary. change (parse_socket (QUAD9_IP ++ 58 :: show_u16 53)) with (Some (MkSock (V4 (Ipv4 9 9 9 9)) 53)).
  cbv zeta. split.
  - destruct (_ || _); [|by left]. destruct (match preferred _ with Some _ => _ | None => _ end); [by left|by right].
  - intros Ht Hp. rewrite Ht, orb_true_r, Hp. done.
Qed.
Lemma run_turn auto port tick o os env n w : (tick + 1) mod 60 ≠ 0 →
  run (network_watch_loop auto port tick (o :: os)) env n w =
  run (network_watch_loop auto port (tick + 1) os) env (S n)
    (watch auto port (tick + 1) o (resume (env n [Sleep 5000]) w)).
Proof. intros Ht%Z.eqb_neq. cbn. by rewrite Ht. Qed.

Lemma pool_kept (P : UpstreamPool) env os : keeps_pool env → Forall nothing_found os →
  P = quad9_pool (fallback P) → ∀ tick n w, upstream_pool (ctx w) = P →
  upstream_pool (ctx (snd (run (network_watch_loop true 53 tick os) env n w))) = P.
Proof.
  intros He Hos HP. induction Hos as [|o os Ho _ IH]; intros tick n w Hw; [done|].
  assert (Hstep : ∀ tick w, upstream_pool (ctx w) = P → upstream_pool (ctx (watch true 53 tick o w)) = P).
  { intros t s Hs. destruct (watch_nothing t o s Ho) as [[Hk|Hk] _]; rewrite Hk, Hs; [done|]. by rewrite <- HP. }
  destruct (decide ((tick + 1) mod 60 = 0)) as [Ht|Ht].
  - cbn. rewrite Ht. cbn. unfold probe_udp. set (w1 := watch _ _ _ _ _).
    assert (Hq : upstream_pool (ctx w1) = P) by (apply Hstep; by rewrite He).
    cbn. destruct (udp_disabled w1); cbn; [|by apply IH].
    destruct (root_hints (ctx w1)) as [|h hs]; cbn; [by apply IH|].
    destruct (encode _) as [msg|e| |]; cbn; [|by apply IH|done|done].
    destruct (answer _) as [d| | | | |]; cbn.
    all: try (apply IH; cbn; by rewrite He).
    destruct (parse_reply d); cbn; try (apply IH; cbn; by rewrite He); by rewrite He.
  - rewrite run_turn by done. apply IH, Hstep. by rewrite He.
Qed.

(** C39: a forwarding server that finds no name server starts with Quad9 over HTTPS, as the log says, and
    gives it up within thirty seconds: in the sixth turn of the loop that watches the network, which
    finds none either, the encrypted upstream is replaced with plain DNS to the same
    provider, for good as long as nothing else is found. *)
Theorem fallback_downgraded (c : UpstreamConfig) (p : UpstreamPool) (hints : list SocketAddr)
    (env : nat → list request → moment) (os : list Observation) (n : nat) (w : World) :
  mode c = ModeForward → address c = [] → upstream_port c = 53 → forward_pool c None None = Ok p →
  keeps_pool env → Forall nothing_found os → (6 ≤ length os)%nat → upstream_pool (ctx w) = p →
  resolve_upstream_pool c None None hints = ret (ModeForward, true, p) ∧
  primary p = [Doh DOH_FALLBACK] ∧
  primary (upstream_pool (ctx (snd (run (network_watch_loop true 53 0 os) env n w)))) = [quad9].
Proof.
  intros Hm Ha Hport Hp He Hos Hlen Hw. split; [unfold resolve_upstream_pool; rewrite Hm, Hp; cbn; by rewrite Ha|].
  assert (Hprim : primary p = [Doh DOH_FALLBACK]).
  { unfold forward_pool in Hp. rewrite Ha, Hport in Hp.
    change (parse_upstream_list [default DOH_FALLBACK (detected None None)] 53) with (Ok [Doh DOH_FALLBACK]) in Hp.
    cbn [obind] in Hp. destruct (parse_upstream_list (upstream_fallback c) 53); [|done..].
    apply (inj Ok) in Hp. by subst p. }
  split; [done|].
  assert (Hmain : ∀ k tick n w, (k + tick = 5)%nat → upstream_pool (ctx w) = p ∨ upstream_pool (ctx w) = quad9_pool (fallback p) →
    ∀ os, Forall nothing_found os → (k < length os)%nat →
    primary (upstream_pool (ctx (snd (run (network_watch_loop true 53 (Z.of_nat tick) os) env n w)))) = [quad9]).
  { clear os Hos Hlen n w Hw. induction k as [|k IH]; intros tick n w Ht Hw os Hos Hlen.
    - assert (tick = 5%nat) as -> by lia. destruct os as [|o os]; [cbn in Hlen; lia|].
      apply Forall_cons in Hos as [Ho Hos]. rewrite run_turn by (vm_compute; discriminate).
      set (w1 := resume _ _). assert (Hw1 : upstream_pool (ctx w1) = upstream_pool (ctx w)) by apply He.
      rewrite (pool_kept (quad9_pool (fallback p))); [done|done|done|done|].
      destruct (watch_nothing (Z.of_nat 5 + 1) o w1 Ho) as [Hstay Hsix]. rewrite Hw1 in *. destruct Hw as [Hw|Hw]; rewrite Hw in *.
      + apply Hsix; [reflexivity|]. unfold preferred. by rewrite Hprim.
      + by destruct Hstay as [-> | ->].
    - destruct os as [|o os]; [cbn in Hlen; lia|]. apply Forall_cons in Hos as [Ho Hos].
      rewrite run_turn by (rewrite Z.mod_small; lia).
      replace (Z.of_nat tick + 1) with (Z.of_nat (S tick)) by lia. apply IH; [lia| |done|cbn in Hlen; lia].
      set (w1 := resume _ _). assert (Hw1 : upstream_pool (ctx w1) = upstream_pool (ctx w)) by apply He.
      destruct (watch_nothing (Z.of_nat (S tick)) o w1 Ho) as [[Hk|Hk] _]; rewrite Hk, Hw1; destruct Hw as [-> | ->]; auto. }
  apply (Hmain 5%nat 0%nat); [lia|by left|done|lia].
Qed.
End follow.

(** * Instances *)

#[local] Existing Instance sample_net.
#[local] Existing Instance lowercase_ascii.
#[local] Existing Instance sample_urls.
#[local] Instance uppercase_ascii : Uppercase := ascii_upper.

(** The TCP sibling of a detected server, in the fallback, stays when the server changes; and a server
    with an IPv6 address, which can be the first upstream, never replaces another. *)
Definition first_pool : outcome UpstreamPool := forward_pool default_upstream_config (Some (str "192.168.1.1")) None.
Example sibling_stays : ∃ p, first_pool = Ok p ∧
  maybe_update_primary (str "10.0.0.1") 53 p =
    (true, MkPool [Udp (MkSock (V4 (Ipv4 10 0 0 1)) 53)] [Tcp (MkSock (V4 (Ipv4 192 168 1 1)) 53)]).
Proof. eexists. split; [vm_compute; reflexivity|]. vm_compute. reflexivity. Qed.
Example ipv6_never_followed : ∃ p, first_pool = Ok p ∧
  succeeds (forward_pool default_upstream_config (Some (str "2001:db8::1")) None) ∧
  maybe_update_primary (str "2001:db8::1") 53 p = (false, p).
Proof.
  eexists. split; [vm_compute; reflexivity|]. split; [eexists; vm_compute; reflexivity|]. vm_compute. reflexivity.
Qed.

(** A home server on a machine whose settings name a router. *)
Definition home_configuration : Configuration :=
  {| c_bind_addr := [str "0.0.0.0:53"]; c_api_port := 5380; c_api_bind_addr := str "127.0.0.1"; c_filter_aaaa := false; c_allow_from := [str "192.168.1.0/24"];
     c_rebind_protect := false; c_rebind_allowlist := []; c_rebind_ranges := [str "10.0.0.0/24"];
     c_upstream := default_upstream_config; c_max_entries := 100; c_min_ttl := 60; c_max_ttl := 86400; c_warm := [];
     c_blocking := true; c_lists := []; c_allowlist := []; c_zones := sample_zones; c_proxy_tld := str "numa"; c_services := [];
     c_peer_timeout := 90; c_dnssec := false; c_dnssec_strict := false;
     c_forwarding := [MkRuleConfig [str "corp.example"] [str "10.1.1.1"]]; c_policies := [] |}.
Definition home_machine : Machine :=
  {| m_dns := MkDns (Some (str "192.168.1.1")) []; m_dhcp := None; m_lan_ip := Some (Ipv4 192 168 1 7); m_allow_file := [];
     m_block_file := []; m_rebind_file := []; m_services_file := []; m_binds := λ _, true; m_now := 0 |}.
Definition deaf_env (n : nat) (rs : list request) : @moment World reply :=
  sample_env (λ _ _, inl NoneValue) n rs.
Lemma deaf_env_ok : env_ok (Recursive.good (λ _, True)) fits deaf_env.
Proof. apply sample_env_ok. by intros. Qed.

Lemma start_ready_witness :
  fields_ok home_configuration home_machine ∧
  match fst (run (start home_configuration home_machine) deaf_env 0 recursive_world) with
  | Ok (s, _) => accepted home_configuration home_machine ∧ upstream_mode s = ModeForward ∧
      primary (upstream_pool s) = [Udp (MkSock (V4 (Ipv4 192 168 1 1)) 53)]
  | _ => False
  end.
Proof.
  assert (Hf : fields_ok home_configuration home_machine).
  { split; [|cbn; lia|cbn; lia|apply (bool_decide_unpack _); vm_compute; exact I].
    apply Forall_cons. split; [split_and!; apply (bool_decide_unpack _); vm_compute; exact I|].
    apply Forall_cons. split; [split_and!; apply (bool_decide_unpack _); vm_compute; exact I|constructor]. }
  split; [exact Hf|].
  assert (Hl : ∀ s, all_bytes s → all_bytes (to_lowercase s)).
  { intros s Hs. apply Forall_map. eapply Forall_impl; [exact Hs|]. intros b Hb. unfold is_byte, to_ascii_lowercase in *.
    destruct (_ && _) eqn:E; bool_prop; lia. }
  pose proof (start_ready Hl home_configuration home_machine deaf_env 0 recursive_world (λ _, True) Hf deaf_env_ok
    recursive_world_good) as Hr.
  assert (Hs : match fst (run (start home_configuration home_machine) deaf_env 0 recursive_world) with
               | Ok (s, _) => upstream_mode s = ModeForward ∧
                              primary (upstream_pool s) = [Udp (MkSock (V4 (Ipv4 192 168 1 1)) 53)]
               | _ => False end) by (vm_compute; split; reflexivity).
  destruct (run (start home_configuration home_machine) deaf_env 0 recursive_world) as [r w'].
  cbn [fst] in Hs |- *. destruct r as [[s acl]| | |]; [|destruct Hs..]. destruct Hr as [(Ha & _) _].
  exact (conj Ha Hs).
Defined.

(** The machine moves to another network. *)
Definition moved : Observation := MkObs (Some (Ipv4 10 0 0 5)) (Some (str "10.0.0.1")) None.
Lemma background_keeps_serving_witness :
  let '(r, w') := run (background iter_list keys_list (WatchNetwork true 53 [moved])) deaf_env 0 recursive_world in
  r = Ok tt ∧ Recursive.good (λ _, True) w' ∧ lan_ip (ctx w') = Ipv4 10 0 0 5 ∧
  primary (upstream_pool (ctx w')) = [Udp (MkSock (V4 (Ipv4 10 0 0 1)) 53)].
Proof.
  assert (Hb : background_ok (WatchNetwork true 53 [moved])).
  { apply Forall_cons. split; [|constructor]. apply (bool_decide_unpack _); vm_compute; exact I. }
  pose proof (background_keeps_serving iter_list keys_list (λ _, True) (WatchNetwork true 53 [moved]) deaf_env 0
    recursive_world Hb deaf_env_ok recursive_world_good) as Hr.
  assert (Hs : lan_ip (ctx (snd (run (background iter_list keys_list (WatchNetwork true 53 [moved])) deaf_env 0
                 recursive_world))) = Ipv4 10 0 0 5 ∧
               primary (upstream_pool (ctx (snd (run (background iter_list keys_list (WatchNetwork true 53 [moved]))
                 deaf_env 0 recursive_world)))) = [Udp (MkSock (V4 (Ipv4 10 0 0 1)) 53)])
    by (vm_compute; split; reflexivity).
  destruct (run (background iter_list keys_list (WatchNetwork true 53 [moved])) deaf_env 0 recursive_world) as [r w'].
  cbn [snd] in Hs. destruct Hr as [Hg Hr]. exact (conj Hr (conj Hg Hs)).
Defined.
(** A refresh period of zero hours. *)
Example no_refreshes :
  fst (run (background iter_list keys_list (LoadLists 0 [] [[]])) deaf_env 0 recursive_world) = Panic ∧
  fst (run (background iter_list keys_list (LoadLists 24 [] [[]])) deaf_env 0 recursive_world) = Ok tt.
Proof. split; vm_compute; reflexivity. Qed.

(** A machine without name servers: six turns. *)
Definition nothing : Observation := MkObs (Some (Ipv4 192 168 1 2)) None None.
Definition encrypted_pool : UpstreamPool := MkPool [Doh DOH_FALLBACK] [].
Definition encrypted_world : World := set_ctx (set_upstream_pool encrypted_pool (ctx recursive_world)) recursive_world.
Lemma fallback_downgraded_witness :
  forward_pool default_upstream_config None None = Ok encrypted_pool ∧
  primary (upstream_pool (ctx (snd (run (network_watch_loop true 53 0 (replicate 6 nothing)) deaf_env 0
    encrypted_world)))) = [Udp (MkSock (V4 (Ipv4 9 9 9 9)) 53)].
Proof.
  assert (Hp : forward_pool default_upstream_config None None = Ok encrypted_pool) by (vm_compute; reflexivity).
  split; [exact Hp|].
  destruct (fallback_downgraded default_upstream_config encrypted_pool [] deaf_env (replicate 6 nothing) 0 encrypted_world)
    as (_ & _ & Hd); [reflexivity|reflexivity|reflexivity|exact Hp|intros n qs s; reflexivity
      |repeat (apply Forall_cons; split; [split; reflexivity|]); constructor|cbn; lia|reflexivity|exact Hd].
Defined.
