(* ===== verification/Odoh.v ===== *)
(** [src/src/odoh.rs]: oblivious queries. The cache of the target's key, with its lifetime, its
    back-off after a failed fetch and its invalidation; sealing a query, posting it to the relay,
    opening the answer, and the one retry when the key was rotated. The cryptography is that of the
    [odoh_rs] crate and an interface here; the state is that of one [OdohConfigCache], which
    every query through the relay shares. *)
From S2P Require Import Prelude Net Text Forward Question Packet Local Async.
Open Scope fut_scope.

Definition NS : Z := 1000000000.
(** In nanoseconds. *)
Definition DEFAULT_CONFIG_TTL : Z := 24 * 60 * 60 * NS.
Definition MAX_CONFIG_TTL : Z := 7 * 24 * 60 * 60 * NS.
Definition REFRESH_BACKOFF : Z := 60 * NS.

(** The crate: keys published by a target and their identifiers, sealing with fresh randomness,
    and the encoding of sealed messages. *)
Class OdohLib := {
  Contents : Type;
  Secret : Type;
  Sealed : Type;
  parse_configs : bytes → option (list Contents);
  identifier : Contents → option bytes;
  encrypt_query : bytes → Contents → Z → option (Sealed * Secret);
  compose : Sealed → option bytes;
  parse_message : bytes → option Sealed;
  decrypt_response : bytes → Sealed → Secret → option bytes
}.

(** * The cache of the target's key *)

Section odoh.
Context `{OdohLib}.

Record OdohTargetConfig := MkTarget { contents : Contents; key_id : bytes; expires_at : Z }.
Record FailedRefresh := MkFailed { at_ : Z; err : error }.
(** [OdohConfigCache]'s contents, the clock and the system's source of randomness. *)
Record OdohState := MkOdohState {
  current : option OdohTargetConfig;
  last_failure : option FailedRefresh;
  now : Z;
  seed : Z
}.
Definition set_current (c : option OdohTargetConfig) (s : OdohState) : OdohState :=
  MkOdohState c (last_failure s) (now s) (seed s).
Definition set_failure (f : option FailedRefresh) (s : OdohState) : OdohState :=
  MkOdohState (current s) f (now s) (seed s).
Definition next_seed (s : OdohState) : OdohState := MkOdohState (current s) (last_failure s) (now s) (seed s + 1).

(** What a query waits for: the refresh lock, the key from the target, the relay. A response is a status, the
    [Cache-Control] header and a body; [None] is a request that failed or timed out. *)
Inductive odoh_request :=
  | AcquireRefresh
  | GetConfigs (url : bytes)
  | PostRelay (relay_url targethost targetpath body : bytes).
Record HttpReply := MkReply { status : Z; cache_control : option bytes; body : bytes }.
Inductive odoh_reply := Acquired | Http (r : option HttpReply).
Abbreviation async A := (fut OdohState odoh_request odoh_reply A).

Definition is_expired (s : OdohState) (c : OdohTargetConfig) : bool := expires_at c <=? now s.
Definition fresh_config (s : OdohState) : option OdohTargetConfig :=
  match current s with
  | Some cfg => if is_expired s cfg then None else Some cfg
  | None => None
  end.
(** The text that marks the error as repeated is left out. *)
Definition backoff_error (s : OdohState) : option error :=
  match last_failure s with
  | Some f => if Z.max 0 (now s - at_ f) <? REFRESH_BACKOFF then Some (err f) else None
  | None => None
  end.
Definition invalidate (s : OdohState) : OdohState := set_current None s.

Definition max_age (directive : bytes) : option Z :=
  rest ← strip_prefix (str "max-age=") (trim directive);
  secs ← parse_uint 18446744073709551615 (trim rest);
  if 0 <? secs then Some (secs * NS) else None.
Definition cache_control_ttl (header : option bytes) : option Z :=
  cc ← header; head (omap max_age (split_on 44 cc)).

Definition parse_odoh_config (now : Z) (body : bytes) (ttl : Z) : outcome OdohTargetConfig :=
  match parse_configs body with
  | None => Err (Message "failed to parse ObliviousDoHConfigs")
  | Some [] => Err (Message "target published no ODoH configs")
  | Some (first :: _) =>
      match identifier first with
      | None => Err (Message "failed to derive key_id from ODoH config")
      | Some key_id => Ok (MkTarget first key_id (now + Z.min ttl MAX_CONFIG_TTL))
      end
  end.
Definition is_success (status : Z) : bool := (200 <=? status) && (status <? 300).
(** [error_for_status] is an error for 400 and above; redirects are followed before. *)
Definition fetch_odoh_config (configs_url : bytes) : async OdohTargetConfig :=
  Await (GetConfigs configs_url) [] (λ _ r,
    match r with
    | Http (Some resp) =>
        if 400 <=? status resp then fail (Message "HTTP status error")
        else Get (λ s, Return (parse_odoh_config (now s) (body resp)
                        (default DEFAULT_CONFIG_TTL (cache_control_ttl (cache_control resp)))))
    | _ => fail (Message "error sending request")
    end).
Definition configs_url (target_host : bytes) : bytes := str "https://" ++ target_host ++ str "/.well-known/odohconfigs".

(** A key that is fresh, or the error of a refresh that failed lately. *)
Definition usable (s : OdohState) : option (error + OdohTargetConfig) :=
  match fresh_config s with
  | Some cfg => Some (inr cfg)
  | None => option_map inl (backoff_error s)
  end.
Definition settled (r : error + OdohTargetConfig) : async OdohTargetConfig :=
  match r with inl e => fail e | inr cfg => ret cfg end.
Definition store_config (fresh : OdohTargetConfig) (s : OdohState) : OdohState := set_failure None (set_current (Some fresh) s).
Definition refresh_config (target_host : bytes) : async OdohTargetConfig :=
  let* r := catch (fetch_odoh_config (configs_url target_host)) in
  match r with
  | inr fresh => let* _ := modify (store_config fresh) in ret fresh
  | inl _ =>
      let e := Message "ODoH config fetch failed" in
      let* _ := modify (λ s, set_failure (Some (MkFailed (now s) e)) s) in fail e
  end.
Definition get_config (target_host : bytes) : async OdohTargetConfig :=
  Get (λ s, match usable s with
    | Some r => settled r
    | None =>
        Await AcquireRefresh [] (λ _ _,
          Get (λ s, match usable s with Some r => settled r | None => refresh_config target_host end))
    end).

(** * Queries *)

Inductive attempt := Answered (wire : bytes) | KeyRotation | Other (e : error).
Record OdohRequest := MkOdohRequest { wire : bytes; relay_url : bytes; target_host : bytes; target_path : bytes }.

Definition open_response (q : OdohRequest) (secret : Secret) (resp : HttpReply) : attempt :=
  if is_success (status resp) then
    match parse_message (body resp) with
    | None => Other (Message "ODoH response parse failed")
    | Some m =>
        match decrypt_response (wire q) m secret with
        | Some v => Answered v
        | None => KeyRotation
        end
    end
  else if status resp =? 401 then KeyRotation else Other (Message "ODoH relay returned an error").
Definition attempt_query (q : OdohRequest) : async attempt :=
  let* cfg := catch (get_config (target_host q)) in
  match cfg with
  | inl e => ret (Other e)
  | inr cfg =>
      Get (λ s, Put (next_seed s)
        match encrypt_query (wire q) (contents cfg) (seed s) with
        | None => ret (Other (Message "ODoH encrypt failed"))
        | Some (sealed, secret) =>
            match compose sealed with
            | None => ret (Other (Message "ODoH compose failed"))
            | Some body =>
                Await (PostRelay (relay_url q) (target_host q) (target_path q) body) [] (λ _ r,
                  match r with
                  | Http (Some resp) => ret (open_response q secret resp)
                  | _ => ret (Other (Message "ODoH relay request failed"))
                  end)
            end
        end)
  end.
Definition into_result (a : attempt) : async bytes :=
  match a with
  | Answered v => ret v
  | KeyRotation => fail (Message "ODoH key rotation race")
  | Other e => fail e
  end.
Definition query_through_relay (q : OdohRequest) : async bytes :=
  let* a := attempt_query q in
  match a with
  | KeyRotation =>
      let* _ := modify invalidate in
      let* a := attempt_query q in into_result a
  | a => into_result a
  end.

(** * What a query does

    [obeys posts fetches Q t s]: whatever the target and the relay reply, and whatever the other queries do
    to the cache meanwhile, the task asks only what [may_ask] allows, at most so many posts and
    fetches, and its result satisfies [Q]. *)

(** A cached key expires within seven days. *)
Definition key_bounded (s : OdohState) : Prop :=
  match current s with Some cfg => expires_at cfg ≤ now s + MAX_CONFIG_TTL | None => True end.
Definition later (s s' : OdohState) : Prop := now s ≤ now s' ∧ key_bounded s'.

(** The query, sealed for a key that has not expired and will within seven days. *)
Definition sealed_now (q : OdohRequest) (s : OdohState) (body : bytes) : Prop :=
  ∃ cfg k sealed secret, now s < expires_at cfg ≤ now s + MAX_CONFIG_TTL ∧
    encrypt_query (wire q) (contents cfg) k = Some (sealed, secret) ∧ compose sealed = Some body.
(** No fresh key is at hand, and no fetch failed within the last minute. *)
Definition needs_key (s : OdohState) : Prop :=
  (∀ cfg, current s = Some cfg → expires_at cfg ≤ now s) ∧
  (∀ f, last_failure s = Some f → at_ f + 60 * 1000000000 ≤ now s).
Definition may_ask (q : OdohRequest) (s : OdohState) (r : odoh_request) : Prop :=
  match r with
  | AcquireRefresh => needs_key s
  | GetConfigs url => url = configs_url (target_host q) ∧ needs_key s
  | PostRelay url host path body =>
      url = relay_url q ∧ host = target_host q ∧ path = target_path q ∧ sealed_now q s body
  end.
Definition spend (r : odoh_request) (posts fetches : nat) : option (nat * nat) :=
  match r, posts, fetches with
  | AcquireRefresh, _, _ => Some (posts, fetches)
  | PostRelay _ _ _ _, S posts, _ => Some (posts, fetches)
  | GetConfigs _, _, S fetches => Some (posts, fetches)
  | _, _, _ => None
  end.

Section obeys.
Context (q : OdohRequest).

Fixpoint obeys {A} (posts fetches : nat) (Q : OdohState → nat → nat → outcome A → Prop) (t : async A) (s : OdohState) : Prop :=
  match t with
  | Return r => key_bounded s ∧ Q s posts fetches r
  | Get k => obeys posts fetches Q (k s) s
  | Put s' k => obeys posts fetches Q k s'
  | Await r rs k =>
      rs = [] ∧ key_bounded s ∧ may_ask q s r ∧
      match spend r posts fetches with
      | Some (posts, fetches) => ∀ i x s', later s s' → obeys posts fetches Q (k i x) s'
      | None => False
      end
  end.

Lemma obeys_bind {A B} (P : OdohState → nat → nat → outcome A → Prop) (Q : OdohState → nat → nat → outcome B → Prop) (t : async A) f :
  ∀ p g s, obeys p g P t s →
  (∀ s p g a, key_bounded s → P s p g (Ok a) → obeys p g Q (f a) s) →
  (∀ s p g e, P s p g (Err e) → Q s p g (Err e)) →
  (∀ s p g, ¬ P s p g Panic) → (∀ s p g, ¬ P s p g OutOfFuel) → obeys p g Q (bind t f) s.
Proof.
  induction t as [r|k IH|s' k IH|r rs k IH]; intros p g s Ht Hf He Hp Ho; cbn in *.
  - destruct Ht as [Hk HP]. destruct r as [a|e| |]; [by apply Hf|split; eauto|by destruct (Hp s p g)|by destruct (Ho s p g)].
  - by apply IH.
  - by apply IH.
  - destruct Ht as (-> & Hk & Hm & Ht). split_and!; [done|done|done|].
    destruct (spend r p g) as [[p' g']|]; [|done]. intros i x s' Hs'. by apply IH; [apply Ht|..].
Qed.
Lemma obeys_catch {A} (P : OdohState → nat → nat → outcome A → Prop) (Q : OdohState → nat → nat → outcome (error + A) → Prop) (t : async A) :
  ∀ p g s, obeys p g P t s →
  (∀ s p g a, P s p g (Ok a) → Q s p g (Ok (inr a))) → (∀ s p g e, P s p g (Err e) → Q s p g (Ok (inl e))) →
  (∀ s p g, ¬ P s p g Panic) → (∀ s p g, ¬ P s p g OutOfFuel) → obeys p g Q (catch t) s.
Proof.
  induction t as [r|k IH|s' k IH|r rs k IH]; intros p g s Ht Ha He Hp Ho; cbn in *.
  - destruct Ht as [Hk HP]. destruct r as [a|e| |]; cbn; [split; eauto|split; eauto|by destruct (Hp s p g)|by destruct (Ho s p g)].
  - by apply IH.
  - by apply IH.
  - destruct Ht as (-> & Hk & Hm & Ht). split_and!; [done|done|done|].
    destruct (spend r p g) as [[p' g']|]; [|done]. intros i x s' Hs'. by apply IH; [apply Ht|..].
Qed.

(** A key in use: not expired, and not for long. *)
Definition in_use (s : OdohState) (cfg : OdohTargetConfig) : Prop := now s < expires_at cfg ≤ now s + MAX_CONFIG_TTL.
Definition got_config (posts fetches : nat) (s : OdohState) (p g : nat) (r : outcome OdohTargetConfig) : Prop :=
  p = posts ∧ (fetches ≤ S g)%nat ∧
  match r with Ok cfg => in_use s cfg | Err _ => True | _ => False end.

Lemma cache_control_positive h t : cache_control_ttl h = Some t → 0 < t.
Proof.
  unfold cache_control_ttl. destruct h as [cc|]; [|done]. cbn. intros Hh.
  assert (Hin : t ∈ omap max_age (split_on 44 cc)) by (destruct (omap _ _); [done|]; injection Hh as ->; by left).
  apply list_elem_of_omap in Hin as (d & _ & Hd). unfold max_age in Hd.
  destruct (strip_prefix _ (trim d)) as [rest|]; [|done]. cbn in Hd.
  destruct (parse_uint _ (trim rest)) as [secs|]; [|done]. cbn in Hd.
  destruct (Z.ltb_spec 0 secs); [|done]. injection Hd as <-. unfold NS. lia.
Qed.
Lemma parsed_config_in_use s body h cfg :
  parse_odoh_config (now s) body (default DEFAULT_CONFIG_TTL (cache_control_ttl h)) = Ok cfg → in_use s cfg.
Proof.
  unfold parse_odoh_config. destruct (parse_configs body) as [[|c l]|]; [done| |done].
  destruct (identifier c); [|done]. intros Hc. apply (inj Ok) in Hc as <-. unfold in_use. cbn [expires_at].
  assert (0 < default DEFAULT_CONFIG_TTL (cache_control_ttl h)).
  { destruct (cache_control_ttl h) as [t|] eqn:E; [by apply cache_control_positive in E|]. cbn. unfold DEFAULT_CONFIG_TTL, NS. lia. }
  unfold MAX_CONFIG_TTL, NS in *. lia.
Qed.
Lemma usable_in_use s cfg : key_bounded s → usable s = Some (inr cfg) → in_use s cfg.
Proof.
  unfold usable, fresh_config, key_bounded, is_expired. destruct (current s) as [c|].
  - intros Hk. destruct (Z.leb_spec (expires_at c) (now s)); [by destruct (backoff_error s)|]. intros [= <-]. by split.
  - by destruct (backoff_error s).
Qed.
Lemma unusable_needs_key s : usable s = None → needs_key s.
Proof.
  unfold usable, fresh_config, backoff_error, is_expired. intros Hu. split.
  - intros cfg Hc. rewrite Hc in Hu. by destruct (Z.leb_spec (expires_at cfg) (now s)).
  - intros f Hf. rewrite Hf in Hu. destruct (Z.ltb_spec (Z.max 0 (now s - at_ f)) REFRESH_BACKOFF) as [Hlt|Hge].
    + by destruct (match current s with Some _ => _ | None => _ end).
    + unfold REFRESH_BACKOFF, NS in Hge. lia.
Qed.
Lemma obeys_settled posts fetches s r : key_bounded s → usable s = Some r →
  obeys posts fetches (got_config posts fetches) (settled r) s.
Proof.
  intros Hk Hu. destruct r as [e|cfg]; (split; [done|]); (split; [done|]); (split; [lia|]); [done|]. by apply usable_in_use.
Qed.
Lemma obeys_refresh posts fetches s : key_bounded s → usable s = None →
  obeys posts (S fetches) (got_config posts (S fetches)) (refresh_config (target_host q)) s.
Proof.
  intros Hk Hu. unfold refresh_config.
  apply (obeys_bind (λ s p g r, p = posts ∧ g = fetches ∧
    match r with Ok (inr cfg) => in_use s cfg | Ok (inl _) => True | _ => False end)).
  - apply (obeys_catch (λ s p g r, p = posts ∧ g = fetches ∧ match r with Ok cfg => in_use s cfg | Err _ => True | _ => False end)).
    + split; [done|]. split; [done|]. split; [split; [done|by apply unusable_needs_key]|]. cbn [spend]. intros i x s' [_ Hk'].
      destruct x as [|[resp|]]; [by split|..|by split]. destruct (400 <=? status resp); [by split|].
      cbn. split; [done|]. split; [done|]. split; [done|].
      destruct (parse_odoh_config _ _ _) as [cfg|e| |] eqn:E; [by eapply parsed_config_in_use|done|..];
        unfold parse_odoh_config in E; destruct (parse_configs (body resp)) as [[|c l]|]; try done; by destruct (identifier c).
    + by intros s' p g a (-> & -> & Ha).
    + by intros s' p g e (-> & -> & _).
    + by intros s' p g (_ & _ & []).
    + by intros s' p g (_ & _ & []).
  - intros s' p g [e|cfg] Hk' (-> & -> & Hr); cbn.
    + split; [done|]. split; [done|]. by split; [lia|].
    + split; [apply Hr|]. split; [done|]. by split; [lia|].
  - by intros s' p g e (_ & _ & []).
  - by intros s' p g (_ & _ & []).
  - by intros s' p g (_ & _ & []).
Qed.
Lemma obeys_get posts fetches s : key_bounded s →
  obeys posts (S fetches) (got_config posts (S fetches)) (get_config (target_host q)) s.
Proof.
  intros Hk. unfold get_config. cbn [obeys]. destruct (usable s) as [r|] eqn:Hu; [by apply obeys_settled|].
  split; [done|]. split; [done|]. split; [by apply unusable_needs_key|]. cbn [spend]. intros i x s' [_ Hk']. cbn [obeys].
  destruct (usable s') as [r|] eqn:Hu'; [by apply obeys_settled|]. by apply obeys_refresh.
Qed.

(** An answer is what one sealed query and a response to it open to. *)
Definition opened (v : bytes) : Prop :=
  ∃ cfg k sealed secret m, encrypt_query (wire q) (contents cfg) k = Some (sealed, secret) ∧
    decrypt_response (wire q) m secret = Some v.
Definition attempted (posts fetches : nat) (s : OdohState) (p g : nat) (r : outcome attempt) : Prop :=
  (posts ≤ S p)%nat ∧ (fetches ≤ S g)%nat ∧
  match r with Ok (Answered v) => opened v | Ok _ => True | _ => False end.
Lemma open_response_opened cfg k sealed secret resp v :
  encrypt_query (wire q) (contents cfg) k = Some (sealed, secret) → open_response q secret resp = Answered v → opened v.
Proof.
  intros He. unfold open_response. destruct (is_success _); [|by destruct (status resp =? 401)].
  destruct (parse_message (body resp)) as [m|]; [|done].
  destruct (decrypt_response (wire q) m secret) as [v'|] eqn:Hd; [|done]. intros [= <-]. by exists cfg, k, sealed, secret, m.
Qed.
Lemma obeys_attempt posts fetches s : key_bounded s →
  obeys (S posts) (S fetches) (attempted (S posts) (S fetches)) (attempt_query q) s.
Proof.
  intros Hk. unfold attempt_query.
  apply (obeys_bind (λ s p g r, p = S posts ∧ (fetches ≤ g)%nat ∧
    match r with Ok (inr cfg) => in_use s cfg | Ok (inl _) => True | _ => False end)).
  - apply (obeys_catch (got_config (S posts) (S fetches))); [by apply obeys_get|..].
    + intros s' p g a (-> & Hg & Ha). split_and!; [done|lia|done..].
    + intros s' p g e (-> & Hg & _). by split_and!; [|lia|].
    + by intros s' p g (_ & _ & []).
    + by intros s' p g (_ & _ & []).
  - intros s' p g [e|cfg] Hk' (-> & Hg & Hc); cbn [obeys].
    { split; [done|]. by split_and!; [lia|lia|]. }
    destruct (encrypt_query (wire q) (contents cfg) (seed s')) as [[sealed secret]|] eqn:He.
    2: { split; [done|]. by split_and!; [lia|lia|]. }
    destruct (compose sealed) as [body'|] eqn:Hb.
    2: { split; [done|]. by split_and!; [lia|lia|]. }
    cbn [obeys spend]. split; [done|]. split; [done|]. split.
    { split; [done|]. split; [done|]. split; [done|]. by exists cfg, (seed s'), sealed, secret. }
    intros i x s2 [_ Hk2]. destruct x as [|[resp|]].
    + split; [done|]. by split_and!; [lia|lia|].
    + split; [done|]. split_and!; [lia|lia|].
      destruct (open_response q secret resp) as [v| |e] eqn:E; [|done..]. by eapply open_response_opened.
    + split; [done|]. by split_and!; [lia|lia|].
  - by intros s' p g e (_ & _ & []).
  - by intros s' p g (_ & _ & []).
  - by intros s' p g (_ & _ & []).
Qed.
Lemma obeys_less {A} (Q : OdohState → outcome A → Prop) (t : async A) : ∀ p g p' g' s,
  (p ≤ p')%nat → (g ≤ g')%nat → obeys p g (λ s _ _, Q s) t s → obeys p' g' (λ s _ _, Q s) t s.
Proof.
  induction t as [r|k IH|s' k IH|r rs k IH]; intros p g p' g' s Hp Hg Ht; cbn in *.
  - done.
  - by apply (IH _ p g).
  - by apply (IH p g).
  - destruct Ht as (-> & Hk & Hm & Ht). split_and!; [done|done|done|].
    destruct r; cbn [spend] in *.
    + intros i x s' Hs'. by apply (IH i x p g); [..|apply Ht].
    + destruct g as [|g]; [by destruct p|]. destruct g' as [|g']; [lia|].
      assert (Ht' : ∀ i x s', later s s' → obeys p g (λ s _ _, Q s) (k i x) s') by by destruct p.
      destruct p'; intros i x s' Hs'; (apply (IH i x p g); [lia|lia|by apply Ht']).
    + destruct p as [|p]; [done|]. destruct p' as [|p']; [lia|].
      intros i x s' Hs'. by apply (IH i x p g); [lia|lia|apply Ht].
Qed.

(** C12: what an oblivious query does. The relay is told only the target's host and path and the query
    sealed for a key of the target that has not expired and will within seven days, at most twice. The
    target is asked only for its keys, at most twice, and only when no fresh key is at hand and no fetch
    failed within the last minute, looked at again when it is this query's turn to refresh.
    The query ends with what a response opens to or with an error, whatever the relay and the target
    reply and whatever other queries do to the cache. *)
Theorem query_through_relay_spec (s : OdohState) : key_bounded s →
  obeys 2 2 (λ _ _ _ r, match r with Ok v => opened v | Err _ => True | _ => False end) (query_through_relay q) s.
Proof.
  intros Hk. unfold query_through_relay.
  assert (Hresult : ∀ s p g a, key_bounded s → match a with Answered v => opened v | _ => True end →
    obeys p g (λ _ _ _ r, match r with Ok v => opened v | Err _ => True | _ => False end) (into_result a) s).
  { intros s' p g [v| |e] Hk' Ha; by split. }
  apply (obeys_bind (attempted 2 2)); [by apply obeys_attempt| |by intros s' p g e (_ & _ & [])
    |by intros s' p g (_ & _ & [])|by intros s' p g (_ & _ & [])].
  intros s' p g [v| |e] Hk' (Hp & Hg & Ha); [by apply Hresult| |by apply Hresult].
  cbn [bind modify ret obeys]. apply (obeys_less (λ _ r, match r with Ok v => opened v | Err _ => True | _ => False end) _ 1 1); [lia|lia|].
  apply (obeys_bind (attempted 1 1)); [by apply obeys_attempt| |by intros s2 p2 g2 e (_ & _ & [])
    |by intros s2 p2 g2 (_ & _ & [])|by intros s2 p2 g2 (_ & _ & [])].
  intros s2 p2 g2 a Hk2 (_ & _ & Ha2). by apply Hresult; [|destruct a].
Qed.
(** Every run whose other tasks let time pass and keep the keys bounded ends as [Q] says. *)
Lemma obeys_run {A} (Q : OdohState → nat → nat → outcome A → Prop) (t : async A) (env : nat → list odoh_request → moment) :
  (∀ n qs s, key_bounded s → later s (resume (env n qs) s)) → ∀ p g n s, obeys p g Q t s →
  ∃ p' g', Q (snd (run t env n s)) p' g' (fst (run t env n s)).
Proof.
  intros He. induction t as [r|k IH|s' k IH|r rs k IH]; intros p g n s Ht; cbn in *.
  - exists p, g. apply Ht.
  - by eapply IH.
  - by eapply IH.
  - destruct Ht as (-> & Hk & _ & Ht). destruct (spend r p g) as [[p' g']|]; [|done].
    eapply IH, Ht, He, Hk.
Qed.
End obeys.
End odoh.

(** * An example target *)

(** Keys are numbers, sealing is tagging with the key. *)
#[local] Instance sample_odoh : OdohLib := {|
  Contents := Z; Secret := Z; Sealed := bytes;
  parse_configs := λ body, Some body;
  identifier := λ k, Some [k];
  encrypt_query := λ w k _, Some (k :: w, k);
  compose := Some;
  parse_message := Some;
  decrypt_response := λ _ m k, match m with x :: v => if x =? k then Some v else None | [] => None end
|}.
Definition cold : OdohState := MkOdohState None None 0 0.
Definition sample_query : OdohRequest :=
  MkOdohRequest [1; 2; 3] (str "https://relay.example/relay") (str "target.example") (str "/dns-query").
(** The target publishes the key [5], and the relay answers with the query itself, sealed. *)
Definition honest (n : nat) (qs : list odoh_request) : @moment OdohState odoh_reply :=
  {| pick := 0; resume := λ s, s;
     answer := match qs with
               | GetConfigs _ :: _ => Http (Some (MkReply 200 (Some (str "public, max-age=86400")) [5]))
               | PostRelay _ _ _ body :: _ => Http (Some (MkReply 200 None body))
               | _ => Acquired
               end |}.
Lemma query_through_relay_spec_witness : key_bounded cold ∧
  fst (run (query_through_relay sample_query) honest 0 cold) = Ok [1; 2; 3] ∧ opened sample_query [1; 2; 3].
Proof.
  assert (Hk : key_bounded cold) by exact I. split; [exact Hk|].
  assert (Hr : fst (run (query_through_relay sample_query) honest 0 cold) = Ok [1; 2; 3]) by (vm_compute; reflexivity).
  split; [exact Hr|].
  assert (He : ∀ n qs s, key_bounded s → later s (resume (honest n qs) s)).
  { intros n qs s Hs. split; [apply Z.le_refl|exact Hs]. }
  destruct (obeys_run sample_query _ _ honest He _ _ 0%nat cold (query_through_relay_spec sample_query cold Hk))
    as (p & g & Ho).
  rewrite Hr in Ho. exact Ho.
Defined.

(** A relay that answers every query with 401, as one does that wants its users to log in, makes each query
    fetch the target's keys, though a fresh key is at hand: the successful fetches are not limited. *)
Definition locked (n : nat) (qs : list odoh_request) : @moment OdohState odoh_reply :=
  {| pick := 0; resume := λ s, s;
     answer := match qs with
               | GetConfigs _ :: _ => Http (Some (MkReply 200 None [Z.of_nat n]))
               | PostRelay _ _ _ _ :: _ => Http (Some (MkReply 401 None []))
               | _ => Acquired
               end |}.
Example unauthorized_refetches :
  let '(r1, s1) := run (query_through_relay sample_query) locked 10 cold in
  let '(r2, s2) := run (query_through_relay sample_query) locked 20 s1 in
  let '(r3, s3) := run (query_through_relay sample_query) locked 30 s2 in
  is_err r1 = true ∧ is_err r2 = true ∧ is_err r3 = true ∧
  map (option_map key_id) [current s1; current s2; current s3] = [Some [14]; Some [22]; Some [32]].
Proof. vm_compute. split_and!; reflexivity. Qed.
