(* ===== verification/Relay.v ===== *)
(** [src/src/relay.rs]: the relay of oblivious DNS, a program of its own: it checks a request, posts its
    body unread to the target the request names, and counts. Routing, the web framework's own limit
    on bodies, and sockets are left out; the state is the counters. *)
From S2P Require Import Prelude Net Text Forward Question Packet Local Async.
From S2P Require Import Odoh.
Open Scope fut_scope.

Definition MAX_BODY_BYTES : Z := 4 * 1024.
Definition MAX_TARGET_RESPONSE_BYTES : Z := 8 * 1024.
Definition ODOH_CONTENT_TYPE : bytes := str "application/oblivious-dns-message".

(** The request, its parameters decoded; [None] is a missing header or one that is not text. *)
Record RelayRequest := MkRelayRequest {
  targethost : bytes;
  targetpath : bytes;
  content_type : option bytes;
  body : bytes
}.
Record RelayResponse := MkRelayResponse { code : Z; response_type : bytes; response_body : bytes }.
Record RelayState := MkRelay { total_requests : Z; forwarded_ok : Z; forwarded_err : Z; rejected_bad_request : Z }.
Definition relay_new : RelayState := MkRelay 0 0 0 0.
(** [fetch_add] wraps. *)
Definition add_total (s : RelayState) : RelayState :=
  MkRelay (as_u64 (total_requests s + 1)) (forwarded_ok s) (forwarded_err s) (rejected_bad_request s).
Definition add_ok (s : RelayState) : RelayState :=
  MkRelay (total_requests s) (as_u64 (forwarded_ok s + 1)) (forwarded_err s) (rejected_bad_request s).
Definition add_err (s : RelayState) : RelayState :=
  MkRelay (total_requests s) (forwarded_ok s) (as_u64 (forwarded_err s + 1)) (rejected_bad_request s).
Definition add_rejected (s : RelayState) : RelayState :=
  MkRelay (total_requests s) (forwarded_ok s) (forwarded_err s) (as_u64 (rejected_bad_request s + 1)).

(** A post of the content type of oblivious messages; the reply is a status and a body, or [None] when the
    target cannot be reached or takes more than five seconds. *)
Inductive relay_request := PostTarget (url body : bytes).
Definition relay_reply := option (Z * bytes).
Abbreviation async A := (fut RelayState relay_request relay_reply A).

Definition content_type_matches (header : option bytes) (expected : bytes) : bool :=
  match header with
  | Some ct => bool_decide (trim (before 59 ct) = expected)
  | None => false
  end.
Definition is_host_byte (c : Z) : bool :=
  is_ascii_digit c || (97 <=? c) && (c <=? 122) || (65 <=? c) && (c <=? 90) || (c =? 46) || (c =? 45).
Definition is_valid_hostname (h : bytes) : bool :=
  if bool_decide (h = []) || (253 <? len h) || negb (contains 46 h) then false
  else if starts_with (str ".") h || starts_with (str "-") h || ends_with (str ".") h || ends_with (str "-") h
  then false
  else forallb is_host_byte h.

Definition refuse (status : Z) (text : string) : RelayResponse :=
  MkRelayResponse status (str "text/plain; charset=utf-8") (str text).
Definition forward_to_target (url body : bytes) : async (Z * bytes) :=
  Await (PostTarget url body) [] (λ _ r,
    match r with
    | None => fail (Message "timed out talking to target")
    | Some (status, resp_body) =>
        if MAX_TARGET_RESPONSE_BYTES <? len resp_body then fail (Message "target response exceeds cap")
        else ret (status, resp_body)
    end).
Definition target_url (req : RelayRequest) : bytes := str "https://" ++ targethost req ++ targetpath req.
Definition handle_relay (req : RelayRequest) : async RelayResponse :=
  let* _ := modify add_total in
  if negb (content_type_matches (content_type req) ODOH_CONTENT_TYPE) then
    let* _ := modify add_rejected in ret (refuse 415 "expected application/oblivious-dns-message")
  else if MAX_BODY_BYTES <? len (body req) then
    let* _ := modify add_rejected in ret (refuse 413 "body exceeds 4 KiB cap")
  else if negb (is_valid_hostname (targethost req)) || negb (starts_with (str "/") (targetpath req)) then
    let* _ := modify add_rejected in ret (refuse 400 "invalid targethost or targetpath")
  else
    let* r := catch (forward_to_target (target_url req) (body req)) in
    match r with
    | inr (status, resp_body) =>
        let* _ := modify add_ok in ret (MkRelayResponse status ODOH_CONTENT_TYPE resp_body)
    | inl _ => let* _ := modify add_err in ret (refuse 502 "target unreachable")
    end.
(** The text of the health page: the counters, each on a line. *)
Definition health_line (label : string) (v : Z) : bytes := str label ++ show_digits 20 v ++ [10].
Definition handle_health (s : RelayState) : bytes :=
  str "ok" ++ [10] ++ health_line "total " (total_requests s) ++ health_line "forwarded_ok " (forwarded_ok s) ++
  health_line "forwarded_err " (forwarded_err s) ++ health_line "rejected_bad_request " (rejected_bad_request s).

(** * What the relay does *)

(** The authority of an https URL: what stands between the two slashes and the path, query or fragment. *)
Fixpoint until_path (s : bytes) : bytes :=
  match s with
  | [] => []
  | c :: s => if (c =? 47) || (c =? 63) || (c =? 35) then [] else c :: until_path s
  end.
Definition authority (url : bytes) : option bytes := option_map until_path (strip_prefix (str "https://") url).

Definition forwardable (req : RelayRequest) : Prop :=
  content_type_matches (content_type req) ODOH_CONTENT_TYPE = true ∧ len (body req) ≤ MAX_BODY_BYTES ∧
  is_valid_hostname (targethost req) = true ∧ starts_with (str "/") (targetpath req) = true.
#[export] Instance forwardable_dec req : Decision (forwardable req).
Proof. unfold forwardable. apply _. Defined.

Lemma valid_hostname_bytes h : is_valid_hostname h = true →
  Forall (λ c, is_host_byte c = true) h ∧ h ≠ [] ∧ len h ≤ 253 ∧ 46 ∈ h.
Proof.
  unfold is_valid_hostname. destruct (bool_decide (h = []) || _ || _) eqn:E1; [done|]. destruct (starts_with _ h || _ || _ || _); [done|].
  intros Hall. apply orb_false_iff in E1 as [[E1 El]%orb_false_iff Ed]. apply bool_decide_eq_false in E1.
  apply Z.ltb_ge in El. apply negb_false_iff, Domains.contains_elem in Ed. split_and!; [|done|done|done].
  apply Forall_forall. intros c Hc. rewrite forallb_forall in Hall. by apply Hall, list_elem_of_In.
Qed.
Lemma until_path_host h rest : Forall (λ c, is_host_byte c = true) h → starts_with (str "/") rest = true →
  until_path (h ++ rest) = h.
Proof.
  intros Hh Hr. induction Hh as [|c h Hc _ IH]; cbn [app until_path].
  - unfold starts_with in Hr. destruct (strip_prefix (str "/") rest) as [r|] eqn:E; [|done].
    apply strip_prefix_spec in E. by rewrite E.
  - assert (Hn : (c =? 47) || (c =? 63) || (c =? 35) = false).
    { unfold is_host_byte, is_ascii_digit in Hc. bool_prop; lia. }
    by rewrite Hn, IH.
Qed.

(** C30: the relay passes messages on unread and to nobody but the host named. A request is refused with 415, 413
    or 400, counted once and sent nowhere, unless it has the type of oblivious messages, at most 4096 bytes,
    a valid host name and a path. Otherwise the body, as it came, is posted once, to an https URL whose authority is
    exactly the host named, which holds letters, digits, dots and dashes only: no user, no port and no part
    of a path; the client gets the target's status and body if that has at most 8192 bytes, else 502, and the
    request is counted once. The relay always replies. *)
Theorem relay_unread (req : RelayRequest) (env : nat → list relay_request → @moment RelayState relay_reply) (n : nat)
    (s : RelayState) :
  let '(r, s') := run (handle_relay req) env n s in
  if decide (forwardable req) then
    let m := env n [PostTarget (target_url req) (body req)] in
    authority (target_url req) = Some (targethost req) ∧
    Forall (λ c, is_host_byte c = true) (targethost req) ∧ len (targethost req) ≤ 253 ∧
    match answer m with
    | Some (status, resp) =>
        if len resp <=? MAX_TARGET_RESPONSE_BYTES
        then r = Ok (MkRelayResponse status ODOH_CONTENT_TYPE resp) ∧ s' = add_ok (resume m (add_total s))
        else r = Ok (refuse 502 "target unreachable") ∧ s' = add_err (resume m (add_total s))
    | None => r = Ok (refuse 502 "target unreachable") ∧ s' = add_err (resume m (add_total s))
    end
  else
    (∃ resp, r = Ok resp ∧ (code resp = 415 ∨ code resp = 413 ∨ code resp = 400)) ∧ s' = add_rejected (add_total s).
Proof.
  unfold handle_relay. destruct (decide (forwardable req)) as [(Ht & Hb & Hh & Hp)|Hn].
  - assert (Hlen : MAX_BODY_BYTES <? len (body req) = false) by (apply Z.ltb_ge; lia).
    rewrite Ht, Hlen, Hh, Hp. cbn [negb orb bind modify ret run].
    destruct (valid_hostname_bytes _ Hh) as (Hall & _ & Hl & _).
    assert (Ha : authority (target_url req) = Some (targethost req)).
    { unfold authority, target_url. assert (E : strip_prefix (str "https://") (str "https://" ++ targethost req ++ targetpath req)
        = Some (targethost req ++ targetpath req)) by (by apply strip_prefix_spec).
      rewrite E. cbn. f_equal. by apply until_path_host. }
    unfold forward_to_target. cbn [catch bind run].
    destruct (answer (env n [PostTarget (target_url req) (body req)])) as [[status resp]|] eqn:E; [|by split_and!].
    rewrite Z.leb_antisym. destruct (MAX_TARGET_RESPONSE_BYTES <? len resp); by split_and!.
  - destruct (content_type_matches _ _) eqn:Ht; cbn [negb bind modify ret run].
    2: { split; [|done]. eexists. split; [done|]. by left. }
    destruct (MAX_BODY_BYTES <? len (body req)) eqn:Hb; cbn [bind modify ret run].
    { split; [|done]. eexists. split; [done|]. by right; left. }
    destruct (is_valid_hostname (targethost req)) eqn:Hh, (starts_with (str "/") (targetpath req)) eqn:Hp;
      cbn [negb orb bind modify ret run]; [|split; [eexists; split; [done|by right; right]|done]..].
    exfalso. apply Hn. apply Z.ltb_ge in Hb. by split_and!.
Qed.

(** ** Examples *)

(** The attacks named in the source are refused, but addresses pass for host names: those of the relay's own
    machine and network, and of a cloud machine's metadata service. *)
Example host_names :
  map is_valid_hostname (map str ["odoh.example.com"; "example.com@internal.host"; "evil.com/../admin"; "localhost"]%string)
    = [true; false; false; false] ∧
  map is_valid_hostname (map str ["127.0.0.1"; "10.0.0.1"; "169.254.169.254"]%string) = [true; true; true].
Proof. vm_compute. split; reflexivity. Qed.

(** * Client, relay and target together *)

Section end_to_end.
Context `{Odoh.OdohLib}.
(** The target's key, as published; how it answers DNS, and sealed bodies. *)
Context (key : Odoh.Contents) (published : bytes) (dns serve : bytes → bytes).

(** The relay's side: its target is asked at one URL. *)
Definition target_env (url : bytes) (n : nat) (qs : list relay_request) : @moment RelayState relay_reply :=
  {| pick := 0; resume := λ s, s;
     answer := match qs with
               | PostTarget u b :: _ => if bool_decide (u = url) then Some (200, serve b) else None
               | [] => None
               end |}.
Definition relayed (url host path b : bytes) : option Odoh.HttpReply :=
  match fst (run (handle_relay (MkRelayRequest host path (Some ODOH_CONTENT_TYPE) b)) (target_env url) 0 relay_new) with
  | Ok resp => Some (Odoh.MkReply (code resp) None (response_body resp))
  | _ => None
  end.
(** The client's side: keys come from the target, everything else goes through the relay. *)
Definition client_env (url : bytes) (n : nat) (qs : list Odoh.odoh_request) : @moment Odoh.OdohState Odoh.odoh_reply :=
  {| pick := 0; resume := λ s, s;
     answer := match qs with
               | Odoh.GetConfigs _ :: _ => Odoh.Http (Some (Odoh.MkReply 200 None published))
               | Odoh.PostRelay _ host path b :: _ => Odoh.Http (relayed url host path b)
               | _ => Odoh.Acquired
               end |}.

Lemma relayed_served host path b :
  is_valid_hostname host = true → starts_with (str "/") path = true → len b ≤ MAX_BODY_BYTES →
  len (serve b) ≤ MAX_TARGET_RESPONSE_BYTES →
  relayed (str "https://" ++ host ++ path) host path b = Some (Odoh.MkReply 200 None (serve b)).
Proof.
  intros Hh Hp Hb Hs. unfold relayed, handle_relay. cbn [content_type body targethost targetpath].
  assert (Ht : content_type_matches (Some ODOH_CONTENT_TYPE) ODOH_CONTENT_TYPE = true) by (vm_compute; reflexivity).
  rewrite Ht, Hh, Hp. replace (MAX_BODY_BYTES <? len b) with false by (symmetry; apply Z.ltb_ge; lia).
  cbn [negb orb bind modify ret run]. unfold forward_to_target, target_url. cbn [targethost targetpath catch bind run].
  unfold target_env at 1. cbn [answer]. rewrite bool_decide_eq_true_2 by done.
  replace (MAX_TARGET_RESPONSE_BYTES <? len (serve b)) with false by (symmetry; apply Z.ltb_ge; lia). reflexivity.
Qed.

(** C31: an oblivious query comes back answered. A client that knows no key yet fetches the target's, seals its
    query, and gets through the relay, which opens nothing, the answer of the target to that query. What the
    crate does is assumed: the target opens what was sealed for its key, and its answer opens for the one who
    asked; the query fits the relay, and so does the answer. *)
Theorem oblivious_roundtrip (q : Odoh.OdohRequest) (s : Odoh.OdohState) (n : nat) (key_id : bytes)
    (sealed : Odoh.Sealed) (secret : Odoh.Secret) (b : bytes) :
  Odoh.current s = None → Odoh.last_failure s = None →
  Odoh.parse_configs published = Some [key] → Odoh.identifier key = Some key_id →
  Odoh.encrypt_query (Odoh.wire q) key (Odoh.seed s) = Some (sealed, secret) → Odoh.compose sealed = Some b →
  (∃ m, Odoh.parse_message (serve b) = Some m ∧
        Odoh.decrypt_response (Odoh.wire q) m secret = Some (dns (Odoh.wire q))) →
  is_valid_hostname (Odoh.target_host q) = true → starts_with (str "/") (Odoh.target_path q) = true →
  len b ≤ MAX_BODY_BYTES → len (serve b) ≤ MAX_TARGET_RESPONSE_BYTES →
  fst (run (Odoh.query_through_relay q)
         (client_env (str "https://" ++ Odoh.target_host q ++ Odoh.target_path q)) n s) = Ok (dns (Odoh.wire q)).
Proof.
  intros Hc Hf Hp Hid He Hb (m & Hm & Hd) Hh Hpath Hlen Hs.
  pose proof (relayed_served (Odoh.target_host q) (Odoh.target_path q) b Hh Hpath Hlen Hs) as Hr.
  unfold Odoh.query_through_relay, Odoh.attempt_query, Odoh.get_config.
  assert (Hu : Odoh.usable s = None) by (unfold Odoh.usable, Odoh.fresh_config, Odoh.backoff_error; by rewrite Hc, Hf).
  cbn [bind catch run]. rewrite Hu. cbn [bind catch run client_env resume]. rewrite Hu.
  unfold Odoh.refresh_config, Odoh.fetch_odoh_config. cbn [bind catch run client_env resume answer Odoh.status].
  change (400 <=? 200) with false. cbn [bind catch run]. unfold Odoh.parse_odoh_config. cbn [Odoh.body].
  rewrite Hp, Hid. cbn [bind catch run modify ret]. unfold Odoh.store_config, Odoh.set_failure, Odoh.set_current.
  cbn [Odoh.contents Odoh.seed Odoh.current Odoh.last_failure Odoh.now]. rewrite He, Hb. cbn [bind catch run client_env answer resume].
  rewrite Hr. unfold Odoh.open_response. cbn [Odoh.status Odoh.body]. change (Odoh.is_success 200) with true.
  cbn iota. rewrite Hm, Hd. reflexivity.
Qed.
End end_to_end.

(** The target of the sample library answers a query with itself reversed. *)
#[local] Existing Instance Odoh.sample_odoh.
Definition sample_serve (b : bytes) : bytes := match b with k :: w => k :: reverse w | [] => [] end.
Lemma oblivious_roundtrip_witness :
  fst (run (Odoh.query_through_relay Odoh.sample_query)
         (client_env [5] sample_serve (str "https://target.example/dns-query")) 0 Odoh.cold) = Ok [3; 2; 1].
Proof.
  apply (@oblivious_roundtrip Odoh.sample_odoh 5 [5] reverse sample_serve Odoh.sample_query Odoh.cold 0 [5] [5; 1; 2; 3] 5 [5; 1; 2; 3]);
    try reflexivity; [exists [5; 3; 2; 1]; split; reflexivity|vm_compute; discriminate..].
Defined.
